(* ===== verification/_CoqProject ===== *)
-Q . S2P
Prelude.v
HostIO.v
Delta.v
Aof.v
RustStr.v
Runtime.v
RuntimeSpec.v
Nccl.v
Device.v
Ring.v
Router.v
Instrument.v
Replay.v
ReplayEngine.v
ReplaySpec.v
ReplayRun.v
ReplayCheck.v
ReplayRecord.v
Kimi.v
KimiDevice.v
KimiSpec.v
KimiPages.v
KimiCheckpoint.v
KimiRestore.v
Ptx.v
PtxSem.v
PtxFlow.v
PtxPredicates.v
PtxNames.v
PtxBlocks.v
PtxReach.v
Sass.v
Encoding.v
EncodingSpec.v
Disassembly.v
Regalloc.v
Scheduler.v
Cubin.v
CubinSpec.v
CubinParser.v
CubinParserSpec.v
Bitnet.v
Checkpoint.v
CheckpointSpec.v
CheckpointThreads.v
CheckpointPtx.v
CheckpointPtxSpec.v
CheckpointRestore.v
CheckpointRestoreSpec.v
CompileCheckpoint.v
CompileCheckpointSpec.v
StateRecovery.v
ReplayFfi.v
Tmatmul.v
TmatmulAsm.v
TmatmulText.v
TmatmulRun.v
TmatmulGen.v
Pipeline.v
PipelineSpec.v
