(* ===== verification/Prelude.v ===== *)
(** * A verification development for hetGPU / Concordia

    The repository runs CUDA programs on other hardware and keeps them alive.
    Five parts of it carry logic of their own that is not a call into a vendor
    library, and this development models them, function by function:

    - the _Concordia_ fault-tolerance layer of [zluda/src/impl/]: regions of
      host memory are checkpointed as page deltas into an append-only log, from
      which they can be rebuilt after a crash, a persistent GPU worker takes
      tasks from a ring shared with the host, a broken NCCL ring is planned
      anew, and two managers build on them for model servers: Kimi checkpoints
      device regions, BitNet routes kernels to a matrix unit;
    - _replay and checkpoint_ of CUDA programs ([replay.rs] and [checkpoint.rs] of
      [zluda/src/impl/]): launches and memory are recorded in a trace and run
      again from it, and running kernels are saved, with PTX text that can resume
      at an instruction;
    - the _PTX compiler_'s own passes ([ptx/src/pass/]) on names, predicates,
      basic blocks and globals, before code is emitted through LLVM;
    - the _SASS assembler_ of [nvidia_sass/] behind the [ptxas] command: PTX text
      is parsed, registers are allocated, control codes scheduled, instructions
      encoded and validated, and the result written as an ELF file, which the
      CUBIN parser of [ptx/src/sass/] reads;
    - the _TMatmul backend_: a code generator with its own register allocation
      ([ptx/src/pass/emit_tmatmul_asm.rs]) and the interpreter that runs its
      assembly on host memory ([zluda/src/impl/tmatmul_interpreter.rs]).

    ** Files, in dependency order

    - [Prelude] (this file): results with panics ([outcome]), state with errors
      ([stm]), folds that stop at an error, integers at their width, bit fields
      of a word, little-endian bytes, slices, decimal printing.
    - [HostIO]: the fragment of [std::fs] the runtime uses, as a [world] of files
      with injected open, write and read faults.
    - [Delta]: [concordia_delta.rs] 1-217 and the replay over a buffer.
      [DeltaCheckpointState] is a record of regions in registration order with
      the next id and epoch; [create_host_delta] compares a buffer with its
      shadow page by page, [create_bitmap_delta] reads an allocator bitmap.
    - [Aof]: [concordia_delta.rs] 218-455, the in-memory [AofLog] and the on-disk
      [AofDiskLog]: record format, checksum, [append_record], [read_committed].
    - [RustStr]: the string functions of the standard library the code calls,
      on ASCII strings.
    - [Runtime]: [concordia_runtime.rs], [ConcordiaRuntime], the process-wide
      runtime and its C entry points, and the rank-scoped log paths.
    - [RuntimeSpec]: the abstract specification (regions with their committed
      contents) and the refinement of the runtime to it.
    - [Nccl]: [nccl_recovery.rs], the recovery state machine and ring planner.
    - [Device]: the device functions of [concordia_gpu.rs] (the CUDA source of the
      persistent kernel): element operations, page scan, byte copies.
    - [Ring]: the task ring of [concordia_gpu.rs], host and worker sides as steps of
      one transition system, with the queue it refines.
    - [Router]: [persistent_router.rs], which launches become ring tasks.
    - [Instrument]: [concordia_instrument.rs], live state in PTX text and the
      resume records.
    - [Ptx]: the syntax trees of [ptx_parser/src/ast.rs] and [pass/mod.rs],
      statements, identifier tables.
    - [PtxSem]: executions of a function body over an abstract machine (the class
      [Machine] gives instructions their meaning), and the simulation diagram.
    - [PtxFlow]: the passes [normalize_predicates2], [normalize_basic_blocks],
      [remove_unreachable_basic_blocks], [hoist_globals],
      [resolve_function_pointers], [replace_known_functions].
    - [PtxPredicates], [PtxNames], [PtxBlocks], [PtxReach]: their theorems;
      [PtxNames] also models [normalize_identifiers] and the start of
      [to_llvm_module].
    - [Sass]: [types.rs] and [isel/], the instructions and their selectors.
    - [Encoding], [EncodingSpec]: [encoding/] and [roundtrip.rs];
      [Disassembly]: a disassembler written from the field positions, not from
      the encoders, to state what encoding keeps.
    - [Regalloc]: [regalloc/], live ranges and linear scan.
    - [Scheduler]: [scheduler/mod.rs].
    - [Cubin], [CubinSpec]: [cubin_builder/mod.rs].
    - [CubinParser], [CubinParserSpec]: [cubin_parser.rs] over the [object] crate's
      ELF reader, a class whose contract ([ElfReaderSpec]) says what is read from
      a well-formed file.
    - [Tmatmul], [TmatmulAsm]: the interpreter and the code generator;
      [TmatmulText], [TmatmulRun], [TmatmulGen]: the text between them, what an
      execution computes, and the correctness of generated code.
    - [Pipeline], [PipelineSpec]: [pipeline.rs] and [ptxas/src/main.rs].
    - [Replay], [ReplayEngine]: [replay.rs], recording (trace, tracker, session,
      process state) and the engine with its debug session; [ReplaySpec]
      (snapshots), [ReplayRecord] (recordings), [ReplayRun] (replays),
      [ReplayCheck] (checksums): their theorems.  [ReplayFfi]: [replay_ffi.rs], the
      C functions over engines by handle.
    - [Kimi], [KimiDevice]: [kimi_concordia.rs], the manager with its manifest and
      the code on device memory, over a class [Gpu] of driver operations;
      [KimiSpec], [KimiPages] (the driver's contract [GpuLaws]), [KimiCheckpoint],
      [KimiRestore]: their theorems, and a device that keeps the contract.
    - [Bitnet]: [bitnet_disagg.rs], route decisions and the manifest cache.
    - [Checkpoint], [CheckpointThreads], [CheckpointPtx], [CheckpointRestore]:
      [checkpoint.rs], the manager, requests and kernel executions; initial
      states of threads; the PTX scanner and its instrumentation; restoring and
      the C interface.  [CheckpointSpec], [CheckpointPtxSpec],
      [CheckpointRestoreSpec]: their theorems.
    - [CompileCheckpoint], [CompileCheckpointSpec]: [ptx/src/checkpoint.rs] and
      [checkpoint_integration.rs], checkpoints of a compilation over a class
      [Toolchain] of parser and LLVM.
    - [StateRecovery]: [ptx/src/state_recovery.rs], a debugging session.

    ** How the code is represented

    A function that returns [Result] returns an [outcome], with [Panic] for a
    Rust panic; a method on [&mut self], and code that touches files, is a
    function in [stm] that returns the state also when it fails, so what a
    failed call leaves behind is visible.  Machine integers are [Z] with their
    wrap-around written out ([wrap], [wrapping_add], [shl] on 64 bits), as in a
    build without overflow checks; bytes are [Z] in range; lengths and indices
    of buffers are [nat].  Hash maps are finite maps where only lookups matter,
    and a class ([HashOrder], [SectionOrder], [RegisterOrder], [AllocationOrder],
    [MapOrder]) of arbitrary iteration orders where the code iterates one.  JSON
    is the [serde_json] crate's, a class for each kind of file ([TraceJson],
    [ManifestJson], [RouteJson], [CheckpointJson], [CompileJson], [RecoveryJson]), and theorems that need a file
    to parse back say so.  The time, the environment, the cargo features and the
    results of system calls are arguments; mutexes are not poisoned; a callback
    of the replay engine is a pure function.  Error messages are
    constructors, one per message, or the text itself.  Floating-point arithmetic is a class on bit
    patterns ([DeviceFloat], [HostFloat]); the breadth-first search of the
    [petgraph] crate is the class [Bfs].

    Recursion is structural everywhere except in two readers, where the fuel is
    the length of the input: every record of a log consumes at least a header
    ([Aof.read_loop]), and every attribute of an information section four bytes
    ([CubinParserSpec.nv_info_scans]), so the fuel is never exhausted.  The loops
    over all kernels of a replay have fuel too: they end within the number of
    kernels unless a callback refuses a step, in which case no fuel is enough
    ([ReplayRun.replay_all_terminates], [ReplayRun.refusing_callback_diverges]).
    Identifiers of the PTX passes are 32-bit counters, and the theorems on the
    passes assume that they do not run out.

    ** What the theorems show

    - Checkpoints: a delta is exactly the set of changed pages, and replaying it
      over the old contents gives the new ones; a refused call changes nothing;
      no operation on a reachable state panics.
    - The log: appended records read back; any byte prefix of a log yields the
      records that lie in it completely; an append is all or nothing for the
      reader; whatever the file holds, what is read is a well-formed prefix.
    - The runtime: for every sequence of calls, the log alone restores each
      region to its last accepted checkpoint; under write faults a checkpoint is
      applied up to a page boundary and other regions are untouched; distinct
      ranks write distinct files.
    - NCCL: in every reachable state the ring is the original one with the
      failed rank absent or replaced; recovery of a failure always completes.
    - The ring: host and worker together implement a bounded queue; before a
      shutdown and below 2^31 submitted tasks the worker runs every published
      task within seven steps each; the dirty-page scan of the worker finds
      exactly the changed pages.
    - Routing and instrumentation: a launch is routed exactly when its shape and
      buffers allow it; resume records read back, and the layout of live state
      keeps every value in its own aligned slot.
    - The PTX passes: each preserves the executions of every function over every
      machine; blocks are well formed afterwards, if bodies start with an ordinary
      statement and end in a terminator; exactly the statements of unreachable
      blocks disappear.
    - Encoding: the disassembler recovers an encoded instruction exactly, apart
      from what the encoder does not write (the data register of a selected store,
      the id of a selected barrier), and the validation pass accepts it.
    - Allocation: registers live together never share a physical one, and a
      straight-line program of virtual registers computes the same machine state
      afterwards, whatever the instructions do and whatever order the hash map
      is visited in.
    - Scheduling: only control codes change; a reader of a loaded register waits
      on the load's barrier; stalls cover short latencies.
    - Files: the headers of a CUBIN locate and name every kernel's text, which is
      the encoding of its instructions; the exit offsets are exact; the parser
      gives back the kernels, their code and attributes, and the constant banks.
    - TMatmul: printed assembly parses to the instructions it shows; the
      interpreter's loop over the elements is the data-parallel kernel and stays
      inside tracked allocations; code generated for at most eight values, run
      through its text, computes what the operations define.
    - The compiler: every input is either compiled or refused with an error that
      names its pass, never with a panic, and the executable disassembles to the
      source program, instruction by instruction, up to the two operands above.
    - Replay: a snapshot, applied to what the earlier ones built, gives the
      contents at its capture; a trace lists the launches whose end was reported;
      seeking to a kernel gives the memory that replaying up to it gives; a call
      on one handle leaves the other engines alone.
    - Kimi: the manifest mirrors the tracked allocations; a region that was
      checkpointed, then overwritten, is restored byte for byte.
    - BitNet: when a kernel goes to the matrix unit; a manifest is read once.
    - Kernel checkpoints: a requested checkpoint is saved at the next safe point
      with exactly the running kernels; instrumented text keeps the source, and
      its labels are the instruction numbers of the jump table, each before its
      own line; a thread state saved through the C interface is read back; the
      initial state of a block has each of its threads once, in warps of 32.
    - Compilation checkpoints: resuming repeats the outcome of a compilation;
      cleaning up keeps the newest.

    Some theorems state where the code falls short of its intent: a delta is
    lost when its append fails, a failed append hides later records, a corrupt
    length field panics the reader, a second failure readmits a replaced rank,
    selected stores drop their data register, allocation ignores physical
    registers in use, a barrier wait cancels a stall, a request without a kernel
    name joins all kernels of a file, the ring stalls when its counters wrap, the
    label of a function's first block is lost, the register count of a CUBIN is
    not read back, a truncated ELF header panics [is_cubin], an instruction on a
    ninth TMatmul register panics, TMatmul code that spills is wrong, validation
    of a replay compares checksums of different things, a write error at the end
    of a saved trace is not reported, stable keys of Kimi regions can collide, the
    labels of a second kernel do not match the jump table, a kernel checkpoint has
    no arguments, a loaded one is never resumed at its instruction, a compilation
    with checkpoints never succeeds, and numbers of breakpoints can collide.

    ** What is not modelled

    The vendor runtimes, the CUDA driver API on top of them, code emission
    through LLVM or MLIR and the disassembler are foreign code or thin bindings
    to it.  Of the PTX compiler, the text parser and the passes on operands
    (conversions, loads and stores of parameters) are left, and the translation
    of PTX to TMatmul operations; so is the DWARF parser.  Log lines on standard error carry no state.  Text is ASCII: [trim] and [is_whitespace] are those of
    ASCII strings.  The order of threads on the process-wide runtime is that of
    the mutex it is behind: calls are atomic. *)
From stdpp Require Import base numbers list strings gmap pretty.
From Stdlib Require Import ZArith Lia.

Declare Scope rust_scope.
Delimit Scope rust_scope with rust.

(** ** Outcomes of Rust code

    [Ok] and [Err] are the constructors of [Result]; [Panic] is a Rust panic
    (slice index out of range, [panic!], capacity overflow). *)
Inductive outcome (E A : Type) : Type :=
| Ok (a : A)
| Err (e : E)
| Panic.
Arguments Ok {E A} a.
Arguments Err {E A} e.
Arguments Panic {E A}.

#[global] Instance outcome_ret {E} : MRet (outcome E) := fun A a => Ok a.
#[global] Instance outcome_bind {E} : MBind (outcome E) :=
  fun A B k m => match m with Ok a => k a | Err e => Err e | Panic => Panic end.
#[global] Instance outcome_fmap {E} : FMap (outcome E) :=
  fun A B f m => match m with Ok a => Ok (f a) | Err e => Err e | Panic => Panic end.

Definition map_err {E F A} (f : E -> F) (m : outcome E A) : outcome F A :=
  match m with Ok a => Ok a | Err e => Err (f e) | Panic => Panic end.

#[global] Instance Ok_inj {E A} : Inj (=) (=) (@Ok E A).
Proof. by intros ?? [= ->]. Qed.

(** [Option::ok_or] *)
Definition ok_or {E A} (e : E) (o : option A) : outcome E A :=
  match o with Some a => Ok a | None => Err e end.

(** [slice\[i\]], [unwrap] and the like: a missing value is a panic. *)
Definition unwrap {E A} (o : option A) : outcome E A :=
  match o with Some a => Ok a | None => Panic end.

Definition is_ok {E A} (m : outcome E A) : bool :=
  match m with Ok _ => true | _ => false end.

(** A loop over a collection with early exit ([?] inside [for]). *)
Fixpoint foldM {E A B} (f : B -> A -> outcome E B) (b : B) (l : list A) : outcome E B :=
  match l with
  | [] => Ok b
  | a :: l => b' ← f b a; foldM f b' l
  end.

(** [iter().map(f).collect::<Result<Vec<_>, _>>()] *)
Fixpoint collectM {E A B} (f : A -> outcome E B) (l : list A) : outcome E (list B) :=
  match l with
  | [] => Ok []
  | a :: l => b ← f a; bs ← collectM f l; Ok (b :: bs)
  end.

Lemma foldM_app {E A B} (f : B -> A -> outcome E B) b l1 l2 :
  foldM f b (l1 ++ l2) = b' ← foldM f b l1; foldM f b' l2.
Proof.
  revert b. induction l1 as [|a l1 IH]; intros b; [done|]; simpl.
  destruct (f b a); simpl; [apply IH|done|done].
Qed.

Lemma foldM_Ok_ind {E A B} (f : B -> A -> outcome E B) (P : list A -> B -> Prop) b l b' :
  P [] b ->
  (forall done c a c', P done c -> a ∈ l -> f c a = Ok c' -> P (done ++ [a]) c') ->
  foldM f b l = Ok b' -> P l b'.
Proof.
  intros H0 Hstep. revert b'. induction l as [|a l IH] using rev_ind; intros b' Hf.
  - by simplify_eq/=.
  - rewrite foldM_app in Hf. destruct (foldM f b l) as [c| |] eqn:Hc; simplify_eq/=.
    destruct (f c a) as [c'| |] eqn:Ha; simplify_eq/=.
    eapply Hstep; [|set_solver|done].
    apply IH; [|done]. intros; eapply Hstep; eauto. set_solver.
Qed.

Lemma foldM_total {E A B} (f : B -> A -> outcome E B) (I : B -> Prop) b l :
  I b ->
  (forall c a, I c -> a ∈ l -> exists c', f c a = Ok c' /\ I c') ->
  exists b', foldM f b l = Ok b' /\ I b'.
Proof.
  revert b. induction l as [|a l IH]; intros b Hb Hf; simpl; [by eauto|].
  destruct (Hf b a) as (c & -> & Hc); [done|set_solver|]; simpl.
  apply IH; [done|]. intros; apply Hf; set_solver.
Qed.

(** A loop that always succeeds, with an invariant on the part already done. *)
Lemma foldM_inv {E A B} (f : B -> A -> outcome E B) (P : list A -> B -> Prop) b l :
  P [] b ->
  (forall done a rest c, l = done ++ a :: rest -> P done c ->
     exists c', f c a = Ok c' /\ P (done ++ [a]) c') ->
  exists b', foldM f b l = Ok b' /\ P l b'.
Proof.
  intros H0 Hstep. assert (forall l1 l2 c, l = l1 ++ l2 -> P l1 c ->
    exists b', foldM f c l2 = Ok b' /\ P l b') as H.
  { intros l1 l2. revert l1. induction l2 as [|a l2 IH]; intros l1 c Hl Hc; simpl.
    - rewrite app_nil_r in Hl. subst. eauto.
    - destruct (Hstep l1 a l2 c Hl Hc) as (c' & -> & Hc'). simpl.
      apply (IH (l1 ++ [a])); [by rewrite <- app_assoc|done]. }
  by apply (H [] l b).
Qed.

Lemma collectM_Ok_iff {E A B} (f : A -> outcome E B) l bs :
  collectM f l = Ok bs <-> Forall2 (fun a b => f a = Ok b) l bs.
Proof.
  revert bs. induction l as [|a l IH]; intros bs; simpl; split.
  - intros [= <-]. constructor.
  - by intros ->%Forall2_nil_inv_l.
  - destruct (f a) eqn:Ha; simpl; try done.
    destruct (collectM f l) eqn:Hl; simpl; try done.
    intros [= <-]. constructor; [done|]. by apply IH.
  - intros (b & bs' & Hb & Hbs & ->)%Forall2_cons_inv_l.
    apply IH in Hbs. by rewrite Hb; simpl; rewrite Hbs.
Qed.

Lemma collectM_length {E A B} (f : A -> outcome E B) l bs :
  collectM f l = Ok bs -> length bs = length l.
Proof. intros H%collectM_Ok_iff. symmetry. by eapply Forall2_length. Qed.

(** Code that never panics, by its shape. *)
Lemma bind_no_panic {E A B} (m : outcome E A) (k : A -> outcome E B) :
  m <> Panic -> (forall a, k a <> Panic) -> (m ≫= k) <> Panic.
Proof. intros Hm Hk. destruct m; simpl; [apply Hk|done|done]. Qed.

Lemma ok_or_no_panic {E A} (e : E) (o : option A) : ok_or e o <> Panic.
Proof. by destruct o. Qed.

Lemma foldM_no_panic {E A B} (f : B -> A -> outcome E B) b l :
  (forall c a, f c a <> Panic) -> foldM f b l <> Panic.
Proof.
  intros Hf. revert b. induction l as [|a l IH]; intros b; [done|]. by apply bind_no_panic.
Qed.

Lemma Ok_no_panic {E A} (a : A) : @Ok E A a <> Panic.
Proof. done. Qed.

Lemma Err_no_panic {E A} (e : E) : @Err E A e <> Panic.
Proof. done. Qed.

Create HintDb no_panic.
#[export] Hint Resolve bind_no_panic ok_or_no_panic foldM_no_panic Ok_no_panic Err_no_panic : no_panic.

(** ** State with errors: code that mutates [self] or the outside world *)
Definition stm (S E A : Type) : Type := S -> S * outcome E A.

#[global] Instance stm_ret {S E} : MRet (stm S E) := fun A a s => (s, Ok a).
#[global] Instance stm_bind {S E} : MBind (stm S E) :=
  fun A B k m s =>
    match m s with
    | (s', Ok a) => k a s'
    | (s', Err e) => (s', Err e)
    | (s', Panic) => (s', Panic)
    end.

Definition stm_lift {S E A} (m : outcome E A) : stm S E A := fun s => (s, m).
Definition stm_get {S E} : stm S E S := fun s => (s, Ok s).
Definition stm_put {S E} (s : S) : stm S E unit := fun _ => (s, Ok tt).
Definition stm_map_err {S E F A} (f : E -> F) (m : stm S E A) : stm S F A :=
  fun s => let '(s', r) := m s in (s', map_err f r).

Fixpoint stm_iter {S E A} (f : A -> stm S E unit) (l : list A) : stm S E unit :=
  match l with
  | [] => mret tt
  | a :: l => f a ;; stm_iter f l
  end.

Fixpoint stm_foldM {S E A B} (f : B -> A -> stm S E B) (b : B) (l : list A) : stm S E B :=
  match l with
  | [] => mret b
  | a :: l => b' ← f b a; stm_foldM f b' l
  end.

(** [iter().map(f).collect::<Result<Vec<_>, _>>()] with an effectful [f]. *)
Fixpoint stm_collectM {S E A B} (f : A -> stm S E B) (l : list A) : stm S E (list B) :=
  match l with
  | [] => mret []
  | a :: l => b ← f a; bs ← stm_collectM f l; mret (b :: bs)
  end.

Lemma stm_bind_Ok {S E A B} (m : stm S E A) (k : A -> stm S E B) s s' a :
  m s = (s', Ok a) -> (m ≫= k) s = k a s'.
Proof. unfold mbind, stm_bind. by intros ->. Qed.

Lemma stm_bind_Err {S E A B} (m : stm S E A) (k : A -> stm S E B) s s' e :
  m s = (s', Err e) -> (m ≫= k) s = (s', Err e).
Proof. unfold mbind, stm_bind. by intros ->. Qed.

Lemma stm_bind_Ok_inv {S E A B} (m : stm S E A) (k : A -> stm S E B) s s2 b :
  (m ≫= k) s = (s2, Ok b) -> exists s1 a, m s = (s1, Ok a) /\ k a s1 = (s2, Ok b).
Proof.
  unfold mbind, stm_bind. destruct (m s) as [s1 [a|e|]]; intros ?; simplify_eq. eauto.
Qed.

(** ** Machine integers

    Integers are [Z] with their width written out; [usize] values that index
    slices are [nat]. *)
Definition wrap (w z : Z) : Z := z mod 2 ^ w.
Definition u64_max : Z := 2 ^ 64 - 1.
Definition isize_max : Z := 2 ^ 63 - 1.
Definition is_u (w z : Z) : bool := (0 <=? z)%Z && (z <? 2 ^ w)%Z.
Definition is_s (w z : Z) : bool := (- 2 ^ (w - 1) <=? z)%Z && (z <? 2 ^ (w - 1))%Z.

(** [+=] on an unsigned integer without overflow checks. *)
Definition wrapping_add (w a b : Z) : Z := wrap w (a + b).
Definition wrapping_mul (w a b : Z) : Z := wrap w (a * b).
Definition saturating_add (w a b : Z) : Z := Z.min (a + b) (2 ^ w - 1).
(** [saturating_sub] on unsigned integers *)
Definition saturating_sub (a b : Z) : Z := Z.max 0 (a - b).

(** [as iN]: the two's complement value of the low bits *)
Definition to_signed (w z : Z) : Z := let u := wrap w z in if (u <? 2 ^ (w - 1))%Z then u else (u - 2 ^ w)%Z.

Definition is_byte (b : Z) : Prop := (0 <= b < 256)%Z.

Lemma is_u_spec w z : is_u w z = true <-> (0 <= z < 2 ^ w)%Z.
Proof. unfold is_u. rewrite andb_true_iff, Z.leb_le, Z.ltb_lt. done. Qed.

Lemma wrap_small w z : (0 <= z < 2 ^ w)%Z -> wrap w z = z.
Proof. apply Z.mod_small. Qed.

Lemma wrap_range w z : (0 <= w)%Z -> (0 <= wrap w z < 2 ^ w)%Z.
Proof. intros. apply Z.mod_pos_bound. lia. Qed.

Lemma to_signed_small w z : (0 < w)%Z -> is_s w z = true -> to_signed w z = z.
Proof.
  intros Hw. unfold is_s, to_signed, wrap. rewrite andb_true_iff, Z.leb_le, Z.ltb_lt. intros [H1 H2].
  assert (2 ^ w = 2 * 2 ^ (w - 1))%Z as Hp by (rewrite <- Z.pow_succ_r by lia; f_equal; lia).
  destruct (decide (0 <= z)%Z).
  - rewrite Z.mod_small by lia. by rewrite (proj2 (Z.ltb_lt _ _)) by lia.
  - replace (z mod 2 ^ w)%Z with (z + 2 ^ w)%Z.
    + rewrite (proj2 (Z.ltb_ge _ _)) by lia. lia.
    + rewrite <- (Z_mod_plus_full z 1 (2 ^ w)), Z.mul_1_l, Z.mod_small by lia. done.
Qed.

(** ** Bit fields of 64-bit words *)

(** [<<] on a [u64]: bits shifted out are dropped. *)
Definition shl (v s : Z) : Z := wrap 64 (Z.shiftl v s).

(** [(z >> k) & (2^w - 1)] *)
Definition field (k w z : Z) : Z := Z.land (Z.shiftr z k) (Z.ones w).

(** A field of a word: its position, its width and its value. *)
Definition bitfield : Type := Z * Z * Z.

(** [bits |= v << k] for each field in turn *)
Definition pack (bits : Z) (fs : list bitfield) : Z :=
  foldl (fun bits '(k, _, v) => Z.lor bits (shl v k)) bits fs.

(** Fields that fit their width and the word. *)
Definition wf_field (f : bitfield) : Prop :=
  let '(k, w, v) := f in (0 <= k /\ 0 <= w /\ k + w <= 64 /\ 0 <= v < 2 ^ w)%Z.

(** The bit ranges of two fields do not meet. *)
Definition apart (f g : bitfield) : Prop :=
  let '(k, w, _) := f in let '(k', w', _) := g in (k + w <= k' \/ k' + w' <= k)%Z.

Lemma testbit_shl v s i :
  (0 <= s)%Z -> (0 <= i)%Z ->
  Z.testbit (shl v s) i = (i <? 64)%Z && (s <=? i)%Z && Z.testbit v (i - s).
Proof.
  intros Hs Hi. unfold shl, wrap. destruct (Z.ltb_spec i 64) as [H64|H64]; simpl.
  - rewrite Z.mod_pow2_bits_low by lia. rewrite Z.shiftl_spec by lia.
    destruct (Z.leb_spec s i); simpl; [done|]. apply Z.testbit_neg_r. lia.
  - by rewrite Z.mod_pow2_bits_high by lia.
Qed.

Lemma testbit_field k w z i :
  (0 <= k)%Z -> (0 <= w)%Z -> (0 <= i)%Z ->
  Z.testbit (field k w z) i = Z.testbit z (i + k) && (i <? w)%Z.
Proof.
  intros. unfold field. rewrite Z.land_spec, Z.shiftr_spec by lia. f_equal.
  destruct (Z.ltb_spec i w); [by rewrite Z.ones_spec_low by lia|by rewrite Z.ones_spec_high by lia].
Qed.

Lemma testbit_small v w i : (0 <= v < 2 ^ w)%Z -> (w <= i)%Z -> Z.testbit v i = false.
Proof.
  intros Hv Hi. destruct (decide (v = 0)%Z) as [->|]; [apply Z.testbit_0_l|].
  apply Z.bits_above_log2; [lia|]. apply Z.log2_lt_pow2; [lia|].
  eapply Z.lt_le_trans; [apply Hv|]. apply Z.pow_le_mono_r; lia.
Qed.

Lemma field_lor k w a b : field k w (Z.lor a b) = Z.lor (field k w a) (field k w b).
Proof. unfold field. by rewrite Z.shiftr_lor, Z.land_lor_distr_l. Qed.

Lemma field_shl_same k w v : wf_field (k, w, v) -> field k w (shl v k) = v.
Proof.
  simpl. intros (Hk & Hw & H64 & Hv). apply Z.bits_inj'. intros i Hi.
  rewrite testbit_field, testbit_shl by lia. rewrite Z.add_simpl_r.
  destruct (Z.ltb_spec i w).
  - rewrite andb_true_r, (proj2 (Z.ltb_lt (i + k) 64)), (proj2 (Z.leb_le k (i + k))) by lia. done.
  - rewrite andb_false_r. symmetry. by eapply testbit_small.
Qed.

Lemma field_shl_apart k w v k' w' v' :
  (0 <= k)%Z -> (0 <= w)%Z -> wf_field (k', w', v') -> apart (k, w, v) (k', w', v') ->
  field k w (shl v' k') = 0%Z.
Proof.
  simpl. intros Hk Hw (Hk' & Hw' & _ & Hv') Hap.
  apply Z.bits_inj'. intros i Hi. rewrite testbit_field, testbit_shl, Z.testbit_0_l by lia.
  destruct (Z.ltb_spec i w); [|by rewrite andb_false_r]. rewrite andb_true_r.
  destruct (Z.leb_spec k' (i + k)); [|by rewrite andb_false_r].
  rewrite (testbit_small v' w') by lia. by rewrite andb_false_r.
Qed.

Lemma field_pack_apart k w v bits fs :
  (0 <= k)%Z -> (0 <= w)%Z -> Forall wf_field fs -> Forall (apart (k, w, v)) fs ->
  field k w (pack bits fs) = field k w bits.
Proof.
  intros Hk Hw Hwf. revert bits. induction Hwf as [|f fs Hf Hwf IH]; intros bits Hap; [done|].
  apply Forall_cons in Hap as [Hf' Hap]. unfold pack; cbn [foldl]; fold (pack (let '(k0, _, v0) := f in
    Z.lor bits (shl v0 k0)) fs). destruct f as [[k' w'] v'].
  rewrite IH by done. rewrite field_lor.
  rewrite (field_shl_apart k w v k' w' v') by done. apply Z.lor_0_r.
Qed.

(** Packing disjoint fields loses none of them. *)
Lemma field_pack fs1 k w v fs2 :
  wf_field (k, w, v) -> Forall wf_field fs1 -> Forall wf_field fs2 ->
  Forall (apart (k, w, v)) fs1 -> Forall (apart (k, w, v)) fs2 ->
  field k w (pack 0 (fs1 ++ (k, w, v) :: fs2)) = v.
Proof.
  intros Hf H1 H2 A1 A2. unfold pack. rewrite foldl_app. cbn [foldl].
  fold (pack 0 fs1). fold (pack (Z.lor (pack 0 fs1) (shl v k)) fs2).
  destruct Hf as (Hk & Hw & H64 & Hv) eqn:E; clear E.
  rewrite (field_pack_apart k w v), field_lor, (field_pack_apart k w v) by done.
  rewrite field_shl_same by done. unfold field. by rewrite Z.shiftr_0_l, Z.land_0_l.
Qed.

Fixpoint pairwise_apart (fs : list bitfield) : Prop :=
  match fs with
  | [] => True
  | f :: fs => Forall (apart f) fs /\ pairwise_apart fs
  end.

Lemma apart_sym f g : apart f g -> apart g f.
Proof. destruct f as [[? ?] ?], g as [[? ?] ?]. simpl. lia. Qed.

Lemma pairwise_apart_mid fs1 f fs2 :
  pairwise_apart (fs1 ++ f :: fs2) -> Forall (apart f) fs1 /\ Forall (apart f) fs2.
Proof.
  induction fs1 as [|g fs1 IH]; simpl; [intros [? _]; by split|].
  intros [Hg H]. destruct (IH H) as [IH1 IH2]. split; [|done]. constructor; [|done].
  apply apart_sym. apply Forall_app in Hg as [_ Hg]. by apply Forall_cons in Hg as [? _].
Qed.

Lemma pack_reads_back fs k w v :
  Forall wf_field fs -> pairwise_apart fs -> (k, w, v) ∈ fs -> field k w (pack 0 fs) = v.
Proof.
  intros Hwf Hap (fs1 & fs2 & ->)%list_elem_of_split.
  apply Forall_app in Hwf as [H1 H2]. apply Forall_cons in H2 as [Hf H2].
  apply pairwise_apart_mid in Hap as [A1 A2]. by apply field_pack.
Qed.

(** A packed word is a [u64]. *)
Lemma lor_u64 a b : (0 <= a < 2 ^ 64)%Z -> (0 <= b < 2 ^ 64)%Z -> (0 <= Z.lor a b < 2 ^ 64)%Z.
Proof.
  intros Ha Hb. split; [apply Z.lor_nonneg; lia|].
  destruct (decide (Z.lor a b = 0)%Z) as [->|Hne]; [lia|].
  apply Z.log2_lt_pow2; [pose proof (Z.lor_nonneg a b); lia|].
  rewrite Z.log2_lor by lia.
  destruct (decide (a = 0)%Z) as [->|], (decide (b = 0)%Z) as [->|]; simpl;
    apply Z.max_lub_lt; try (apply Z.log2_lt_pow2; lia); simpl; lia.
Qed.

Lemma pack_u64 bits fs : (0 <= bits < 2 ^ 64)%Z -> (0 <= pack bits fs < 2 ^ 64)%Z.
Proof.
  revert bits. induction fs as [|[[k w] v] fs IH]; intros bits Hb; [done|].
  apply IH. apply lor_u64; [done|]. by apply wrap_range.
Qed.

Lemma shl_0 v : (0 <= v < 2 ^ 64)%Z -> shl v 0 = v.
Proof. intros. unfold shl. rewrite Z.shiftl_0_r. by apply wrap_small. Qed.

(** ** Little-endian byte strings: [to_le_bytes] and [from_le_bytes] *)
Fixpoint le_bytes (n : nat) (z : Z) : list Z :=
  match n with
  | 0 => []
  | S n => (z mod 256)%Z :: le_bytes n (z / 256)%Z
  end.

Fixpoint le_decode (l : list Z) : Z :=
  match l with
  | [] => 0
  | b :: l => b + 256 * le_decode l
  end%Z.

Lemma length_le_bytes n z : length (le_bytes n z) = n.
Proof. revert z. induction n; intros; simpl; auto. Qed.

Lemma le_bytes_bytes n z : Forall is_byte (le_bytes n z).
Proof.
  revert z. induction n; intros; simpl; constructor; auto.
  apply Z.mod_pos_bound; lia.
Qed.

Lemma le_decode_le_bytes n z :
  le_decode (le_bytes n z) = (z mod 256 ^ Z.of_nat n)%Z.
Proof.
  revert z. induction n as [|n IH]; intros z; simpl le_bytes; simpl le_decode.
  - by rewrite Z.mod_1_r.
  - rewrite IH, Nat2Z.inj_succ, Z.pow_succ_r by lia.
    rewrite (Z.rem_mul_r z 256) by lia. lia.
Qed.

Lemma le_decode_le_bytes_small n z :
  (0 <= z < 256 ^ Z.of_nat n)%Z -> le_decode (le_bytes n z) = z.
Proof. intros. rewrite le_decode_le_bytes. by apply Z.mod_small. Qed.

Lemma le_decode_range l :
  Forall is_byte l -> (0 <= le_decode l < 256 ^ Z.of_nat (length l))%Z.
Proof.
  induction 1 as [|b l Hb _ IH]; simpl le_decode; [simpl; lia|].
  simpl length. rewrite Nat2Z.inj_succ, Z.pow_succ_r by lia.
  unfold is_byte in *. lia.
Qed.

Lemma le_bytes_le_decode l : Forall is_byte l -> le_bytes (length l) (le_decode l) = l.
Proof.
  induction 1 as [|b l Hb _ IH]; simpl; [done|]. unfold is_byte in Hb.
  rewrite (Z.mul_comm 256), Z.mod_add, Z.mod_small by lia.
  by rewrite Z.div_add, Z.div_small, Z.add_0_l, IH by lia.
Qed.

(** The little-endian integer of [n] bytes at position [lo]. *)
Definition bytes_at (lo n : nat) (bytes : list Z) : Z := le_decode (take n (drop lo bytes)).

(** The fields of a packed structure read back where they were written. *)
Lemma bytes_at_concat ls k l rest :
  ls !! k = Some l -> bytes_at (length (concat (take k ls))) (length l) (concat ls ++ rest) = le_decode l.
Proof.
  intros Hk. unfold bytes_at. rewrite <- (take_drop_middle ls k l Hk) at 2.
  rewrite concat_app. cbn [concat]. rewrite <- !app_assoc, drop_app_length, take_app_length. done.
Qed.

(** Byte strings are decidable, for concrete ones. *)
Definition all_bytes (l : list Z) : bool := forallb (is_u 8) l.

Lemma all_bytes_spec l : all_bytes l = true -> Forall is_byte l.
Proof.
  unfold all_bytes. rewrite forallb_forall, Forall_forall. intros H x Hx.
  apply (is_u_spec 8), H. by apply list_elem_of_In.
Qed.

(** ** Slices *)

(** [&l\[lo..hi\]], [None] where Rust panics. *)
Definition slice {A} (lo hi : nat) (l : list A) : option (list A) :=
  if decide (lo <= hi <= length l) then Some (take (hi - lo) (drop lo l)) else None.

(** [l\[lo..hi\].copy_from_slice(src)]: panics on a bad range or a length
    mismatch. *)
Definition copy_from_slice {A} (lo hi : nat) (src l : list A) : option (list A) :=
  if decide (lo <= hi <= length l /\ length src = hi - lo)
  then Some (list_inserts lo src l) else None.

(** [usize::div_ceil] *)
Definition div_ceil (a b : nat) : nat := (a + b - 1) / b.

(** [(0..len).step_by(step)], for a positive step *)
Definition step_by (len step : nat) : list nat :=
  (fun i => i * step) <$> seq 0 (div_ceil len step).

Lemma slice_Some {A} lo hi (l s : list A) :
  slice lo hi l = Some s <-> lo <= hi <= length l /\ s = take (hi - lo) (drop lo l).
Proof. unfold slice. case_decide; naive_solver. Qed.

Lemma slice_length {A} lo hi (l s : list A) :
  slice lo hi l = Some s -> length s = hi - lo.
Proof. intros [? ->]%slice_Some. rewrite length_take, length_drop. lia. Qed.

Lemma slice_lookup {A} lo hi (l s : list A) i :
  slice lo hi l = Some s -> i < hi - lo -> s !! i = l !! (lo + i).
Proof. intros [? ->]%slice_Some ?. by rewrite lookup_take_lt, lookup_drop. Qed.

Lemma copy_from_slice_Some {A} lo hi (src l l' : list A) :
  copy_from_slice lo hi src l = Some l' <->
  (lo <= hi <= length l /\ length src = hi - lo) /\ l' = list_inserts lo src l.
Proof. unfold copy_from_slice. case_decide; naive_solver. Qed.

Lemma lookup_inserts_in {A} lo (src l : list A) i :
  lo + length src <= length l -> lo <= i < lo + length src ->
  list_inserts lo src l !! i = src !! (i - lo).
Proof. intros ? ?. apply list_lookup_inserts; lia. Qed.

Lemma lookup_inserts_out {A} lo (src l : list A) i :
  i < lo \/ lo + length src <= i -> list_inserts lo src l !! i = l !! i.
Proof.
  intros [?|?]; [by apply list_lookup_inserts_lt|by apply list_lookup_inserts_ge].
Qed.

Lemma div_ceil_spec a b i : 0 < b -> i < div_ceil a b <-> i * b < a.
Proof.
  intros Hb. unfold div_ceil.
  pose proof (Nat.div_mod_eq (a + b - 1) b).
  pose proof (Nat.mod_upper_bound (a + b - 1) b ltac:(lia)).
  set (q := (a + b - 1) / b) in *. split; nia.
Qed.

Lemma elem_of_step_by len step o :
  0 < step -> o ∈ step_by len step <-> exists i, o = i * step /\ o < len.
Proof.
  intros Hs. unfold step_by. rewrite list_elem_of_fmap. split.
  - intros (i & -> & Hi%elem_of_seq). exists i. split; [done|].
    apply div_ceil_spec; lia.
  - intros (i & -> & Hi). exists i. split; [done|].
    apply elem_of_seq. apply div_ceil_spec in Hi; lia.
Qed.

(** The [u32]/[u64]/[i64] [to_string] *)
Abbreviation dec := (pretty (A := Z)).
