(* ===== verification/HostIO.v ===== *)
(** * The fragment of [std::fs] and [std::io] the Concordia runtime uses

    A [world] holds the files by path and the faults the environment will
    inject: paths that cannot be opened, write calls that fail after a prefix
    of the data reached the file, and a device position past which reads fail.
    Operations are state passing, so a failed [write_all] leaves its partial
    effect behind, as it does on disk. *)
From stdpp Require Import base numbers list strings gmap.
From Stdlib Require Import ZArith Lia.
From S2P Require Import Prelude.

Inductive io_error : Type :=
| NotFound
| PermissionDenied
| InvalidInput (msg : string)
| DeviceError.

#[global] Instance io_error_eq_dec : EqDecision io_error.
Proof. solve_decision. Defined.

Record world : Type := mkWorld {
  files : gmap string (list Z);
  denied : gset string;
  write_faults : list (option nat);
  read_fault : option nat;
}.

Definition set_file (path : string) (data : list Z) (w : world) : world :=
  mkWorld (<[path := data]> (files w)) (denied w) (write_faults w) (read_fault w).

Definition file_bytes (path : string) (w : world) : list Z := default [] (files w !! path).

(** [OpenOptions::new().create(true).truncate(true).write(true).read(true).open(path)] *)
Definition open_truncate (path : string) : stm world io_error unit := fun w =>
  if decide (path ∈ denied w) then (w, Err PermissionDenied)
  else (set_file path [] w, Ok tt).

(** [OpenOptions::new().create(true).append(true).read(true).open(path)] *)
Definition open_for_append (path : string) : stm world io_error unit := fun w =>
  if decide (path ∈ denied w) then (w, Err PermissionDenied)
  else (set_file path (file_bytes path w) w, Ok tt).

(** [Write::write_all] on a handle positioned at the end of [path]: no system
    call for empty data; an injected fault [Some k] writes at most [k] bytes,
    never all of them, before the error. *)
Definition write_all (path : string) (data : list Z) : stm world io_error unit := fun w =>
  let old := file_bytes path w in
  match data, write_faults w with
  | [], _ => (w, Ok tt)
  | _, [] => (set_file path (old ++ data) w, Ok tt)
  | _, None :: fs =>
      (set_file path (old ++ data) (mkWorld (files w) (denied w) fs (read_fault w)), Ok tt)
  | _, Some k :: fs =>
      (set_file path (old ++ take (k `min` (length data - 1)) data)
         (mkWorld (files w) (denied w) fs (read_fault w)), Err DeviceError)
  end.

(** [Write::flush] on a [File] is a no-op. *)
Definition flush : stm world io_error unit := mret tt.

(** A file opened for reading: the bytes left, and how many of them can be
    read before the device fails. *)
Record reader : Type := mkReader {
  rd_rest : list Z;
  rd_fault : option nat;
}.

(** [File::open] *)
Definition open_read (path : string) (w : world) : outcome io_error reader :=
  if decide (path ∈ denied w) then Err PermissionDenied
  else match files w !! path with
       | Some bytes => Ok (mkReader bytes (read_fault w))
       | None => Err NotFound
       end.

Inductive read_result : Type :=
| ReadOk (data : list Z) (r : reader)
| ReadEof
| ReadFail.

(** [Read::read_exact] of [n] bytes *)
Definition read_exact (n : Z) (r : reader) : read_result :=
  let avail := match rd_fault r with
               | Some k => k `min` length (rd_rest r)
               | None => length (rd_rest r)
               end in
  if decide (n <= Z.of_nat avail)%Z then
    let n := Z.to_nat n in
    ReadOk (take n (rd_rest r))
      (mkReader (drop n (rd_rest r)) ((fun k => k - n) <$> rd_fault r))
  else match rd_fault r with
       | Some k => if decide (k < length (rd_rest r)) then ReadFail else ReadEof
       | None => ReadEof
       end.

Lemma read_exact_nofault n l :
  read_exact n (mkReader l None) =
  if decide (n <= Z.of_nat (length l))%Z
  then ReadOk (take (Z.to_nat n) l) (mkReader (drop (Z.to_nat n) l) None) else ReadEof.
Proof. unfold read_exact; simpl. by case_decide. Qed.

Lemma read_exact_app n l1 l2 :
  Z.of_nat (length l1) = n ->
  read_exact n (mkReader (l1 ++ l2) None) = ReadOk l1 (mkReader l2 None).
Proof.
  intros <-. rewrite read_exact_nofault, decide_True by (rewrite length_app; lia).
  rewrite Nat2Z.id. by rewrite take_app_length, drop_app_length.
Qed.

Lemma read_exact_short n l :
  (Z.of_nat (length l) < n)%Z -> read_exact n (mkReader l None) = ReadEof.
Proof. intros. rewrite read_exact_nofault, decide_False by lia. done. Qed.

Lemma file_bytes_set_file path data w : file_bytes path (set_file path data w) = data.
Proof. unfold file_bytes, set_file; simpl. by rewrite lookup_insert_eq. Qed.

Lemma set_file_set_file path d1 d2 w :
  set_file path d2 (set_file path d1 w) = set_file path d2 w.
Proof. unfold set_file; simpl. by rewrite insert_insert_eq. Qed.
