(* ===== verification/Delta.v ===== *)
(** * Delta checkpoints of registered memory regions
    ([zluda/src/impl/concordia_delta.rs], first half)

    Regions are tracked by id.  An opaque region keeps a shadow copy and a
    checkpoint records the pages that differ from it; an allocator-bitmap
    region records the pages marked in a bitmap.  Replaying the recorded pages
    over the previous contents gives the checkpointed contents. *)
From stdpp Require Import base numbers list strings gmap.
From Stdlib Require Import ZArith Lia.
From S2P Require Import Prelude.

Definition DEFAULT_PAGE_SIZE : nat := 4096.

Record DirtyPage : Type := mkDirtyPage {
  dp_region_id : Z;
  dp_offset : nat;
  dp_data : list Z;
}.

Record DeltaRecord : Type := mkDeltaRecord {
  dr_epoch : Z;
  dr_region_id : Z;
  dr_base_addr : Z;
  dr_dirty_pages : list DirtyPage;
}.

Inductive RegionKind : Type := OpaqueShadow | AllocatorBitmap.

#[global] Instance RegionKind_eq_dec : EqDecision RegionKind.
Proof. solve_decision. Defined.

Record TrackedRegion : Type := mkTrackedRegion {
  tr_id : Z;
  tr_base_addr : Z;
  tr_len : nat;
  tr_shadow : option (list Z);
  tr_kind : RegionKind;
}.

Record DeltaCheckpointState : Type := mkDeltaCheckpointState {
  page_size : nat;
  next_region_id : Z;
  next_epoch : Z;
  regions : list TrackedRegion;
}.

(** One constructor per message the code formats. *)
Inductive DeltaError : Type :=
| UnknownRegion (region_id : Z)
| NotOpaqueShadow (region_id : Z)
| NotAllocatorBitmap (region_id : Z)
| SizeChanged (region_id : Z) (from to : nat)
| NoShadowBuffer (region_id : Z)
| ReplayOverflow (region_id offset len : Z)
| ReplayBeyond (region_id offset endp target_len : Z).

#[global] Instance DeltaError_eq_dec : EqDecision DeltaError.
Proof. solve_decision. Defined.

Definition new (page_size : nat) : DeltaCheckpointState :=
  mkDeltaCheckpointState (page_size `max` 1) 1 1 [].

Definition default_state : DeltaCheckpointState := new DEFAULT_PAGE_SIZE.

Definition push_region (region : TrackedRegion) (st : DeltaCheckpointState) : DeltaCheckpointState :=
  mkDeltaCheckpointState (page_size st) (wrapping_add 64 (next_region_id st) 1)
    (next_epoch st) (regions st ++ [region]).

Definition register_opaque_host_region (base_addr : Z) (initial : list Z)
    (st : DeltaCheckpointState) : DeltaCheckpointState * Z :=
  let id := next_region_id st in
  (push_region (mkTrackedRegion id base_addr (length initial) (Some initial) OpaqueShadow) st, id).

Definition register_allocator_bitmap_region (base_addr : Z) (len : nat)
    (st : DeltaCheckpointState) : DeltaCheckpointState * Z :=
  let id := next_region_id st in
  (push_region (mkTrackedRegion id base_addr len None AllocatorBitmap) st, id).

(** [regions.iter().find(|region| region.id == region_id)], with its index *)
Definition find_region (region_id : Z) (st : DeltaCheckpointState) : option (nat * TrackedRegion) :=
  list_find (fun region => tr_id region = region_id) (regions st).

Definition set_shadow (i : nat) (region : TrackedRegion) (shadow : list Z)
    (st : DeltaCheckpointState) : DeltaCheckpointState :=
  mkDeltaCheckpointState (page_size st) (next_region_id st) (next_epoch st)
    (<[i := mkTrackedRegion (tr_id region) (tr_base_addr region) (tr_len region)
              (Some shadow) (tr_kind region)]> (regions st)).

Definition bump_epoch (st : DeltaCheckpointState) : DeltaCheckpointState :=
  mkDeltaCheckpointState (page_size st) (next_region_id st)
    (wrapping_add 64 (next_epoch st) 1) (regions st).

(** The guards shared by [create_host_delta] and [refresh_opaque_shadow]: the
    region, its index and its shadow. *)
Definition opaque_region (region_id : Z) (current_len : nat) (st : DeltaCheckpointState)
    : outcome DeltaError (nat * TrackedRegion * list Z) :=
  '(i, region) ← ok_or (UnknownRegion region_id) (find_region region_id st);
  if decide (tr_kind region <> OpaqueShadow) then Err (NotOpaqueShadow region_id)
  else if decide (tr_len region <> current_len)
  then Err (SizeChanged region_id (tr_len region) current_len)
  else shadow ← ok_or (NoShadowBuffer region_id) (tr_shadow region);
       Ok (i, region, shadow).

(** One iteration of the page loop of [create_host_delta]: compare the page
    with its shadow, and record and refresh it when it differs. *)
Definition host_scan_page (region_id : Z) (page_size : nat) (current : list Z)
    (acc : list Z * list DirtyPage) (offset : nat) : outcome DeltaError (list Z * list DirtyPage) :=
  let '(shadow, dirty_pages) := acc in
  let endp := (offset + page_size) `min` length current in
  cur ← unwrap (slice offset endp current);
  old ← unwrap (slice offset endp shadow);
  if decide (cur <> old) then
    shadow' ← unwrap (copy_from_slice offset endp cur shadow);
    Ok (shadow', dirty_pages ++ [mkDirtyPage region_id offset cur])
  else Ok (shadow, dirty_pages).

Definition create_host_delta (region_id : Z) (current : list Z) (st : DeltaCheckpointState)
    : DeltaCheckpointState * outcome DeltaError DeltaRecord :=
  match opaque_region region_id (length current) st with
  | Ok (i, region, shadow) =>
      let epoch := next_epoch st in
      let st1 := bump_epoch st in
      match foldM (host_scan_page region_id (page_size st) current) (shadow, [])
              (step_by (length current) (page_size st)) with
      | Ok (shadow', dirty_pages) =>
          (set_shadow i region shadow' st1,
           Ok (mkDeltaRecord epoch region_id (tr_base_addr region) dirty_pages))
      | Err e => (st1, Err e)
      | Panic => (st1, Panic)
      end
  | Err e => (st, Err e)
  | Panic => (st, Panic)
  end.

(** [dirty_bitmap.get(page_index / 8).copied().unwrap_or(0) & (1 << (page_index % 8)) != 0] *)
Definition bitmap_bit (dirty_bitmap : list Z) (page_index : nat) : bool :=
  let byte := default 0%Z (dirty_bitmap !! (page_index / 8)) in
  negb (Z.land byte (Z.shiftl 1 (Z.of_nat (page_index mod 8))) =? 0)%Z.

Definition bitmap_scan_page (region_id : Z) (page_size : nat) (current dirty_bitmap : list Z)
    (dirty_pages : list DirtyPage) (page_index : nat) : outcome DeltaError (list DirtyPage) :=
  if bitmap_bit dirty_bitmap page_index then
    let offset := page_index * page_size in
    let endp := (offset + page_size) `min` length current in
    cur ← unwrap (slice offset endp current);
    Ok (dirty_pages ++ [mkDirtyPage region_id offset cur])
  else Ok dirty_pages.

Definition create_bitmap_delta (region_id : Z) (current dirty_bitmap : list Z)
    (st : DeltaCheckpointState) : DeltaCheckpointState * outcome DeltaError DeltaRecord :=
  match find_region region_id st with
  | None => (st, Err (UnknownRegion region_id))
  | Some (_, region) =>
      if decide (tr_kind region <> AllocatorBitmap) then (st, Err (NotAllocatorBitmap region_id))
      else if decide (tr_len region <> length current)
      then (st, Err (SizeChanged region_id (tr_len region) (length current)))
      else
        let epoch := next_epoch st in
        let st1 := bump_epoch st in
        match foldM (bitmap_scan_page region_id (page_size st) current dirty_bitmap) []
                (seq 0 (div_ceil (length current) (page_size st))) with
        | Ok dirty_pages =>
            (st1, Ok (mkDeltaRecord epoch region_id (tr_base_addr region) dirty_pages))
        | Err e => (st1, Err e)
        | Panic => (st1, Panic)
        end
  end.

Definition refresh_opaque_shadow (region_id : Z) (current : list Z) (st : DeltaCheckpointState)
    : DeltaCheckpointState * outcome DeltaError unit :=
  match opaque_region region_id (length current) st with
  | Ok (i, region, shadow) =>
      match copy_from_slice 0 (length shadow) current shadow with
      | Some shadow' => (set_shadow i region shadow' st, Ok tt)
      | None => (st, Panic)
      end
  | Err e => (st, Err e)
  | Panic => (st, Panic)
  end.

(** ** Replaying records over a buffer *)
Record AofRecord : Type := mkAofRecord {
  ar_epoch : Z;
  ar_region_id : Z;
  ar_offset : Z;
  ar_payload : list Z;
}.

#[global] Instance AofRecord_eq_dec : EqDecision AofRecord.
Proof. solve_decision. Defined.

(** One iteration of [apply_records_to_region]; the state is the target
    buffer, which an error leaves partly overwritten.  [usize::checked_add]
    fails above [usize::MAX]. *)
Definition apply_record (applied : nat) (record : AofRecord) : stm (list Z) DeltaError nat :=
  let len := Z.of_nat (length (ar_payload record)) in
  let endp := (ar_offset record + len)%Z in
  if decide (u64_max < endp)%Z then
    stm_lift (Err (ReplayOverflow (ar_region_id record) (ar_offset record) len))
  else
    target ← stm_get;
    if decide (Z.of_nat (length target) < endp)%Z then
      stm_lift (Err (ReplayBeyond (ar_region_id record) (ar_offset record) endp
                       (Z.of_nat (length target))))
    else
      target' ← stm_lift (unwrap (copy_from_slice (Z.to_nat (ar_offset record)) (Z.to_nat endp)
                                    (ar_payload record) target));
      stm_put target' ;;
      mret (applied + 1).

Definition apply_records_to_region (region_id : Z) (records : list AofRecord)
    : stm (list Z) DeltaError nat :=
  stm_foldM apply_record 0 (filter (fun record => ar_region_id record = region_id) records).

(** The records [append_delta] writes for a delta, in order. *)
Definition delta_records (delta : DeltaRecord) : list AofRecord :=
  (fun page => mkAofRecord (dr_epoch delta) (dp_region_id page) (Z.of_nat (dp_offset page)) (dp_data page))
    <$> dr_dirty_pages delta.

(** ** The page loop against its specification *)
Section PageLoop.
Context (region_id : Z) (ps : nat) (current shadow : list Z).
(** Bytes of page [k] in a buffer of the region's length. *)
Definition page_of (buf : list Z) (k : nat) : list Z :=
  take ((k * ps + ps) `min` length current - k * ps) (drop (k * ps) buf).

(** The dirty pages among pages [k .. k+n), in order. *)
Definition dirty_from (k n : nat) : list DirtyPage :=
  omap (fun k => if decide (page_of current k <> page_of shadow k)
                 then Some (mkDirtyPage region_id (k * ps) (page_of current k)) else None)
    (seq k n).

(** The buffer whose first [j] bytes are checkpointed. *)
Definition mix (j : nat) : list Z := take j current ++ drop j shadow.

Definition put_page (buf : list Z) (p : DirtyPage) : list Z :=
  list_inserts (dp_offset p) (dp_data p) buf.

Lemma length_page_of buf k :
  length buf = length current -> k * ps < length current ->
  length (page_of buf k) = (k * ps + ps) `min` length current - k * ps.
Proof. intros. unfold page_of. rewrite length_take, length_drop. lia. Qed.

Lemma lookup_page_of buf k i :
  length buf = length current -> k * ps + i < length current ->
  page_of buf k !! i = if decide (i < ps) then buf !! (k * ps + i) else None.
Proof.
  intros Hb Hi. unfold page_of. case_decide.
  - rewrite lookup_take_lt by lia. by rewrite lookup_drop.
  - by rewrite lookup_take_ge by lia.
Qed.

Lemma pages_in_range j :
  0 < ps -> 0 <= j < 0 + div_ceil (length current) ps -> j * ps < length current.
Proof. intros. apply div_ceil_spec; lia. Qed.

Context (Hps : 0 < ps) (Hlen : length shadow = length current).

Lemma length_mix j : length (mix j) = length current.
Proof. unfold mix. rewrite length_app, length_take, length_drop. lia. Qed.

Lemma lookup_mix j i :
  mix j !! i = if decide (i < j) then current !! i else shadow !! i.
Proof.
  unfold mix. case_decide.
  - destruct (decide (i < length current)).
    + rewrite lookup_app_l by (rewrite length_take; lia). by rewrite lookup_take_lt.
    + rewrite lookup_ge_None_2 by (rewrite length_app, length_take, length_drop; lia).
      by rewrite lookup_ge_None_2 by lia.
  - destruct (decide (j <= length current)).
    + rewrite lookup_app_r by (rewrite length_take; lia).
      rewrite length_take, lookup_drop. f_equal. lia.
    + rewrite !lookup_ge_None_2; [done|lia|rewrite length_app, length_take, length_drop; lia].
Qed.


Lemma mix_clean k :
  page_of current k = page_of shadow k -> mix (k * ps) = mix (S k * ps).
Proof.
  intros Heq. apply list_eq. intros i. rewrite !lookup_mix.
  destruct (decide (i < k * ps)), (decide (i < S k * ps)); try done; [lia|].
  destruct (decide (i < length current)) as [Hi|].
  - pose proof (f_equal (fun l => l !! (i - k * ps)) Heq) as Hl. simpl in Hl.
    rewrite !lookup_page_of, !decide_True in Hl by lia.
    replace (k * ps + (i - k * ps)) with i in Hl by lia. by rewrite Hl.
  - by rewrite !lookup_ge_None_2 by lia.
Qed.

Lemma mix_dirty k :
  k * ps < length current ->
  list_inserts (k * ps) (page_of current k) (mix (k * ps)) = mix (S k * ps).
Proof.
  intros Hk. pose proof (length_page_of current k eq_refl Hk) as Hp.
  apply list_eq. intros i. rewrite lookup_mix.
  destruct (decide (k * ps <= i < k * ps + length (page_of current k))).
  - rewrite lookup_inserts_in by (rewrite ?length_mix; lia).
    rewrite lookup_page_of by lia.
    rewrite !decide_True by lia. f_equal. lia.
  - rewrite lookup_inserts_out by lia. rewrite lookup_mix.
    destruct (decide (i < k * ps)), (decide (i < S k * ps)); try done; [lia|].
    rewrite !lookup_ge_None_2 by lia. done.
Qed.

Lemma dirty_from_S k n :
  dirty_from k (S n) =
  (if decide (page_of current k <> page_of shadow k)
   then [mkDirtyPage region_id (k * ps) (page_of current k)] else []) ++ dirty_from (S k) n.
Proof. unfold dirty_from. simpl. by case_decide. Qed.

Lemma host_scan_page_step k acc :
  k * ps < length current ->
  host_scan_page region_id ps current (mix (k * ps), acc) (k * ps) =
  Ok (mix (S k * ps), acc ++ dirty_from k 1).
Proof.
  intros Hk. unfold host_scan_page.
  pose proof (length_mix (k * ps)) as Hmix.
  assert (forall buf, length buf = length current ->
    slice (k * ps) ((k * ps + ps) `min` length current) buf = Some (page_of buf k)) as Hs.
  { intros buf Hb. apply slice_Some. split; [lia|done]. }
  rewrite (Hs current eq_refl), (Hs _ Hmix). simpl.
  assert (page_of (mix (k * ps)) k = page_of shadow k) as ->.
  { unfold page_of, mix. f_equal. rewrite drop_app_ge by (rewrite length_take; lia).
    rewrite length_take, drop_drop. f_equal. lia. }
  rewrite dirty_from_S. change (dirty_from (S k) 0) with (@nil DirtyPage). rewrite app_nil_r.
  case_decide as Hd.
  - unfold copy_from_slice. rewrite decide_True.
    + simpl. by rewrite mix_dirty.
    + rewrite length_mix, length_page_of; lia.
  - simpl. rewrite app_nil_r. by rewrite mix_clean by done.
Qed.

Lemma host_scan_pages k n acc :
  (forall j, k <= j < k + n -> j * ps < length current) ->
  foldM (host_scan_page region_id ps current) (mix (k * ps), acc)
    ((fun i => i * ps) <$> seq k n) = Ok (mix ((k + n) * ps), acc ++ dirty_from k n).
Proof.
  revert k acc. induction n as [|n IH]; intros k acc Hj.
  - simpl. rewrite Nat.add_0_r, app_nil_r. done.
  - cbn [seq]. rewrite fmap_cons. cbn [foldM].
    rewrite host_scan_page_step by (apply Hj; lia). cbn [mbind outcome_bind].
    rewrite IH by (intros; apply Hj; lia).
    rewrite <- app_assoc, dirty_from_S, (dirty_from_S k n).
    change (dirty_from (S k) 0) with (@nil DirtyPage). rewrite app_nil_r.
    f_equal. f_equal. f_equal. lia.
Qed.

(** Replaying a prefix of the dirty pages gives a buffer whose first bytes, up
    to a page boundary, are the checkpointed ones. *)
Lemma replay_prefix l k n :
  l `prefix_of` dirty_from k n ->
  (forall j, k <= j < k + n -> j * ps < length current) ->
  exists m, k <= m <= k + n /\ foldl put_page (mix (k * ps)) l = mix (m * ps).
Proof.
  revert l k. induction n as [|n IH]; intros l k Hl Hj.
  - apply prefix_nil_inv in Hl as ->. exists k. split; [lia|done].
  - rewrite dirty_from_S in Hl. case_decide as Hd; simpl in Hl.
    + destruct l as [|p l'].
      * exists k. split; [lia|done].
      * apply prefix_cons_inv_1 in Hl as Hp. apply prefix_cons_inv_2 in Hl. subst p.
        destruct (IH l' (S k)) as (m & ? & Hm); [done|intros; apply Hj; lia|].
        exists m. split; [lia|]. simpl. unfold put_page at 2; simpl.
        rewrite mix_dirty by (apply Hj; lia). done.
    + destruct (IH l (S k)) as (m & ? & Hm); [done|intros; apply Hj; lia|].
      exists m. split; [lia|]. rewrite mix_clean by done. done.
Qed.

Lemma replay_all k n :
  (forall j, k <= j < k + n -> j * ps < length current) ->
  foldl put_page (mix (k * ps)) (dirty_from k n) = mix ((k + n) * ps).
Proof.
  revert k. induction n as [|n IH]; intros k Hj.
  - simpl. by rewrite Nat.add_0_r.
  - rewrite dirty_from_S, foldl_app. case_decide as Hd; simpl.
    + unfold put_page at 2; simpl. rewrite mix_dirty by (apply Hj; lia).
      rewrite IH by (intros; apply Hj; lia). f_equal. lia.
    + rewrite mix_clean by done.
      rewrite IH by (intros; apply Hj; lia). f_equal. lia.
Qed.

Lemma pages_cover : mix (div_ceil (length current) ps * ps) = current.
Proof.
  assert (length current <= div_ceil (length current) ps * ps).
  { apply Nat.nlt_ge. intros H%div_ceil_spec; lia. }
  unfold mix. rewrite take_ge, drop_ge by lia. by rewrite app_nil_r.
Qed.


End PageLoop.

(** ** Looking regions up *)

Definition region_of (region_id : Z) (st : DeltaCheckpointState) : option TrackedRegion :=
  snd <$> find_region region_id st.

Definition shadow_of (region_id : Z) (st : DeltaCheckpointState) : option (list Z) :=
  region_of region_id st ≫= tr_shadow.

Lemma find_region_Some region_id st i region :
  find_region region_id st = Some (i, region) <->
  regions st !! i = Some region /\ tr_id region = region_id /\
  forall j y, regions st !! j = Some y -> j < i -> tr_id y <> region_id.
Proof. unfold find_region. rewrite list_find_Some. done. Qed.

Lemma find_region_id region_id st i region :
  find_region region_id st = Some (i, region) -> tr_id region = region_id.
Proof. by intros (_ & ? & _)%find_region_Some. Qed.

Lemma find_set_shadow region_id st i region shadow id' :
  find_region region_id st = Some (i, region) ->
  find_region id' (set_shadow i region shadow st) =
  if decide (id' = region_id)
  then Some (i, mkTrackedRegion (tr_id region) (tr_base_addr region) (tr_len region)
                  (Some shadow) (tr_kind region))
  else find_region id' st.
Proof.
  intros (Hi & Hid & Hbefore)%find_region_Some. unfold set_shadow. case_decide as Hd.
  - subst id'. apply find_region_Some. simpl. split_and!; [|done|].
    + apply list_lookup_insert_eq. by eapply lookup_lt_Some.
    + intros j y Hy Hj. rewrite list_lookup_insert_ne in Hy by lia. eauto.
  - unfold find_region; simpl.
    assert (forall l k, l !! k = Some region ->
      list_find (fun r => tr_id r = id')
        (<[k := mkTrackedRegion (tr_id region) (tr_base_addr region) (tr_len region)
                  (Some shadow) (tr_kind region)]> l) =
      list_find (fun r => tr_id r = id') l) as Hgen; [|by apply Hgen].
    clear -Hid Hd. induction l as [|r l IH]; intros [|k] Hk; simplify_eq/=.
    + rewrite !decide_False by congruence. done.
    + case_decide; [done|]. by rewrite IH.
Qed.

Lemma region_of_set_shadow region_id st i region shadow id' :
  find_region region_id st = Some (i, region) ->
  shadow_of id' (set_shadow i region shadow st) =
  if decide (id' = region_id) then Some shadow else shadow_of id' st.
Proof.
  intros Hf. unfold shadow_of, region_of. rewrite (find_set_shadow _ _ _ _ _ _ Hf).
  by case_decide.
Qed.

Lemma find_region_bump id st : find_region id (bump_epoch st) = find_region id st.
Proof. done. Qed.

Lemma set_shadow_bump i region sh st :
  set_shadow i region sh (bump_epoch st) = bump_epoch (set_shadow i region sh st).
Proof. done. Qed.

Lemma find_push_region id region st :
  find_region id (push_region region st) =
  match find_region id st with
  | Some x => Some x
  | None => if decide (tr_id region = id) then Some (length (regions st), region) else None
  end.
Proof.
  unfold find_region, push_region; simpl. generalize (regions st) as l.
  induction l as [|r l IH]; simpl; [by repeat case_decide|].
  destruct (decide (tr_id r = id)); [done|]. rewrite IH.
  destruct (list_find _ l) as [[]|]; simpl; [done|]. by case_decide.
Qed.

(** ** Well-formed states and their preservation *)

Definition wf_region (region : TrackedRegion) : Prop :=
  match tr_kind region with
  | OpaqueShadow => exists sh, tr_shadow region = Some sh /\ length sh = tr_len region
  | AllocatorBitmap => tr_shadow region = None
  end.

Record wf_state (st : DeltaCheckpointState) : Prop := mk_wf_state {
  wf_page_size : 0 < page_size st;
  wf_regions : Forall wf_region (regions st);
  wf_ids : NoDup (tr_id <$> regions st);
  wf_id_range : Forall (fun r => 1 <= tr_id r < next_region_id st)%Z (regions st);
  wf_next_id : (1 <= next_region_id st <= u64_max)%Z;
  wf_next_epoch : (0 <= next_epoch st <= u64_max)%Z;
}.

Lemma wrapping_add_next n : (0 <= n < u64_max)%Z -> wrapping_add 64 n 1 = (n + 1)%Z.
Proof. intros. unfold wrapping_add. apply wrap_small. unfold u64_max in *. lia. Qed.

Lemma wf_find region_id st i region :
  wf_state st -> find_region region_id st = Some (i, region) -> wf_region region.
Proof.
  intros Hwf (Hi & _)%find_region_Some. eapply Forall_lookup_1; [by apply wf_regions|done].
Qed.

Lemma wf_new ps : wf_state (new ps).
Proof. split; simpl; try constructor; unfold u64_max; lia. Qed.

Lemma wf_push region st :
  wf_state st -> (next_region_id st < u64_max)%Z -> tr_id region = next_region_id st ->
  wf_region region -> wf_state (push_region region st).
Proof.
  intros [Hp Hr Hn Hi Hid He] Hlt Hreg Hwr. unfold push_region. split; simpl; [done|..].
  - apply Forall_app. by split; [|constructor].
  - rewrite fmap_app. apply NoDup_app. split_and!; [done| |apply NoDup_singleton].
    intros x (r & -> & Hx)%list_elem_of_fmap Heq%list_elem_of_singleton.
    rewrite Forall_forall in Hi. specialize (Hi _ Hx). simpl in *. lia.
  - rewrite wrapping_add_next by lia. apply Forall_app. split.
    + eapply Forall_impl; [done|]. simpl. lia.
    + constructor; [lia|done].
  - rewrite wrapping_add_next by lia. lia.
  - done.
Qed.

Lemma wf_bump st : wf_state st -> wf_state (bump_epoch st).
Proof.
  intros [Hp Hr Hn Hi Hid He]. split; simpl; try done.
  unfold wrapping_add, u64_max. pose proof (wrap_range 64 (next_epoch st + 1)). lia.
Qed.

Lemma wf_set_shadow region_id st i region sh :
  wf_state st -> find_region region_id st = Some (i, region) ->
  tr_kind region = OpaqueShadow -> length sh = tr_len region ->
  wf_state (set_shadow i region sh st).
Proof.
  intros [Hp Hr Hn Hi Hid He] (Hl & Heq & _)%find_region_Some Hk Hsh.
  unfold set_shadow. split; simpl; try done.
  - apply Forall_insert; [done|]. unfold wf_region; simpl. rewrite Hk. eauto.
  - rewrite list_fmap_insert; simpl. rewrite list_insert_id; [done|].
    by rewrite list_lookup_fmap, Hl.
  - apply Forall_insert; [done|]. simpl. eapply Forall_lookup_1 in Hl; [|done]. done.
Qed.

(** ** The guards and their outcomes *)

Lemma opaque_region_Ok region_id n st i region sh :
  opaque_region region_id n st = Ok (i, region, sh) <->
  find_region region_id st = Some (i, region) /\ tr_kind region = OpaqueShadow /\
  tr_len region = n /\ tr_shadow region = Some sh.
Proof.
  unfold opaque_region. split.
  - destruct (find_region _ _) as [[j r]|]; simpl; [|done].
    repeat case_decide; try done. destruct (tr_shadow r) eqn:?; simpl; [|done].
    intros [= <- <- <-]. split_and!; try done; by apply dec_stable.
  - intros (-> & Hk & Hn & Hs). simpl.
    rewrite decide_False, decide_False by (by intros []).
    by rewrite Hs.
Qed.

Lemma opaque_region_no_panic region_id n st : opaque_region region_id n st <> Panic.
Proof.
  unfold opaque_region. destruct (find_region _ _) as [[j r]|]; simpl; [|done].
  repeat case_decide; try done. by destruct (tr_shadow r).
Qed.

(** ** What a host checkpoint computes *)

(** The dirty pages of a checkpoint of [current] against [shadow]. *)
Definition dirty_pages_of (region_id : Z) (ps : nat) (current shadow : list Z) : list DirtyPage :=
  dirty_from region_id ps current shadow 0 (div_ceil (length current) ps).

Lemma create_host_delta_eq region_id current st i region sh :
  wf_state st ->
  opaque_region region_id (length current) st = Ok (i, region, sh) ->
  create_host_delta region_id current st =
  (bump_epoch (set_shadow i region current st),
   Ok (mkDeltaRecord (next_epoch st) region_id (tr_base_addr region)
         (dirty_pages_of region_id (page_size st) current sh))).
Proof.
  intros Hwf Hg. unfold create_host_delta. rewrite Hg.
  apply opaque_region_Ok in Hg as (Hf & Hk & Hn & Hs).
  pose proof (wf_find _ _ _ _ Hwf Hf) as Hr. unfold wf_region in Hr. rewrite Hk in Hr.
  destruct Hr as (sh' & Hs' & Hlen). rewrite Hs in Hs'. injection Hs' as <-.
  pose proof (wf_page_size _ Hwf) as Hps.
  assert (length sh = length current) as Hl by congruence.
  pose proof (host_scan_pages region_id _ current sh Hps Hl 0
    (div_ceil (length current) (page_size st)) []
    (fun j => pages_in_range _ current j Hps)) as Hscan.
  unfold step_by. rewrite Nat.mul_0_l, Nat.add_0_l in Hscan. unfold mix at 1 in Hscan.
  rewrite take_0, drop_0 in Hscan. simpl app in Hscan. rewrite Hscan.
  rewrite pages_cover by done. by rewrite set_shadow_bump.
Qed.

(** Outcome of [create_host_delta] in a well-formed state, by the guards. *)
Lemma create_host_delta_cases region_id current st :
  wf_state st ->
  (exists i region sh,
     find_region region_id st = Some (i, region) /\ tr_kind region = OpaqueShadow /\
     tr_len region = length current /\ tr_shadow region = Some sh /\
     create_host_delta region_id current st =
       (bump_epoch (set_shadow i region current st),
        Ok (mkDeltaRecord (next_epoch st) region_id (tr_base_addr region)
              (dirty_pages_of region_id (page_size st) current sh)))) \/
  (exists e, opaque_region region_id (length current) st = Err e /\
     create_host_delta region_id current st = (st, Err e)).
Proof.
  intros Hwf. destruct (opaque_region region_id (length current) st) as [[[i r] sh]|e|] eqn:Hg.
  - left. exists i, r, sh. pose proof (create_host_delta_eq _ _ _ _ _ _ Hwf Hg).
    apply opaque_region_Ok in Hg. naive_solver.
  - right. exists e. unfold create_host_delta. by rewrite Hg.
  - by apply opaque_region_no_panic in Hg.
Qed.

(** ** Replaying pages *)

Definition page_records (epoch : Z) (pages : list DirtyPage) : list AofRecord :=
  (fun page => mkAofRecord epoch (dp_region_id page) (Z.of_nat (dp_offset page)) (dp_data page)) <$> pages.

(** A page that fits the buffer it is replayed on. *)
Definition page_fits (len : nat) (p : DirtyPage) : Prop := dp_offset p + length (dp_data p) <= len.

Lemma length_put_page buf p : length (put_page buf p) = length buf.
Proof. apply length_inserts. Qed.

Lemma length_put_pages pages buf : length (foldl put_page buf pages) = length buf.
Proof.
  revert buf. induction pages as [|p pages IH]; intros buf; simpl; [done|].
  by rewrite IH, length_put_page.
Qed.

Lemma apply_record_fits n epoch p buf :
  (Z.of_nat (length buf) <= u64_max)%Z -> page_fits (length buf) p ->
  apply_record n (mkAofRecord epoch (dp_region_id p) (Z.of_nat (dp_offset p)) (dp_data p)) buf =
  (put_page buf p, Ok (n + 1)).
Proof.
  unfold page_fits. intros Hb Hp. unfold apply_record; simpl.
  rewrite decide_False by lia. unfold stm_get, mbind, stm_bind; simpl.
  rewrite decide_False by lia. unfold copy_from_slice, stm_lift, stm_put.
  rewrite decide_True by lia. simpl. unfold put_page. by rewrite Nat2Z.id.
Qed.

Lemma apply_pages_go n epoch pages buf :
  (Z.of_nat (length buf) <= u64_max)%Z -> Forall (page_fits (length buf)) pages ->
  stm_foldM apply_record n (page_records epoch pages) buf =
  (foldl put_page buf pages, Ok (n + length pages)).
Proof.
  revert n buf. induction pages as [|p pages IH]; intros n buf Hb Hp; simpl.
  - by rewrite Nat.add_0_r.
  - apply Forall_cons in Hp as [Hp Hps].
    erewrite stm_bind_Ok by (by apply apply_record_fits).
    fold (page_records epoch pages). rewrite IH by (by rewrite length_put_page).
    do 2 f_equal. lia.
Qed.

Lemma filter_page_records region_id epoch pages :
  Forall (fun p => dp_region_id p = region_id) pages ->
  filter (fun record => ar_region_id record = region_id) (page_records epoch pages) =
  page_records epoch pages.
Proof.
  induction 1 as [|p pages Hp _ IH]; [done|].
  change (page_records epoch (p :: pages)) with
    (mkAofRecord epoch (dp_region_id p) (Z.of_nat (dp_offset p)) (dp_data p) :: page_records epoch pages).
  rewrite filter_cons, decide_True by done. by rewrite IH.
Qed.

Lemma apply_pages region_id epoch pages buf :
  (Z.of_nat (length buf) <= u64_max)%Z -> Forall (page_fits (length buf)) pages ->
  Forall (fun p => dp_region_id p = region_id) pages ->
  apply_records_to_region region_id (page_records epoch pages) buf =
  (foldl put_page buf pages, Ok (length pages)).
Proof.
  intros Hb Hf Hr. unfold apply_records_to_region.
  rewrite filter_page_records by done. by rewrite apply_pages_go.
Qed.

Lemma elem_of_dirty_from region_id ps current shadow k n p :
  p ∈ dirty_from region_id ps current shadow k n <->
  exists j, k <= j < k + n /\ page_of ps current current j <> page_of ps current shadow j /\
    p = mkDirtyPage region_id (j * ps) (page_of ps current current j).
Proof.
  unfold dirty_from. rewrite list_elem_of_omap. setoid_rewrite elem_of_seq. split.
  - intros (j & ? & Hp). case_decide; [|done]. simplify_eq. eauto.
  - intros (j & ? & ? & ->). exists j. split; [done|]. by rewrite decide_True.
Qed.

Lemma dirty_pages_of_fit region_id ps current shadow :
  0 < ps ->
  Forall (page_fits (length current)) (dirty_pages_of region_id ps current shadow) /\
  Forall (fun p => dp_region_id p = region_id) (dirty_pages_of region_id ps current shadow).
Proof.
  intros Hps. rewrite !Forall_forall. split; intros p (j & Hj & _ & ->)%elem_of_dirty_from; [|done].
  apply (pages_in_range ps current j Hps) in Hj. unfold page_fits; simpl.
  rewrite length_page_of by done. lia.
Qed.

Lemma replay_dirty_pages region_id ps current shadow :
  0 < ps -> length shadow = length current ->
  foldl put_page shadow (dirty_pages_of region_id ps current shadow) = current.
Proof.
  intros Hps Hl. pose proof (replay_all region_id ps current shadow Hps Hl 0 _
    (fun j => pages_in_range ps current j Hps)) as H.
  rewrite Nat.add_0_l, pages_cover in H by done. rewrite <- H at 2. unfold dirty_pages_of, mix. by rewrite drop_0.
Qed.

(** ** What a bitmap checkpoint computes *)
Section BitmapLoop.
Context (region_id : Z) (ps : nat) (current bitmap : list Z).

Definition marked_from (k n : nat) : list DirtyPage :=
  omap (fun k => if bitmap_bit bitmap k
                 then Some (mkDirtyPage region_id (k * ps) (page_of ps current current k)) else None)
    (seq k n).

Lemma marked_from_S k n :
  marked_from k (S n) =
  (if bitmap_bit bitmap k then [mkDirtyPage region_id (k * ps) (page_of ps current current k)] else [])
  ++ marked_from (S k) n.
Proof. unfold marked_from. simpl. by destruct (bitmap_bit bitmap k). Qed.

Lemma bitmap_scan_page_step k acc :
  k * ps < length current ->
  bitmap_scan_page region_id ps current bitmap acc k = Ok (acc ++ marked_from k 1).
Proof.
  intros Hk. rewrite marked_from_S. change (marked_from (S k) 0) with (@nil DirtyPage).
  rewrite app_nil_r. unfold bitmap_scan_page.
  destruct (bitmap_bit bitmap k); [|by rewrite app_nil_r].
  by rewrite (proj2 (slice_Some (k * ps) ((k * ps + ps) `min` length current) current
    (page_of ps current current k))) by (split; [lia|done]).
Qed.

Lemma bitmap_scan_pages k n acc :
  (forall j, k <= j < k + n -> j * ps < length current) ->
  foldM (bitmap_scan_page region_id ps current bitmap) acc (seq k n) = Ok (acc ++ marked_from k n).
Proof.
  revert k acc. induction n as [|n IH]; intros k acc Hj.
  - simpl. by rewrite app_nil_r.
  - cbn [seq foldM]. rewrite bitmap_scan_page_step by (apply Hj; lia).
    cbn [mbind outcome_bind]. rewrite IH by (intros; apply Hj; lia).
    rewrite <- app_assoc, !marked_from_S.
    change (marked_from (S k) 0) with (@nil DirtyPage). by rewrite app_nil_r.
Qed.

Lemma lookup_put_marked t k n i :
  0 < ps -> length t = length current -> i < length current ->
  (forall j, k <= j < k + n -> j * ps < length current) ->
  foldl put_page t (marked_from k n) !! i =
  if decide (k <= i / ps < k + n) then
    if bitmap_bit bitmap (i / ps) then current !! i else t !! i
  else t !! i.
Proof.
  intros Hps Ht Hi. revert t k Ht. induction n as [|n IH]; intros t k Ht Hj.
  - simpl. by rewrite decide_False by lia.
  - rewrite marked_from_S, foldl_app.
    pose proof (Nat.div_mod_eq i ps) as Hdm. pose proof (Nat.mod_upper_bound i ps ltac:(lia)).
    assert (k * ps < length current) as Hk by (apply Hj; lia).
    pose proof (length_page_of ps current current k eq_refl Hk) as Hlp.
    rewrite IH; [|by destruct (bitmap_bit bitmap k); simpl; rewrite ?length_put_page
                 |intros; apply Hj; lia].
    assert (forall c, put_page t (mkDirtyPage region_id (k * ps) (page_of ps current current k)) !! i = c
      <-> (if decide (i / ps = k) then current !! i else t !! i) = c) as Hput.
    { intros c. unfold put_page; simpl. case_decide as Hd.
      - rewrite lookup_inserts_in by nia.
        rewrite lookup_page_of, decide_True by nia.
        by replace (k * ps + (i - k * ps)) with i by nia.
      - rewrite lookup_inserts_out; [done|]. rewrite Hlp.
        destruct (decide (i / ps < k)); [left; nia|right].
        assert (S k <= i / ps) by lia. nia. }
    destruct (decide (i / ps = k)) as [Heq|Hne].
    + rewrite decide_False by lia. rewrite decide_True by lia. subst k.
      destruct (bitmap_bit bitmap (i / ps)); simpl; [by apply Hput|done].
    + replace (foldl put_page t (if bitmap_bit bitmap k then _ else []) !! i) with (t !! i).
      * destruct (decide (S k <= i / ps < S k + n)), (decide (k <= i / ps < k + S n)); (done || lia).
      * destruct (bitmap_bit bitmap k); simpl; [|done]. symmetry. by apply Hput.
Qed.

End BitmapLoop.

Lemma wf_shadow_length region_id st i region sh :
  wf_state st -> find_region region_id st = Some (i, region) ->
  tr_kind region = OpaqueShadow -> tr_shadow region = Some sh -> length sh = tr_len region.
Proof.
  intros Hwf Hf Hk Hs. pose proof (wf_find _ _ _ _ Hwf Hf) as Hr.
  unfold wf_region in Hr. rewrite Hk in Hr. destruct Hr as (? & ? & ?). congruence.
Qed.

Lemma shadow_of_find region_id st i region :
  find_region region_id st = Some (i, region) -> shadow_of region_id st = tr_shadow region.
Proof. unfold shadow_of, region_of. by intros ->. Qed.

(** The replay of a successful checkpoint, for the clients of this file. *)
Lemma host_delta_replays region_id current st st' delta sh :
  wf_state st -> (Z.of_nat (length current) <= isize_max)%Z ->
  create_host_delta region_id current st = (st', Ok delta) ->
  shadow_of region_id st = Some sh ->
  apply_records_to_region region_id (delta_records delta) sh =
    (current, Ok (length (dr_dirty_pages delta))) /\
  shadow_of region_id st' = Some current /\
  (forall id, id <> region_id -> shadow_of id st' = shadow_of id st).
Proof.
  intros Hwf Hmax Hc Hsh.
  destruct (create_host_delta_cases region_id current st Hwf)
    as [(i & r & sh' & Hf & Hk & Hn & Hs & Heq)|(e & _ & Heq)]; rewrite Heq in Hc; [|done].
  injection Hc as <- <-. simpl.
  rewrite (shadow_of_find _ _ _ _ Hf), Hs in Hsh. injection Hsh as ->.
  pose proof (wf_shadow_length _ _ _ _ _ Hwf Hf Hk Hs) as Hl.
  pose proof (wf_page_size _ Hwf) as Hps.
  destruct (dirty_pages_of_fit region_id _ current sh Hps) as [Hfit Hids].
  split_and!.
  - unfold delta_records; simpl. rewrite Hn in Hl.
    rewrite <- (replay_dirty_pages region_id (page_size st) current sh) at 2 by done.
    apply apply_pages; [|by rewrite Hl|done]. unfold u64_max, isize_max in *. lia.
  - unfold shadow_of, region_of. rewrite find_region_bump.
    by rewrite (find_set_shadow _ _ _ _ _ _ Hf), decide_True.
  - intros id Hid. unfold shadow_of, region_of. rewrite find_region_bump.
    by rewrite (find_set_shadow _ _ _ _ _ _ Hf), decide_False.
Qed.

(** ** Reachable states *)
Inductive delta_op : Type :=
| RegisterOpaque (base_addr : Z) (initial : list Z)
| RegisterBitmap (base_addr : Z) (len : nat)
| HostDelta (region_id : Z) (current : list Z)
| BitmapDelta (region_id : Z) (current dirty_bitmap : list Z)
| RefreshShadow (region_id : Z) (current : list Z).

(** One call on the state, and whether it panics. *)
Definition delta_step (op : delta_op) (st : DeltaCheckpointState) : DeltaCheckpointState * bool :=
  match op with
  | RegisterOpaque base initial => (fst (register_opaque_host_region base initial st), false)
  | RegisterBitmap base len => (fst (register_allocator_bitmap_region base len st), false)
  | HostDelta id current =>
      let '(st', r) := create_host_delta id current st in
      (st', match r with Panic => true | _ => false end)
  | BitmapDelta id current bitmap =>
      let '(st', r) := create_bitmap_delta id current bitmap st in
      (st', match r with Panic => true | _ => false end)
  | RefreshShadow id current =>
      let '(st', r) := refresh_opaque_shadow id current st in
      (st', match r with Panic => true | _ => false end)
  end.

Inductive delta_reachable (ps : nat) : nat -> DeltaCheckpointState -> Prop :=
| delta_init : delta_reachable ps 0 (new ps)
| delta_next n st op :
    delta_reachable ps n st -> delta_reachable ps (S n) (fst (delta_step op st)).

Lemma create_bitmap_delta_cases region_id current bitmap st :
  wf_state st ->
  (exists i region,
     find_region region_id st = Some (i, region) /\ tr_kind region = AllocatorBitmap /\
     tr_len region = length current /\
     create_bitmap_delta region_id current bitmap st =
       (bump_epoch st,
        Ok (mkDeltaRecord (next_epoch st) region_id (tr_base_addr region)
              (marked_from region_id (page_size st) current bitmap 0
                 (div_ceil (length current) (page_size st)))))) \/
  (exists e, create_bitmap_delta region_id current bitmap st = (st, Err e)).
Proof.
  intros Hwf. unfold create_bitmap_delta.
  destruct (find_region region_id st) as [[i r]|] eqn:Hf; [|by eauto].
  case_decide as Hk; [by eauto|]. case_decide as Hn; [by eauto|].
  left. exists i, r.
  rewrite bitmap_scan_pages; [done|]. intros j Hj. eapply pages_in_range; [|done]. by apply Hwf.
Qed.

Lemma refresh_opaque_shadow_cases region_id current st :
  wf_state st ->
  (exists i region,
     find_region region_id st = Some (i, region) /\ tr_kind region = OpaqueShadow /\
     tr_len region = length current /\
     refresh_opaque_shadow region_id current st = (set_shadow i region current st, Ok tt)) \/
  (exists e, opaque_region region_id (length current) st = Err e /\
     refresh_opaque_shadow region_id current st = (st, Err e)).
Proof.
  intros Hwf. unfold refresh_opaque_shadow.
  destruct (opaque_region _ _ _) as [[[i r] sh]|e|] eqn:Hg; [|by eauto|].
  - left. apply opaque_region_Ok in Hg as (Hf & Hk & Hn & Hs). exists i, r.
    pose proof (wf_shadow_length _ _ _ _ _ Hwf Hf Hk Hs) as Hl.
    unfold copy_from_slice. rewrite decide_True by lia. split_and!; try done.
    do 2 f_equal. apply list_eq. intros j. destruct (decide (j < length sh)).
    + rewrite lookup_inserts_in by lia. by rewrite Nat.sub_0_r.
    + rewrite lookup_inserts_out by lia. by rewrite !lookup_ge_None_2 by lia.
  - by apply opaque_region_no_panic in Hg.
Qed.

Lemma delta_step_wf op st :
  wf_state st -> (next_region_id st < u64_max)%Z ->
  wf_state (fst (delta_step op st)) /\ snd (delta_step op st) = false /\
  (next_region_id (fst (delta_step op st)) <= next_region_id st + 1)%Z.
Proof.
  intros Hwf Hlt. pose proof (wf_next_id _ Hwf). destruct op; simpl.
  - split_and!; [|done|rewrite wrapping_add_next by lia; lia].
    apply wf_push; try done. simpl. unfold wf_region; simpl. eauto.
  - split_and!; [|done|rewrite wrapping_add_next by lia; lia]. by apply wf_push.
  - destruct (create_host_delta_cases region_id current st Hwf)
      as [(i & r & sh & Hf & Hk & Hn & Hs & ->)|(e & _ & ->)]; simpl; [|split_and!; (done || lia)].
    split_and!; [|done|lia]. apply wf_bump. by eapply wf_set_shadow.
  - destruct (create_bitmap_delta_cases region_id current dirty_bitmap st Hwf)
      as [(i & r & Hf & Hk & Hn & ->)|(e & ->)]; simpl; [|split_and!; (done || lia)].
    split_and!; [by apply wf_bump|done|lia].
  - destruct (refresh_opaque_shadow_cases region_id current st Hwf)
      as [(i & r & Hf & Hk & Hn & ->)|(e & _ & ->)]; simpl; [|split_and!; (done || lia)].
    split_and!; [|done|lia]. by eapply wf_set_shadow.
Qed.

(** ** Theorems *)

(** [C6] A successful checkpoint is complete: replaying the pages it records
    over the previous shadow reproduces the checkpointed contents byte for
    byte, reports one applied record per dirty page, makes those contents the
    new shadow and leaves every other region's shadow alone. *)
Theorem create_host_delta_replay region_id current st st' delta sh :
  wf_state st -> (Z.of_nat (length current) <= isize_max)%Z ->
  create_host_delta region_id current st = (st', Ok delta) ->
  shadow_of region_id st = Some sh ->
  apply_records_to_region region_id (delta_records delta) sh =
    (current, Ok (length (dr_dirty_pages delta))) /\
  shadow_of region_id st' = Some current /\
  (forall id, id <> region_id -> shadow_of id st' = shadow_of id st).
Proof. apply host_delta_replays. Qed.

Definition sample_state : DeltaCheckpointState :=
  fst (register_opaque_host_region 4096 [1; 2; 3; 4; 5]%Z (new 2)).

Lemma sample_state_wf : wf_state sample_state.
Proof. apply (delta_step_wf (RegisterOpaque 4096 [1; 2; 3; 4; 5]%Z) (new 2)); [apply wf_new|done]. Qed.

Lemma create_host_delta_replay_witness :
  apply_records_to_region 1 [mkAofRecord 1 1 2 [9; 4]%Z; mkAofRecord 1 1 4 [7]%Z] [1; 2; 3; 4; 5]%Z =
    ([1; 2; 9; 4; 7]%Z, Ok 2).
Proof.
  apply (create_host_delta_replay 1 [1; 2; 9; 4; 7]%Z sample_state
    (fst (create_host_delta 1 [1; 2; 9; 4; 7]%Z sample_state))
    (mkDeltaRecord 1 1 4096 [mkDirtyPage 1 2 [9; 4]%Z; mkDirtyPage 1 4 [7]%Z]) [1; 2; 3; 4; 5]%Z).
  - exact sample_state_wf.
  - vm_compute. discriminate.
  - vm_compute. reflexivity.
  - vm_compute. reflexivity.
Defined.

(** A successful checkpoint is minimal: it records exactly the pages that
    differ from the shadow, each with the current bytes of that page. *)
Theorem create_host_delta_minimal region_id current st st' delta sh p :
  wf_state st ->
  create_host_delta region_id current st = (st', Ok delta) ->
  shadow_of region_id st = Some sh ->
  p ∈ dr_dirty_pages delta <->
  exists k, k * page_size st < length current /\
    page_of (page_size st) current current k <> page_of (page_size st) current sh k /\
    p = mkDirtyPage region_id (k * page_size st) (page_of (page_size st) current current k).
Proof.
  intros Hwf Hc Hsh.
  destruct (create_host_delta_cases region_id current st Hwf)
    as [(i & r & sh' & Hf & Hk & Hn & Hs & Heq)|(e & _ & Heq)]; rewrite Heq in Hc; [|done].
  injection Hc as <- <-. simpl.
  rewrite (shadow_of_find _ _ _ _ Hf), Hs in Hsh. injection Hsh as ->.
  unfold dirty_pages_of. rewrite elem_of_dirty_from.
  pose proof (wf_page_size _ Hwf) as Hps.
  setoid_rewrite <- (div_ceil_spec (length current) (page_size st) _ Hps).
  split; intros (k & ? & ?); exists k; (split; [lia|done]).
Qed.

Lemma create_host_delta_minimal_witness :
  mkDirtyPage 1 2 [9; 4]%Z ∈ [mkDirtyPage 1 2 [9; 4]%Z].
Proof.
  apply (create_host_delta_minimal 1 [1; 2; 9; 4; 5]%Z sample_state
    (fst (create_host_delta 1 [1; 2; 9; 4; 5]%Z sample_state))
    (mkDeltaRecord 1 1 4096 [mkDirtyPage 1 2 [9; 4]%Z]) [1; 2; 3; 4; 5]%Z).
  - exact sample_state_wf.
  - vm_compute. reflexivity.
  - vm_compute. reflexivity.
  - exists 1. vm_compute. split; [lia|]. split; [discriminate|reflexivity].
Defined.

(** A refused checkpoint changes nothing and says why: the state is
    returned as it was (no epoch is consumed), and the error is an unknown
    region, a region of the other kind, or a size change.  Nothing panics and
    the missing-shadow error never occurs. *)
Theorem create_host_delta_refused region_id current st st' e :
  wf_state st ->
  create_host_delta region_id current st = (st', Err e) ->
  st' = st /\
  (e = UnknownRegion region_id /\ region_of region_id st = None \/
   exists region, region_of region_id st = Some region /\
     (e = NotOpaqueShadow region_id /\ tr_kind region = AllocatorBitmap \/
      e = SizeChanged region_id (tr_len region) (length current) /\
      tr_kind region = OpaqueShadow /\ tr_len region <> length current)).
Proof.
  intros Hwf Hc. destruct (create_host_delta_cases region_id current st Hwf)
    as [(i & r & sh' & Hf & Hk & Hn & Hs & Heq)|(e' & Hg & Heq)]; rewrite Heq in Hc; [done|].
  injection Hc as <- <-. split; [done|].
  unfold opaque_region, region_of in *.
  destruct (find_region region_id st) as [[i r]|] eqn:Hf; simpl in *; [|left; by simplify_eq].
  right. exists r. split; [done|]. repeat case_decide; simplify_eq/=.
  - left. split; [done|]. by destruct (tr_kind r).
  - right. naive_solver.
  - pose proof (wf_find _ _ _ _ Hwf Hf) as Hr. unfold wf_region in Hr.
    destruct (tr_kind r); [|done]. destruct Hr as (sh & Hs & _). by rewrite Hs in Hg.
Qed.

Lemma create_host_delta_refused_witness :
  UnknownRegion 7 = UnknownRegion 7 /\ region_of 7 sample_state = None.
Proof.
  destruct (create_host_delta_refused 7 [1]%Z sample_state sample_state (UnknownRegion 7)
    sample_state_wf eq_refl) as [_ [H|(r & H & _)]]; [exact H|discriminate H].
Defined.

(** [C33] Every state reachable from [new] by fewer than [u64::MAX - 1] calls is
    well formed (page size at least one, every opaque region with a shadow of
    its registered length, distinct ids below the next one), and no call panics
    in it. *)
Theorem delta_reachable_wf ps n st op :
  delta_reachable ps n st -> (Z.of_nat n + 1 < u64_max)%Z ->
  wf_state st /\ snd (delta_step op st) = false.
Proof.
  intros Hr Hn. cut (wf_state st /\ (next_region_id st <= Z.of_nat n + 1)%Z).
  { intros [Hwf Hid]. split; [done|]. apply delta_step_wf; [done|lia]. }
  induction Hr as [|n st op' _ IH]; [split; [apply wf_new|done]|].
  destruct IH as [Hwf Hid]; [lia|].
  destruct (delta_step_wf op' st) as (? & _ & ?); [done|lia|]. split; [done|lia].
Qed.

Lemma delta_reachable_wf_witness : wf_state sample_state /\ snd (delta_step (HostDelta 1 [1; 2]%Z) sample_state) = false.
Proof.
  apply (delta_reachable_wf 2 1 sample_state (HostDelta 1 [1; 2]%Z)).
  - exact (delta_next 2 0 (new 2) (RegisterOpaque 4096 [1; 2; 3; 4; 5]%Z) (delta_init 2)).
  - vm_compute. reflexivity.
Defined.

(** A bitmap checkpoint copies exactly the marked pages: replayed over any
    buffer of the region's size, byte [i] becomes the current byte when the bit
    of its page is set and keeps its value otherwise; pages past the end of the
    bitmap count as clean, and only the epoch counter moves. *)
Theorem create_bitmap_delta_replay region_id current bitmap st st' delta target i :
  wf_state st -> (Z.of_nat (length current) <= isize_max)%Z ->
  create_bitmap_delta region_id current bitmap st = (st', Ok delta) ->
  length target = length current -> i < length current ->
  st' = bump_epoch st /\
  exists target',
    apply_records_to_region region_id (delta_records delta) target =
      (target', Ok (length (dr_dirty_pages delta))) /\
    target' !! i = if bitmap_bit bitmap (i / page_size st) then current !! i else target !! i.
Proof.
  intros Hwf Hmax Hc Ht Hi. destruct (create_bitmap_delta_cases region_id current bitmap st Hwf)
    as [(j & r & Hf & Hk & Hn & Heq)|(e & Heq)]; rewrite Heq in Hc; [|done].
  injection Hc as <- <-. split; [done|]. simpl.
  pose proof (wf_page_size _ Hwf) as Hps.
  assert (forall j, 0 <= j < 0 + div_ceil (length current) (page_size st) ->
    j * page_size st < length current) as Hin by (intros; by eapply pages_in_range).
  eexists. split.
  - unfold delta_records; simpl. apply apply_pages.
    + unfold u64_max, isize_max in *. lia.
    + rewrite Ht. apply Forall_forall. intros p (k & Hp1 & Hp2)%list_elem_of_omap.
      apply elem_of_seq in Hp1. destruct (bitmap_bit bitmap k); simplify_eq.
      specialize (Hin k ltac:(lia)).
      unfold page_fits; simpl. rewrite length_page_of by done. lia.
    + apply Forall_forall. intros p (k & Hp1 & Hp2)%list_elem_of_omap.
      destruct (bitmap_bit bitmap k); by simplify_eq.
  - rewrite lookup_put_marked by done. rewrite decide_True; [done|].
    split; [lia|]. apply div_ceil_spec; [done|].
    rewrite Nat.mul_comm. eapply Nat.le_lt_trans; [apply Nat.Div0.mul_div_le|done].
Qed.

Definition sample_bitmap_state : DeltaCheckpointState :=
  fst (register_allocator_bitmap_region 8192 5 (new 2)).

Lemma sample_bitmap_state_wf : wf_state sample_bitmap_state.
Proof. apply (delta_step_wf (RegisterBitmap 8192 5) (new 2)); [apply wf_new|done]. Qed.

Lemma create_bitmap_delta_replay_witness :
  exists target',
    apply_records_to_region 1 [mkAofRecord 1 1 0 [1; 2]%Z; mkAofRecord 1 1 4 [5]%Z] [0; 0; 0; 0; 0]%Z =
      (target', Ok 2) /\ target' !! 4 = Some 5%Z.
Proof.
  apply (create_bitmap_delta_replay 1 [1; 2; 3; 4; 5]%Z [5]%Z sample_bitmap_state
    (bump_epoch sample_bitmap_state)
    (mkDeltaRecord 1 1 8192 [mkDirtyPage 1 0 [1; 2]%Z; mkDirtyPage 1 4 [5]%Z])
    [0; 0; 0; 0; 0]%Z 4).
  - exact sample_bitmap_state_wf.
  - vm_compute. discriminate.
  - vm_compute. reflexivity.
  - reflexivity.
  - simpl. lia.
Defined.
