(* ===== verification/Aof.v ===== *)
(** * The append-only checkpoint log
    ([zluda/src/impl/concordia_delta.rs], second half)

    [AofLog] is the in-memory log, [AofDiskLog] the file: every record is a
    44-byte header (magic, epoch, region, offset, length, FNV-1a checksum), the
    payload and a commit marker.  A reader takes the longest run of committed
    records from the start of the file. *)
From stdpp Require Import base numbers list strings gmap.
From Stdlib Require Import ZArith Lia.
From S2P Require Import Prelude HostIO Delta.

(** ** The in-memory log *)
Record AofEntry : Type := mkAofEntry {
  ae_record : AofRecord;
  ae_committed : bool;
}.

Record AofLog : Type := mkAofLog { entries : list AofEntry }.

Definition append_committed (epoch region_id : Z) (offset : nat) (payload : list Z)
    (log : AofLog) : AofLog :=
  mkAofLog (entries log ++
    [mkAofEntry (mkAofRecord epoch region_id (Z.of_nat offset) payload) true]).

Definition mem_append_delta (delta : DeltaRecord) (log : AofLog) : AofLog :=
  foldl (fun log page =>
           append_committed (dr_epoch delta) (dp_region_id page) (dp_offset page) (dp_data page) log)
    log (dr_dirty_pages delta).

(** [Iterator::take_while] *)
Fixpoint take_while {A} (f : A -> bool) (l : list A) : list A :=
  match l with
  | [] => []
  | a :: l => if f a then a :: take_while f l else []
  end.

Definition replay_committed (log : AofLog) : list AofRecord :=
  ae_record <$> take_while ae_committed (entries log).

(** ** The record format *)
Definition AOF_MAGIC : list Z := [67; 79; 78; 67]%Z.
Definition AOF_COMMIT : list Z := [67; 77; 73; 84]%Z.
Definition AOF_HEADER_LEN : nat := 44.
Definition AOF_CHECKSUM_OFFSET : nat := 36.

Definition fnv1a64 (hash : Z) (bytes : list Z) : Z :=
  foldl (fun hash byte => wrapping_mul 64 (Z.lxor hash byte) 0x100000001b3) hash bytes.

Definition aof_checksum (epoch region_id offset payload_len : Z) (payload : list Z) : Z :=
  let hash := 0xcbf29ce484222325%Z in
  let hash := fnv1a64 hash (le_bytes 8 epoch) in
  let hash := fnv1a64 hash (le_bytes 8 region_id) in
  let hash := fnv1a64 hash (le_bytes 8 offset) in
  let hash := fnv1a64 hash (le_bytes 8 payload_len) in
  fnv1a64 hash payload.

Definition read_le_u64 (bytes : list Z) : Z := le_decode bytes.

(** ** The log file *)
Record AofDiskLog : Type := mkAofDiskLog { log_path : string }.

Definition create (path : string) : stm world io_error AofDiskLog :=
  open_truncate path ;; mret (mkAofDiskLog path).

Definition open_append (path : string) : stm world io_error AofDiskLog :=
  open_for_append path ;; mret (mkAofDiskLog path).

(** [u64::try_from] on a [usize] cannot fail on the 64-bit targets. *)
Definition append_record (log : AofDiskLog) (record : AofRecord) : stm world io_error unit :=
  let path := log_path log in
  let offset := ar_offset record in
  let payload_len := Z.of_nat (length (ar_payload record)) in
  write_all path AOF_MAGIC ;;
  write_all path (le_bytes 8 (ar_epoch record)) ;;
  write_all path (le_bytes 8 (ar_region_id record)) ;;
  write_all path (le_bytes 8 offset) ;;
  write_all path (le_bytes 8 payload_len) ;;
  write_all path (le_bytes 8 (aof_checksum (ar_epoch record) (ar_region_id record) offset
                                payload_len (ar_payload record))) ;;
  write_all path (ar_payload record) ;;
  write_all path AOF_COMMIT ;;
  flush.

Definition append_delta (log : AofDiskLog) (delta : DeltaRecord) : stm world io_error unit :=
  stm_iter (append_record log) (delta_records delta).

(** The header fields, from the 44 header bytes. *)
Definition header_field (lo : nat) (header : list Z) : Z := read_le_u64 (take 8 (drop lo header)).

(** The read loop.  A [usize] holds every [u64]; [vec!\[0u8; n\]] panics with a
    capacity overflow above [isize::MAX].  [fuel] bounds the number of records:
    each one consumes bytes, so more fuel than bytes is enough. *)
Fixpoint read_loop (fuel : nat) (file : reader) : outcome io_error (list AofRecord) :=
  match fuel with
  | 0 => Ok []
  | S fuel =>
      match read_exact (Z.of_nat AOF_HEADER_LEN) file with
      | ReadEof => Ok []
      | ReadFail => Err DeviceError
      | ReadOk header file =>
          if decide (take 4 header <> AOF_MAGIC) then Ok [] else
          let epoch := header_field 4 header in
          let region_id := header_field 12 header in
          let offset := header_field 20 header in
          let payload_len := header_field 28 header in
          let checksum := header_field AOF_CHECKSUM_OFFSET header in
          if decide (isize_max < payload_len)%Z then Panic else
          match read_exact payload_len file with
          | ReadOk payload file =>
              if decide (aof_checksum epoch region_id offset payload_len payload <> checksum)
              then Ok [] else
              match read_exact 4 file with
              | ReadOk commit file =>
                  if decide (commit <> AOF_COMMIT) then Ok [] else
                  records ← read_loop fuel file;
                  Ok (mkAofRecord epoch region_id offset payload :: records)
              | _ => Ok []
              end
          | _ => Ok []
          end
      end
  end.

Definition read_bytes (file : reader) : outcome io_error (list AofRecord) :=
  read_loop (S (length (rd_rest file))) file.

Definition read_committed (path : string) (w : world) : outcome io_error (list AofRecord) :=
  file ← open_read path w; read_bytes file.

(** ** The encoding as a specification *)

Definition encode_record (record : AofRecord) : list Z :=
  let payload_len := Z.of_nat (length (ar_payload record)) in
  AOF_MAGIC ++ le_bytes 8 (ar_epoch record) ++ le_bytes 8 (ar_region_id record) ++
  le_bytes 8 (ar_offset record) ++ le_bytes 8 payload_len ++
  le_bytes 8 (aof_checksum (ar_epoch record) (ar_region_id record) (ar_offset record)
                payload_len (ar_payload record)) ++
  ar_payload record ++ AOF_COMMIT.

Definition encode_records (records : list AofRecord) : list Z := flat_map encode_record records.

(** Records whose fields fit the types of the code. *)
Record wf_record (record : AofRecord) : Prop := mk_wf_record {
  wf_epoch : (0 <= ar_epoch record <= u64_max)%Z;
  wf_region_id : (0 <= ar_region_id record <= u64_max)%Z;
  wf_offset : (0 <= ar_offset record <= u64_max)%Z;
  wf_payload : (Z.of_nat (length (ar_payload record)) <= isize_max)%Z;
}.

(** Header bytes of a record, before the payload. *)
Definition encode_header (record : AofRecord) : list Z :=
  let payload_len := Z.of_nat (length (ar_payload record)) in
  AOF_MAGIC ++ le_bytes 8 (ar_epoch record) ++ le_bytes 8 (ar_region_id record) ++
  le_bytes 8 (ar_offset record) ++ le_bytes 8 payload_len ++
  le_bytes 8 (aof_checksum (ar_epoch record) (ar_region_id record) (ar_offset record)
                payload_len (ar_payload record)).

Lemma encode_record_split record :
  encode_record record = encode_header record ++ ar_payload record ++ AOF_COMMIT.
Proof. unfold encode_record, encode_header. by rewrite <- !app_assoc. Qed.

Lemma length_encode_header record : length (encode_header record) = AOF_HEADER_LEN.
Proof. unfold encode_header. rewrite !length_app, !length_le_bytes. done. Qed.

Lemma length_encode_record record :
  length (encode_record record) = 48 + length (ar_payload record).
Proof.
  rewrite encode_record_split, !length_app, length_encode_header.
  unfold AOF_HEADER_LEN; simpl. lia.
Qed.

Lemma fnv1a64_range hash bytes :
  (0 <= hash < 2 ^ 64)%Z -> (0 <= fnv1a64 hash bytes < 2 ^ 64)%Z.
Proof.
  revert hash. induction bytes as [|b bytes IH]; intros hash Hh; simpl; [done|].
  apply IH. apply wrap_range. lia.
Qed.

Lemma aof_checksum_range epoch region_id offset payload_len payload :
  (0 <= aof_checksum epoch region_id offset payload_len payload < 2 ^ 64)%Z.
Proof. unfold aof_checksum. by do 5 apply fnv1a64_range. Qed.

Lemma header_fields record :
  wf_record record ->
  let header := encode_header record in
  take 4 header = AOF_MAGIC /\
  header_field 4 header = ar_epoch record /\
  header_field 12 header = ar_region_id record /\
  header_field 20 header = ar_offset record /\
  header_field 28 header = Z.of_nat (length (ar_payload record)) /\
  header_field AOF_CHECKSUM_OFFSET header =
    aof_checksum (ar_epoch record) (ar_region_id record) (ar_offset record)
      (Z.of_nat (length (ar_payload record))) (ar_payload record).
Proof.
  intros [He Hr Ho Hp]. unfold u64_max, isize_max in *.
  assert (forall z, (0 <= z < 2 ^ 64)%Z -> read_le_u64 (le_bytes 8 z) = z) as Hrt.
  { intros z Hz. by apply le_decode_le_bytes_small. }
  unfold header_field, encode_header; simpl.
  repeat split; (by apply Hrt; lia) || (apply Hrt; apply aof_checksum_range).
Qed.

(** ** Reading back what was written *)
#[local] Arguments encode_record : simpl never.

Lemma read_loop_record fuel record rest :
  wf_record record ->
  read_loop (S fuel) (mkReader (encode_record record ++ rest) None) =
  records ← read_loop fuel (mkReader rest None); Ok (record :: records).
Proof.
  intros Hwf. rewrite encode_record_split, <- !app_assoc. cbn [read_loop].
  rewrite read_exact_app by (by rewrite length_encode_header).
  destruct (header_fields record Hwf) as (Hm & -> & -> & -> & -> & ->).
  rewrite decide_False by (by intros []).
  rewrite decide_False by (pose proof (wf_payload _ Hwf); lia).
  rewrite read_exact_app by done. rewrite decide_False by (by intros []).
  rewrite read_exact_app by done. rewrite decide_False by (by intros []).
  by destruct record.
Qed.

Lemma read_loop_torn fuel record p :
  wf_record record -> p `prefix_of` encode_record record -> p <> encode_record record ->
  read_loop fuel (mkReader p None) = Ok [].
Proof.
  intros Hwf Hp Hne. destruct fuel as [|fuel]; [done|]. cbn [read_loop].
  assert (length p < length (encode_record record)) as Hlt.
  { apply prefix_length in Hp as Hle. apply Nat.le_neq. split; [done|].
    intros Heq. apply Hne. apply prefix_length_eq; [done|lia]. }
  rewrite length_encode_record in Hlt.
  destruct (decide (length p < AOF_HEADER_LEN)) as [Hs|Hs].
  { rewrite read_exact_short by lia. done. }
  assert (exists q, p = encode_header record ++ q /\ q `prefix_of` ar_payload record ++ AOF_COMMIT)
    as (q & -> & Hq).
  { rewrite encode_record_split in Hp. destruct Hp as [z Hz].
    exists (drop AOF_HEADER_LEN p).
    assert (take AOF_HEADER_LEN p = encode_header record) as Ht.
    { pose proof (f_equal (take AOF_HEADER_LEN) Hz) as Ht.
      rewrite take_app_le, take_app_le in Ht by (rewrite ?length_encode_header; lia).
      rewrite (take_ge (encode_header record)) in Ht by (rewrite length_encode_header; lia). done. }
    split; [by rewrite <- Ht, take_drop|].
    exists z. pose proof (f_equal (drop AOF_HEADER_LEN) Hz) as Hd.
    rewrite drop_app_le, drop_app_le in Hd by (rewrite ?length_encode_header; lia).
    rewrite (drop_ge (encode_header record)) in Hd by (rewrite length_encode_header; lia).
    done. }
  rewrite read_exact_app by (by rewrite length_encode_header).
  destruct (header_fields record Hwf) as (Hm & -> & -> & -> & -> & ->).
  rewrite decide_False by (by intros []).
  rewrite decide_False by (pose proof (wf_payload _ Hwf); lia).
  rewrite length_app, length_encode_header in Hlt. unfold AOF_HEADER_LEN in Hlt.
  destruct (decide (length q < length (ar_payload record))) as [Hq1|Hq1].
  { by rewrite read_exact_short by lia. }
  rewrite read_exact_nofault, decide_True by lia.
  case_decide; [done|]. rewrite read_exact_short; [done|]. rewrite length_drop. lia.
Qed.

Lemma read_loop_records fuel records tail :
  Forall wf_record records ->
  read_loop (length records + fuel) (mkReader (encode_records records ++ tail) None) =
  records' ← read_loop fuel (mkReader tail None); Ok (records ++ records').
Proof.
  induction 1 as [|record records Hr _ IH].
  - simpl. by destruct (read_loop fuel _).
  - change (encode_records (record :: records)) with (encode_record record ++ encode_records records).
    cbn [length Nat.add]. rewrite <- app_assoc, read_loop_record by done.
    rewrite IH. by destruct (read_loop fuel _).
Qed.

Lemma read_exact_consumes n r data r' :
  read_exact n r = ReadOk data r' -> length (rd_rest r') = length (rd_rest r) - Z.to_nat n.
Proof.
  unfold read_exact. repeat case_match; intros; simplify_eq; simpl; by rewrite length_drop.
Qed.

Lemma read_exact_avail n r data r' :
  read_exact n r = ReadOk data r' -> (n <= Z.of_nat (length (rd_rest r)))%Z.
Proof. unfold read_exact. repeat case_match; intros; simplify_eq; lia. Qed.

(** More fuel than bytes changes nothing: the loop has stopped by itself. *)
Lemma read_loop_fuel f1 f2 r :
  length (rd_rest r) < f1 -> length (rd_rest r) < f2 -> read_loop f1 r = read_loop f2 r.
Proof.
  revert f2 r. induction f1 as [|f1 IH]; intros f2 r H1 H2; [lia|].
  destruct f2 as [|f2]; [lia|]. cbn [read_loop].
  destruct (read_exact _ r) as [header r1| |] eqn:E1; try done.
  case_decide; [done|]. case_decide; [done|].
  destruct (read_exact _ r1) as [payload r2| |] eqn:E2; try done.
  case_decide; [done|].
  destruct (read_exact 4 r2) as [commit r3| |] eqn:E3; try done.
  case_decide; [done|].
  pose proof (read_exact_avail _ _ _ _ E1). unfold AOF_HEADER_LEN in *.
  apply read_exact_consumes in E1, E2, E3.
  rewrite (IH f2) by lia. done.
Qed.

Lemma read_bytes_records records tail :
  Forall wf_record records ->
  read_bytes (mkReader (encode_records records ++ tail) None) =
  records' ← read_bytes (mkReader tail None); Ok (records ++ records').
Proof.
  intros Hwf. unfold read_bytes. simpl rd_rest.
  rewrite (read_loop_fuel _ (length records + S (length (encode_records records ++ tail)))) by (simpl; lia).
  rewrite read_loop_records by done.
  rewrite (read_loop_fuel (S (length (encode_records records ++ tail))) (S (length tail)));
    [done|simpl; rewrite length_app; lia|simpl; lia].
Qed.

Lemma encode_records_app r1 r2 :
  encode_records (r1 ++ r2) = encode_records r1 ++ encode_records r2.
Proof. apply flat_map_app. Qed.

Lemma read_bytes_encoded records :
  Forall wf_record records -> read_bytes (mkReader (encode_records records) None) = Ok records.
Proof.
  intros Hwf. rewrite <- (app_nil_r (encode_records records)), read_bytes_records by done.
  unfold read_bytes; simpl. by rewrite app_nil_r.
Qed.

Lemma read_bytes_torn records record p :
  Forall wf_record records -> wf_record record ->
  p `prefix_of` encode_record record -> p <> encode_record record ->
  read_bytes (mkReader (encode_records records ++ p) None) = Ok records.
Proof.
  intros Hwf Hr Hp Hne. rewrite read_bytes_records by done.
  unfold read_bytes. rewrite (read_loop_torn _ record) by done. simpl. by rewrite app_nil_r.
Qed.

(** ** Appending under write faults *)

(** Everything but the bytes of [path] (and the consumed faults) is unchanged. *)
Record write_frame (path : string) (w w' : world) : Prop := mk_write_frame {
  frame_files : forall p, p <> path -> files w' !! p = files w !! p;
  frame_exists : is_Some (files w !! path) -> is_Some (files w' !! path);
  frame_denied : denied w' = denied w;
  frame_read : read_fault w' = read_fault w;
  frame_faults : write_faults w = [] -> write_faults w' = [];
}.

#[global] Instance write_frame_refl path : Reflexive (write_frame path).
Proof. intros w. by split. Qed.

#[global] Instance write_frame_trans path : Transitive (write_frame path).
Proof.
  intros w1 w2 w3 [A1 A2 A3 A4 A5] [B1 B2 B3 B4 B5]. split.
  - intros p Hp. by rewrite B1, A1.
  - auto.
  - congruence.
  - congruence.
  - auto.
Qed.

(** A run that appends a prefix of [data] to [path]: all of it on success, a
    strict prefix on an error, and an error only when a fault was injected. *)
Definition wrote (path : string) (data : list Z) (w w' : world) (r : outcome io_error unit) : Prop :=
  exists q, q `prefix_of` data /\ file_bytes path w' = file_bytes path w ++ q /\
    write_frame path w w' /\
    (r = Ok tt /\ q = data \/ (exists e, r = Err e) /\ q <> data /\ write_faults w <> []).

Definition writes (path : string) (data : list Z) (m : stm world io_error unit) : Prop :=
  forall w, wrote path data w (fst (m w)) (snd (m w)).

Lemma write_frame_set_file path d fs w :
  (write_faults w = [] -> fs = []) ->
  write_frame path w (set_file path d (mkWorld (files w) (denied w) fs (read_fault w))).
Proof.
  intros Hfs. split; simpl; try done.
  - intros p Hp. by rewrite lookup_insert_ne.
  - intros _. rewrite lookup_insert_eq. by eexists.
Qed.

Lemma set_file_same_faults path d w :
  set_file path d w = set_file path d (mkWorld (files w) (denied w) (write_faults w) (read_fault w)).
Proof. by destruct w. Qed.

Lemma write_all_writes path data : writes path data (write_all path data).
Proof.
  intros w. unfold wrote, write_all. destruct data as [|b data].
  { exists []. split_and!; [done|by rewrite app_nil_r|done|by left]. }
  destruct (write_faults w) as [|[k|] fs] eqn:Hfs; cbn [fst snd].
  - exists (b :: data). rewrite file_bytes_set_file, set_file_same_faults.
    split_and!; [done|done|by apply write_frame_set_file|by left].
  - exists (take (k `min` (length (b :: data) - 1)) (b :: data)).
    rewrite file_bytes_set_file. split_and!; [apply prefix_take|done| |].
    + apply write_frame_set_file. congruence.
    + right. split_and!; [by eexists| |done].
      intros Heq%(f_equal length). rewrite length_take in Heq. simpl in Heq. lia.
  - exists (b :: data). rewrite file_bytes_set_file. split_and!; [done|done| |by left].
    apply write_frame_set_file. congruence.
Qed.

Lemma writes_bind path d1 d2 (m1 m2 : stm world io_error unit) :
  writes path d1 m1 -> writes path d2 m2 -> writes path (d1 ++ d2) (m1 ;; m2).
Proof.
  intros H1 H2 w. destruct (H1 w) as (q1 & Hp1 & Hb1 & Hf1 & Hr1).
  unfold mbind, stm_bind. destruct (m1 w) as [w1 r1]; simpl in *.
  destruct Hr1 as [[-> ->]|([e ->] & Hne & Hfl)]; simpl.
  - destruct (H2 w1) as (q2 & Hp2 & Hb2 & Hf2 & Hr2). exists (d1 ++ q2).
    split_and!.
    + by apply prefix_app.
    + by rewrite Hb2, Hb1, app_assoc.
    + by etrans.
    + destruct Hr2 as [[-> ->]|(He & Hne & Hfl)]; [by left|right].
      split_and!; [done|by intros ?%app_inv_head|].
      intros Hw. apply Hfl. by eapply frame_faults.
  - exists q1. split_and!; [by apply prefix_app_r|done|done|right].
    split_and!; [by eexists| |done].
    intros Heq. assert (length q1 < length d1).
    { apply prefix_length in Hp1 as Hle. apply Nat.le_neq. split; [done|].
      intros Hl. apply Hne. apply prefix_length_eq; [done|lia]. }
    apply (f_equal length) in Heq. rewrite length_app in Heq. lia.
Qed.

Lemma flush_writes path : writes path [] flush.
Proof. intros w. exists []. split_and!; [done|by rewrite app_nil_r|done|by left]. Qed.

Lemma append_record_writes log record :
  writes (log_path log) (encode_record record) (append_record log record).
Proof.
  unfold append_record, encode_record.
  do 7 (apply writes_bind; [apply write_all_writes|]).
  rewrite <- (app_nil_r AOF_COMMIT). apply writes_bind; [apply write_all_writes|apply flush_writes].
Qed.

Lemma append_records_writes log records :
  writes (log_path log) (encode_records records) (stm_iter (append_record log) records).
Proof.
  induction records as [|r records IH].
  - intros w. exists []. split_and!; [done|by rewrite app_nil_r|done|by left].
  - change (encode_records (r :: records)) with (encode_record r ++ encode_records records).
    cbn [stm_iter]. apply writes_bind; [apply append_record_writes|apply IH].
Qed.

Lemma append_delta_writes log delta :
  writes (log_path log) (encode_records (delta_records delta)) (append_delta log delta).
Proof. apply append_records_writes. Qed.

(** Without injected faults an append succeeds and writes everything. *)
Lemma writes_nofault path data m w :
  writes path data m -> write_faults w = [] ->
  exists w', m w = (w', Ok tt) /\ file_bytes path w' = file_bytes path w ++ data /\
    write_frame path w w'.
Proof.
  intros Hm Hw. destruct (Hm w) as (q & Hp & Hb & Hf & [[Hr ->]|(_ & _ & ?)]); [|done].
  exists (fst (m w)). split_and!; try done. rewrite <- Hr. by destruct (m w).
Qed.

(** ** What the reader accepts *)

Lemma read_exact_split n r data r' :
  rd_fault r = None -> read_exact n r = ReadOk data r' -> (0 <= n)%Z ->
  rd_rest r = data ++ rd_rest r' /\ length data = Z.to_nat n /\ rd_fault r' = None.
Proof.
  destruct r as [l f]; simpl. intros -> H Hn. rewrite read_exact_nofault in H.
  case_decide; simplify_eq/=. rewrite take_drop, length_take. split_and!; (done || lia).
Qed.

Lemma split_at n (l : list Z) : l = take n l ++ drop n l.
Proof. by rewrite take_drop. Qed.

(** A 44-byte header that starts with the magic is its fields written out. *)
Lemma header_bytes header :
  length header = AOF_HEADER_LEN -> Forall is_byte header -> take 4 header = AOF_MAGIC ->
  header = AOF_MAGIC ++ le_bytes 8 (header_field 4 header) ++ le_bytes 8 (header_field 12 header) ++
    le_bytes 8 (header_field 20 header) ++ le_bytes 8 (header_field 28 header) ++
    le_bytes 8 (header_field AOF_CHECKSUM_OFFSET header).
Proof.
  intros Hl Hb Hm. unfold AOF_HEADER_LEN in Hl.
  assert (forall lo, lo + 8 <= 44 ->
    le_bytes 8 (header_field lo header) = take 8 (drop lo header)) as Hf.
  { intros lo Hlo. unfold header_field, read_le_u64.
    replace 8 with (length (take 8 (drop lo header))) at 1
      by (rewrite length_take, length_drop; lia).
    apply le_bytes_le_decode. by apply Forall_take, Forall_drop. }
  unfold AOF_CHECKSUM_OFFSET. rewrite !Hf by lia. rewrite <- Hm.
  rewrite (split_at 4 header) at 1. f_equal.
  rewrite (split_at 8 (drop 4 header)) at 1. f_equal. rewrite drop_drop. simpl Nat.add.
  rewrite (split_at 8 (drop 12 header)) at 1. f_equal. rewrite drop_drop. simpl Nat.add.
  rewrite (split_at 8 (drop 20 header)) at 1. f_equal. rewrite drop_drop. simpl Nat.add.
  rewrite (split_at 8 (drop 28 header)) at 1. f_equal. rewrite drop_drop. simpl Nat.add.
  symmetry. apply take_ge. rewrite length_drop. lia.
Qed.

Lemma header_field_range lo header :
  Forall is_byte header -> (0 <= header_field lo header <= u64_max)%Z.
Proof.
  intros Hb. unfold header_field, read_le_u64.
  pose proof (le_decode_range (take 8 (drop lo header))) as Hr.
  assert (256 ^ Z.of_nat (length (take 8 (drop lo header))) <= 256 ^ 8)%Z.
  { apply Z.pow_le_mono_r; [lia|]. rewrite length_take. lia. }
  unfold u64_max. specialize (Hr ltac:(by apply Forall_take, Forall_drop)).
  change (2 ^ 64)%Z with (256 ^ 8)%Z. lia.
Qed.

Lemma read_loop_sound fuel r records :
  rd_fault r = None -> Forall is_byte (rd_rest r) -> read_loop fuel r = Ok records ->
  Forall wf_record records /\ exists tail, rd_rest r = encode_records records ++ tail.
Proof.
  revert r records. induction fuel as [|fuel IH]; intros r records Hf Hb; cbn [read_loop].
  { intros [= <-]. split; [done|]. by eexists. }
  destruct (read_exact _ r) as [header r1| |] eqn:E1; [|by intros [= <-]; split; eauto|done].
  case_decide as Hm; [by intros [= <-]; split; eauto|]. case_decide as Hpl; [done|].
  destruct (read_exact _ r1) as [payload r2| |] eqn:E2; [|by intros [= <-]; split; eauto..].
  case_decide as Hcs; [by intros [= <-]; split; eauto|].
  destruct (read_exact 4 r2) as [commit r3| |] eqn:E3; [|by intros [= <-]; split; eauto..].
  case_decide as Hcm; [by intros [= <-]; split; eauto|].
  destruct (read_loop fuel r3) as [recs| |] eqn:E4; simpl; try done. intros [= <-].
  apply read_exact_split in E1 as (H1 & Hl1 & F1); [|done|unfold AOF_HEADER_LEN; lia].
  rewrite H1 in Hb. apply Forall_app in Hb as [Hbh Hb].
  pose proof (fun lo => header_field_range lo header Hbh) as Hrange.
  apply read_exact_split in E2 as (H2 & Hl2 & F2); [|done|apply Hrange].
  rewrite H2 in Hb. apply Forall_app in Hb as [_ Hb].
  apply read_exact_split in E3 as (H3 & Hl3 & F3); [|done|lia].
  rewrite H3 in Hb. apply Forall_app in Hb as [_ Hb].
  destruct (IH r3 recs F3 Hb E4) as (Hwf & tail & Ht).
  assert (Z.of_nat (length payload) = header_field 28 header) as Hlen.
  { rewrite Hl2. pose proof (Hrange 28). lia. }
  split.
  - constructor; [|done]. split; simpl; try apply Hrange. lia.
  - exists tail. rewrite H1, H2, H3, Ht.
    change (encode_records (?x :: recs)) with (encode_record x ++ encode_records recs).
    rewrite encode_record_split. unfold encode_header; simpl ar_epoch; simpl ar_region_id.
    cbn [ar_offset ar_payload]. rewrite Hlen, Hcs, Hcm.
    rewrite <- header_bytes by (rewrite ?Hl1; done). by rewrite <- !app_assoc.
Qed.

(** A file that can be read and written without faults. *)
Record healthy (path : string) (w : world) : Prop := mk_healthy {
  healthy_exists : is_Some (files w !! path);
  healthy_open : path ∉ denied w;
  healthy_read : read_fault w = None;
}.

Lemma healthy_frame path w w' : healthy path w -> write_frame path w w' -> healthy path w'.
Proof.
  intros [H1 H2 H3] [F1 F2 F3 F4 F5].
  split; [by apply F2|rewrite F3; exact H2|congruence].
Qed.

Lemma read_committed_healthy path w :
  healthy path w -> read_committed path w = read_bytes (mkReader (file_bytes path w) None).
Proof.
  intros [[bytes Hb] Hd Hr]. unfold read_committed, open_read, file_bytes.
  rewrite decide_False by done. by rewrite Hb, Hr.
Qed.

(** Reading a byte prefix of a log: the records that fit, and no other. *)
Lemma read_prefix records k :
  Forall wf_record records ->
  exists m, read_bytes (mkReader (take k (encode_records records)) None) = Ok (take m records) /\
    m <= length records /\ length (encode_records (take m records)) <= k /\
    (m < length records -> k < length (encode_records (take (S m) records))).
Proof.
  intros Hwf. revert k. induction Hwf as [|r records Hr Hwf IH]; intros k.
  { exists 0. change (encode_records []) with (@nil Z). rewrite !take_nil. split_and!; [done|simpl; lia|simpl; lia|simpl; lia]. }
  change (encode_records (r :: records)) with (encode_record r ++ encode_records records).
  destruct (decide (k < length (encode_record r))) as [Hk|Hk].
  - exists 0. rewrite take_app_le by lia. split_and!; simpl; try lia.
    + unfold read_bytes. rewrite (read_loop_torn _ r); [done|done|apply prefix_take|].
      intros Heq%(f_equal length). rewrite length_take in Heq. lia.
    + intros _. rewrite app_nil_r. done.
  - destruct (IH (k - length (encode_record r))) as (m & Hm & Hle & Hfit & Hnext).
    exists (S m). rewrite take_app_ge by lia. split_and!; [|simpl; lia|..].
    + pose proof (read_bytes_records [r] (take (k - length (encode_record r)) (encode_records records)))
        as Hs. change (encode_records [r]) with (encode_record r ++ []) in Hs.
      rewrite app_nil_r in Hs. rewrite Hs by (by constructor).
      by rewrite Hm.
    + change (take (S m) (r :: records)) with (r :: take m records).
      change (encode_records (r :: ?l)) with (encode_record r ++ encode_records l).
      rewrite length_app. lia.
    + change (take (S (S m)) (r :: records)) with (r :: take (S m) records).
      change (encode_records (r :: ?l)) with (encode_record r ++ encode_records l).
      simpl length at 1. rewrite length_app. intros. specialize (Hnext ltac:(lia)). lia.
Qed.

(** ** Theorems *)

(** [C11] Records appended without faults to a log are read back exactly, after
    the records that were there before. *)
Theorem aof_round_trip log old records w :
  healthy (log_path log) w -> write_faults w = [] ->
  file_bytes (log_path log) w = encode_records old ->
  Forall wf_record old -> Forall wf_record records ->
  exists w', stm_iter (append_record log) records w = (w', Ok tt) /\
    read_committed (log_path log) w' = Ok (old ++ records).
Proof.
  intros Hh Hf Hb Ho Hr.
  destruct (writes_nofault _ _ _ w (append_records_writes log records) Hf) as (w' & Hw & Hb' & Hfr).
  exists w'. split; [done|]. rewrite read_committed_healthy by (by eapply healthy_frame).
  rewrite Hb', Hb, <- encode_records_app. apply read_bytes_encoded. by apply Forall_app.
Qed.

Definition sample_log : AofDiskLog := mkAofDiskLog "/tmp/session.aof".
Definition sample_world (bytes : list Z) (faults : list (option nat)) : world :=
  mkWorld {["/tmp/session.aof" := bytes]} ∅ faults None.
Definition sample_record (b : Z) : AofRecord := mkAofRecord 1 7 4096 [b; 2; 3; 4]%Z.

Lemma sample_healthy bytes faults : healthy "/tmp/session.aof" (sample_world bytes faults).
Proof. split; simpl; [by eexists|set_solver|done]. Qed.

Lemma sample_record_wf b : wf_record (sample_record b).
Proof. split; simpl; unfold u64_max, isize_max; lia. Qed.

Lemma aof_round_trip_witness :
  exists w', stm_iter (append_record sample_log) [sample_record 1] (sample_world [] []) = (w', Ok tt) /\
    read_committed "/tmp/session.aof" w' = Ok [sample_record 1].
Proof.
  apply (aof_round_trip sample_log [] [sample_record 1] (sample_world [] [])).
  - apply sample_healthy.
  - reflexivity.
  - reflexivity.
  - constructor.
  - constructor; [apply sample_record_wf|constructor].
Defined.

(** [C32] A crash at any byte of the log loses only what was not yet complete:
    from the first [k] bytes the reader returns the records that lie entirely
    within them, never a torn or invented one, and it does not fail. *)
Theorem aof_crash_prefix records k :
  Forall wf_record records ->
  exists m, read_bytes (mkReader (take k (encode_records records)) None) = Ok (take m records) /\
    m <= length records /\ length (encode_records (take m records)) <= k /\
    (m < length records -> k < length (encode_records (take (S m) records))).
Proof. apply read_prefix. Qed.

Lemma aof_crash_prefix_witness :
  exists m, read_bytes (mkReader (take 60 (encode_records [sample_record 1; sample_record 2])) None) =
      Ok (take m [sample_record 1; sample_record 2]) /\ m <= 2 /\
    length (encode_records (take m [sample_record 1; sample_record 2])) <= 60 /\
    (m < 2 -> 60 < length (encode_records (take (S m) [sample_record 1; sample_record 2]))).
Proof.
  apply (aof_crash_prefix [sample_record 1; sample_record 2] 60).
  repeat constructor; try apply sample_record_wf.
Defined.

(** An append is all or nothing for the next reader, whatever write fails
    and however far it got: on [Ok] the log gains exactly the record, on an
    error it reads as before; the append never panics and touches no other
    file. *)
Theorem append_record_atomic log old record w :
  healthy (log_path log) w ->
  file_bytes (log_path log) w = encode_records old -> Forall wf_record old -> wf_record record ->
  let '(w', r) := append_record log record w in
  write_frame (log_path log) w w' /\
  (r = Ok tt /\ read_committed (log_path log) w' = Ok (old ++ [record]) \/
   (exists e, r = Err e) /\ read_committed (log_path log) w' = Ok old).
Proof.
  intros Hh Hb Ho Hr. destruct (append_record_writes log record w) as (q & Hq & Hb' & Hf & Hres).
  destruct (append_record log record w) as [w' r]; simpl in *. split; [done|].
  rewrite read_committed_healthy by (by eapply healthy_frame). rewrite Hb', Hb.
  destruct Hres as [[-> ->]|(He & Hne & _)].
  - left. split; [done|].
    replace (encode_records old ++ encode_record record) with (encode_records (old ++ [record]))
      by (rewrite encode_records_app; simpl; by rewrite app_nil_r).
    apply read_bytes_encoded. apply Forall_app. by split; [|constructor].
  - right. split; [done|]. by eapply read_bytes_torn.
Qed.

Lemma append_record_atomic_witness :
  let '(w', r) := append_record sample_log (sample_record 1) (sample_world [] [None; Some 3]) in
  write_frame "/tmp/session.aof" (sample_world [] [None; Some 3]) w' /\
  (r = Ok tt /\ read_committed "/tmp/session.aof" w' = Ok ([] ++ [sample_record 1]) \/
   (exists e, r = Err e) /\ read_committed "/tmp/session.aof" w' = Ok []).
Proof.
  apply (append_record_atomic sample_log [] (sample_record 1) (sample_world [] [None; Some 3])).
  - apply sample_healthy.
  - reflexivity.
  - constructor.
  - apply sample_record_wf.
Defined.

(** The reader is sound on any file: what it returns, written out again,
    is a prefix of the file, so every returned record was present with its
    magic, checksum and commit marker. *)
Theorem read_committed_sound path w bytes records :
  read_fault w = None -> files w !! path = Some bytes -> Forall is_byte bytes ->
  read_committed path w = Ok records ->
  Forall wf_record records /\ encode_records records `prefix_of` bytes.
Proof.
  intros Hr Hp Hb H. unfold read_committed, open_read in H. case_decide; [done|].
  rewrite Hp, Hr in H. simpl in H.
  destruct (read_loop_sound _ (mkReader bytes None) _ eq_refl Hb H) as (Hwf & tail & Ht).
  split; [done|]. by exists tail.
Qed.

Lemma read_committed_sound_witness :
  Forall wf_record [sample_record 1] /\
  encode_records [sample_record 1] `prefix_of` (encode_record (sample_record 1) ++ [67; 79; 78; 67; 0]%Z).
Proof.
  apply (read_committed_sound "/tmp/session.aof"
    (sample_world (encode_record (sample_record 1) ++ [67; 79; 78; 67; 0]%Z) [])
    (encode_record (sample_record 1) ++ [67; 79; 78; 67; 0]%Z) [sample_record 1]).
  - reflexivity.
  - reflexivity.
  - apply all_bytes_spec. vm_compute. reflexivity.
  - vm_compute. reflexivity.
Defined.

Lemma read_bytes_misaligned record rest :
  read_bytes (mkReader (67%Z :: encode_record record ++ rest) None) = Ok [].
Proof.
  assert (Z.of_nat AOF_HEADER_LEN <= Z.of_nat (length (67%Z :: encode_record record ++ rest)))%Z.
  { cbn [length]. rewrite length_app, length_encode_record. unfold AOF_HEADER_LEN. lia. }
  unfold read_bytes. cbn [read_loop]. rewrite read_exact_nofault, decide_True by done.
  by rewrite encode_record_split.
Qed.

(** A failed append hides the later ones: when the first write of one
    append stops after one byte, the appends that follow report success but
    none of their records is ever returned by the reader, which stops at the
    torn byte. *)
Theorem failed_append_hides_later log old lost record later w :
  healthy (log_path log) w -> write_faults w = [Some 1] ->
  file_bytes (log_path log) w = encode_records old -> Forall wf_record old ->
  exists w1 w2,
    append_record log lost w = (w1, Err DeviceError) /\
    stm_iter (append_record log) (record :: later) w1 = (w2, Ok tt) /\
    read_committed (log_path log) w2 = Ok old.
Proof.
  intros Hh Hf Hb Ho.
  set (w1 := set_file (log_path log) (file_bytes (log_path log) w ++ [67%Z])
    (mkWorld (files w) (denied w) [] (read_fault w))).
  assert (append_record log lost w = (w1, Err DeviceError)) as Ha.
  { apply stm_bind_Err. unfold write_all. by rewrite Hf. }
  assert (healthy (log_path log) w1) as Hh1.
  { eapply healthy_frame; [done|]. apply write_frame_set_file. by rewrite Hf. }
  destruct (writes_nofault _ _ _ w1 (append_records_writes log (record :: later)) eq_refl)
    as (w2 & Hw2 & Hb2 & Hfr2).
  exists w1, w2. split_and!; [done|done|].
  rewrite read_committed_healthy by (by eapply healthy_frame). rewrite Hb2.
  unfold w1. rewrite file_bytes_set_file, Hb, <- app_assoc.
  rewrite read_bytes_records by done.
  change ([67%Z] ++ encode_records (record :: later))
    with (67%Z :: encode_record record ++ encode_records later).
  rewrite read_bytes_misaligned. simpl. by rewrite app_nil_r.
Qed.

Lemma failed_append_hides_later_witness :
  exists w1 w2,
    append_record sample_log (sample_record 1) (sample_world [] [Some 1]) = (w1, Err DeviceError) /\
    stm_iter (append_record sample_log) [sample_record 2; sample_record 3] w1 = (w2, Ok tt) /\
    read_committed "/tmp/session.aof" w2 = Ok [].
Proof.
  apply (failed_append_hides_later sample_log [] (sample_record 1) (sample_record 2) [sample_record 3]
    (sample_world [] [Some 1])).
  - apply sample_healthy.
  - reflexivity.
  - reflexivity.
  - constructor.
Defined.

(** A damaged length field is not tolerated: a header that starts with the
    magic and announces more than [isize::MAX] payload bytes makes the reader
    panic, whatever committed records precede it. *)
Theorem read_committed_length_panic records header rest :
  Forall wf_record records -> length header = AOF_HEADER_LEN -> take 4 header = AOF_MAGIC ->
  (isize_max < header_field 28 header)%Z ->
  read_bytes (mkReader (encode_records records ++ header ++ rest) None) = Panic.
Proof.
  intros Hwf Hl Hm Hp. rewrite read_bytes_records by done.
  unfold read_bytes. cbn [read_loop]. rewrite read_exact_app by (by rewrite Hl).
  rewrite decide_False by (by intros []). by rewrite decide_True.
Qed.

Lemma read_committed_length_panic_witness :
  read_bytes (mkReader (encode_records [sample_record 1] ++
    (AOF_MAGIC ++ repeat 0%Z 24 ++ repeat 255%Z 8 ++ repeat 0%Z 8) ++ []) None) = Panic.
Proof.
  apply (read_committed_length_panic [sample_record 1]
    (AOF_MAGIC ++ repeat 0%Z 24 ++ repeat 255%Z 8 ++ repeat 0%Z 8) []).
  - constructor; [apply sample_record_wf|constructor].
  - reflexivity.
  - reflexivity.
  - vm_compute. reflexivity.
Defined.
