(* ===== verification/RustStr.v ===== *)
(** * The fragment of [str], [String], [Path] and integer parsing the code uses

    Strings are ASCII text ([string]); on ASCII, [char::is_whitespace] is tab to
    carriage return and space, and byte offsets are character offsets.  Paths
    follow the Unix rules of [std::path]. *)
From stdpp Require Import base numbers list strings gmap pretty.
From Stdlib Require Import ZArith Lia Ascii.
From S2P Require Import Prelude.

Local Open Scope string_scope.
Local Open Scope nat_scope.

Abbreviation sapp := String.append.

(** ** Characters *)
Definition is_whitespace (c : ascii) : bool :=
  let n := nat_of_ascii c in ((9 <=? n) && (n <=? 13)) || (n =? 32).

Definition ascii_lower (c : ascii) : ascii :=
  let n := nat_of_ascii c in
  if (65 <=? n) && (n <=? 90) then ascii_of_nat (n + 32) else c.

Definition ascii_upper (c : ascii) : ascii :=
  let n := nat_of_ascii c in
  if (97 <=? n) && (n <=? 122) then ascii_of_nat (n - 32) else c.

Fixpoint string_map (f : ascii -> ascii) (s : string) : string :=
  match s with
  | "" => ""
  | String c s => String (f c) (string_map f s)
  end.

Definition to_ascii_lowercase : string -> string := string_map ascii_lower.
Definition to_ascii_uppercase : string -> string := string_map ascii_upper.

(** ** Trimming *)
Fixpoint trim_start (s : string) : string :=
  match s with
  | String c s' => if is_whitespace c then trim_start s' else s
  | "" => ""
  end.

(** [trim_end_matches] for a character test *)
Fixpoint trim_end_matches (f : ascii -> bool) (s : string) : string :=
  match s with
  | "" => ""
  | String c s' =>
      match trim_end_matches f s' with
      | "" => if f c then "" else String c ""
      | t => String c t
      end
  end.

Definition trim_end : string -> string := trim_end_matches is_whitespace.
Definition trim (s : string) : string := trim_end (trim_start s).

(** ** Searching *)
Definition starts_with (p s : string) : bool := String.prefix p s.

Fixpoint contains (p s : string) : bool :=
  starts_with p s || match s with "" => false | String _ s' => contains p s' end.

Fixpoint strip_prefix (p s : string) : option string :=
  match p, s with
  | "", _ => Some s
  | String a p', String b s' => if Ascii.eqb a b then strip_prefix p' s' else None
  | String _ _, "" => None
  end.

(** [strip_suffix] of one character *)
Fixpoint strip_suffix_char (c : ascii) (s : string) : option string :=
  match s with
  | "" => None
  | String a "" => if Ascii.eqb a c then Some "" else None
  | String a s' => String a <$> strip_suffix_char c s'
  end.

Definition ends_with_char (c : ascii) (s : string) : bool :=
  match strip_suffix_char c s with Some _ => true | None => false end.

(** [find] of a character test: the text before and from the match *)
Fixpoint break (f : ascii -> bool) (s : string) : string * string :=
  match s with
  | "" => ("", "")
  | String c s' => if f c then ("", s) else let '(a, b) := break f s' in (String c a, b)
  end.

(** [split_once] at the first character satisfying [f] *)
Definition split_once_char (f : ascii -> bool) (s : string) : option (string * string) :=
  match break f s with
  | (a, String _ b) => Some (a, b)
  | (_, "") => None
  end.

(** [split_once] at the first occurrence of a non-empty pattern *)
Fixpoint split_once (p s : string) : option (string * string) :=
  match strip_prefix p s with
  | Some rest => Some ("", rest)
  | None => match s with
            | "" => None
            | String c s' => (fun '(a, b) => (String c a, b)) <$> split_once p s'
            end
  end.

(** [replace] of a non-empty pattern, left to right without overlap; [skip]
    counts the characters of a match still to be dropped. *)
Fixpoint replace_go (from to : string) (skip : nat) (s : string) : string :=
  match s with
  | "" => ""
  | String c s' =>
      match skip with
      | S k => replace_go from to k s'
      | 0 => if starts_with from s
             then sapp to (replace_go from to (String.length from - 1) s')
             else String c (replace_go from to 0 s')
      end
  end.

Definition replace (from to s : string) : string := replace_go from to 0 s.

(** [split(c)] on one character *)
Fixpoint split_char (c : ascii) (s : string) : list string :=
  match s with
  | "" => [""]
  | String a s' =>
      if Ascii.eqb a c then "" :: split_char c s'
      else match split_char c s' with
           | seg :: segs => String a seg :: segs
           | [] => [String a ""]
           end
  end.

Fixpoint join (sep : string) (l : list string) : string :=
  match l with
  | [] => ""
  | [s] => s
  | s :: l => sapp s (sapp sep (join sep l))
  end.

(** [lines]: split at newlines, without a final empty line; a carriage return
    before a newline goes with it. *)
Definition newline : ascii := "010"%char.
Definition carriage_return : ascii := "013"%char.

Definition strip_cr (s : string) : string := default s (strip_suffix_char carriage_return s).

Fixpoint lines_go (l : list string) : list string :=
  match l with
  | [] => []
  | [last] => if String.eqb last "" then [] else [last]
  | s :: l => strip_cr s :: lines_go l
  end.

Definition lines (s : string) : list string := lines_go (split_char newline s).

(** [str::split_whitespace]: the maximal runs of other characters *)
Fixpoint split_whitespace (s : string) : list string :=
  match s with
  | "" => []
  | String c rest =>
      if is_whitespace c then split_whitespace rest
      else match rest with
           | String c' _ =>
               if is_whitespace c' then String c "" :: split_whitespace rest
               else match split_whitespace rest with
                    | word :: words => String c word :: words
                    | [] => [String c ""]
                    end
           | "" => [String c ""]
           end
  end.

(** ** Integers *)
Definition digit_value (c : ascii) : option Z :=
  let n := nat_of_ascii c in
  if (48 <=? n) && (n <=? 57) then Some (Z.of_nat (n - 48))
  else if (97 <=? n) && (n <=? 122) then Some (Z.of_nat (n - 87))
  else if (65 <=? n) && (n <=? 90) then Some (Z.of_nat (n - 55))
  else None.

Fixpoint parse_digits (radix acc : Z) (s : string) : option Z :=
  match s with
  | "" => Some acc
  | String c s' =>
      d ← digit_value c;
      if (d <? radix)%Z then parse_digits radix (acc * radix + d) s' else None
  end.

(** [from_str_radix] and [parse] for a type with values [lo..=hi]: an optional
    [+] (and [-] when [lo] is negative), then at least one digit. *)
Definition parse_int (radix lo hi : Z) (s : string) : option Z :=
  let check (z : Z) := if (lo <=? z)%Z && (z <=? hi)%Z then Some z else None in
  match s with
  | "" => None
  | String "+" "" => None
  | String "+" s' => parse_digits radix 0 s' ≫= check
  | String "-" s' =>
      if (lo <? 0)%Z then
        match s' with
        | "" => None
        | _ => z ← parse_digits radix 0 s'; check (- z)%Z
        end
      else None
  | _ => parse_digits radix 0 s ≫= check
  end.

Definition parse_u8 : string -> option Z := parse_int 10 0 (2 ^ 8 - 1).
Definition parse_u32 : string -> option Z := parse_int 10 0 (2 ^ 32 - 1).
Definition parse_i32 : string -> option Z := parse_int 10 (- 2 ^ 31) (2 ^ 31 - 1).
Definition parse_i64 : string -> option Z := parse_int 10 (- 2 ^ 63) (2 ^ 63 - 1).

(** [format!("{:04}", n)] *)
Fixpoint zeros (n : nat) : string :=
  match n with 0 => "" | S n => String "0" (zeros n) end.

Definition pad4 (n : Z) : string :=
  let s := dec n in sapp (zeros (4 - String.length s)) s.

(** ** Paths *)

(** The segments between slashes, without trailing empty and [.] ones; the
    first segment is kept: it is empty for an absolute path. *)
Fixpoint trim_segments (segs : list string) : list string :=
  match segs with
  | [] => []
  | s :: segs =>
      match trim_segments segs with
      | [] => if String.eqb s "" || String.eqb s "." then [] else [s]
      | l => s :: l
      end
  end.

Definition path_segments (path : string) : list string :=
  match split_char "/" path with
  | [] => []
  | first :: rest => first :: trim_segments rest
  end.

(** The last component with the segments before it, [None] for the root or the
    empty path. *)
Definition last_component (path : string) : option (list string * string) :=
  match reverse (path_segments path) with
  | [] => None
  | s :: front => if String.eqb s "" then None else Some (reverse front, s)
  end.

Definition file_name (path : string) : option string :=
  '(front, s) ← last_component path;
  if String.eqb s ".." || (String.eqb s "." && match front with [] => true | _ => false end)
  then None else Some s.

(** [rsplitn(2, '.')]: what is before and after the last dot *)
Fixpoint rsplit_dot (s : string) : option (string * string) :=
  match s with
  | "" => None
  | String c s' =>
      match rsplit_dot s' with
      | Some (a, b) => Some (String c a, b)
      | None => if Ascii.eqb c "." then Some ("", s') else None
      end
  end.

Definition file_stem (path : string) : option string :=
  name ← file_name path;
  Some match rsplit_dot name with
       | Some ("", _) | None => name
       | Some (before, _) => before
       end.

Definition extension (path : string) : option string :=
  name ← file_name path;
  match rsplit_dot name with
  | Some ("", _) | None => None
  | Some (_, after) => Some after
  end.

Definition parent (path : string) : option string :=
  '(front, _) ← last_component path;
  Some match front with
       | [] => ""
       | first :: rest =>
           match trim_segments rest with
           | [] => if String.eqb first "" then "/" else first
           | rest => join "/" (first :: rest)
           end
       end.

(** [Path::join] with a relative name *)
Definition path_join (dir name : string) : string :=
  if String.eqb dir "" then name
  else if ends_with_char "/" dir then sapp dir name
  else sapp dir (sapp "/" name).
