(* ===== verification/Runtime.v ===== *)
(** * The Concordia runtime ([zluda/src/impl/concordia_runtime.rs])

    [ConcordiaRuntime] joins the delta state and the log file: a checkpoint
    computes a delta and appends it, a restore replays the log over a buffer.
    The C entry points wrap it in a process-wide runtime.  Rank, world size and
    local rank come from the environment and scope the log path and the
    boundary labels of parallel jobs. *)
From stdpp Require Import base numbers list strings gmap pretty.
From Stdlib Require Import ZArith Lia Ascii.
From S2P Require Import Prelude HostIO Delta Aof RustStr.

Local Open Scope string_scope.
Local Open Scope nat_scope.

(** ** MPI ranks from the environment *)
Record MpiInfo : Type := mkMpiInfo {
  rank : Z;
  world_size : Z;
  local_rank : Z;
}.

#[global] Instance MpiInfo_eq_dec : EqDecision MpiInfo.
Proof. solve_decision. Defined.

Definition is_parallel (info : MpiInfo) : bool := (1 <? world_size info)%Z.

Definition MPI_RANK_KEYS : list string :=
  ["CONCORDIA_MPI_RANK"; "HETGPU_CONCORDIA_MPI_RANK"; "OMPI_COMM_WORLD_RANK"; "PMIX_RANK";
   "PMI_RANK"; "MV2_COMM_WORLD_RANK"; "SLURM_PROCID"; "RANK"].

Definition MPI_WORLD_KEYS : list string :=
  ["CONCORDIA_MPI_WORLD_SIZE"; "HETGPU_CONCORDIA_MPI_WORLD_SIZE"; "OMPI_COMM_WORLD_SIZE";
   "PMIX_SIZE"; "PMI_SIZE"; "MV2_COMM_WORLD_SIZE"; "SLURM_NTASKS"; "WORLD_SIZE"].

Definition MPI_LOCAL_RANK_KEYS : list string :=
  ["CONCORDIA_MPI_LOCAL_RANK"; "HETGPU_CONCORDIA_MPI_LOCAL_RANK"; "OMPI_COMM_WORLD_LOCAL_RANK";
   "MPI_LOCALRANKID"; "MV2_COMM_WORLD_LOCAL_RANK"; "SLURM_LOCALID"; "PMI_LOCAL_RANK"; "LOCAL_RANK"].

(** [pairs.iter().find(|(candidate, _)| candidate == key)] *)
Fixpoint assoc (key : string) (pairs : list (string * string)) : option string :=
  match pairs with
  | [] => None
  | (candidate, value) :: pairs => if String.eqb candidate key then Some value else assoc key pairs
  end.

(** [Iterator::find_map] *)
Fixpoint find_map {A B} (f : A -> option B) (l : list A) : option B :=
  match l with
  | [] => None
  | a :: l => match f a with Some b => Some b | None => find_map f l end
  end.

(** [u32::try_from] on an [i64] *)
Definition u32_try_from (z : Z) : option Z := if is_u 32 z then Some z else None.

Definition read_u32_from_pairs (pairs : list (string * string)) (keys : list string) (fallback : Z) : Z :=
  default fallback
    (find_map (fun key => value ← assoc key pairs; z ← parse_i64 (trim value); u32_try_from z) keys).

Definition mpi_info_from_pairs (pairs : list (string * string)) : MpiInfo :=
  let rank := read_u32_from_pairs pairs MPI_RANK_KEYS 0 in
  let world_size := Z.max (read_u32_from_pairs pairs MPI_WORLD_KEYS 1) 1 in
  let local_rank := read_u32_from_pairs pairs MPI_LOCAL_RANK_KEYS rank in
  mkMpiInfo rank world_size local_rank.

(** The process environment, as [std::env::var]. *)
Definition environment : Type := string -> option string.

Definition env_pairs (env : environment) (keys : list string) : list (string * string) :=
  omap (fun key => (fun value => (key, value)) <$> env key) keys.

Definition mpi_info_from_env (env : environment) : MpiInfo :=
  mpi_info_from_pairs (env_pairs env (MPI_RANK_KEYS ++ MPI_WORLD_KEYS ++ MPI_LOCAL_RANK_KEYS)).

Definition has_template_token (text : string) : bool :=
  contains "{rank}" text || contains "{world}" text || contains "{local_rank}" text.

Definition expand_template (info : MpiInfo) (text : string) : string :=
  replace "{local_rank}" (dec (local_rank info))
    (replace "{world}" (dec (world_size info))
       (replace "{rank}" (dec (rank info)) text)).

Definition ranked_suffix (info : MpiInfo) : string :=
  sapp "rank" (sapp (pad4 (rank info)) (sapp "-of-" (pad4 (world_size info)))).

Definition ranked_file_name (info : MpiInfo) (path : string) : string :=
  let file_name := default "concordia.aof" (file_name path) in
  let stem := default file_name (file_stem path) in
  match extension path with
  | Some ext => if String.eqb ext "" then sapp file_name (sapp "." (ranked_suffix info))
                else sapp stem (sapp "." (sapp (ranked_suffix info) (sapp "." ext)))
  | None => sapp file_name (sapp "." (ranked_suffix info))
  end.

Definition mpi_scoped_aof_path_for_info (path : string) (info : MpiInfo) : string :=
  if negb (is_parallel info) then path
  else if has_template_token path then expand_template info path
  else
    let ranked_name := ranked_file_name info path in
    match parent path with
    | Some parent => if String.eqb parent "" then ranked_name else path_join parent ranked_name
    | None => ranked_name
    end.

Definition mpi_scoped_aof_path (env : environment) (path : string) : string :=
  mpi_scoped_aof_path_for_info path (mpi_info_from_env env).

Definition mpi_scoped_boundary (boundary : string) (info : MpiInfo) : string :=
  if is_parallel info then
    sapp "rank=" (sapp (dec (rank info)) (sapp "/" (sapp (dec (world_size info))
      (sapp " local_rank=" (sapp (dec (local_rank info)) (sapp " " boundary))))))
  else boundary.

Definition env_enabled (env : environment) (name : string) : bool :=
  match env name with
  | Some value =>
      let v := to_ascii_lowercase (trim value) in
      String.eqb v "1" || String.eqb v "true" || String.eqb v "yes" || String.eqb v "on"
  | None => false
  end.

Definition runtime_enabled (env : environment) : bool :=
  env_enabled env "CONCORDIA_CHECKPOINT_ON_BOUNDARY" || env_enabled env "HETGPU_CONCORDIA_BOUNDARY".

Definition runtime_logs_enabled (env : environment) : bool :=
  env_enabled env "CONCORDIA_LOGS" || env_enabled env "HETGPU_CONCORDIA_LOGS".

(** ** The runtime *)
Record CheckpointSummary : Type := mkCheckpointSummary {
  cs_epoch : Z;
  cs_region_id : Z;
  cs_dirty_pages : nat;
  cs_dirty_bytes : nat;
  cs_boundary : string;
}.

Record RestoreSummary : Type := mkRestoreSummary {
  rs_region_id : Z;
  rs_applied_records : nat;
  rs_restored_bytes : nat;
  rs_boundary : string;
}.

Record ConcordiaRuntime : Type := mkConcordiaRuntime {
  state : DeltaCheckpointState;
  aof : option AofDiskLog;
  boundary_count : Z;
  mpi_info : MpiInfo;
}.

Inductive RtError : Type :=
| RtDelta (e : DeltaError)
| AppendAof (path : string) (e : io_error)
| ReadAof (path : string) (e : io_error).

Definition runtime_new (env : environment) (page_size : nat) : ConcordiaRuntime :=
  mkConcordiaRuntime (new page_size) None 0 (mpi_info_from_env env).

Definition set_state (st : DeltaCheckpointState) (rt : ConcordiaRuntime) : ConcordiaRuntime :=
  mkConcordiaRuntime st (aof rt) (boundary_count rt) (mpi_info rt).

Definition set_aof (log : option AofDiskLog) (rt : ConcordiaRuntime) : ConcordiaRuntime :=
  mkConcordiaRuntime (state rt) log (boundary_count rt) (mpi_info rt).

(** Runtime methods act on the runtime and the outside world. *)
Abbreviation rtm := (stm (ConcordiaRuntime * world) RtError).

Definition set_aof_path (path : string) : rtm unit := fun '(rt, w) =>
  match create path w with
  | (w', Ok log) => ((set_aof (Some log) rt, w'), Ok tt)
  | (w', _) => ((set_aof None rt, w'), Ok tt)
  end.

Definition rt_register_opaque_host_region (base_addr : Z) (initial : list Z) : rtm Z := fun '(rt, w) =>
  let '(st, id) := register_opaque_host_region base_addr initial (state rt) in
  ((set_state st rt, w), Ok id).

Definition rt_register_allocator_bitmap_region (base_addr : Z) (len : nat) : rtm Z := fun '(rt, w) =>
  let '(st, id) := register_allocator_bitmap_region base_addr len (state rt) in
  ((set_state st rt, w), Ok id).

(** A method of the delta state, called from the runtime. *)
Definition on_state {A} (m : DeltaCheckpointState -> DeltaCheckpointState * outcome DeltaError A) : rtm A :=
  fun '(rt, w) => let '(st, r) := m (state rt) in ((set_state st rt, w), map_err RtDelta r).

(** [if let Some(aof) = self.aof.as_mut() { aof.append_delta(&delta).map_err(..)? }] *)
Definition append_to_aof (delta : DeltaRecord) : rtm unit := fun '(rt, w) =>
  match aof rt with
  | None => ((rt, w), Ok tt)
  | Some log =>
      let '(w', r) := append_delta log delta w in
      ((rt, w'), map_err (AppendAof (log_path log)) r)
  end.

Definition dirty_bytes (delta : DeltaRecord) : nat :=
  sum_list ((fun page => length (dp_data page)) <$> dr_dirty_pages delta).

Definition summarize (delta : DeltaRecord) (boundary : string) : rtm CheckpointSummary := fun '(rt, w) =>
  ((rt, w), Ok (mkCheckpointSummary (dr_epoch delta) (dr_region_id delta)
                  (length (dr_dirty_pages delta)) (dirty_bytes delta)
                  (mpi_scoped_boundary boundary (mpi_info rt)))).

Definition checkpoint_host_region (region_id : Z) (current : list Z) (boundary : string)
    : rtm CheckpointSummary :=
  delta ← on_state (create_host_delta region_id current);
  append_to_aof delta ;;
  summarize delta boundary.

Definition checkpoint_allocator_bitmap_region (region_id : Z) (current dirty_bitmap : list Z)
    (boundary : string) : rtm CheckpointSummary :=
  delta ← on_state (create_bitmap_delta region_id current dirty_bitmap);
  append_to_aof delta ;;
  summarize delta boundary.

(** The log line goes to standard error and is not part of the state. *)
Definition checkpoint_boundary (boundary : string) : rtm unit := fun '(rt, w) =>
  ((mkConcordiaRuntime (state rt) (aof rt) (saturating_add 64 (boundary_count rt) 1) (mpi_info rt), w),
   Ok tt).

(** Restores act on the runtime, the world (read only) and the target buffer. *)
Definition restore_host_region_from_aof_path (path : string) (region_id : Z) (boundary : string)
    : stm (ConcordiaRuntime * world * list Z) RtError RestoreSummary := fun '(rt, w, target) =>
  match read_committed path w with
  | Err e => ((rt, w, target), Err (ReadAof path e))
  | Panic => ((rt, w, target), Panic)
  | Ok records =>
      let restored_bytes := sum_list ((fun record => length (ar_payload record)) <$>
        filter (fun record => ar_region_id record = region_id) records) in
      match apply_records_to_region region_id records target with
      | (target', Ok applied_records) =>
          let '(st, r) := refresh_opaque_shadow region_id target' (state rt) in
          ((set_state st rt, w, target'),
           match r with
           | Ok _ => Ok (mkRestoreSummary region_id applied_records restored_bytes
                           (mpi_scoped_boundary boundary (mpi_info rt)))
           | Err e => Err (RtDelta e)
           | Panic => Panic
           end)
      | (target', Err e) => ((rt, w, target'), Err (RtDelta e))
      | (target', Panic) => ((rt, w, target'), Panic)
      end
  end.

Definition restore_region_from_aof_path (w : world) (path : string) (region_id : Z)
    : stm (list Z) RtError nat := fun target =>
  match read_committed path w with
  | Err e => (target, Err (ReadAof path e))
  | Panic => (target, Panic)
  | Ok records =>
      let '(target', r) := apply_records_to_region region_id records target in
      (target', map_err RtDelta r)
  end.

(** ** The C entry points *)

(** The process: the [OnceLock]ed runtime, whether its mutex is poisoned, and
    the outside world. *)
Record process : Type := mkProcess {
  global : option ConcordiaRuntime;
  poisoned : bool;
  proc_world : world;
}.

(** A pointer argument: null, or the bytes readable behind it. *)
Abbreviation pointer := (option (list Z)).

(** [slice_from_raw]: [Err] for [None]; calling [from_raw_parts] on null, or
    past the readable bytes, is undefined behaviour and modelled as [Panic]. *)
Definition slice_from_raw (data : pointer) (len : nat) : outcome unit (list Z) :=
  match data with
  | None => if decide (len <> 0) then Err tt else Panic
  | Some bytes => if decide (len <= length bytes) then Ok (take len bytes) else Panic
  end.

Definition cstr_from_raw (ptr : option string) (fallback : string) : string := default fallback ptr.

Section EntryPoints.
Context (env : environment).

Definition global_runtime (p : process) : process * ConcordiaRuntime :=
  match global p with
  | Some rt => (p, rt)
  | None =>
      let rt := runtime_new env 4096 in
      let '(rt, w) :=
        match (match env "CONCORDIA_AOF_PATH" with
               | Some path => Some path
               | None => env "HETGPU_CONCORDIA_AOF_PATH" end) with
        | Some path =>
            match open_append (mpi_scoped_aof_path env path) (proc_world p) with
            | (w, Ok log) => (set_aof (Some log) rt, w)
            | (w, _) => (set_aof None rt, w)
            end
        | None => (rt, proc_world p)
        end in
      (mkProcess (Some rt) (poisoned p) w, rt)
  end.

(** [match global_runtime().lock() { Ok(runtime) => .., Err(_) => code }]: run a
    method on the runtime and map its result to a C integer. *)
Definition with_runtime {A} (on_poisoned : Z) (m : rtm A) (ret : outcome RtError A -> outcome unit Z)
    (p : process) : process * outcome unit Z :=
  let '(p, rt) := global_runtime p in
  if poisoned p then (p, Ok on_poisoned)
  else let '((rt', w'), r) := m (rt, proc_world p) in
       (mkProcess (Some rt') (match r with Panic => true | _ => false end) w', ret r).

Definition ret_id (r : outcome RtError Z) : outcome unit Z :=
  match r with Ok id => Ok id | Err _ => Ok 0%Z | Panic => Panic end.

(** [.map(|_| 0).unwrap_or(-2)] *)
Definition ret_code {A} (r : outcome RtError A) : outcome unit Z :=
  match r with Ok _ => Ok 0%Z | Err _ => Ok (-2)%Z | Panic => Panic end.

Definition hetgpu_concordia_register_host_region (base_addr : Z) (data : pointer) (len : nat)
    (p : process) : process * outcome unit Z :=
  match slice_from_raw data len with
  | Ok initial => with_runtime 0 (rt_register_opaque_host_region base_addr initial) ret_id p
  | Err _ => (p, Ok 0%Z)
  | Panic => (p, Panic)
  end.

Definition hetgpu_concordia_register_bitmap_region (base_addr : Z) (len : nat)
    (p : process) : process * outcome unit Z :=
  with_runtime 0 (rt_register_allocator_bitmap_region base_addr len) ret_id p.

Definition hetgpu_concordia_checkpoint_host_region (region_id : Z) (data : pointer) (len : nat)
    (boundary : option string) (p : process) : process * outcome unit Z :=
  match slice_from_raw data len with
  | Ok current =>
      with_runtime (-3) (checkpoint_host_region region_id current (cstr_from_raw boundary "ffi"))
        ret_code p
  | Err _ => (p, Ok (-1)%Z)
  | Panic => (p, Panic)
  end.

Definition hetgpu_concordia_checkpoint_bitmap_region (region_id : Z) (data : pointer) (len : nat)
    (dirty_bitmap : pointer) (dirty_bitmap_len : nat) (boundary : option string)
    (p : process) : process * outcome unit Z :=
  match slice_from_raw data len with
  | Ok current =>
      match slice_from_raw dirty_bitmap dirty_bitmap_len with
      | Ok bitmap =>
          with_runtime (-3) (checkpoint_allocator_bitmap_region region_id current bitmap
                               (cstr_from_raw boundary "ffi-bitmap")) ret_code p
      | Err _ => (p, Ok (-1)%Z)
      | Panic => (p, Panic)
      end
  | Err _ => (p, Ok (-1)%Z)
  | Panic => (p, Panic)
  end.

Definition hetgpu_concordia_checkpoint_boundary (boundary : option string)
    (p : process) : process * outcome unit Z :=
  if negb (runtime_enabled env) then (p, Ok 0%Z)
  else with_runtime (-1) (checkpoint_boundary (cstr_from_raw boundary "boundary"))
         (fun _ => Ok 0%Z) p.

(** Does not use the runtime; the buffer behind [data] is rewritten in place. *)
Definition hetgpu_concordia_restore_region_from_aof (path : option string) (region_id : Z)
    (data : pointer) (len : nat) (p : process) : pointer * outcome unit Z :=
  match path with
  | None => (data, Ok (-1)%Z)
  | Some path =>
      match slice_from_raw data len with
      | Err _ => (data, Ok (-1)%Z)
      | Panic => (data, Panic)
      | Ok target =>
          let '(target', r) := restore_region_from_aof_path (proc_world p) path region_id target in
          let data' := (fun bytes => (target' ++ drop len bytes)%list) <$> data in
          (data', match r with
                  | Ok applied =>
                      Ok (if (Z.of_nat applied <=? 2 ^ 63 - 1)%Z then Z.of_nat applied else (-3)%Z)
                  | Err _ => Ok (-2)%Z
                  | Panic => Panic
                  end)
      end
  end.

End EntryPoints.

(** ** Log files of parallel ranks *)

Lemma sapp_inj_l p s1 s2 : sapp p s1 = sapp p s2 -> s1 = s2.
Proof. induction p as [|c p IH]; simpl; [done|]. intros [= H]. by apply IH. Qed.

Lemma length_sapp s t : String.length (sapp s t) = String.length s + String.length t.
Proof. induction s as [|c s IH]; simpl; [done|]. by rewrite IH. Qed.

Lemma sapp_inj_r s1 s2 t : sapp s1 t = sapp s2 t -> s1 = s2.
Proof.
  revert s2. induction s1 as [|c s1 IH]; intros [|d s2] H; [done| | |].
  1,2: pose proof (f_equal String.length H) as Hl; rewrite !length_sapp in Hl; simpl in Hl; lia.
  change (String c (sapp s1 t) = String d (sapp s2 t)) in H.
  injection H as -> H. f_equal. by apply IH.
Qed.

(** The number a string of digits denotes. *)
Fixpoint digits_value (acc : N) (s : string) : N :=
  match s with
  | EmptyString => acc
  | String c s => digits_value (10 * acc + (N_of_ascii c - 48)) s
  end.

Lemma digits_value_go x s : digits_value 0 (pretty_N_go x s) = digits_value x s.
Proof.
  revert s. induction (N.lt_wf_0 x) as [x _ IH]; intros s.
  destruct (decide (x = 0)%N) as [->|Hx]; [by rewrite pretty_N_go_0|].
  rewrite pretty_N_go_step by lia. rewrite IH by (apply N.div_lt; lia).
  cbn [digits_value]. f_equal.
  pose proof (N.mod_lt x 10 ltac:(lia)). pose proof (N.div_mod x 10 ltac:(lia)).
  assert (N_of_ascii (pretty_N_char (x `mod` 10)) - 48 = x `mod` 10)%N as ->; [|lia].
  set (d := (x `mod` 10)%N) in *.
  assert (d = 0 ∨ d = 1 ∨ d = 2 ∨ d = 3 ∨ d = 4 ∨ d = 5 ∨ d = 6 ∨ d = 7 ∨ d = 8 ∨ d = 9)%N
    as Hd by lia. by destruct_or? Hd; rewrite Hd.
Qed.

Lemma digits_value_dec z : (0 <= z)%Z -> digits_value 0 (dec z) = Z.to_N z.
Proof.
  intros Hz. destruct z as [|p|p]; [done| |lia].
  change (dec (Z.pos p)) with (pretty_N_go (N.pos p) ""). by rewrite digits_value_go.
Qed.

Lemma digits_value_zeros n s : digits_value 0 (sapp (zeros n) s) = digits_value 0 s.
Proof. induction n as [|n IH]; simpl; done. Qed.

Lemma pad4_inj a b : (0 <= a)%Z -> (0 <= b)%Z -> pad4 a = pad4 b -> a = b.
Proof.
  intros Ha Hb H%(f_equal (digits_value 0)). unfold pad4 in H.
  rewrite !digits_value_zeros, !digits_value_dec in H by done. lia.
Qed.

Lemma read_u32_range pairs keys fallback :
  (0 <= fallback < 2 ^ 32)%Z -> (0 <= read_u32_from_pairs pairs keys fallback < 2 ^ 32)%Z.
Proof.
  intros Hf. unfold read_u32_from_pairs. induction keys as [|key keys IH]; simpl; [done|].
  destruct (assoc key pairs) as [v|]; simpl; [|done]. destruct (parse_i64 (trim v)) as [z|]; simpl; [|done].
  unfold u32_try_from. destruct (is_u 32 z) eqn:Hz; [|done]. by apply is_u_spec.
Qed.

Lemma mpi_rank_range env : (0 <= rank (mpi_info_from_env env) < 2 ^ 32)%Z.
Proof. by apply read_u32_range. Qed.

Lemma ranked_file_name_inj i1 i2 path :
  world_size i1 = world_size i2 -> (0 <= rank i1)%Z -> (0 <= rank i2)%Z ->
  ranked_file_name i1 path = ranked_file_name i2 path -> rank i1 = rank i2.
Proof.
  intros Hw H1 H2. unfold ranked_file_name.
  assert (ranked_suffix i1 = ranked_suffix i2 -> rank i1 = rank i2) as Hs.
  { unfold ranked_suffix. rewrite Hw. intros H%sapp_inj_l%sapp_inj_r. by apply pad4_inj. }
  intros Heq. apply Hs. destruct (extension path) as [ext|]; [case_match|];
    apply sapp_inj_l in Heq; apply sapp_inj_l in Heq; try done. by apply sapp_inj_r in Heq.
Qed.

(** Two ranks of one parallel job that are given the same log path, with
    no template in it, write to different files: the rank-scoped paths differ
    whenever the ranks differ. *)
Theorem mpi_log_paths_disjoint env1 env2 path :
  is_parallel (mpi_info_from_env env1) = true ->
  world_size (mpi_info_from_env env2) = world_size (mpi_info_from_env env1) ->
  rank (mpi_info_from_env env1) <> rank (mpi_info_from_env env2) ->
  has_template_token path = false ->
  mpi_scoped_aof_path env1 path <> mpi_scoped_aof_path env2 path.
Proof.
  intros Hp Hw Hr Ht. assert (is_parallel (mpi_info_from_env env2) = true) as Hp2.
  { unfold is_parallel in *. by rewrite Hw. }
  unfold mpi_scoped_aof_path, mpi_scoped_aof_path_for_info. rewrite Hp, Hp2, Ht. simpl.
  intros Heq. apply Hr. pose proof (mpi_rank_range env1). pose proof (mpi_rank_range env2).
  apply (ranked_file_name_inj _ _ path); [done|lia|lia|].
  destruct (parent path) as [dir|]; [|done]. destruct (String.eqb dir ""); [done|].
  unfold path_join in Heq. destruct (String.eqb dir ""); [done|].
  destruct (ends_with_char "/" dir).
  - by apply sapp_inj_l in Heq.
  - by apply sapp_inj_l, sapp_inj_l in Heq.
Qed.

Definition rank_env (r : string) : environment := fun key =>
  if String.eqb key "RANK" then Some r
  else if String.eqb key "WORLD_SIZE" then Some "16" else None.

Lemma mpi_log_paths_disjoint_witness :
  mpi_scoped_aof_path (rank_env "1") "/var/log/run.aof" <>
  mpi_scoped_aof_path (rank_env "10") "/var/log/run.aof".
Proof.
  apply (mpi_log_paths_disjoint (rank_env "1") (rank_env "10")).
  - vm_compute. reflexivity.
  - vm_compute. reflexivity.
  - vm_compute. discriminate.
  - vm_compute. reflexivity.
Defined.
