(* ===== verification/RuntimeSpec.v ===== *)
(** * The runtime refines a map of checkpointed regions

    What [ConcordiaRuntime] promises: a map from region ids to the contents of
    the last accepted checkpoint.  Every sequence of calls on the runtime acts
    on that map as the specification says, refuses exactly the calls it
    refuses, and the log file alone restores every region of the map. *)
From stdpp Require Import base numbers list strings gmap pretty.
From Stdlib Require Import ZArith Lia.
From S2P Require Import Prelude HostIO Delta Aof RustStr Runtime.

Local Open Scope nat_scope.

(** ** The specification *)

(** An opaque region: its contents when registered and when last checkpointed.
    A bitmap region: the bytes some checkpoint has marked, where there is one. *)
Inductive abs_region : Type :=
| AOpaque (initial last : list Z)
| ABitmap (known : list (option Z)).

Record spec : Type := mkSpec {
  sp_next : Z;
  sp_regions : gmap Z abs_region;
}.

Inductive rt_op : Type :=
| OpRegister (base_addr : Z) (initial : list Z)
| OpRegisterBitmap (base_addr : Z) (len : nat)
| OpCheckpoint (region_id : Z) (current : list Z) (boundary : string)
| OpCheckpointBitmap (region_id : Z) (current dirty_bitmap : list Z) (boundary : string)
| OpBoundary (boundary : string).

Definition spec_init : spec := mkSpec 1 ∅.

(** The bytes known after a bitmap checkpoint. *)
Definition mark (ps : nat) (dirty_bitmap current : list Z) (known : list (option Z)) : list (option Z) :=
  imap (fun i k => if bitmap_bit dirty_bitmap (i / ps) then current !! i else k) known.

(** A buffer overwritten with the known bytes. *)
Definition overlay (known : list (option Z)) (buf : list Z) : list Z :=
  zip_with (fun k b => default b k) known buf.

Definition spec_update (id : Z) (a : abs_region) (sp : spec) : spec :=
  mkSpec (sp_next sp) (<[id := a]> (sp_regions sp)).

Definition spec_register (a : abs_region) (sp : spec) : spec :=
  mkSpec (sp_next sp + 1) (<[sp_next sp := a]> (sp_regions sp)).

(** [None]: the call is refused. *)
Definition spec_step (ps : nat) (op : rt_op) (sp : spec) : option spec :=
  match op with
  | OpRegister _ initial => Some (spec_register (AOpaque initial initial) sp)
  | OpRegisterBitmap _ len => Some (spec_register (ABitmap (replicate len None)) sp)
  | OpCheckpoint id current _ =>
      match sp_regions sp !! id with
      | Some (AOpaque initial last) =>
          if decide (length last = length current)
          then Some (spec_update id (AOpaque initial current) sp) else None
      | _ => None
      end
  | OpCheckpointBitmap id current bitmap _ =>
      match sp_regions sp !! id with
      | Some (ABitmap known) =>
          if decide (length known = length current)
          then Some (spec_update id (ABitmap (mark ps bitmap current known)) sp) else None
      | _ => None
      end
  | OpBoundary _ => Some sp
  end.

(** The calls on the runtime. *)
Definition rt_call (op : rt_op) : rtm unit :=
  match op with
  | OpRegister base initial => rt_register_opaque_host_region base initial ;; mret tt
  | OpRegisterBitmap base len => rt_register_allocator_bitmap_region base len ;; mret tt
  | OpCheckpoint id current b => checkpoint_host_region id current b ;; mret tt
  | OpCheckpointBitmap id current bitmap b => checkpoint_allocator_bitmap_region id current bitmap b ;; mret tt
  | OpBoundary b => checkpoint_boundary b
  end.

(** Buffers and lengths a process can have. *)
Definition op_fits (op : rt_op) : bool :=
  match op with
  | OpRegister _ buf | OpCheckpoint _ buf _ | OpCheckpointBitmap _ buf _ _ =>
      (Z.of_nat (length buf) <=? isize_max)%Z
  | OpRegisterBitmap _ len => (Z.of_nat len <=? isize_max)%Z
  | OpBoundary _ => true
  end.

(** Runs: the calls that were accepted, and the final state. *)
Fixpoint spec_run (ps : nat) (ops : list rt_op) (sp : spec) : list bool * spec :=
  match ops with
  | [] => ([], sp)
  | op :: ops =>
      let r := spec_step ps op sp in
      let '(oks, sp') := spec_run ps ops (default sp r) in
      (bool_decide (is_Some r) :: oks, sp')
  end.

Fixpoint rt_run (ops : list rt_op) (s : ConcordiaRuntime * world)
    : list bool * (ConcordiaRuntime * world) :=
  match ops with
  | [] => ([], s)
  | op :: ops =>
      let '(s', r) := rt_call op s in
      let '(oks, s'') := rt_run ops s' in
      (match r with Ok _ => true | _ => false end :: oks, s'')
  end.

(** ** Replaying a log that grows *)

Lemma stm_foldM_app {S E A B} (f : B -> A -> stm S E B) b l1 l2 s s' b' :
  stm_foldM f b l1 s = (s', Ok b') -> stm_foldM f b (l1 ++ l2) s = stm_foldM f b' l2 s'.
Proof.
  revert b s. induction l1 as [|a l1 IH]; intros b s H; simpl in *.
  - by injection H as -> ->.
  - apply stm_bind_Ok_inv in H as (s1 & b1 & Ha & H). erewrite stm_bind_Ok by done. by apply IH.
Qed.

(** The log [records] rebuilds [buf'] from [buf] for region [id]. *)
Definition restores (id : Z) (records : list AofRecord) (buf buf' : list Z) : Prop :=
  exists n, apply_records_to_region id records buf = (buf', Ok n).

Lemma restores_nil id buf : restores id [] buf buf.
Proof. by exists 0. Qed.

Lemma filter_other_records id rid epoch pages :
  Forall (fun p => dp_region_id p = rid) pages -> id <> rid ->
  filter (fun record => ar_region_id record = id) (page_records epoch pages) = [].
Proof.
  intros Hp Hne. induction Hp as [|p pages Hp _ IH]; [done|].
  change (page_records epoch (p :: pages)) with
    (mkAofRecord epoch (dp_region_id p) (Z.of_nat (dp_offset p)) (dp_data p) :: page_records epoch pages).
  rewrite filter_cons, decide_False by (simpl; congruence). done.
Qed.

Lemma restores_pages id rid epoch pages records buf buf' :
  restores id records buf buf' ->
  (Z.of_nat (length buf') <= isize_max)%Z -> Forall (fun p => dp_region_id p = rid) pages ->
  (id = rid -> Forall (page_fits (length buf')) pages) ->
  restores id (records ++ page_records epoch pages) buf
    (if decide (id = rid) then foldl put_page buf' pages else buf').
Proof.
  intros [n Hn] Hb Hp Hfit. unfold restores, apply_records_to_region in *. rewrite filter_app.
  rewrite (stm_foldM_app _ _ _ _ _ _ _ Hn). case_decide as Hid.
  - subst. rewrite filter_page_records by done.
    rewrite apply_pages_go; [by eauto|unfold isize_max, u64_max in *; lia|by apply Hfit].
  - rewrite (filter_other_records id rid) by done. by exists n.
Qed.

Lemma restores_fresh id records buf :
  Forall (fun r => ar_region_id r <> id) records -> restores id records buf buf.
Proof.
  intros H. exists 0. unfold restores, apply_records_to_region.
  replace (filter _ records) with (@nil AofRecord); [done|].
  induction H as [|r rs Hr _ IH]; [done|]. by rewrite filter_cons, decide_False.
Qed.

(** ** Overlays *)

Lemma length_overlay known buf : length known = length buf -> length (overlay known buf) = length buf.
Proof. intros. unfold overlay. rewrite length_zip_with. lia. Qed.

Lemma overlay_lookup known buf i :
  length known = length buf ->
  overlay known buf !! i = (fun b => default b (mjoin (known !! i))) <$> buf !! i.
Proof.
  intros Hl. unfold overlay. rewrite lookup_zip_with.
  destruct (known !! i) as [k|] eqn:Hk, (buf !! i) as [b|] eqn:Hb; simpl; try done.
  apply lookup_lt_Some in Hb. apply lookup_ge_None in Hk. lia.
Qed.

Lemma overlay_none n buf : length buf = n -> overlay (replicate n None) buf = buf.
Proof.
  intros Hn. apply list_eq. intros i. rewrite overlay_lookup by (rewrite length_replicate; lia).
  destruct (buf !! i) as [b|] eqn:Hb; [|done]. simpl.
  apply lookup_lt_Some in Hb. by rewrite lookup_replicate_2 by lia.
Qed.

Lemma overlay_mark ps bitmap current known buf rid :
  0 < ps -> length known = length buf -> length current = length buf ->
  foldl put_page (overlay known buf)
    (marked_from rid ps current bitmap 0 (div_ceil (length current) ps)) =
  overlay (mark ps bitmap current known) buf.
Proof.
  intros Hps Hk Hc. assert (length (mark ps bitmap current known) = length buf) as Hm.
  { unfold mark. by rewrite length_imap. }
  apply list_eq. intros i. destruct (decide (i < length buf)) as [Hi|Hi].
  - rewrite lookup_put_marked; [|done|by rewrite length_overlay|lia|].
    2: { intros j Hj. by eapply pages_in_range. }
    rewrite decide_True.
    2: { split; [lia|]. apply div_ceil_spec; [done|].
         pose proof (Nat.div_mod_eq i ps). lia. }
    rewrite !overlay_lookup by done. unfold mark. rewrite list_lookup_imap.
    destruct (lookup_lt_is_Some_2 known i ltac:(lia)) as [k ->].
    destruct (lookup_lt_is_Some_2 buf i Hi) as [b ->].
    destruct (lookup_lt_is_Some_2 current i ltac:(lia)) as [c ->]. simpl.
    by destruct (bitmap_bit _ _).
  - rewrite !lookup_ge_None_2; [done|rewrite length_overlay; lia|].
    rewrite length_put_pages, length_overlay; lia.
Qed.

(** ** The simulation relation *)

(** The region the runtime tracks for an abstract one, and what the log says
    about it. *)
Definition region_rel (id : Z) (records : list AofRecord) (a : abs_region) (region : TrackedRegion) : Prop :=
  match a with
  | AOpaque initial last =>
      tr_kind region = OpaqueShadow /\ tr_shadow region = Some last /\ tr_len region = length last /\
      length initial = length last /\ (Z.of_nat (length last) <= isize_max)%Z /\
      restores id records initial last
  | ABitmap known =>
      tr_kind region = AllocatorBitmap /\ tr_len region = length known /\
      (Z.of_nat (length known) <= isize_max)%Z /\
      forall buf, length buf = length known -> restores id records buf (overlay known buf)
  end.

(** An abstract and a concrete region map agree at [id]. *)
Definition agree (id : Z) (records : list AofRecord) (a : option abs_region)
    (region : option TrackedRegion) : Prop :=
  match a, region with
  | Some a, Some region => region_rel id records a region
  | None, None => True
  | _, _ => False
  end.

Record simulates (ps : nat) (log : AofDiskLog) (records : list AofRecord) (sp : spec)
    (s : ConcordiaRuntime * world) : Prop := mk_simulates {
  sim_wf : wf_state (state (fst s));
  sim_ps : page_size (state (fst s)) = ps;
  sim_aof : aof (fst s) = Some log;
  sim_healthy : healthy (log_path log) (snd s);
  sim_file : file_bytes (log_path log) (snd s) = encode_records records;
  sim_records : Forall wf_record records;
  sim_ids : Forall (fun r => ar_region_id r < next_region_id (state (fst s)))%Z records;
  sim_next : sp_next sp = next_region_id (state (fst s));
  sim_regions : forall id, agree id records (sp_regions sp !! id) (region_of id (state (fst s)));
}.

Lemma region_of_push id region st :
  region_of id (push_region region st) =
  match region_of id st with
  | Some r => Some r
  | None => if decide (tr_id region = id) then Some region else None
  end.
Proof.
  unfold region_of. rewrite find_push_region.
  destruct (find_region id st) as [[? ?]|]; simpl; [done|]. by case_decide.
Qed.

Lemma region_of_fresh st : wf_state st -> region_of (next_region_id st) st = None.
Proof.
  intros Hwf. unfold region_of. destruct (find_region _ st) as [[i r]|] eqn:Hf; [|done].
  apply find_region_Some in Hf as (Hi & Hid & _). exfalso.
  pose proof (wf_id_range _ Hwf) as Hr. rewrite Forall_forall in Hr.
  specialize (Hr r ltac:(by eapply list_elem_of_lookup_2)). simpl in Hr. lia.
Qed.

Lemma region_of_bump id st : region_of id (bump_epoch st) = region_of id st.
Proof. done. Qed.

Lemma region_of_set id rid st i region sh :
  find_region rid st = Some (i, region) ->
  region_of id (set_shadow i region sh st) =
  if decide (id = rid)
  then Some (mkTrackedRegion (tr_id region) (tr_base_addr region) (tr_len region) (Some sh) (tr_kind region))
  else region_of id st.
Proof.
  intros Hf. unfold region_of. rewrite (find_set_shadow _ _ _ _ _ _ Hf). by case_decide.
Qed.

(** Registering a region. *)
Lemma simulates_register ps log records sp rt w a region :
  simulates ps log records sp (rt, w) -> (next_region_id (state rt) < u64_max)%Z ->
  tr_id region = next_region_id (state rt) -> wf_region region ->
  region_rel (next_region_id (state rt)) records a region ->
  simulates ps log records (spec_register a sp) (set_state (push_region region (state rt)) rt, w).
Proof.
  intros [Hwf Hps Ha Hh Hf Hr Hi Hn Hg] Hlt Hid Hwr Hrel; simpl in *.
  pose proof (wf_next_id _ Hwf).
  assert (wrapping_add 64 (next_region_id (state rt)) 1 = next_region_id (state rt) + 1)%Z as Hw
    by (apply wrapping_add_next; lia).
  constructor; simpl; try done.
  - by apply wf_push.
  - rewrite Hw. eapply Forall_impl; [exact Hi|]. simpl. lia.
  - by rewrite Hw, Hn.
  - intros id. rewrite region_of_push. destruct (decide (id = next_region_id (state rt))) as [->|Hne].
    + rewrite Hn, lookup_insert_eq, region_of_fresh by done. by rewrite decide_True.
    + rewrite lookup_insert_ne by congruence. specialize (Hg id).
      destruct (region_of id (state rt)); [done|].
      by rewrite decide_False by congruence.
Qed.

(** A delta appended to the log without faults. *)
Lemma append_ok log delta rt w records :
  aof rt = Some log -> healthy (log_path log) w -> write_faults w = [] ->
  file_bytes (log_path log) w = encode_records records ->
  exists w', append_to_aof delta (rt, w) = ((rt, w'), Ok tt) /\
    healthy (log_path log) w' /\ write_faults w' = [] /\
    file_bytes (log_path log) w' = encode_records (records ++ delta_records delta).
Proof.
  intros Ha Hh Hf Hb.
  destruct (writes_nofault _ _ _ w (append_delta_writes log delta) Hf) as (w' & Hw & Hb' & Hfr).
  exists w'. unfold append_to_aof. rewrite Ha, Hw. split_and!; [done|by eapply healthy_frame| |].
  - by apply Hfr.
  - by rewrite Hb', Hb, encode_records_app.
Qed.

Lemma wf_page_records epoch rid len pages :
  (0 <= epoch <= u64_max)%Z -> (0 <= rid <= u64_max)%Z -> (Z.of_nat len <= isize_max)%Z ->
  Forall (page_fits len) pages -> Forall (fun p => dp_region_id p = rid) pages ->
  Forall wf_record (page_records epoch pages).
Proof.
  intros He Hr Hl Hf Hi. unfold page_records. rewrite Forall_fmap.
  rewrite Forall_forall in *. intros p Hp. specialize (Hf p Hp). specialize (Hi p Hp).
  unfold page_fits in Hf. simpl in *. constructor; simpl; unfold u64_max, isize_max in *; (done || lia).
Qed.

Lemma page_records_ids epoch rid n pages :
  Forall (fun p => dp_region_id p = rid) pages -> (rid < n)%Z ->
  Forall (fun r => ar_region_id r < n)%Z (page_records epoch pages).
Proof.
  intros Hp Hn. unfold page_records. rewrite Forall_fmap. eapply Forall_impl; [exact Hp|].
  intros p Hid. simpl in *. lia.
Qed.

Lemma find_region_range rid st i region :
  wf_state st -> find_region rid st = Some (i, region) -> (1 <= rid < next_region_id st)%Z.
Proof.
  intros Hwf Hf. apply find_region_Some in Hf as (Hi & <- & _).
  pose proof (wf_id_range _ Hwf) as Hr. rewrite Forall_forall in Hr.
  apply Hr. by eapply list_elem_of_lookup_2.
Qed.

Lemma marked_from_fit rid ps current bitmap :
  0 < ps ->
  let pages := marked_from rid ps current bitmap 0 (div_ceil (length current) ps) in
  Forall (page_fits (length current)) pages /\ Forall (fun p => dp_region_id p = rid) pages.
Proof.
  intros Hps pages. split; apply Forall_forall; intros p Hp;
    apply list_elem_of_omap in Hp as (j & Hj%elem_of_seq & Heq);
    destruct (bitmap_bit bitmap j); simplify_eq; [|done].
  pose proof (pages_in_range ps current j Hps Hj).
  unfold page_fits; simpl. rewrite length_page_of by done. lia.
Qed.

(** The records of another region, or of pages that do not touch it, keep the
    relation. *)
Lemma agree_other id rid records epoch pages a region :
  agree id records a region -> id <> rid -> Forall (fun p => dp_region_id p = rid) pages ->
  agree id (records ++ page_records epoch pages) a region.
Proof.
  intros Hag Hne Hp. destruct a as [a|], region as [region|]; simpl in *; try done.
  assert (forall b b', restores id records b b' -> (Z.of_nat (length b') <= isize_max)%Z ->
    restores id (records ++ page_records epoch pages) b b') as Hres.
  { intros b b' Hb Hl. pose proof (restores_pages id rid epoch pages records b b' Hb Hl Hp) as H.
    rewrite decide_False in H by done. by apply H. }
  destruct a as [initial last|known]; simpl in *.
  - destruct Hag as (? & ? & ? & ? & ? & ?). split_and!; eauto.
  - destruct Hag as (? & ? & ? & Ho). split_and!; try done.
    intros buf Hb. apply Hres; [by apply Ho|]. rewrite length_overlay by done. by rewrite Hb.
Qed.

(** An accepted checkpoint of either kind: its pages are appended to the log
    and its region moves to the new abstract state. *)
Lemma simulates_delta ps log records sp rt w rid i region st' delta len a :
  simulates ps log records sp (rt, w) -> write_faults w = [] ->
  find_region rid (state rt) = Some (i, region) ->
  wf_state st' -> page_size st' = ps -> next_region_id st' = next_region_id (state rt) ->
  (forall id, id <> rid -> region_of id st' = region_of id (state rt)) ->
  dr_epoch delta = next_epoch (state rt) -> (Z.of_nat len <= isize_max)%Z ->
  Forall (page_fits len) (dr_dirty_pages delta) ->
  Forall (fun p => dp_region_id p = rid) (dr_dirty_pages delta) ->
  agree rid (records ++ delta_records delta) (Some a) (region_of rid st') ->
  exists w', append_to_aof delta (set_state st' rt, w) = ((set_state st' rt, w'), Ok tt) /\
    simulates ps log (records ++ delta_records delta) (spec_update rid a sp) (set_state st' rt, w') /\
    write_faults w' = [].
Proof.
  intros [Hwf Hps Ha Hh Hf Hr Hi Hn Hg] Hnf Hfind Hwf' Hps' Hnext Hother He Hlen Hfit Hids Hag; simpl in *.
  destruct (append_ok log delta (set_state st' rt) w records Ha Hh Hnf Hf) as (w' & Hw & Hh' & Hnf' & Hb).
  exists w'. split_and!; try done.
  pose proof (find_region_range _ _ _ _ Hwf Hfind).
  pose proof (wf_next_id _ Hwf). pose proof (wf_next_epoch _ Hwf).
  assert (delta_records delta = page_records (dr_epoch delta) (dr_dirty_pages delta)) as Hd by done.
  constructor; simpl; try done.
  - apply Forall_app. split; [done|]. rewrite Hd, He.
    eapply (wf_page_records _ rid); try done; lia.
  - rewrite Hnext. apply Forall_app. split; [done|]. rewrite Hd. eapply page_records_ids; [done|lia].
  - by rewrite Hnext.
  - intros id. destruct (decide (id = rid)) as [->|Hne].
    + by rewrite lookup_insert_eq.
    + rewrite lookup_insert_ne, Hother by done. rewrite Hd. by eapply agree_other.
Qed.

Lemma region_of_find id st i region : find_region id st = Some (i, region) -> region_of id st = Some region.
Proof. unfold region_of. by intros ->. Qed.

Lemma region_of_None id st : region_of id st = None -> find_region id st = None.
Proof. unfold region_of. by destruct (find_region id st). Qed.

Lemma region_of_Some id st region :
  region_of id st = Some region -> exists i, find_region id st = Some (i, region).
Proof. unfold region_of. destruct (find_region id st) as [[i r]|]; intros [= ->]. by exists i. Qed.

(** The checkpoint methods, given what the delta state answers. *)
Lemma on_state_bind {A B} (m : DeltaCheckpointState -> DeltaCheckpointState * outcome DeltaError A)
    (k : A -> rtm B) rt w st' a :
  m (state rt) = (st', Ok a) -> (on_state m ≫= k) (rt, w) = k a (set_state st' rt, w).
Proof. intros H. apply stm_bind_Ok. unfold on_state. by rewrite H. Qed.

Lemma on_state_refused {A B} (m : DeltaCheckpointState -> DeltaCheckpointState * outcome DeltaError A)
    (k : A -> rtm B) rt w e :
  m (state rt) = (state rt, Err e) -> (on_state m ≫= k) (rt, w) = ((rt, w), Err (RtDelta e)).
Proof.
  intros H. apply stm_bind_Err. unfold on_state. rewrite H. simpl. by destruct rt.
Qed.

Lemma agree_not_opaque id records a st n :
  agree id records a (region_of id st) ->
  match a with Some (AOpaque _ last) => length last <> n | _ => True end ->
  exists e, opaque_region id n st = Err e.
Proof.
  intros Hag Ha. unfold opaque_region.
  destruct (find_region id st) as [[i r]|] eqn:Hf; simpl; [|by eauto].
  rewrite (region_of_find _ _ _ _ Hf) in Hag. destruct a as [[init last|known]|]; simpl in *; [| |done].
  - destruct Hag as (-> & _ & Hl & _). rewrite decide_False by tauto.
    rewrite decide_True by congruence. by eauto.
  - destruct Hag as (-> & _). rewrite decide_True by done. by eauto.
Qed.

Lemma agree_not_bitmap id records a st current bitmap :
  agree id records a (region_of id st) ->
  match a with Some (ABitmap known) => length known <> length current | _ => True end ->
  exists e, create_bitmap_delta id current bitmap st = (st, Err e).
Proof.
  intros Hag Ha. unfold create_bitmap_delta.
  destruct (find_region id st) as [[i r]|] eqn:Hf; simpl; [|by eauto].
  rewrite (region_of_find _ _ _ _ Hf) in Hag. destruct a as [[init last|known]|]; simpl in *; [| |done].
  - destruct Hag as (-> & _). rewrite decide_True by done. by eauto.
  - destruct Hag as (-> & Hl & _). rewrite decide_False by tauto.
    rewrite decide_True by congruence. by eauto.
Qed.

(** What a checkpoint of a known opaque region computes. *)
Lemma host_delta_of_spec ps log records sp rt w id current initial last :
  simulates ps log records sp (rt, w) ->
  sp_regions sp !! id = Some (AOpaque initial last) -> length last = length current ->
  exists i region,
    find_region id (state rt) = Some (i, region) /\
    tr_kind region = OpaqueShadow /\ tr_len region = length current /\
    create_host_delta id current (state rt) =
      (bump_epoch (set_shadow i region current (state rt)),
       Ok (mkDeltaRecord (next_epoch (state rt)) id (tr_base_addr region)
             (dirty_pages_of id ps current last))).
Proof.
  intros [Hwf Hps _ _ _ _ _ _ Hg] Hsp Hl; simpl in *. specialize (Hg id). rewrite Hsp in Hg.
  destruct (region_of id (state rt)) as [region|] eqn:Hr; simpl in Hg; [|done].
  destruct Hg as (Hk & Hs & Hn & _). apply region_of_Some in Hr as [i Hf].
  exists i, region. split_and!; [done|done|congruence|]. rewrite <- Hps.
  apply create_host_delta_eq; [done|]. apply opaque_region_Ok. split_and!; (done || congruence).
Qed.

Lemma simulates_checkpoint ps log records sp rt w id current boundary initial last :
  simulates ps log records sp (rt, w) -> write_faults w = [] ->
  sp_regions sp !! id = Some (AOpaque initial last) -> length last = length current ->
  exists s' records',
    rt_call (OpCheckpoint id current boundary) (rt, w) = (s', Ok tt) /\
    simulates ps log records' (spec_update id (AOpaque initial current) sp) s' /\
    write_faults (snd s') = [].
Proof.
  intros Hsim Hnf Hsp Hl.
  destruct (host_delta_of_spec _ _ _ _ _ _ _ _ _ _ Hsim Hsp Hl) as (i & region & Hf & Hk & Hn & Hc).
  set (st' := bump_epoch _) in Hc. set (delta := mkDeltaRecord _ _ _ _) in Hc.
  destruct Hsim as [Hwf Hps Ha Hh Hfile Hr Hi Hnx Hg] eqn:Es; simpl in *; clear Es.
  pose proof (Hg id) as Hid. rewrite Hsp, (region_of_find _ _ _ _ Hf) in Hid.
  destruct Hid as (_ & _ & _ & Hil & Hmax & Hres).
  pose proof (wf_page_size _ Hwf) as Hpos. rewrite Hps in Hpos.
  destruct (dirty_pages_of_fit id ps current last Hpos) as [Hfit Hids].
  destruct (simulates_delta ps log records sp rt w id i region st' delta (length current)
    (AOpaque initial current)) as (w' & Hw & Hsim' & Hnf'); try done.
  - apply wf_bump. by eapply wf_set_shadow.
  - intros id' Hne. unfold st'. rewrite region_of_bump, (region_of_set _ _ _ _ _ _ Hf).
    by rewrite decide_False.
  - by rewrite <- Hl.
  - unfold st'. rewrite region_of_bump, (region_of_set _ _ _ _ _ _ Hf), decide_True by done.
    simpl. split_and!; try done; [congruence|by rewrite <- Hl|].
    rewrite <- (replay_dirty_pages id ps current last) by done.
    pose proof (restores_pages id id (dr_epoch delta) (dr_dirty_pages delta) records initial last) as H.
    rewrite decide_True in H by done. apply H; try done. intros _. by rewrite Hl.
  - exists (set_state st' rt, w'), (records ++ delta_records delta)%list. split_and!; try done.
    unfold rt_call, checkpoint_host_region.
    unfold mbind at 1, stm_bind at 1. erewrite on_state_bind by done.
    unfold mbind, stm_bind. by rewrite Hw.
Qed.

Lemma simulates_checkpoint_bitmap ps log records sp rt w id current bitmap boundary known :
  simulates ps log records sp (rt, w) -> write_faults w = [] ->
  sp_regions sp !! id = Some (ABitmap known) -> length known = length current ->
  exists s' records',
    rt_call (OpCheckpointBitmap id current bitmap boundary) (rt, w) = (s', Ok tt) /\
    simulates ps log records' (spec_update id (ABitmap (mark ps bitmap current known)) sp) s' /\
    write_faults (snd s') = [].
Proof.
  intros Hsim Hnf Hsp Hl.
  destruct Hsim as [Hwf Hps Ha Hh Hfile Hr Hi Hnx Hg] eqn:Es; simpl in *; clear Es.
  pose proof (Hg id) as Hid. rewrite Hsp in Hid.
  destruct (region_of id (state rt)) as [region|] eqn:Hreg; simpl in Hid; [|done].
  destruct Hid as (Hk & Hn & Hmax & Hres). apply region_of_Some in Hreg as [i Hf].
  destruct (create_bitmap_delta_cases id current bitmap (state rt) Hwf)
    as [(i' & r' & Hf' & _ & _ & Hc)|(e & Hc)].
  2: { unfold create_bitmap_delta in Hc. rewrite Hf, !decide_False in Hc by (rewrite ?Hk, ?Hn; tauto).
       rewrite bitmap_scan_pages in Hc; [done|]. intros j Hj. eapply pages_in_range; [|done]. by apply Hwf. }
  rewrite Hf in Hf'. injection Hf' as <- <-.
  set (st' := bump_epoch _) in Hc. set (delta := mkDeltaRecord _ _ _ _) in Hc.
  pose proof (wf_page_size _ Hwf) as Hpos. subst ps.
  destruct (marked_from_fit id _ current bitmap Hpos) as [Hfit Hids].
  destruct (simulates_delta (page_size (state rt)) log records sp rt w id i region st' delta (length current)
    (ABitmap (mark (page_size (state rt)) bitmap current known))) as (w' & Hw & Hsim' & Hnf'); try done.
  - by apply wf_bump.
  - by rewrite <- Hl.
  - unfold st'. rewrite region_of_bump, (region_of_find _ _ _ _ Hf). simpl. unfold mark at 1 2 3.
    rewrite length_imap. split_and!; try done. intros buf Hb.
    rewrite <- (overlay_mark _ _ _ _ _ id) by (done || congruence).
    pose proof (restores_pages id id (dr_epoch delta) (dr_dirty_pages delta) records buf
      (overlay known buf)) as H.
    rewrite decide_True in H by done. rewrite length_overlay in H by done.
    apply H; try done; [by apply Hres|by rewrite Hb|]. intros _. by rewrite Hb, Hl.
  - exists (set_state st' rt, w'), (records ++ delta_records delta)%list. split_and!; try done.
    unfold rt_call, checkpoint_allocator_bitmap_region.
    unfold mbind at 1, stm_bind at 1. erewrite on_state_bind by done.
    unfold mbind, stm_bind. by rewrite Hw.
Qed.

(** One call: accepted exactly when the specification accepts it, and then the
    relation holds again; a refused call changes nothing. *)
Lemma simulates_step ps log records sp s op :
  simulates ps log records sp s -> write_faults (snd s) = [] ->
  (sp_next sp < u64_max)%Z -> op_fits op = true ->
  match spec_step ps op sp with
  | Some sp' => exists s' records',
      rt_call op s = (s', Ok tt) /\ simulates ps log records' sp' s' /\ write_faults (snd s') = []
  | None => exists e, rt_call op s = (s, Err e)
  end.
Proof.
  destruct s as [rt w]. intros Hsim Hnf Hlt Hfits. pose proof (sim_next _ _ _ _ _ Hsim) as Hn.
  simpl in Hn. assert (Forall (fun r => ar_region_id r <> next_region_id (state rt)) records) as Hfresh.
  { eapply Forall_impl; [apply (sim_ids _ _ _ _ _ Hsim)|]. simpl. lia. }
  destruct op as [base initial|base len|id current b|id current bitmap b|b]; simpl in Hfits |- *.
  - apply Z.leb_le in Hfits. eexists _, records. split_and!; [done| |done].
    apply simulates_register; try done; [lia|by unfold wf_region; simpl; eauto|].
    simpl. split_and!; try done. by apply restores_fresh.
  - apply Z.leb_le in Hfits. eexists _, records. split_and!; [done| |done].
    apply simulates_register; try done; [lia|]. simpl. rewrite length_replicate.
    split_and!; try done. intros buf Hb. rewrite overlay_none by done. by apply restores_fresh.
  - pose proof (sim_regions _ _ _ _ _ Hsim id) as Hag. simpl in Hag.
    destruct (sp_regions sp !! id) as [[initial last|known]|] eqn:Hsp.
    1: case_decide as Hl; [by eapply simulates_checkpoint|].
    all: destruct (agree_not_opaque id records _ (state rt) (length current) Hag) as [e He]; try done.
    all: exists (RtDelta e); unfold rt_call, checkpoint_host_region.
    all: apply stm_bind_Err, on_state_refused; unfold create_host_delta; by rewrite He.
  - pose proof (sim_regions _ _ _ _ _ Hsim id) as Hag. simpl in Hag.
    destruct (sp_regions sp !! id) as [[initial last|known]|] eqn:Hsp.
    2: case_decide as Hl; [by eapply simulates_checkpoint_bitmap|].
    all: destruct (agree_not_bitmap id records _ (state rt) current bitmap Hag) as [e He]; try done.
    all: exists (RtDelta e); unfold rt_call, checkpoint_allocator_bitmap_region.
    all: by apply stm_bind_Err, on_state_refused.
  - eexists _, records. split_and!; [done| |done]. by destruct Hsim; constructor.
Qed.

Lemma simulates_init env ps path w :
  path ∉ denied w -> read_fault w = None ->
  exists w', set_aof_path path (runtime_new env ps, w) =
      ((set_aof (Some (mkAofDiskLog path)) (runtime_new env ps), w'), Ok tt) /\
    write_faults w' = write_faults w /\
    simulates (ps `max` 1) (mkAofDiskLog path) [] spec_init
      (set_aof (Some (mkAofDiskLog path)) (runtime_new env ps), w').
Proof.
  intros Hd Hr. exists (set_file path [] w).
  assert (create path w = (set_file path [] w, Ok (mkAofDiskLog path))) as Hc.
  { unfold create, open_truncate, mbind, stm_bind. by rewrite decide_False. }
  unfold set_aof_path. rewrite Hc. split_and!; try done.
  constructor; simpl; try done.
  - apply wf_new.
  - constructor; simpl; try done. by rewrite lookup_insert_eq.
  - by rewrite file_bytes_set_file.
Qed.

Lemma spec_step_next ps op sp sp' :
  spec_step ps op sp = Some sp' -> (sp_next sp' <= sp_next sp + 1)%Z.
Proof.
  destruct op; simpl; repeat case_match; intros [= <-]; simpl; lia.
Qed.

Lemma simulates_run ps log ops records sp s oks sp' :
  simulates ps log records sp s -> write_faults (snd s) = [] ->
  forallb op_fits ops = true -> (sp_next sp + Z.of_nat (length ops) <= u64_max)%Z ->
  spec_run ps ops sp = (oks, sp') ->
  exists s' records', rt_run ops s = (oks, s') /\ simulates ps log records' sp' s' /\
    write_faults (snd s') = [].
Proof.
  revert records sp s oks. induction ops as [|op ops IH]; intros records sp s oks Hsim Hnf Hfits Hn Hrun.
  { injection Hrun as <- <-. by exists s, records. }
  simpl in Hfits, Hrun. apply andb_true_iff in Hfits as [Hop Hfits]. cbn [length] in Hn.
  pose proof (simulates_step ps log records sp s op Hsim Hnf ltac:(lia) Hop) as Hstep.
  destruct (spec_step ps op sp) as [sp1|] eqn:Hsp; simpl in Hrun.
  - destruct Hstep as (s1 & records1 & Hc & Hsim1 & Hnf1). apply spec_step_next in Hsp.
    destruct (spec_run ps ops sp1) as [oks1 sp2] eqn:Hr1. injection Hrun as <- <-.
    destruct (IH records1 sp1 s1 oks1 Hsim1 Hnf1 Hfits ltac:(lia) Hr1) as (s2 & records2 & Hr2 & Hs2).
    exists s2, records2. cbn [rt_run]. by rewrite Hc, Hr2.
  - destruct Hstep as (e & Hc).
    destruct (spec_run ps ops sp) as [oks1 sp2] eqn:Hr1. injection Hrun as <- <-.
    destruct (IH records sp s oks1 Hsim Hnf Hfits ltac:(lia) Hr1) as (s2 & records2 & Hr2 & Hs2).
    exists s2, records2. cbn [rt_run]. by rewrite Hc, Hr2.
Qed.

(** What the log file restores for a region of the specification. *)
Definition file_restores (w : world) (path : string) (id : Z) (a : abs_region) : Prop :=
  match a with
  | AOpaque initial last => exists n, restore_region_from_aof_path w path id initial = (last, Ok n)
  | ABitmap known => forall buf, length buf = length known ->
      exists n, restore_region_from_aof_path w path id buf = (overlay known buf, Ok n)
  end.

Lemma restore_from_file w path id records buf buf' :
  read_committed path w = Ok records -> restores id records buf buf' ->
  exists n, restore_region_from_aof_path w path id buf = (buf', Ok n).
Proof.
  intros Hr [n Hn]. exists n. unfold restore_region_from_aof_path. by rewrite Hr, Hn.
Qed.

Lemma simulates_read ps log records sp s :
  simulates ps log records sp s -> read_committed (log_path log) (snd s) = Ok records.
Proof.
  intros [Hwf Hps Ha Hh Hf Hr Hi Hn Hg]. by rewrite read_committed_healthy, Hf, read_bytes_encoded.
Qed.

Lemma simulates_restores ps log records sp s id a :
  simulates ps log records sp s -> sp_regions sp !! id = Some a ->
  file_restores (snd s) (log_path log) id a.
Proof.
  intros Hsim Ha. pose proof (simulates_read _ _ _ _ _ Hsim) as Hr.
  pose proof (sim_regions _ _ _ _ _ Hsim id) as Hag. rewrite Ha in Hag.
  destruct (region_of id _) as [region|]; [|done]. destruct a as [initial last|known]; simpl in Hag |- *.
  - eapply restore_from_file; [done|]. apply Hag.
  - intros buf Hb. eapply restore_from_file; [done|]. by apply Hag.
Qed.

(** ** Theorems *)

(** [C1] End to end: start a runtime on a log file and run any sequence of
    registrations and checkpoints of both kinds and boundaries on it.  Exactly
    the calls the specification accepts succeed, and afterwards the log file
    alone restores every region: an opaque region from its registered contents
    to its last accepted checkpoint, a bitmap region from any buffer to that
    buffer with the last marked bytes. *)
Theorem runtime_refines_spec env ps path w ops oks sp :
  path ∉ denied w -> read_fault w = None -> write_faults w = [] ->
  forallb op_fits ops = true -> (1 + Z.of_nat (length ops) <= u64_max)%Z ->
  spec_run (ps `max` 1) ops spec_init = (oks, sp) ->
  exists s', rt_run ops (fst (set_aof_path path (runtime_new env ps, w))) = (oks, s') /\
    forall id a, sp_regions sp !! id = Some a -> file_restores (snd s') path id a.
Proof.
  intros Hd Hrf Hnf Hfits Hn Hrun.
  destruct (simulates_init env ps path w Hd Hrf) as (w0 & -> & Hnf0 & Hsim0).
  destruct (simulates_run _ _ ops _ _ _ _ _ Hsim0 ltac:(by simpl; rewrite Hnf0) Hfits Hn Hrun)
    as (s' & records & Hr & Hsim & _).
  exists s'. split; [done|]. intros id a Ha.
  by pose proof (simulates_restores _ _ _ _ _ _ _ Hsim Ha).
Qed.

(** A run with a registration, two checkpoints, a refused call and a bitmap
    region. *)
Definition sample_ops : list rt_op :=
  [OpRegister 4096 [1; 2; 3; 4; 5]; OpRegisterBitmap 8192 4;
   OpCheckpoint 1 [1; 2; 9; 4; 5] "a"; OpCheckpoint 2 [0; 0; 0; 0] "b";
   OpCheckpointBitmap 2 [6; 7; 8; 9] [2] "c"; OpBoundary "d";
   OpCheckpoint 1 [1; 2; 9; 4; 7] "e"]%Z.

Definition sample_env : environment := fun _ => None.
Definition sample_fs (faults : list (option nat)) : world := mkWorld ∅ ∅ faults None.

Lemma runtime_refines_spec_witness :
  exists s', rt_run sample_ops (fst (set_aof_path "s.aof" (runtime_new sample_env 2, sample_fs []))) =
      ([true; true; true; false; true; true; true], s') /\
    forall id a, sp_regions (snd (spec_run 2 sample_ops spec_init)) !! id = Some a ->
      file_restores (snd s') "s.aof" id a.
Proof.
  apply (runtime_refines_spec sample_env 2 "s.aof" (sample_fs []) sample_ops).
  - simpl. set_solver.
  - reflexivity.
  - reflexivity.
  - vm_compute. reflexivity.
  - vm_compute. discriminate.
  - vm_compute. reflexivity.
Defined.

(** ** Faults during a checkpoint *)

(** Reading a log whose last append was cut short. *)
Lemma read_partial old new q :
  Forall wf_record old -> Forall wf_record new -> q `prefix_of` encode_records new ->
  exists m, read_bytes (mkReader (encode_records old ++ q)%list None) = Ok (old ++ take m new)%list.
Proof.
  intros Ho Hn [rest Hq].
  destruct (read_prefix (old ++ new) (length (encode_records old ++ q))) as (m & Hm & Hle & Hk & Hlt).
  { by apply Forall_app. }
  rewrite encode_records_app, Hq, app_assoc, take_app_length in Hm.
  exists (m - length old). rewrite Hm. f_equal.
  destruct (decide (m < length old)) as [Hsmall|]; [|by rewrite take_app_ge by lia].
  exfalso. specialize (Hlt ltac:(rewrite length_app; lia)).
  rewrite take_app_le in Hlt by lia.
  assert (length (encode_records (take (S m) old)) <= length (encode_records old)).
  { rewrite <- (take_drop (S m) old) at 2. rewrite encode_records_app, length_app. lia. }
  rewrite length_app in Hlt. lia.
Qed.

Lemma take_page_records epoch m pages :
  take m (page_records epoch pages) = page_records epoch (take m pages).
Proof. unfold page_records. by rewrite fmap_take. Qed.

(** Restoring after a prefix of a checkpoint's pages. *)
Lemma restores_prefix id ps epoch records initial last current m :
  0 < ps -> restores id records initial last -> (Z.of_nat (length last) <= isize_max)%Z ->
  length last = length current ->
  exists k, restores id (records ++ take m (page_records epoch (dirty_pages_of id ps current last)))
    initial (take (k * ps) current ++ drop (k * ps) last)%list.
Proof.
  intros Hps Hres Hmax Hl. rewrite take_page_records.
  destruct (dirty_pages_of_fit id ps current last Hps) as [Hfit Hids].
  set (pages := dirty_pages_of id ps current last) in *.
  destruct (replay_prefix id ps current last Hps Hl (take m pages) 0 (div_ceil (length current) ps))
    as (k & _ & Hk); [apply prefix_take|intros j Hj; by eapply pages_in_range|].
  exists k. change (take (k * ps) current ++ drop (k * ps) last)%list with (mix current last (k * ps)).
  rewrite <- Hk. change (mix current last (0 * ps)) with last.
  pose proof (restores_pages id id epoch (take m pages) records initial last Hres Hmax) as H.
  rewrite decide_True in H by done. apply H; [by apply Forall_take|].
  intros _. rewrite Hl. by apply Forall_take.
Qed.

Lemma dirty_pages_same id ps current : dirty_pages_of id ps current current = [].
Proof.
  unfold dirty_pages_of. apply elem_of_nil_inv. intros p (j & _ & Hne & _)%elem_of_dirty_from. done.
Qed.

Lemma dirty_pages_some id ps current last :
  0 < ps -> length last = length current -> current <> last ->
  exists p pages, dirty_pages_of id ps current last = p :: pages.
Proof.
  intros Hps Hl Hne. pose proof (replay_dirty_pages id ps current last Hps Hl) as H.
  destruct (dirty_pages_of id ps current last) as [|p pages]; [|by eauto]. by simpl in H.
Qed.

Definition with_faults (faults : list (option nat)) (w : world) : world :=
  mkWorld (files w) (denied w) faults (read_fault w).

(** The first write of an append fails without writing a byte. *)
Lemma append_delta_fails log delta w p pages :
  dr_dirty_pages delta = p :: pages ->
  append_delta log delta (with_faults [Some 0] w) =
  (set_file (log_path log) (file_bytes (log_path log) w) (with_faults [] w), Err DeviceError).
Proof.
  intros Hp. unfold append_delta, delta_records. rewrite Hp, fmap_cons. cbn [stm_iter].
  apply stm_bind_Err. unfold append_record. apply stm_bind_Err.
  unfold write_all; simpl. rewrite app_nil_r. done.
Qed.

(** What a checkpoint under any write faults leaves behind. *)
Lemma checkpoint_partial ps log records sp rt w faults id current boundary initial last :
  simulates ps log records sp (rt, w) ->
  sp_regions sp !! id = Some (AOpaque initial last) -> length last = length current ->
  exists rt' w' r m,
    checkpoint_host_region id current boundary (rt, with_faults faults w) = ((rt', w'), r) /\
    shadow_of id (state rt') = Some current /\ healthy (log_path log) w' /\
    read_committed (log_path log) w' =
      Ok (records ++ take m (page_records (next_epoch (state rt)) (dirty_pages_of id ps current last)))%list /\
    (length (dirty_pages_of id ps current last) <= m /\ (exists summary, r = Ok summary) \/
     exists e, r = Err (AppendAof (log_path log) e)).
Proof.
  intros Hsim Hsp Hl.
  destruct (host_delta_of_spec _ _ _ _ _ _ _ _ _ _ Hsim Hsp Hl) as (i & region & Hf & Hk & Hn & Hc).
  set (st' := bump_epoch _) in Hc. set (delta := mkDeltaRecord _ _ _ _) in Hc.
  destruct Hsim as [Hwf Hps Ha Hh Hfile Hr Hi Hnx Hg]; simpl in *.
  pose proof (Hg id) as Hid. rewrite Hsp, (region_of_find _ _ _ _ Hf) in Hid.
  destruct Hid as (_ & _ & _ & _ & Hmax & _).
  pose proof (wf_page_size _ Hwf) as Hpos. rewrite Hps in Hpos.
  destruct (dirty_pages_of_fit id ps current last Hpos) as [Hfit Hids].
  assert (Forall wf_record (delta_records delta)) as Hwr.
  { pose proof (find_region_range _ _ _ _ Hwf Hf). pose proof (wf_next_id _ Hwf).
    eapply (wf_page_records _ id (length current)); try done; [by apply Hwf|lia|by rewrite <- Hl]. }
  destruct (append_delta_writes log delta (with_faults faults w)) as (q & Hq & Hb & Hfr & Hres).
  destruct (append_delta log delta (with_faults faults w)) as [w' r'] eqn:Happ; simpl in *.
  change (file_bytes (log_path log) (with_faults faults w)) with (file_bytes (log_path log) w) in Hb.
  assert (healthy (log_path log) w') as Hh'.
  { eapply healthy_frame; [|exact Hfr]. by destruct Hh; constructor. }
  assert (shadow_of id st' = Some current) as Hsh.
  { unfold shadow_of, st'. by rewrite region_of_bump, (region_of_set _ _ _ _ _ _ Hf), decide_True. }
  assert (read_committed (log_path log) w' =
    read_bytes (mkReader (encode_records records ++ q)%list None)) as Hread.
  { by rewrite read_committed_healthy, Hb, Hfile. }
  destruct (checkpoint_host_region id current boundary (rt, with_faults faults w)) as [s r] eqn:Hcall.
  unfold checkpoint_host_region in Hcall. erewrite on_state_bind in Hcall by done.
  unfold mbind, stm_bind, append_to_aof in Hcall. simpl in Hcall. rewrite Ha, Happ in Hcall.
  destruct Hres as [[-> ->]|[[e ->] _]]; simpl in Hcall; injection Hcall as <- <-.
  - eexists _, w', _, (length (dirty_pages_of id ps current last)). split_and!; try done; [|left; eauto].
    rewrite Hread, <- encode_records_app, read_bytes_encoded by (by apply Forall_app).
    by rewrite take_page_records, take_ge by done.
  - destruct (read_partial records (delta_records delta) q Hr Hwr Hq) as [m Hm].
    eexists _, w', _, m. split_and!; try done; [by rewrite Hread|right; eauto].
Qed.

(** [C3] Crash consistency of a checkpoint: whatever write faults hit it, the
    log afterwards restores the region to the new contents up to some page
    boundary and the previous checkpoint after it, never to anything else, and
    restores every other region as before; when the call reports success it
    restores all of the new contents. *)
Theorem checkpoint_crash_consistent ps log records sp rt w faults id current boundary initial last :
  simulates ps log records sp (rt, w) ->
  sp_regions sp !! id = Some (AOpaque initial last) -> length last = length current ->
  let '((rt', w'), r) := checkpoint_host_region id current boundary (rt, with_faults faults w) in
  (exists k n, restore_region_from_aof_path w' (log_path log) id initial =
     (take (k * ps) current ++ drop (k * ps) last, Ok n)%list) /\
  ((exists summary, r = Ok summary) ->
     exists n, restore_region_from_aof_path w' (log_path log) id initial = (current, Ok n)) /\
  (forall id' a, id' <> id -> sp_regions sp !! id' = Some a -> file_restores w' (log_path log) id' a).
Proof.
  intros Hsim Hsp Hl. pose proof (sim_regions _ _ _ _ _ Hsim) as Hg.
  destruct (checkpoint_partial ps log records sp rt w faults id current boundary initial last Hsim Hsp Hl)
    as (rt' & w' & r & m & -> & _ & Hh & Hread & Hr).
  pose proof (Hg id) as Hid. rewrite Hsp in Hid.
  destruct (region_of id _) as [region|]; [|done]. destruct Hid as (_ & _ & _ & _ & Hmax & Hres).
  pose proof (wf_page_size _ (sim_wf _ _ _ _ _ Hsim)) as Hpos. rewrite (sim_ps _ _ _ _ _ Hsim) in Hpos.
  destruct (dirty_pages_of_fit id ps current last Hpos) as [Hfit Hids]. split_and!.
  - destruct (restores_prefix id ps (next_epoch (state rt)) records initial last current m Hpos Hres Hmax Hl)
      as [k Hk]. exists k. by eapply restore_from_file.
  - intros [summary ->]. destruct Hr as [[Hm _]|[e He]]; [|done].
    eapply restore_from_file; [done|]. rewrite take_page_records, take_ge by done.
    pose proof (restores_pages id id (next_epoch (state rt)) (dirty_pages_of id ps current last) records initial
      last Hres Hmax Hids) as H. rewrite decide_True, replay_dirty_pages in H by done.
    apply H. intros _. by rewrite Hl.
  - intros id' a Hne Ha. pose proof (Hg id') as Hag. rewrite Ha in Hag. rewrite take_page_records in Hread.
    apply (agree_other _ id _ (next_epoch (state rt)) (take m (dirty_pages_of id ps current last))) in Hag;
      [|done|by apply Forall_take].
    destruct (region_of id' _); [|done]. destruct a; simpl in Hag |- *.
    + eapply restore_from_file; [done|]. apply Hag.
    + intros buf Hb. eapply restore_from_file; [done|]. by apply Hag.
Qed.

(** The state after registering one region. *)
Definition sample_running : ConcordiaRuntime * world :=
  snd (rt_run [OpRegister 4096 [1; 2; 3; 4; 5]%Z]
         (fst (set_aof_path "s.aof" (runtime_new sample_env 2, sample_fs [])))).

Definition sample_spec : spec := mkSpec 2 {[1%Z := AOpaque [1; 2; 3; 4; 5]%Z [1; 2; 3; 4; 5]%Z]}.

Lemma sample_simulates :
  exists records, simulates 2 (mkAofDiskLog "s.aof") records sample_spec sample_running.
Proof.
  destruct (simulates_init sample_env 2 "s.aof" (sample_fs [])) as (w0 & Hs & Hnf & Hsim); [set_solver|done|].
  destruct (simulates_run _ _ [OpRegister 4096 [1; 2; 3; 4; 5]%Z] _ _ _ [true] sample_spec Hsim)
    as (s' & records & Hr & Hsim' & _); [done|done|done|done|].
  exists records. unfold sample_running. rewrite Hs. cbn [fst]. by rewrite Hr.
Qed.

Lemma checkpoint_crash_consistent_witness :
  let '((rt', w'), r) := checkpoint_host_region 1 [9; 9; 3; 9; 9]%Z "x"
      (fst sample_running, with_faults (repeat None 8 ++ [Some 3])%list (snd sample_running)) in
  exists k n, restore_region_from_aof_path w' "s.aof" 1 [1; 2; 3; 4; 5]%Z =
    (take (k * 2) [9; 9; 3; 9; 9] ++ drop (k * 2) [1; 2; 3; 4; 5], Ok n)%Z%list.
Proof.
  destruct sample_simulates as [records Hsim].
  pose proof (checkpoint_crash_consistent 2 (mkAofDiskLog "s.aof") records sample_spec
    (fst sample_running) (snd sample_running) (repeat None 8 ++ [Some 3])%list 1
    [9; 9; 3; 9; 9]%Z "x" [1; 2; 3; 4; 5]%Z [1; 2; 3; 4; 5]%Z Hsim eq_refl eq_refl) as H.
  destruct (checkpoint_host_region _ _ _ _) as [[rt' w'] r]. apply H.
Defined.

(** A failed checkpoint is lost for good: the shadow is refreshed before
    the log is written, so when the append fails the next checkpoint of the
    same contents finds nothing dirty, reports success and writes nothing, and
    the log still restores the old contents. *)
Theorem failed_checkpoint_lost ps log records sp rt w id current b1 b2 initial last :
  simulates ps log records sp (rt, w) ->
  sp_regions sp !! id = Some (AOpaque initial last) -> length last = length current ->
  current <> last ->
  exists rt1 w1 rt2 w2 summary n,
    checkpoint_host_region id current b1 (rt, with_faults [Some 0] w) =
      ((rt1, w1), Err (AppendAof (log_path log) DeviceError)) /\
    checkpoint_host_region id current b2 (rt1, w1) = ((rt2, w2), Ok summary) /\
    cs_dirty_pages summary = 0 /\
    restore_region_from_aof_path w2 (log_path log) id initial = (last, Ok n).
Proof.
  intros Hsim Hsp Hl Hne.
  destruct (host_delta_of_spec _ _ _ _ _ _ _ _ _ _ Hsim Hsp Hl) as (i & region & Hf & Hk & Hn & Hc).
  pose proof (simulates_restores _ _ _ _ _ _ _ Hsim Hsp) as [n Hn'].
  destruct Hsim as [Hwf Hps Ha Hh Hfile Hr Hi Hnx Hg]; simpl in *.
  pose proof (Hg id) as Hid. rewrite Hsp, (region_of_find _ _ _ _ Hf) in Hid.
  destruct Hid as (_ & _ & _ & _ & Hmax & _).
  pose proof (wf_page_size _ Hwf) as Hpos. rewrite Hps in Hpos.
  set (st' := bump_epoch _) in Hc. set (delta := mkDeltaRecord _ _ _ _) in Hc.
  destruct (dirty_pages_some id ps current last Hpos Hl Hne) as (p & pages & Hp).
  set (w1 := set_file (log_path log) (file_bytes (log_path log) w)%list (with_faults [] w)).
  assert (append_delta log delta (with_faults [Some 0] w) = (w1, Err DeviceError)) as Happ.
  { by rewrite (append_delta_fails log delta w p pages Hp). }
  assert (find_region id st' = Some (i, mkTrackedRegion (tr_id region) (tr_base_addr region)
    (tr_len region) (Some current) (tr_kind region))) as Hf'.
  { unfold st'. rewrite find_region_bump, (find_set_shadow _ _ _ _ _ _ Hf), decide_True; done. }
  assert (wf_state st') as Hwf' by (apply wf_bump; by eapply wf_set_shadow).
  eexists (set_state st' rt), w1, _, w1, _, n. split_and!.
  - unfold checkpoint_host_region. erewrite on_state_bind by done.
    apply stm_bind_Err. unfold append_to_aof; simpl. by rewrite Ha, Happ.
  - unfold checkpoint_host_region. erewrite on_state_bind.
    2: { simpl. eapply create_host_delta_eq; [done|]. apply opaque_region_Ok.
         split_and!; [exact Hf'|done|done|done]. }
    rewrite dirty_pages_same. unfold mbind, stm_bind, append_to_aof; simpl. by rewrite Ha.
  - done.
  - rewrite <- Hn'. unfold restore_region_from_aof_path. f_equal.
    rewrite !read_committed_healthy; [unfold w1; by rewrite file_bytes_set_file|done|].
    destruct Hh as [He Hd Hrf]. constructor; simpl; try done. rewrite lookup_insert_eq. by eexists.
Qed.

Lemma failed_checkpoint_lost_witness :
  exists rt1 w1 rt2 w2 summary n,
    checkpoint_host_region 1 [9; 2; 3; 4; 5]%Z "x"
      (fst sample_running, with_faults [Some 0] (snd sample_running)) =
      ((rt1, w1), Err (AppendAof "s.aof" DeviceError)) /\
    checkpoint_host_region 1 [9; 2; 3; 4; 5]%Z "y" (rt1, w1) = ((rt2, w2), Ok summary) /\
    cs_dirty_pages summary = 0 /\
    restore_region_from_aof_path w2 "s.aof" 1 [1; 2; 3; 4; 5]%Z = ([1; 2; 3; 4; 5]%Z, Ok n).
Proof.
  destruct sample_simulates as [records Hsim].
  apply (failed_checkpoint_lost 2 (mkAofDiskLog "s.aof") records sample_spec
    (fst sample_running) (snd sample_running) 1 [9; 2; 3; 4; 5]%Z "x" "y" [1; 2; 3; 4; 5]%Z
    [1; 2; 3; 4; 5]%Z Hsim eq_refl eq_refl).
  discriminate.
Defined.

(** Restoring a tracked region from a log rebuilds the buffer and makes it
    the region's shadow, so that the runtime resumes from the restored point: a
    checkpoint of the restored contents records no page, and other regions are
    untouched. *)
Theorem restore_host_region_resumes rt w path id boundary records initial last region :
  wf_state (state rt) -> region_of id (state rt) = Some region ->
  tr_kind region = OpaqueShadow -> tr_len region = length last ->
  read_committed path w = Ok records -> restores id records initial last ->
  exists rt' summary,
    restore_host_region_from_aof_path path id boundary (rt, w, initial) = ((rt', w, last), Ok summary) /\
    shadow_of id (state rt') = Some last /\
    (forall id', id' <> id -> shadow_of id' (state rt') = shadow_of id' (state rt)) /\
    exists st'' epoch base, create_host_delta id last (state rt') =
      (st'', Ok (mkDeltaRecord epoch id base [])).
Proof.
  intros Hwf Hreg Hk Hl Hread [n Hres]. apply region_of_Some in Hreg as [i Hf].
  destruct (refresh_opaque_shadow_cases id last (state rt) Hwf)
    as [(i' & r' & Hf' & _ & _ & Href)|(e & He & _)].
  2: { pose proof (wf_find _ _ _ _ Hwf Hf) as Hw. unfold wf_region in Hw. rewrite Hk in Hw.
       destruct Hw as (sh & Hs & _).
       assert (opaque_region id (length last) (state rt) = Ok (i, region, sh)) as Ho
         by (apply opaque_region_Ok; by split_and!). congruence. }
  rewrite Hf in Hf'. injection Hf' as <- <-.
  eexists _, _. split_and!.
  - unfold restore_host_region_from_aof_path. by rewrite Hread, Hres, Href.
  - simpl. unfold shadow_of. by rewrite (region_of_set _ _ _ _ _ _ Hf), decide_True.
  - intros id' Hne. simpl. unfold shadow_of. by rewrite (region_of_set _ _ _ _ _ _ Hf), decide_False.
  - simpl. eexists _, _, _. rewrite <- (dirty_pages_same id (page_size (state rt)) last).
    apply (create_host_delta_eq _ _ (set_shadow i region last (state rt)));
      [by eapply wf_set_shadow|].
    apply opaque_region_Ok. rewrite (find_set_shadow _ _ _ _ _ _ Hf), decide_True by done.
    by split_and!.
Qed.

Lemma restore_host_region_resumes_witness :
  exists rt' summary,
    restore_host_region_from_aof_path "/tmp/session.aof" 1 "resume"
      (fst sample_running, sample_world (encode_record (mkAofRecord 3 1 2 [8; 8]%Z)) [], [1; 2; 3; 4; 5]%Z) =
      ((rt', sample_world (encode_record (mkAofRecord 3 1 2 [8; 8]%Z)) [], [1; 2; 8; 8; 5]%Z), Ok summary) /\
    shadow_of 1 (state rt') = Some [1; 2; 8; 8; 5]%Z.
Proof.
  destruct (restore_host_region_resumes (fst sample_running)
    (sample_world (encode_record (mkAofRecord 3 1 2 [8; 8]%Z)) []) "/tmp/session.aof" 1 "resume"
    [mkAofRecord 3 1 2 [8; 8]%Z] [1; 2; 3; 4; 5]%Z [1; 2; 8; 8; 5]%Z
    (mkTrackedRegion 1 4096 5 (Some [1; 2; 3; 4; 5]%Z) OpaqueShadow)) as (rt' & s & H1 & H2 & _).
  - apply wf_push; try done. apply wf_new. unfold wf_region; simpl; eauto.
  - reflexivity.
  - reflexivity.
  - reflexivity.
  - vm_compute. reflexivity.
  - exists 1. vm_compute. reflexivity.
  - exists rt', s. exact (conj H1 H2).
Defined.
