(* ===== verification/Nccl.v ===== *)
(** * Recovery of a collective ring ([zluda/src/impl/nccl_recovery.rs])

    Failures are classified, the failed rank is isolated, replaced and
    reintegrated.  The recovery state is a machine whose ring is always a list
    of distinct ranks in rank order, with at most the failed position changed. *)
From stdpp Require Import base numbers list strings gmap pretty.
From Stdlib Require Import ZArith Lia.
From S2P Require Import Prelude RustStr.

Local Open Scope Z_scope.

Inductive FaultClass : Type := Transient | Degraded | Permanent.
Inductive RecoveryAction : Type := Retry | Migrate | Replace.
Inductive NcclRecoveryPhase : Type := Healthy | Isolated | Restoring | Reintegrated.

#[global] Instance FaultClass_eq_dec : EqDecision FaultClass.
Proof. solve_decision. Defined.
#[global] Instance NcclRecoveryPhase_eq_dec : EqDecision NcclRecoveryPhase.
Proof. solve_decision. Defined.

Record NcclRecoveryDecision : Type := mkNcclRecoveryDecision {
  class : FaultClass;
  action : RecoveryAction;
  reason : string;
}.

Record NcclRecoveryState : Type := mkNcclRecoveryState {
  phase : NcclRecoveryPhase;
  original_nranks : Z;
  failed_rank : option Z;
  replacement_rank : option Z;
  active_ranks : list Z;
}.

Inductive NcclError : Type :=
| NranksNotPositive (nranks : Z)
| RankOutside (label : string) (rank nranks : Z)
| ReplacementBeforeFailure
| ReplacementCollides (replacement_rank : Z)
| NotRestoring.

(** [0..n] on [i32] *)
Definition ranks_below (n : Z) : list Z := seqZ 0 n.

Definition validate_rank (nranks rank : Z) (label : string) : outcome NcclError unit :=
  if nranks <=? 0 then Err (NranksNotPositive nranks)
  else if negb ((0 <=? rank) && (rank <? nranks)) then Err (RankOutside label rank nranks)
  else Ok tt.

Definition plan_replacement_ring (nranks failed_rank replacement_rank : Z)
    : outcome NcclError (list Z) :=
  validate_rank nranks failed_rank "failed" ;;
  if ((0 <=? replacement_rank) && (replacement_rank <? nranks)) && negb (replacement_rank =? failed_rank)
  then Err (ReplacementCollides replacement_rank)
  else Ok ((fun rank => if rank =? failed_rank then replacement_rank else rank) <$> ranks_below nranks).

Definition healthy_ring (nranks : Z) : NcclRecoveryState :=
  let active_ranks := if 0 <? nranks then ranks_below nranks else [] in
  mkNcclRecoveryState Healthy (Z.max nranks 0) None None active_ranks.

Definition on_failure (failed_rank : Z) (class : FaultClass) (self : NcclRecoveryState)
    : outcome NcclError NcclRecoveryState :=
  validate_rank (original_nranks self) failed_rank "failed" ;;
  if decide (class = Transient) then Ok self
  else Ok (mkNcclRecoveryState Isolated (original_nranks self) (Some failed_rank) None
             (filter (fun rank => rank <> failed_rank) (ranks_below (original_nranks self)))).

Definition with_replacement (replacement_rank : Z) (self : NcclRecoveryState)
    : outcome NcclError NcclRecoveryState :=
  failed ← ok_or ReplacementBeforeFailure (failed_rank self);
  ring ← plan_replacement_ring (original_nranks self) failed replacement_rank;
  Ok (mkNcclRecoveryState Restoring (original_nranks self) (failed_rank self)
        (Some replacement_rank) ring).

Definition restore_complete (self : NcclRecoveryState) : outcome NcclError NcclRecoveryState :=
  if decide (phase self <> Restoring) then Err NotRestoring
  else Ok (mkNcclRecoveryState Reintegrated (original_nranks self) (failed_rank self)
             (replacement_rank self) (active_ranks self)).

Definition classify_nccl_failure (result async_error consecutive_errors : Z) (health_degraded : bool)
    : NcclRecoveryDecision :=
  if health_degraded && (result =? 0) && (async_error =? 0)
  then mkNcclRecoveryDecision Degraded Migrate "health_degraded"
  else if 3 <=? consecutive_errors
  then mkNcclRecoveryDecision Permanent Replace "repeated_nccl_errors"
  else mkNcclRecoveryDecision Transient Retry "retryable_nccl_error".

Definition format_active_ring (ranks : list Z) : string := join "," (dec <$> ranks).

Definition hetgpu_concordia_nccl_classify_failure (result async_error consecutive_errors health_degraded : Z) : Z :=
  match action (classify_nccl_failure result async_error consecutive_errors (negb (health_degraded =? 0))) with
  | Retry => 0
  | Migrate => 1
  | Replace => 2
  end.

(** [out_ranks]: null, or the [i32]s that can be written behind the pointer; a
    write past them is undefined behaviour and modelled as [Panic]. *)
Definition hetgpu_concordia_nccl_plan_replacement (nranks failed_rank replacement_rank : Z)
    (out_ranks : option (list Z)) (out_len : Z) : option (list Z) * outcome unit Z :=
  match out_ranks with
  | None => (out_ranks, Ok (-1))
  | Some out =>
      if out_len <? 0 then (out_ranks, Ok (-1))
      else match plan_replacement_ring nranks failed_rank replacement_rank with
           | Ok plan =>
               if out_len <? Z.of_nat (length plan) then (out_ranks, Ok (-3))
               else if decide (length plan <= length out)%nat
               then (Some (list_inserts 0 plan out), Ok (Z.of_nat (length plan)))
               else (out_ranks, Panic)
           | _ => (out_ranks, Ok (-2))
           end
  end.

(** ** The machine *)
Inductive nccl_op : Type :=
| OnFailure (rank : Z) (class : FaultClass)
| WithReplacement (rank : Z)
| RestoreComplete.

Definition nccl_step (op : nccl_op) : NcclRecoveryState -> outcome NcclError NcclRecoveryState :=
  match op with
  | OnFailure rank class => on_failure rank class
  | WithReplacement rank => with_replacement rank
  | RestoreComplete => restore_complete
  end.

Inductive nccl_reachable (nranks : Z) : NcclRecoveryState -> Prop :=
| nccl_start : nccl_reachable nranks (healthy_ring nranks)
| nccl_next st op st' :
    nccl_reachable nranks st -> nccl_step op st = Ok st' -> nccl_reachable nranks st'.

(** The ring of a state, position by position: [None] for the position of an
    isolated rank. *)
Definition ring_slot (st : NcclRecoveryState) (rank : Z) : option Z :=
  match phase st with
  | Healthy => Some rank
  | Isolated => if decide (failed_rank st = Some rank) then None else Some rank
  | Restoring | Reintegrated =>
      if decide (failed_rank st = Some rank) then replacement_rank st else Some rank
  end.

Record ring_inv (nranks : Z) (st : NcclRecoveryState) : Prop := mk_ring_inv {
  ri_nranks : original_nranks st = Z.max nranks 0;
  ri_active : active_ranks st = omap (ring_slot st) (ranks_below (original_nranks st));
  ri_failed : match failed_rank st with
              | Some f => 0 <= f < nranks /\ phase st <> Healthy
              | None => phase st = Healthy
              end;
  ri_replacement : forall f r, failed_rank st = Some f -> replacement_rank st = Some r ->
      r = f \/ ~ 0 <= r < nranks;
  ri_restoring : phase st = Restoring \/ phase st = Reintegrated -> is_Some (replacement_rank st);
}.

Lemma validate_rank_Ok nranks rank label r :
  validate_rank nranks rank label = Ok r <-> 0 <= rank < nranks.
Proof.
  unfold validate_rank. destruct r.
  destruct (Z.leb_spec nranks 0); [split; [done|lia]|].
  destruct (Z.leb_spec 0 rank), (Z.ltb_spec rank nranks); simpl; split; (done || lia).
Qed.

Lemma plan_replacement_Ok nranks f r ring :
  plan_replacement_ring nranks f r = Ok ring <->
  0 <= f < nranks /\ (r = f \/ ~ 0 <= r < nranks) /\
  ring = (fun rank => if rank =? f then r else rank) <$> ranks_below nranks.
Proof.
  unfold plan_replacement_ring.
  destruct (validate_rank nranks f "failed") as [u| |] eqn:Hv.
  - apply validate_rank_Ok in Hv.
    change ((Ok u ;; ?k) : outcome NcclError (list Z)) with (k : outcome NcclError (list Z)).
    destruct (Z.leb_spec 0 r), (Z.ltb_spec r nranks), (Z.eqb_spec r f); simpl; naive_solver lia.
  - split; [done|]. intros (Hf & _). by rewrite (proj2 (validate_rank_Ok nranks f "failed" tt) Hf) in Hv.
  - split; [done|]. intros (Hf & _). by rewrite (proj2 (validate_rank_Ok nranks f "failed" tt) Hf) in Hv.
Qed.

Lemma omap_Some_id (l : list Z) (f : Z -> option Z) : (forall x, x ∈ l -> f x = Some x) -> omap f l = l.
Proof.
  induction l as [|a l IH]; intros H; simpl; [done|].
  rewrite H by set_solver. f_equal. apply IH. set_solver.
Qed.

Lemma omap_filter_ne f (l : list Z) :
  omap (fun x => if decide (Some f = Some x) then None else Some x) l = filter (fun x => x <> f) l.
Proof.
  induction l as [|a l IH]; [done|]. rewrite filter_cons. csimpl.
  destruct (decide (a = f)) as [->|Hne].
  - rewrite decide_True, decide_False by (done || tauto). done.
  - rewrite decide_False, decide_True by congruence. by rewrite IH.
Qed.

Lemma omap_replace f r (l : list Z) :
  omap (fun x => if decide (Some f = Some x) then Some r else Some x) l =
  (fun x => if x =? f then r else x) <$> l.
Proof.
  induction l as [|a l IH]; [done|]. csimpl.
  destruct (decide (Some f = Some a)), (Z.eqb_spec a f); simplify_eq; by rewrite IH.
Qed.

Lemma ring_inv_init nranks : ring_inv nranks (healthy_ring nranks).
Proof.
  constructor; simpl; try done.
  - unfold ring_slot; simpl. rewrite omap_Some_id by done.
    destruct (Z.ltb_spec 0 nranks); [by rewrite Z.max_l by lia|].
    rewrite Z.max_r by lia. done.
  - intros [?|?]; done.
Qed.

Lemma ring_inv_step nranks st op st' :
  ring_inv nranks st -> nccl_step op st = Ok st' -> ring_inv nranks st'.
Proof.
  intros [Hn Ha Hf Hr Hs] Hstep. destruct op as [rank class|rank|]; simpl in Hstep.
  - unfold on_failure in Hstep. destruct (validate_rank _ rank _) as [[]| |] eqn:Hv; try done.
    apply validate_rank_Ok in Hv. simpl in Hstep. case_decide; simplify_eq; [done|].
    constructor; simpl; try done; [|split; [lia|done]|intros [?|?]; done].
    unfold ring_slot; simpl. by rewrite omap_filter_ne.
  - unfold with_replacement in Hstep. destruct (failed_rank st) as [f|] eqn:Hfr; simpl in Hstep; [|done].
    destruct (plan_replacement_ring _ f rank) as [ring| |] eqn:Hp; simplify_eq/=.
    apply plan_replacement_Ok in Hp as (Hfn & Hrn & ->).
    constructor; simpl; try done; [|split; [lia|done]|intros ? ? [= <-] [= <-]; lia].
    unfold ring_slot; simpl. by rewrite omap_replace.
  - unfold restore_complete in Hstep. case_decide as Hp; simplify_eq.
    constructor; simpl; try done.
    + rewrite Ha. unfold ring_slot; simpl. by rewrite Hp.
    + destruct (failed_rank st); naive_solver congruence.
    + intros _. apply Hs. by left.
Qed.

Lemma nccl_reachable_inv nranks st : nccl_reachable nranks st -> ring_inv nranks st.
Proof. induction 1; [apply ring_inv_init|by eapply ring_inv_step]. Qed.

Lemma NoDup_omap_inj (f : Z -> option Z) l :
  NoDup l -> (forall x y z, x ∈ l -> y ∈ l -> f x = Some z -> f y = Some z -> x = y) -> NoDup (omap f l).
Proof.
  induction 1 as [|a l Hna Hnd IH]; intros Hinj; simpl; [constructor|].
  assert (NoDup (omap f l)) as Hl by (apply IH; intros; eapply Hinj; set_solver).
  destruct (f a) as [z|] eqn:Hz; [|done]. constructor; [|done].
  rewrite list_elem_of_omap. intros (b & Hb & Hbz). apply Hna.
  rewrite (Hinj a b z); set_solver.
Qed.

Lemma elem_of_ranks_below n x : x ∈ ranks_below n <-> 0 <= x < n.
Proof. unfold ranks_below. rewrite elem_of_seqZ. lia. Qed.

Lemma ring_slot_inj nranks st x y z :
  ring_inv nranks st -> 0 <= x < nranks -> 0 <= y < nranks ->
  ring_slot st x = Some z -> ring_slot st y = Some z -> x = y.
Proof.
  intros [Hn Ha Hf Hr Hs] Hx Hy. unfold ring_slot.
  destruct (phase st); try case_decide as H1; try case_decide as H2; intros; simplify_eq; try done.
  all: try (rewrite H1 in H2; by simplify_eq).
  all: first [pose proof (Hr _ _ H1 ltac:(done)); lia | pose proof (Hr _ _ H2 ltac:(done)); lia].
Qed.

Lemma length_omap_total (f : Z -> option Z) l :
  (forall x, x ∈ l -> is_Some (f x)) -> length (omap f l) = length l.
Proof.
  induction l as [|a l IH]; intros H; csimpl; [done|].
  destruct (H a ltac:(set_solver)) as [b ->]. simpl. f_equal. apply IH. set_solver.
Qed.

(** ** Theorems *)

(** [C27] In every reachable recovery state the ring holds distinct ranks, in
    rank order, each position holding its own rank except the failed one, which
    is absent while isolated and holds the replacement afterwards; outside
    isolation no position is missing, and the failed rank is active again only
    as its own replacement. *)
Theorem nccl_ring_correct nranks st :
  nccl_reachable nranks st -> 0 < nranks ->
  NoDup (active_ranks st) /\
  active_ranks st = omap (ring_slot st) (ranks_below nranks) /\
  (phase st <> Isolated -> Z.of_nat (length (active_ranks st)) = nranks) /\
  (forall f, failed_rank st = Some f -> f ∈ active_ranks st -> replacement_rank st = Some f).
Proof.
  intros Hreach Hpos. pose proof (nccl_reachable_inv _ _ Hreach) as Hinv.
  destruct Hinv as [Hn Ha Hf Hr Hs] eqn:Einv; clear Einv. rewrite Z.max_l in Hn by lia. rewrite Hn in Ha.
  split_and!; [| done | |].
  - rewrite Ha. apply NoDup_omap_inj; [apply NoDup_seqZ|].
    intros x y z Hx%elem_of_ranks_below Hy%elem_of_ranks_below. by apply (ring_slot_inj nranks).
  - intros Hp. rewrite Ha, length_omap_total.
    + unfold ranks_below. rewrite length_seqZ. lia.
    + intros x _. unfold ring_slot. destruct (phase st); try done; case_decide; eauto.
  - intros f Hff. rewrite Ha, list_elem_of_omap. intros (x & Hx & Hslot).
    rewrite Hff in Hf. destruct Hf as [Hrange Hph]. unfold ring_slot in Hslot.
    destruct (phase st); try done; case_decide as Hd; rewrite Hff in Hd; simplify_eq; done.
Qed.

Definition sample_ring : NcclRecoveryState :=
  mkNcclRecoveryState Restoring 4 (Some 2) (Some 7) [0; 1; 7; 3].

Lemma sample_ring_reachable : nccl_reachable 4 sample_ring.
Proof.
  eapply (nccl_next _ _ (WithReplacement 7)).
  - eapply (nccl_next _ _ (OnFailure 2 Permanent)); [apply nccl_start|reflexivity].
  - reflexivity.
Qed.

Lemma nccl_ring_correct_witness :
  NoDup [0; 1; 7; 3] /\ Z.of_nat (length [0; 1; 7; 3]) = 4.
Proof.
  destruct (nccl_ring_correct 4 sample_ring sample_ring_reachable) as (H1 & _ & H2 & _); [reflexivity|].
  split; [exact H1|]. apply H2. discriminate.
Defined.

(** [C34] A permanent or degraded failure of any rank can be recovered: isolate,
    replace by a rank that is not live, and complete the restore all succeed,
    and the machine ends reintegrated with the replacement in the failed
    position and every other rank in its own. *)
Theorem nccl_recovery_completes nranks f r class :
  0 <= f < nranks -> r = f \/ ~ 0 <= r < nranks -> class <> Transient ->
  exists st, (st1 ← on_failure f class (healthy_ring nranks);
              st2 ← with_replacement r st1; restore_complete st2) = Ok st /\
    phase st = Reintegrated /\
    forall i, 0 <= i < nranks ->
      active_ranks st !! Z.to_nat i = Some (if decide (i = f) then r else i).
Proof.
  intros Hf Hr Hc. unfold on_failure; simpl. rewrite Z.max_l by lia.
  rewrite (proj2 (validate_rank_Ok nranks f "failed" tt) Hf). simpl. rewrite decide_False by done. simpl.
  unfold with_replacement; simpl.
  rewrite (proj2 (plan_replacement_Ok nranks f r _) (conj Hf (conj Hr eq_refl))). simpl.
  eexists. split_and!; [done|done|]. intros i Hi. simpl.
  rewrite list_lookup_fmap. unfold ranks_below. rewrite lookup_seqZ_lt by lia. simpl.
  rewrite Z2Nat.id, ?Z.add_0_l by lia. f_equal.
  destruct (Z.eqb_spec i f); case_decide; congruence.
Qed.

Lemma nccl_recovery_completes_witness :
  exists st, (st1 ← on_failure 2 Degraded (healthy_ring 4);
              st2 ← with_replacement 7 st1; restore_complete st2) = Ok st /\ phase st = Reintegrated.
Proof.
  destruct (nccl_recovery_completes 4 2 7 Degraded) as (st & H1 & H2 & _); [lia|right; lia|discriminate|].
  exists st. exact (conj H1 H2).
Defined.

(** The C planner either writes the whole ring at the start of the
    caller's buffer and returns its length, or leaves the buffer alone and
    returns a negative code; it never writes past the length it was given. *)
Theorem nccl_plan_ffi nranks f r out out_len :
  out_len <= Z.of_nat (length out) ->
  let '(out', res) := hetgpu_concordia_nccl_plan_replacement nranks f r (Some out) out_len in
  (0 <= f < nranks /\ nranks <= out_len /\ (r = f \/ ~ 0 <= r < nranks) /\ res = Ok nranks /\
   exists buf, out' = Some buf /\ length buf = length out /\
     forall i, (i < length out)%nat ->
       buf !! i = if decide (Z.of_nat i < nranks)
                  then Some (if decide (Z.of_nat i = f) then r else Z.of_nat i) else out !! i) \/
  (out' = Some out /\ exists code, res = Ok code /\ code < 0).
Proof.
  intros Hout. unfold hetgpu_concordia_nccl_plan_replacement.
  destruct (Z.ltb_spec out_len 0); [right; split; [done|exists (-1); split; [done|lia]]|].
  destruct (plan_replacement_ring nranks f r) as [plan| |] eqn:Hp;
    [|right; split; [done|exists (-2); split; [done|lia]]..].
  apply plan_replacement_Ok in Hp as (Hf & Hr & Hplan).
  assert (length plan = Z.to_nat nranks) as Hlen
    by (rewrite Hplan, length_fmap; apply length_seqZ).
  assert (forall i, Z.of_nat i < nranks ->
    plan !! i = Some (if decide (Z.of_nat i = f) then r else Z.of_nat i)) as Hi.
  { intros i Hi. rewrite Hplan, list_lookup_fmap. unfold ranks_below.
    rewrite lookup_seqZ_lt by lia. simpl. rewrite ?Z.add_0_l. f_equal.
    destruct (Z.eqb_spec (Z.of_nat i) f); case_decide; congruence. }
  rewrite Hlen.
  destruct (Z.ltb_spec out_len (Z.of_nat (Z.to_nat nranks)));
    [right; split; [done|exists (-3); split; [done|lia]]|].
  rewrite decide_True by lia. left. split_and!; [lia|lia|lia|done|f_equal; lia|].
  eexists. split_and!; [done|apply length_inserts|]. intros i Hlt. case_decide as Hn.
  - rewrite lookup_inserts_in by lia. by rewrite Nat.sub_0_r, Hi.
  - apply lookup_inserts_out. lia.
Qed.

Lemma nccl_plan_ffi_witness :
  let '(out', res) := hetgpu_concordia_nccl_plan_replacement 4 1 9 (Some [-1; -1; -1; -1; -1]) 5 in
  out' = Some [0; 9; 2; 3; -1] /\ res = Ok 4.
Proof.
  pose proof (nccl_plan_ffi 4 1 9 [-1; -1; -1; -1; -1] 5 ltac:(simpl; lia)) as H.
  destruct (hetgpu_concordia_nccl_plan_replacement _ _ _ _ _) as [out' res] eqn:E.
  vm_compute in E. injection E as <- <-. destruct H as [(_ & _ & _ & H & _)|(H & _)]; [|discriminate].
  split; [reflexivity|exact H].
Defined.

(** A second failure undoes the first recovery: isolating another rank
    rebuilds the ring from the original ranks, so the rank that had been
    replaced is active again and its replacement is dropped. *)
Theorem second_failure_readmits nranks st f1 f2 r class :
  nccl_reachable nranks st -> phase st = Reintegrated ->
  failed_rank st = Some f1 -> replacement_rank st = Some r -> r <> f1 ->
  0 <= f2 < nranks -> f2 <> f1 -> class <> Transient ->
  f1 ∉ active_ranks st /\
  exists st', on_failure f2 class st = Ok st' /\ f1 ∈ active_ranks st' /\ r ∉ active_ranks st'.
Proof.
  intros Hreach Hp Hf Hr Hne Hf2 Hne2 Hc. pose proof (nccl_reachable_inv _ _ Hreach) as [Hn Ha Hfr Hrep _].
  rewrite Hf in Hfr. destruct Hfr as [Hf1 _]. specialize (Hrep _ _ Hf Hr).
  rewrite Z.max_l in Hn by lia. split.
  - rewrite Ha, list_elem_of_omap. intros (x & Hx & Hs). unfold ring_slot in Hs.
    rewrite Hp, Hf, Hr in Hs. case_decide as Hd; simplify_eq; done.
  - eexists. unfold on_failure. rewrite Hn, (proj2 (validate_rank_Ok nranks f2 "failed" tt) Hf2). simpl.
    rewrite decide_False by done. split; [done|]. simpl.
    rewrite !list_elem_of_filter, !elem_of_ranks_below. split; [|lia]. split; [congruence|lia].
Qed.

Lemma second_failure_readmits_witness :
  2 ∉ [0; 1; 7; 3] /\
  exists st', on_failure 1 Permanent (mkNcclRecoveryState Reintegrated 4 (Some 2) (Some 7) [0; 1; 7; 3]) = Ok st' /\
    2 ∈ active_ranks st' /\ 7 ∉ active_ranks st'.
Proof.
  apply (second_failure_readmits 4 (mkNcclRecoveryState Reintegrated 4 (Some 2) (Some 7) [0; 1; 7; 3])).
  - eapply (nccl_next _ _ RestoreComplete); [exact sample_ring_reachable|reflexivity].
  - reflexivity.
  - reflexivity.
  - reflexivity.
  - discriminate.
  - lia.
  - discriminate.
  - discriminate.
Defined.
