(* ===== verification/Device.v ===== *)
(** * The device side of the persistent worker ([concordia_gpu.rs], the CUDA
    source in [PERSISTENT_KERNEL_CUDA])

    A task is run by all threads of a block, each visiting every
    [blockDim * gridDim]-th element from its own position.  The element
    operations on floats are those of the device; the page scan and the byte
    copies are modelled to the bit. *)
From stdpp Require Import base numbers list sorting gmap.
From Stdlib Require Import ZArith Lia.
From S2P Require Import Prelude Delta.

Local Open Scope Z_scope.

(** ** Device memory: bytes by address *)
Abbreviation mem := (gmap Z Z).

Definition load8 (m : mem) (a : Z) : Z := wrap 8 (default 0 (m !! a)).
Definition store8 (a v : Z) (m : mem) : mem := <[a := v]> m.

Definition load_bytes (m : mem) (a : Z) (n : nat) : list Z := (fun i => load8 m (a + i)) <$> seqZ 0 (Z.of_nat n).

Fixpoint store_bytes (a : Z) (bytes : list Z) (m : mem) : mem :=
  match bytes with
  | [] => m
  | b :: bytes => store8 a b (store_bytes (a + 1) bytes m)
  end.

Definition load32 (m : mem) (a : Z) : Z := le_decode (load_bytes m a 4).
Definition store32 (a v : Z) (m : mem) : mem := store_bytes a (le_bytes 4 v) m.
Definition load64 (m : mem) (a : Z) : Z := le_decode (load_bytes m a 8).
Definition store64 (a v : Z) (m : mem) : mem := store_bytes a (le_bytes 8 v) m.

(** ** Tasks *)
Record Task : Type := mkTask {
  t_op : Z;
  t_flags : Z;
  t_numel : Z;
  t_in0 : Z;
  t_in1 : Z;
  t_out0 : Z;
  t_num_params : Z;
}.

(** Single-precision arithmetic of the device, on bit patterns. *)
Class DeviceFloat := {
  f_add : Z -> Z -> Z;
  f_sub : Z -> Z -> Z;
  f_mul : Z -> Z -> Z;
  f_div : Z -> Z -> Z;
  f_neg : Z -> Z;
  f_exp : Z -> Z;
  f_positive : Z -> bool;
}.

Definition f_one : Z := 0x3f800000.
Definition f_zero : Z := 0.

Section Elements.
Context `{DeviceFloat}.

(** [in[i]] and [out[i] = v] for arrays of floats. *)
Definition elem (m : mem) (base i : Z) : Z := load32 m (base + 4 * i).
Definition set_elem (base i v : Z) (m : mem) : mem := store32 (base + 4 * i) v m.

Definition do_add (t : Task) (i : Z) (m : mem) : mem :=
  set_elem (t_out0 t) i (f_add (elem m (t_in0 t) i) (elem m (t_in1 t) i)) m.

Definition do_mul (t : Task) (i : Z) (m : mem) : mem :=
  set_elem (t_out0 t) i (f_mul (elem m (t_in0 t) i) (elem m (t_in1 t) i)) m.

Definition do_sub (t : Task) (i : Z) (m : mem) : mem :=
  set_elem (t_out0 t) i (f_sub (elem m (t_in0 t) i) (elem m (t_in1 t) i)) m.

Definition do_silu (t : Task) (i : Z) (m : mem) : mem :=
  let x := elem m (t_in0 t) i in
  set_elem (t_out0 t) i (f_div x (f_add f_one (f_exp (f_neg x)))) m.

Definition do_relu (t : Task) (i : Z) (m : mem) : mem :=
  let x := elem m (t_in0 t) i in
  set_elem (t_out0 t) i (if f_positive x then x else f_zero) m.

(** The factor, read before the loop. *)
Definition scale_of (t : Task) (m : mem) : Z := if t_in1 t =? 0 then f_one else elem m (t_in1 t) 0.

Definition do_scale (t : Task) (s : Z) (i : Z) (m : mem) : mem :=
  set_elem (t_out0 t) i (f_mul (elem m (t_in0 t) i) s) m.

Definition do_add_relu (t : Task) (i : Z) (m : mem) : mem :=
  let v := f_add (elem m (t_in0 t) i) (elem m (t_in1 t) i) in
  set_elem (t_out0 t) i (if f_positive v then v else f_zero) m.

Definition page_bytes : Z := 4096.

(** One page of [do_dirty_scan]. *)
Definition page_differs (m : mem) (current shadow : Z) : bool :=
  existsb (fun i => negb (load8 m (current + i) =? load8 m (shadow + i))) (seqZ 0 page_bytes).

Definition copy_page (current shadow : Z) (m : mem) : mem :=
  foldl (fun m i => store8 (shadow + i) (load8 m (current + i)) m) m (seqZ 0 page_bytes).

(** [atomicOr] on a word *)
Definition atomic_or (a v : Z) (m : mem) : mem := store64 a (Z.lor (load64 m a) v) m.

Definition do_dirty_scan (t : Task) (page : Z) (m : mem) : mem :=
  let offset := page * page_bytes in
  let current := t_in0 t + offset in
  let shadow := t_in1 t + offset in
  if page_differs m current shadow
  then atomic_or (t_out0 t + 8 * (page / 64)) (shl 1 (page mod 64)) (copy_page current shadow m)
  else m.

Definition do_copy_bytes (t : Task) (i : Z) (m : mem) : mem :=
  store8 (t_out0 t + i) (load8 m (t_in0 t + i)) m.

(** The [switch] of the worker, for one loop iteration. *)
Definition do_index (t : Task) (s : Z) (i : Z) (m : mem) : mem :=
  if t_op t =? 0 then do_add t i m
  else if t_op t =? 1 then do_mul t i m
  else if t_op t =? 2 then do_sub t i m
  else if t_op t =? 3 then do_silu t i m
  else if t_op t =? 4 then do_relu t i m
  else if t_op t =? 5 then do_scale t s i m
  else if t_op t =? 6 then do_add_relu t i m
  else if t_op t =? 7 then do_dirty_scan t i m
  else if t_op t =? 8 then do_copy_bytes t i m
  else if t_op t =? 9 then do_copy_bytes t i m
  else m.

(** [for (i = threadIdx.x + blockIdx.x * blockDim.x; i < n; i += blockDim.x * gridDim.x)] *)
Definition thread_indices (threads blocks n block thread : Z) : list Z :=
  let start := thread + block * threads in
  let stride := threads * blocks in
  (fun k => start + k * stride) <$> seqZ 0 (Z.max 0 ((n - start + stride - 1) / stride)).

Definition block_indices (threads blocks n block : Z) : list Z :=
  seqZ 0 threads ≫= thread_indices threads blocks n block.

(** A block runs a task: the iterations of its threads in some order. *)
Definition run_order (t : Task) (order : list Z) (m : mem) : mem :=
  foldl (fun m' i => do_index t (scale_of t m) i m') m order.

Definition runs (threads blocks block : Z) (t : Task) (m m' : mem) : Prop :=
  exists order, order ≡ₚ block_indices threads blocks (t_numel t) block /\ m' = run_order t order m.

End Elements.

(** ** Loads after stores *)
Lemma load8_store8 a v m b : load8 (store8 a v m) b = if decide (a = b) then wrap 8 v else load8 m b.
Proof.
  unfold load8, store8. case_decide as Hab; [subst; by rewrite lookup_insert_eq|].
  by rewrite lookup_insert_ne.
Qed.

Lemma load8_range m a : 0 <= load8 m a < 256.
Proof. by apply (wrap_range 8). Qed.

Lemma load8_store_bytes a bytes m b :
  Forall is_byte bytes ->
  load8 (store_bytes a bytes m) b =
    if decide (a <= b < a + Z.of_nat (length bytes)) then default 0 (bytes !! Z.to_nat (b - a)) else load8 m b.
Proof.
  intros Hb. revert a. induction Hb as [|v bytes Hv Hb IH]; intros a.
  - cbn [store_bytes length]. case_decide; [lia|done].
  - cbn [store_bytes]. rewrite load8_store8, IH. cbn [length]. rewrite Nat2Z.inj_succ. case_decide.
    + subst. rewrite decide_True by lia. rewrite Z.sub_diag. simpl. apply (wrap_small 8). exact Hv.
    + case_decide.
      * rewrite decide_True by lia. replace (Z.to_nat (b - a)) with (S (Z.to_nat (b - (a + 1)))) by lia. done.
      * rewrite decide_False by lia. done.
Qed.

(** ** Which elements a block visits *)
Lemma elem_of_thread_indices threads blocks n block thread i :
  0 < threads -> 0 < blocks ->
  i ∈ thread_indices threads blocks n block thread <->
  exists k, 0 <= k /\ i = thread + block * threads + k * (threads * blocks) /\ i < n.
Proof.
  intros Ht Hb. assert (0 < threads * blocks) as Hs by nia. unfold thread_indices.
  set (stride := threads * blocks) in *. set (start := thread + block * threads).
  pose proof (Z.div_mod (n - start + stride - 1) stride ltac:(lia)) as Hdm.
  pose proof (Z.mod_pos_bound (n - start + stride - 1) stride Hs) as Hm.
  set (q := (n - start + stride - 1) / stride) in *. set (r := (n - start + stride - 1) mod stride) in *.
  clearbody q r stride start. rewrite list_elem_of_fmap. split.
  - intros (k & -> & Hk%elem_of_seqZ). exists k. split_and!; [lia|done|].
    assert ((k + 1) * stride <= q * stride) by (apply Z.mul_le_mono_nonneg_r; lia). lia.
  - intros (k & Hk & -> & Hi). exists k. split; [done|]. apply elem_of_seqZ. split; [lia|].
    destruct (decide (q <= k)); [|lia].
    assert (q * stride <= k * stride) by (apply Z.mul_le_mono_nonneg_r; lia). lia.
Qed.

Lemma NoDup_thread_indices threads blocks n block thread :
  0 < threads -> 0 < blocks -> NoDup (thread_indices threads blocks n block thread).
Proof.
  intros Ht Hb. apply NoDup_fmap_2; [|apply NoDup_seqZ]. intros k k' Hk. cbn beta in Hk.
  apply (Z.mul_reg_r _ _ (threads * blocks)); nia.
Qed.

(** A single block visits every element exactly once. *)
Lemma block_indices_single threads n :
  0 < threads -> block_indices threads 1 n 0 ≡ₚ seqZ 0 n.
Proof.
  intros Ht. unfold block_indices. apply NoDup_Permutation; [|apply NoDup_seqZ|].
  - apply NoDup_bind; [| |apply NoDup_seqZ].
    + intros t1 t2 i H1%elem_of_seqZ H2%elem_of_seqZ (k1 & ? & -> & _)%elem_of_thread_indices
        (k2 & ? & Heq & _)%elem_of_thread_indices; [|lia..].
      assert ((t1 + k1 * threads) mod threads = (t2 + k2 * threads) mod threads) as Hmod by (f_equal; lia).
      rewrite !Z.mod_add, !Z.mod_small in Hmod by lia. done.
    + intros t _. by apply NoDup_thread_indices.
  - intros i. rewrite list_elem_of_bind, elem_of_seqZ. split.
    + intros (t & (k & ? & -> & ?)%elem_of_thread_indices & Hr%elem_of_seqZ); [|lia..]. nia.
    + intros Hi. exists (i mod threads). pose proof (Z.mod_pos_bound i threads Ht).
      pose proof (Z.div_mod i threads ltac:(lia)). split.
      * apply elem_of_thread_indices; [lia..|]. exists (i / threads). split_and!; [apply Z.div_pos; lia|nia|lia].
      * apply elem_of_seqZ. lia.
Qed.

(** ** Bits of byte strings *)
Lemma testbit_byte_cons b r i :
  is_byte b -> 0 <= i ->
  Z.testbit (b + 256 * r) i = if decide (i < 8) then Z.testbit b i else Z.testbit r (i - 8).
Proof.
  intros Hb Hi. replace (b + 256 * r) with (Z.lor b (Z.shiftl r 8)).
  - rewrite Z.lor_spec, Z.shiftl_spec by lia. case_decide.
    + rewrite (Z.testbit_neg_r r) by lia. apply orb_false_r.
    + rewrite (testbit_small b 8) by (first [exact Hb|lia]). done.
  - rewrite Z.shiftl_mul_pow2, Z.mul_comm by lia. symmetry. rewrite Z.add_comm.
    rewrite <- Z.lor_comm. rewrite Z.add_nocarry_lxor, <- Z.lxor_lor; [done|..];
    apply Z.bits_inj'; intros j Hj; rewrite Z.land_spec, Z.testbit_0_l;
      change 256 with (2 ^ 8); rewrite Z.mul_comm, Z.mul_pow2_bits by lia;
      (destruct (decide (j < 8)); [rewrite Z.testbit_neg_r by lia; done|
        rewrite (testbit_small b 8) by (first [exact Hb|lia]); apply andb_false_r]).
Qed.

Lemma testbit_le_decode l i :
  Forall is_byte l -> 0 <= i ->
  Z.testbit (le_decode l) i = Z.testbit (default 0 (l !! Z.to_nat (i / 8))) (i mod 8).
Proof.
  intros Hl. revert i. induction Hl as [|b l Hb Hl IH]; intros i Hi; cbn [le_decode].
  - by rewrite !Z.testbit_0_l.
  - rewrite testbit_byte_cons by done. case_decide.
    + rewrite Z.div_small, Z.mod_small by lia. done.
    + rewrite IH by lia. replace i with (i - 8 + 1 * 8) at 3 4 by lia.
      rewrite Z.div_add, Z.mod_add by lia.
      replace (Z.to_nat ((i - 8) / 8 + 1)) with (S (Z.to_nat ((i - 8) / 8))); [done|].
      pose proof (Z.div_pos (i - 8) 8). lia.
Qed.

Lemma testbit_le_bytes n v k j :
  0 <= j < 8 -> (k < n)%nat ->
  Z.testbit (default 0 (le_bytes n v !! k)) j = Z.testbit v (8 * Z.of_nat k + j).
Proof.
  intros Hj. revert v k. induction n as [|n IH]; intros v k Hk; [lia|]. cbn [le_bytes].
  destruct k as [|k].
  - change (default 0 ((v mod 256 :: le_bytes n (v / 256)) !! 0%nat)) with (v mod 2 ^ 8). rewrite Z.mod_pow2_bits_low by lia. f_equal; lia.
  - change ((v mod 256 :: le_bytes n (v / 256)) !! S k) with (le_bytes n (v / 256) !! k). rewrite IH by lia. change 256 with (2 ^ 8). rewrite Z.div_pow2_bits by lia. f_equal; lia.
Qed.

(** ** The page scan *)
Definition apart_ranges (a n b k : Z) : Prop := a + n <= b \/ b + k <= a.

Lemma load8_copy_prefix n current shadow m x :
  apart_ranges current (Z.of_nat n) shadow (Z.of_nat n) ->
  load8 (foldl (fun m i => store8 (shadow + i) (load8 m (current + i)) m) m (seqZ 0 (Z.of_nat n))) x =
    if decide (shadow <= x < shadow + Z.of_nat n) then load8 m (current + (x - shadow)) else load8 m x.
Proof.
  unfold apart_ranges. revert x. induction n as [|n IH]; intros x Hap.
  - cbn [foldl]. rewrite decide_False by lia. done.
  - rewrite seqZ_S, foldl_app. cbn [foldl]. rewrite load8_store8, !IH by lia. case_decide as Hx.
    + rewrite decide_False by lia. rewrite decide_True by lia.
      replace (current + (x - shadow)) with (current + (0 + Z.of_nat n)) by lia.
      apply (wrap_small 8), load8_range.
    + destruct (decide (shadow <= x < shadow + Z.of_nat n)); [by rewrite decide_True by lia|].
      by rewrite decide_False by lia.
Qed.

Lemma load8_copy_page current shadow m x :
  apart_ranges current page_bytes shadow page_bytes ->
  load8 (copy_page current shadow m) x =
    if decide (shadow <= x < shadow + page_bytes) then load8 m (current + (x - shadow)) else load8 m x.
Proof. apply (load8_copy_prefix 4096). Qed.

Lemma page_differs_spec m current shadow :
  page_differs m current shadow = true <->
  exists i, 0 <= i < page_bytes /\ load8 m (current + i) <> load8 m (shadow + i).
Proof.
  unfold page_differs. rewrite existsb_exists. split.
  - intros (i & Hi%list_elem_of_In%elem_of_seqZ & Hd). exists i. split; [lia|].
    by apply Z.eqb_neq, negb_true_iff.
  - intros (i & Hi & Hd). exists i. split; [apply list_elem_of_In, elem_of_seqZ; lia|].
    by apply negb_true_iff, Z.eqb_neq.
Qed.

Lemma page_differs_ext m m' current shadow :
  (forall i, 0 <= i < page_bytes -> load8 m (current + i) = load8 m' (current + i) /\
                                    load8 m (shadow + i) = load8 m' (shadow + i)) ->
  page_differs m current shadow = page_differs m' current shadow.
Proof.
  intros Hext. apply eq_true_iff_eq. rewrite !page_differs_spec.
  split; intros (i & Hi & Hd); exists i; (split; [done|]); destruct (Hext i Hi) as [H1 H2]; congruence.
Qed.

(** Bit [p] of the bitmap at [base]. *)
Definition mem_bit (m : mem) (base p : Z) : bool := Z.testbit (load8 m (base + p / 8)) (p mod 8).

Lemma load_bytes_bytes m a n : Forall is_byte (load_bytes m a n).
Proof. unfold load_bytes. apply Forall_fmap, Forall_forall. intros x _. apply load8_range. Qed.

Lemma lookup_load_bytes m a n k :
  (k < n)%nat -> load_bytes m a n !! k = Some (load8 m (a + Z.of_nat k)).
Proof.
  intros Hk. unfold load_bytes. rewrite list_lookup_fmap, lookup_seqZ_lt by lia. done.
Qed.

Lemma load8_atomic_or_out a v m x : ~ a <= x < a + 8 -> load8 (atomic_or a v m) x = load8 m x.
Proof.
  intros Hx. unfold atomic_or, store64. rewrite load8_store_bytes by apply le_bytes_bytes.
  rewrite length_le_bytes. by rewrite decide_False by lia.
Qed.

Lemma testbit_load8_atomic_or a v m k j :
  0 <= k < 8 -> 0 <= j < 8 ->
  Z.testbit (load8 (atomic_or a v m) (a + k)) j = Z.testbit (load8 m (a + k)) j || Z.testbit v (8 * k + j).
Proof.
  intros Hk Hj. unfold atomic_or, store64. rewrite load8_store_bytes by apply le_bytes_bytes.
  rewrite length_le_bytes, decide_True by lia. rewrite testbit_le_bytes by lia.
  replace (8 * Z.of_nat (Z.to_nat (a + k - a)) + j) with (8 * k + j) by lia.
  rewrite Z.lor_spec. f_equal. unfold load64. rewrite testbit_le_decode by (apply load_bytes_bytes || lia).
  replace (8 * k + j) with (j + k * 8) by lia. rewrite Z.div_add, Z.mod_add, Z.div_small, Z.mod_small by lia.
  rewrite lookup_load_bytes by lia. simpl. do 2 f_equal. lia.
Qed.

Lemma mem_bit_atomic_or m base p q :
  0 <= p -> 0 <= q ->
  mem_bit (atomic_or (base + 8 * (q / 64)) (shl 1 (q mod 64)) m) base p = mem_bit m base p || bool_decide (p = q).
Proof.
  intros Hp Hq. unfold mem_bit.
  assert (8 * (p / 8) + p mod 8 = p /\ 0 <= p mod 8 < 8 /\ 64 * (q / 64) + q mod 64 = q /\ 0 <= q mod 64 < 64)
    as (Hp1 & Hp2 & Hq1 & Hq2).
  { split_and!; try (apply Z.mod_pos_bound; lia); symmetry; apply Z.div_mod; lia. }
  destruct (decide (8 * (q / 64) <= p / 8 < 8 * (q / 64) + 8)) as [Hin|Hout].
  - replace (base + p / 8) with (base + 8 * (q / 64) + (p / 8 - 8 * (q / 64))) by lia.
    rewrite testbit_load8_atomic_or by lia. f_equal.
    rewrite testbit_shl by lia. rewrite (proj2 (Z.ltb_lt _ 64)) by lia. simpl.
    case_bool_decide as Hpq.
    + rewrite (proj2 (Z.leb_le _ _)) by lia. simpl.
      replace (_ - q mod 64) with 0 by lia. done.
    + destruct (Z.leb_spec (q mod 64) (8 * (p / 8 - 8 * (q / 64)) + p mod 8)); [simpl|done].
      destruct (Z.testbit 1 _) eqn:Hb; [|done]. apply (Z.testbit_true 1) in Hb; [|lia].
      destruct (decide (8 * (p / 8 - 8 * (q / 64)) + p mod 8 - q mod 64 = 0)); [lia|].
      rewrite Z.div_small in Hb; [done|]. split; [lia|]. apply Z.pow_gt_1; lia.
  - rewrite load8_atomic_or_out by lia. rewrite bool_decide_false by lia. by rewrite orb_false_r.
Qed.

(** The three arrays of a scan do not overlap. *)
Definition bitmap_len (pages : Z) : Z := 8 * ((pages + 63) / 64).

Definition scan_layout (t : Task) : Prop :=
  let n := page_bytes * t_numel t in
  0 <= t_numel t /\ apart_ranges (t_in0 t) n (t_in1 t) n /\
  apart_ranges (t_in0 t) n (t_out0 t) (bitmap_len (t_numel t)) /\
  apart_ranges (t_in1 t) n (t_out0 t) (bitmap_len (t_numel t)).

Definition page_of_current (t : Task) (p : Z) : Z := t_in0 t + p * page_bytes.
Definition page_of_shadow (t : Task) (p : Z) : Z := t_in1 t + p * page_bytes.

(** Memory [m] when the scan that started in [m0] has visited the pages [D]. *)
Record scanned (t : Task) (m0 : mem) (D : list Z) (m : mem) : Prop := mk_scanned {
  sc_frame : forall x, ~ t_in1 t <= x < t_in1 t + page_bytes * t_numel t ->
    ~ t_out0 t <= x < t_out0 t + bitmap_len (t_numel t) -> load8 m x = load8 m0 x;
  sc_shadow : forall p i, 0 <= p < t_numel t -> 0 <= i < page_bytes ->
    load8 m (page_of_shadow t p + i) =
      load8 m0 (if bool_decide (p ∈ D) then page_of_current t p + i else page_of_shadow t p + i);
  sc_bits : forall q, 0 <= q < 8 * bitmap_len (t_numel t) ->
    mem_bit m (t_out0 t) q = mem_bit m0 (t_out0 t) q ||
      (bool_decide (q ∈ D) && page_differs m0 (page_of_current t q) (page_of_shadow t q));
}.

Section Scan.
Context (t : Task) (m0 : mem) (Hlay : scan_layout t).

Lemma bitmap_len_bound p : 0 <= p < t_numel t -> 8 * (p / 64) + 8 <= bitmap_len (t_numel t).
Proof.
  intros Hp. unfold bitmap_len. assert (p / 64 + 1 <= (t_numel t + 63) / 64); [|lia].
  replace (t_numel t + 63) with (t_numel t - 1 + 1 * 64) by lia. rewrite Z.div_add by lia.
  pose proof (Z.div_le_mono p (t_numel t - 1) 64). lia.
Qed.

Lemma page_range p : 0 <= p < t_numel t -> 0 <= p * page_bytes /\ p * page_bytes + page_bytes <= page_bytes * t_numel t.
Proof. unfold page_bytes. lia. Qed.

Lemma scanned_start : scanned t m0 [] m0.
Proof. split; intros; try done. by rewrite orb_false_r. Qed.

(** Page [p] of both arrays is still as it was. *)
Lemma scanned_page_fresh D m p :
  scanned t m0 D m -> 0 <= p < t_numel t -> p ∉ D ->
  page_differs m (page_of_current t p) (page_of_shadow t p) =
  page_differs m0 (page_of_current t p) (page_of_shadow t p).
Proof.
  intros Hs Hp HD. pose proof (page_range p Hp) as [H1 H2]. destruct Hlay as (Hn & Hcs & Hcb & Hsb).
  apply page_differs_ext. intros i Hi. unfold apart_ranges in *. split.
  - apply (sc_frame _ _ _ _ Hs); unfold page_of_current; lia.
  - rewrite (sc_shadow _ _ _ _ Hs) by done. by rewrite bool_decide_false.
Qed.

Lemma scanned_current D m p i :
  scanned t m0 D m -> 0 <= p < t_numel t -> 0 <= i < page_bytes ->
  load8 m (page_of_current t p + i) = load8 m0 (page_of_current t p + i).
Proof.
  intros Hs Hp Hi. pose proof (page_range p Hp) as [H1 H2]. destruct Hlay as (Hn & Hcs & Hcb & Hsb).
  unfold apart_ranges in *. apply (sc_frame _ _ _ _ Hs); unfold page_of_current; lia.
Qed.

Lemma scanned_clean D m p :
  scanned t m0 D m -> 0 <= p < t_numel t -> p ∉ D ->
  page_differs m (page_of_current t p) (page_of_shadow t p) = false -> scanned t m0 (D ++ [p]) m.
Proof.
  intros Hs Hp HD Hd. pose proof (scanned_page_fresh D m p Hs Hp HD) as Hf. rewrite Hd in Hf.
  split; [apply Hs| |].
  - intros q i Hq Hi. rewrite (sc_shadow _ _ _ _ Hs) by done.
    destruct (decide (q = p)) as [->|Hne].
    + rewrite bool_decide_false, bool_decide_true by set_solver.
      destruct (decide (load8 m0 (page_of_current t p + i) = load8 m0 (page_of_shadow t p + i))) as [|Hneq]; [done|].
      symmetry in Hf. apply not_true_iff_false in Hf. exfalso. apply Hf, page_differs_spec. eauto.
    + by rewrite (bool_decide_ext (q ∈ D) (q ∈ D ++ [p])) by set_solver.
  - intros q Hq. rewrite (sc_bits _ _ _ _ Hs) by done. destruct (decide (q = p)) as [->|Hne].
    + by rewrite <- Hf, !andb_false_r.
    + by rewrite (bool_decide_ext (q ∈ D) (q ∈ D ++ [p])) by set_solver.
Qed.

Lemma scanned_dirty D m p :
  scanned t m0 D m -> 0 <= p < t_numel t -> p ∉ D ->
  page_differs m (page_of_current t p) (page_of_shadow t p) = true ->
  scanned t m0 (D ++ [p])
    (atomic_or (t_out0 t + 8 * (p / 64)) (shl 1 (p mod 64)) (copy_page (page_of_current t p) (page_of_shadow t p) m)).
Proof.
  intros Hs Hp HD Hd. pose proof (scanned_page_fresh D m p Hs Hp HD) as Hf. rewrite Hd in Hf.
  pose proof (page_range p Hp) as [Hp1 Hp2]. pose proof (bitmap_len_bound p Hp) as Hw.
  assert (0 <= p / 64) as Hp0 by (apply Z.div_pos; lia).
  destruct Hlay as (Hn & Hcs & Hcb & Hsb). unfold apart_ranges in *.
  assert (apart_ranges (page_of_current t p) page_bytes (page_of_shadow t p) page_bytes) as Hap.
  { unfold apart_ranges, page_of_current, page_of_shadow. lia. }
  split.
  - intros x Hx1 Hx2. rewrite load8_atomic_or_out by lia. rewrite load8_copy_page by done.
    rewrite decide_False by (unfold page_of_shadow; lia). by apply (sc_frame _ _ _ _ Hs).
  - intros q i Hq Hi. pose proof (page_range q Hq) as [Hq1 Hq2].
    rewrite load8_atomic_or_out by (unfold page_of_shadow; lia). rewrite load8_copy_page by done.
    destruct (decide (q = p)) as [->|Hne].
    + rewrite decide_True by lia. rewrite bool_decide_true by set_solver.
      rewrite Z.add_simpl_l. by apply (scanned_current D).
    + rewrite decide_False by (unfold page_of_shadow, page_bytes in *; lia).
      rewrite (sc_shadow _ _ _ _ Hs) by done.
      by rewrite (bool_decide_ext (q ∈ D) (q ∈ D ++ [p])) by set_solver.
  - intros q Hq. rewrite mem_bit_atomic_or by lia.
    assert (mem_bit (copy_page (page_of_current t p) (page_of_shadow t p) m) (t_out0 t) q = mem_bit m (t_out0 t) q) as ->.
    { unfold mem_bit. rewrite load8_copy_page by done. rewrite decide_False; [done|].
      assert (0 <= q / 8 < bitmap_len (t_numel t)).
      { split; [apply Z.div_pos; lia|]. apply Z.div_lt_upper_bound; lia. }
      unfold page_of_shadow. lia. }
    rewrite (sc_bits _ _ _ _ Hs) by done. destruct (decide (q = p)) as [->|Hne].
    + rewrite <- Hf, (bool_decide_false (p ∈ D)), !bool_decide_true by set_solver.
      by rewrite orb_true_r, orb_true_r.
    + rewrite (bool_decide_false (q = p)), orb_false_r by done.
      by rewrite (bool_decide_ext (q ∈ D) (q ∈ D ++ [p])) by set_solver.
Qed.

Lemma scanned_step D m p :
  scanned t m0 D m -> 0 <= p < t_numel t -> p ∉ D -> scanned t m0 (D ++ [p]) (do_dirty_scan t p m).
Proof.
  intros Hs Hp HD. unfold do_dirty_scan. fold (page_of_current t p) (page_of_shadow t p).
  destruct (page_differs m _ _) eqn:Hd; [by apply scanned_dirty|by apply scanned_clean].
Qed.

Lemma scanned_all D pages m :
  scanned t m0 D m -> NoDup (D ++ pages) -> Forall (fun p => 0 <= p < t_numel t) pages ->
  scanned t m0 (D ++ pages) (foldl (fun m p => do_dirty_scan t p m) m pages).
Proof.
  revert D m. induction pages as [|p pages IH]; intros D m Hs Hnd Hall; [by rewrite app_nil_r|].
  apply Forall_cons in Hall as [Hp Hall]. cbn [foldl]. rewrite cons_middle, app_assoc. apply IH; [|by rewrite <- app_assoc|done].
  apply scanned_step; [done|done|]. apply NoDup_app in Hnd as (_ & Hnd & _). intros Hin.
  apply (Hnd p Hin). left.
Qed.

End Scan.

Lemma bitmap_bit_mem m a n p :
  (p / 8 < n)%nat -> bitmap_bit (load_bytes m a n) p = mem_bit m a (Z.of_nat p).
Proof.
  intros Hp. unfold bitmap_bit, mem_bit. rewrite lookup_load_bytes by done.
  change (default 0 (Some (load8 m (a + Z.of_nat (p / 8))))) with (load8 m (a + Z.of_nat (p / 8))).
  rewrite Nat2Z.inj_div, Nat2Z.inj_mod. change (Z.of_nat 8) with 8. set (b := load8 _ _). set (k := Z.of_nat p mod 8).
  assert (0 <= k < 8) by (apply Z.mod_pos_bound; lia). apply eq_true_iff_eq.
  rewrite negb_true_iff, Z.eqb_neq. split.
  - intros Hne. destruct (Z.testbit b k) eqn:Hb; [done|]. exfalso. apply Hne.
    apply Z.bits_inj'. intros i Hi. rewrite Z.land_spec, Z.shiftl_spec, Z.testbit_0_l by lia.
    destruct (decide (i = k)) as [->|]; [by rewrite Hb|].
    destruct (Z.testbit 1 (i - k)) eqn:H1; [|apply andb_false_r].
    destruct (decide (i < k)); [by rewrite Z.testbit_neg_r in H1 by lia|].
    rewrite (testbit_small 1 1) in H1 by lia. done.
  - intros Hb H0. apply (f_equal (fun z => Z.testbit z k)) in H0.
    rewrite Z.land_spec, Hb, Z.shiftl_spec, Z.sub_diag, Z.testbit_0_l in H0 by lia. done.
Qed.

Lemma run_order_scan `{DeviceFloat} t order m :
  t_op t = 7 -> run_order t order m = foldl (fun m p => do_dirty_scan t p m) m order.
Proof.
  intros Hop. unfold run_order. generalize (scale_of t m). intros s. revert m.
  induction order as [|p order IH]; intros m; [done|]. cbn [foldl]. rewrite IH. unfold do_index. by rewrite Hop.
Qed.

Lemma run_scan `{DeviceFloat} threads t m m' :
  t_op t = 7 -> 0 < threads -> scan_layout t -> runs threads 1 0 t m m' ->
  exists D, D ≡ₚ seqZ 0 (t_numel t) /\ scanned t m D m'.
Proof.
  intros Hop Ht Hlay (order & Hperm & ->). rewrite block_indices_single in Hperm by done.
  exists order. split; [done|]. rewrite run_order_scan by done.
  apply (scanned_all t m Hlay [] order m); [by apply scanned_start|simpl|].
  - rewrite Hperm. apply NoDup_seqZ.
  - rewrite Hperm. apply Forall_seqZ. lia.
Qed.

Lemma load_bytes_ext m1 a1 m2 a2 n :
  (forall k, 0 <= k < Z.of_nat n -> load8 m1 (a1 + k) = load8 m2 (a2 + k)) -> load_bytes m1 a1 n = load_bytes m2 a2 n.
Proof.
  intros Hext. apply list_eq. intros k. destruct (decide (k < n)%nat).
  - rewrite !lookup_load_bytes by done. f_equal. apply Hext. lia.
  - rewrite !lookup_ge_None_2; [done|unfold load_bytes; rewrite length_fmap, length_seqZ; lia..].
Qed.

(** ** Theorems *)

(** [C28] A dirty-page scan run by the single block of the worker, in any order
    of its threads, refreshes the shadow to the current contents, marks in the
    bitmap that the checkpoint reads exactly the pages that differed, keeping
    marks already set, and touches no other memory. *)
Theorem dirty_scan_exact `{DeviceFloat} threads t m m' :
  t_op t = 7 -> 0 < threads -> scan_layout t -> runs threads 1 0 t m m' ->
  let len := Z.to_nat (page_bytes * t_numel t) in
  let bitmap m := load_bytes m (t_out0 t) (Z.to_nat (bitmap_len (t_numel t))) in
  load_bytes m' (t_in1 t) len = load_bytes m (t_in0 t) len /\
  load_bytes m' (t_in0 t) len = load_bytes m (t_in0 t) len /\
  (forall p, Z.of_nat p < t_numel t ->
     bitmap_bit (bitmap m') p = bitmap_bit (bitmap m) p ||
       page_differs m (page_of_current t (Z.of_nat p)) (page_of_shadow t (Z.of_nat p))) /\
  (forall x, ~ t_in1 t <= x < t_in1 t + page_bytes * t_numel t ->
     ~ t_out0 t <= x < t_out0 t + bitmap_len (t_numel t) -> load8 m' x = load8 m x).
Proof.
  intros Hop Ht Hlay Hrun. destruct (run_scan threads t m m' Hop Ht Hlay Hrun) as (D & HD & Hs). cbv zeta.
  assert (forall p, 0 <= p < t_numel t -> p ∈ D) as Hin.
  { intros p Hp. rewrite HD. apply elem_of_seqZ. lia. }
  destruct Hlay as (Hn & Hcs & Hcb & Hsb) eqn:E. split_and!.
  - apply load_bytes_ext. intros k Hk. rewrite Z2Nat.id in Hk by (unfold page_bytes; lia).
    pose proof (Z.div_mod k page_bytes ltac:(done)). pose proof (Z.mod_pos_bound k page_bytes ltac:(done)).
    assert (0 <= k / page_bytes < t_numel t).
    { split; [apply Z.div_pos; [lia|done]|]. apply Z.div_lt_upper_bound; [done|lia]. }
    replace (t_in1 t + k) with (page_of_shadow t (k / page_bytes) + k mod page_bytes) by (unfold page_of_shadow; lia).
    rewrite (sc_shadow _ _ _ _ Hs) by done. rewrite bool_decide_true by auto.
    unfold page_of_current. f_equal. lia.
  - apply load_bytes_ext. intros k Hk. rewrite Z2Nat.id in Hk by (unfold page_bytes; lia).
    unfold apart_ranges in *. apply (sc_frame _ _ _ _ Hs); lia.
  - intros p Hp. pose proof (bitmap_len_bound t (Z.of_nat p) ltac:(lia)).
    assert (Z.of_nat p / 8 < bitmap_len (t_numel t)).
    { apply Z.div_lt_upper_bound; [lia|]. pose proof (Z.div_mod (Z.of_nat p) 64 ltac:(lia)).
      pose proof (Z.mod_pos_bound (Z.of_nat p) 64 ltac:(lia)). lia. }
    assert (Z.of_nat (p / 8) = Z.of_nat p / 8) as Hdiv by (by rewrite Nat2Z.inj_div).
    rewrite !bitmap_bit_mem by lia. rewrite (sc_bits _ _ _ _ Hs).
    + by rewrite bool_decide_true by (apply Hin; lia).
    + pose proof (Z.div_mod (Z.of_nat p) 8 ltac:(lia)). pose proof (Z.mod_pos_bound (Z.of_nat p) 8 ltac:(lia)). lia.
  - apply Hs.
Qed.

#[export] Instance integer_device : DeviceFloat := {|
  f_add a b := wrap 32 (a + b); f_sub a b := wrap 32 (a - b); f_mul a b := wrap 32 (a * b);
  f_div a b := a / b; f_neg a := wrap 32 (- a); f_exp a := a; f_positive a := 0 <? a;
|}.

(** One page at 0, its shadow at 8192, the bitmap at 16384; byte 7 differs. *)
Definition sample_scan : Task := mkTask 7 0 1 0 8192 16384 3.
Definition sample_mem : mem := {[ 7 := 200 ]}.

Lemma dirty_scan_exact_witness :
  exists m', runs 128 1 0 sample_scan sample_mem m' /\
    load_bytes m' 8192 (Z.to_nat (page_bytes * 1)) = load_bytes sample_mem 0 (Z.to_nat (page_bytes * 1)) /\
    bitmap_bit (load_bytes m' 16384 (Z.to_nat (bitmap_len 1))) 0 = true.
Proof.
  assert (exists m', runs 128 1 0 sample_scan sample_mem m') as [m' Hrun].
  { exists (run_order sample_scan (block_indices 128 1 1 0) sample_mem), (block_indices 128 1 1 0).
    split; reflexivity. }
  assert (scan_layout sample_scan) as Hlay.
  { unfold scan_layout, apart_ranges, bitmap_len, page_bytes. cbn. lia. }
  exists m'. destruct (dirty_scan_exact 128 sample_scan sample_mem m' eq_refl eq_refl Hlay Hrun)
    as (Hs & _ & Hb & _).
  split; [exact Hrun|]. split; [exact Hs|]. specialize (Hb 0%nat eq_refl). refine (eq_trans Hb _).
  vm_compute. reflexivity.
Defined.

(** ** More than one block *)
Lemma run_order_copy `{DeviceFloat} t order m :
  t_op t = 8 \/ t_op t = 9 -> run_order t order m = foldl (fun m i => do_copy_bytes t i m) m order.
Proof.
  intros Hop. unfold run_order. generalize (scale_of t m). intros s. revert m.
  induction order as [|p order IH]; intros m; [done|]. cbn [foldl]. rewrite IH. unfold do_index.
  by destruct Hop as [->| ->].
Qed.

Lemma copy_skips t order m i :
  i ∉ order -> load8 (foldl (fun m i => do_copy_bytes t i m) m order) (t_out0 t + i) = load8 m (t_out0 t + i).
Proof.
  revert m. induction order as [|j order IH]; intros m Hi; [done|]. cbn [foldl].
  rewrite IH by set_solver. unfold do_copy_bytes. rewrite load8_store8, decide_False; [done|].
  intros Heq. assert (j = i) as -> by lia. apply Hi. left.
Qed.

(** With more than one block a task is not completed by the block that
    takes it: the threads stride over the whole grid, so for a restore or
    staging copy longer than a block some byte of the target keeps its old
    value although the task is counted as processed. *)
Theorem multi_block_copy_incomplete `{DeviceFloat} threads blocks block t m m' :
  0 < threads -> 0 <= block < blocks -> 1 < blocks -> threads < t_numel t ->
  t_op t = 8 \/ t_op t = 9 -> runs threads blocks block t m m' ->
  exists i, 0 <= i < t_numel t /\ load8 m' (t_out0 t + i) = load8 m (t_out0 t + i).
Proof.
  intros Ht Hb Hbs Hn Hop (order & Hperm & ->).
  assert (exists i, 0 <= i < t_numel t /\ i ∉ block_indices threads blocks (t_numel t) block) as (i & Hi & Hout).
  { exists (if decide (block = 0) then threads else 0). unfold block_indices. split; [case_decide; lia|].
    intros (th & (k & Hk & Heq & _)%elem_of_thread_indices & Hth%elem_of_seqZ)%list_elem_of_bind; [|lia..].
    case_decide as H0.
    - subst block. assert (threads = th + k * (threads * blocks)) by lia.
      destruct (decide (k = 0)); [subst; lia|].
      assert (1 * (threads * 2) <= k * (threads * blocks)) by (apply Z.mul_le_mono_nonneg; nia). lia.
    - assert (threads <= block * threads) by nia. assert (0 <= k * (threads * blocks)) by nia. lia. }
  exists i. split; [done|]. rewrite run_order_copy by done. apply copy_skips. by rewrite Hperm.
Qed.

Lemma multi_block_copy_incomplete_witness :
  exists m' i, runs 128 2 0 (mkTask 9 0 200 0 0 1000 3) sample_mem m' /\
    0 <= i < 200 /\ load8 m' (1000 + i) = load8 sample_mem (1000 + i).
Proof.
  assert (exists m', runs 128 2 0 (mkTask 9 0 200 0 0 1000 3) sample_mem m') as [m' Hrun].
  { eexists _, (block_indices 128 2 200 0). split; reflexivity. }
  destruct (multi_block_copy_incomplete 128 2 0 (mkTask 9 0 200 0 0 1000 3) sample_mem m' eq_refl
    ltac:(lia) eq_refl eq_refl (or_intror eq_refl) Hrun) as (i & Hi & H).
  exists m', i. split; [exact Hrun|]. split; [exact Hi|exact H].
Defined.
