(* ===== verification/Ring.v ===== *)
(** * The task ring of the persistent worker ([concordia_gpu.rs])

    The host writes tasks into a ring in pinned memory and publishes them by
    moving [tail]; the worker on the device takes them by moving [head], runs
    them and counts them.  Host and worker are interleaved at every access to
    shared memory. *)
From stdpp Require Import base numbers list gmap.
From Stdlib Require Import ZArith Lia.
From S2P Require Import Prelude Device.

Local Open Scope Z_scope.

Definition TASK_SIZE : nat := 64.

(** The arguments of [enqueue_task]. *)
Record task_args : Type := mkArgs {
  a_op : Z;
  a_numel : Z;
  a_in0 : Z;
  a_in1 : Z;
  a_out0 : Z;
}.

(** The 64 bytes the host writes. *)
Definition task_image (a : task_args) : list Z :=
  le_bytes 4 (a_op a) ++ le_bytes 4 0 ++ le_bytes 8 (a_numel a) ++ le_bytes 8 (a_in0 a) ++
  le_bytes 8 (a_in1 a) ++ le_bytes 8 (a_out0 a) ++ le_bytes 4 3 ++ repeat 0 20.

(** The bytes as the device's [struct Task]. *)
Definition read_task (bytes : list Z) : Task :=
  mkTask (to_signed 32 (bytes_at 0 4 bytes)) (to_signed 32 (bytes_at 4 4 bytes))
    (to_signed 64 (bytes_at 8 8 bytes)) (bytes_at 16 8 bytes) (bytes_at 24 8 bytes)
    (bytes_at 32 8 bytes) (to_signed 32 (bytes_at 40 4 bytes)).

(** The ring and the control block. *)
Record GpuPersistentKernel : Type := mkKernel {
  tasks : list Z;
  capacity : Z;
  head : Z;
  tail : Z;
  quit : Z;
  processed : Z;
  submitted : Z;
  running : bool;
}.

(** The state [init] leaves when the driver calls succeed. *)
Definition kernel_new (cap : Z) : GpuPersistentKernel :=
  let cap := Z.max cap 1 in
  mkKernel (repeat 0 (Z.to_nat cap * TASK_SIZE)) cap 0 0 0 0 0 true.

Definition slot_bytes (slot : Z) (mem : list Z) : list Z := take TASK_SIZE (drop (Z.to_nat slot * TASK_SIZE) mem).

(** [copy_nonoverlapping] into a slot *)
Definition write_slot (slot : Z) (bytes : list Z) (k : GpuPersistentKernel) : GpuPersistentKernel :=
  mkKernel (list_inserts (Z.to_nat slot * TASK_SIZE) bytes (tasks k)) (capacity k) (head k) (tail k) (quit k)
    (processed k) (submitted k) (running k).

Definition set_head (h : Z) (k : GpuPersistentKernel) : GpuPersistentKernel :=
  mkKernel (tasks k) (capacity k) h (tail k) (quit k) (processed k) (submitted k) (running k).

Definition set_tail (t : Z) (k : GpuPersistentKernel) : GpuPersistentKernel :=
  mkKernel (tasks k) (capacity k) (head k) t (quit k) (processed k) (submitted k) (running k).

Definition set_quit (k : GpuPersistentKernel) : GpuPersistentKernel :=
  mkKernel (tasks k) (capacity k) (head k) (tail k) 1 (processed k) (submitted k) (running k).

Definition count_processed (k : GpuPersistentKernel) : GpuPersistentKernel :=
  mkKernel (tasks k) (capacity k) (head k) (tail k) (quit k) (wrapping_add 64 (processed k) 1) (submitted k) (running k).

Definition count_submitted (k : GpuPersistentKernel) : GpuPersistentKernel :=
  mkKernel (tasks k) (capacity k) (head k) (tail k) (quit k) (processed k) (wrapping_add 64 (submitted k) 1) (running k).

Definition stop (k : GpuPersistentKernel) : GpuPersistentKernel :=
  mkKernel (tasks k) (capacity k) (head k) (tail k) (quit k) (processed k) (submitted k) false.

(** [tail - head >= self.capacity as i32], on [i32]s *)
Definition is_full (h t cap : Z) : bool := to_signed 32 cap <=? to_signed 32 (t - h).

(** [(tail as u32 % self.capacity) as usize] *)
Definition slot_of (t cap : Z) : Z := wrap 32 t mod cap.

Inductive RingError : Type := NotRunning | RingFull.

(** ** [enqueue_task] with the worker stopped *)
Definition enqueue_task (a : task_args) : stm GpuPersistentKernel RingError Z := fun k =>
  if negb (running k) then (k, Err NotRunning)
  else if is_full (head k) (tail k) (capacity k) then (k, Err RingFull)
  else
    let slot := slot_of (tail k) (capacity k) in
    let k1 := write_slot slot (task_image a) k in
    let k2 := set_tail (to_signed 32 (tail k1 + 1)) k1 in
    (count_submitted k2, Ok (submitted k2)).

(** [seq as i64], or -1 *)
Definition enqueue_code (r : outcome RingError Z) : Z :=
  match r with Ok seq => to_signed 64 seq | _ => -1 end.

(** The C entry points on a valid handle; a non-positive handle is refused. *)
Definition concordia_gpu_enqueue (handle op numel in0 in1 out0 : Z) (k : GpuPersistentKernel)
    : GpuPersistentKernel * Z :=
  if handle <=? 0 then (k, -1)
  else let '(k, r) := enqueue_task (mkArgs op numel in0 in1 out0) k in (k, enqueue_code r).

Definition concordia_gpu_scan_dirty_pages (handle current shadow bitmap page_count : Z) (k : GpuPersistentKernel)
    : GpuPersistentKernel * Z :=
  if (handle <=? 0) || (current =? 0) || (shadow =? 0) || (bitmap =? 0) || (page_count <? 0) then (k, -1)
  else let '(k, r) := enqueue_task (mkArgs 7 page_count current shadow bitmap) k in (k, enqueue_code r).

Definition concordia_gpu_stage_aof_bytes (handle source staging byte_count : Z) (k : GpuPersistentKernel)
    : GpuPersistentKernel * Z :=
  if (handle <=? 0) || (source =? 0) || (staging =? 0) || (byte_count <? 0) then (k, -1)
  else let '(k, r) := enqueue_task (mkArgs 8 byte_count source 0 staging) k in (k, enqueue_code r).

Definition concordia_gpu_restore_bytes (handle staging target byte_count : Z) (k : GpuPersistentKernel)
    : GpuPersistentKernel * Z :=
  if (handle <=? 0) || (staging =? 0) || (target =? 0) || (byte_count <? 0) then (k, -1)
  else let '(k, r) := enqueue_task (mkArgs 9 byte_count staging 0 target) k in (k, enqueue_code r).

(** ** Host and worker, interleaved *)
Inductive host_pc : Type :=
| HIdle
| HHead (a : task_args)
| HTail (a : task_args) (h : Z)
| HSlot (a : task_args) (t : Z)
| HPublish (a : task_args) (t : Z)
| HCount
| HSync (target : Z)
| HJoin.

Inductive worker_pc : Type :=
| WTop
| WHead
| WTail (h : Z)
| WCopy (h : Z)
| WAdvance (h : Z) (t : Task)
| WRun (t : Task)
| WCount
| WExit.

Record system : Type := mkSystem {
  kernel : GpuPersistentKernel;
  device : mem;
  host : host_pc;
  worker : worker_pc;
}.

(** What a step shows: a task published, or run. *)
Inductive event : Type :=
| Quiet
| Submit (a : task_args)
| Run (t : Task).

(** The argument types. *)
Definition wf_args (a : task_args) : bool :=
  is_s 32 (a_op a) && is_s 64 (a_numel a) && is_u 64 (a_in0 a) && is_u 64 (a_in1 a) && is_u 64 (a_out0 a).

Section Steps.
Context `{DeviceFloat}.

(** [enqueue_task], [sync] and [shutdown], one shared access at a time. *)
Inductive host_step : GpuPersistentKernel * worker_pc * host_pc -> event -> GpuPersistentKernel * host_pc -> Prop :=
| h_begin k w a : running k = true -> wf_args a = true -> host_step (k, w, HIdle) Quiet (k, HHead a)
| h_head k w a : host_step (k, w, HHead a) Quiet (k, HTail a (head k))
| h_full k w a h : is_full h (tail k) (capacity k) = true -> host_step (k, w, HTail a h) Quiet (k, HIdle)
| h_room k w a h : is_full h (tail k) (capacity k) = false -> host_step (k, w, HTail a h) Quiet (k, HSlot a (tail k))
| h_slot k w a t :
    host_step (k, w, HSlot a t) Quiet (write_slot (slot_of t (capacity k)) (task_image a) k, HPublish a t)
| h_publish k w a t : host_step (k, w, HPublish a t) (Submit a) (set_tail (to_signed 32 (t + 1)) k, HCount)
| h_count k w : host_step (k, w, HCount) Quiet (count_submitted k, HIdle)
| h_sync k w : host_step (k, w, HIdle) Quiet (k, HSync (submitted k))
| h_spin k w target : processed k < target -> host_step (k, w, HSync target) Quiet (k, HSync target)
| h_synced k w target : target <= processed k -> host_step (k, w, HSync target) Quiet (k, HIdle)
| h_quit k w : running k = true -> host_step (k, w, HIdle) Quiet (set_quit k, HJoin)
| h_join k : host_step (k, WExit, HJoin) Quiet (stop k, HIdle).

(** [persistent_worker], thread 0 of its single block; the task itself is run by
    all 128 threads between two barriers. *)
Inductive worker_step : GpuPersistentKernel * mem * worker_pc -> event -> GpuPersistentKernel * mem * worker_pc -> Prop :=
| w_quit k m : quit k <> 0 -> worker_step (k, m, WTop) Quiet (k, m, WExit)
| w_go k m : quit k = 0 -> worker_step (k, m, WTop) Quiet (k, m, WHead)
| w_head k m : worker_step (k, m, WHead) Quiet (k, m, WTail (head k))
| w_empty k m h : ~ h < tail k -> worker_step (k, m, WTail h) Quiet (k, m, WTop)
| w_some k m h : h < tail k -> worker_step (k, m, WTail h) Quiet (k, m, WCopy h)
| w_copy k m h :
    worker_step (k, m, WCopy h) Quiet
      (k, m, WAdvance h (read_task (slot_bytes (Z.rem h (to_signed 32 (capacity k))) (tasks k))))
| w_advance k m h t : worker_step (k, m, WAdvance h t) Quiet (set_head (to_signed 32 (h + 1)) k, m, WRun t)
| w_run k m m' t : runs 128 1 0 t m m' -> worker_step (k, m, WRun t) (Run t) (k, m', WCount)
| w_count k m : worker_step (k, m, WCount) Quiet (count_processed k, m, WTop).

Inductive system_step : system -> event -> system -> Prop :=
| s_host k m h w ev k' h' :
    host_step (k, w, h) ev (k', h') -> system_step (mkSystem k m h w) ev (mkSystem k' m h' w)
| s_worker k m h w ev k' m' w' :
    worker_step (k, m, w) ev (k', m', w') -> system_step (mkSystem k m h w) ev (mkSystem k' m' h w').

Definition submits (ev : event) : list task_args := match ev with Submit a => [a] | _ => [] end.
Definition run_tasks (ev : event) : list Task := match ev with Run t => [t] | _ => [] end.

(** Reachable states, with the tasks published and run so far. *)
Inductive reachable (cap : Z) (m0 : mem) : list task_args -> list Task -> system -> Prop :=
| reach_init : reachable cap m0 [] [] (mkSystem (kernel_new cap) m0 HIdle WTop)
| reach_step subs done s ev s' :
    reachable cap m0 subs done s -> system_step s ev s' ->
    reachable cap m0 (subs ++ submits ev) (done ++ run_tasks ev) s'.

(** Running tasks one after the other. *)
Inductive run_all : list Task -> mem -> mem -> Prop :=
| run_nil m : run_all [] m m
| run_snoc done t m m1 m2 : run_all done m m1 -> runs 128 1 0 t m1 m2 -> run_all (done ++ [t]) m m2.

End Steps.

(** ** A task survives the ring *)
Definition task_of (a : task_args) : Task := mkTask (a_op a) 0 (a_numel a) (a_in0 a) (a_in1 a) (a_out0 a) 3.

Lemma to_signed_le_bytes n z :
  (0 < n)%nat -> is_s (8 * Z.of_nat n) z = true ->
  to_signed (8 * Z.of_nat n) (le_decode (le_bytes n z)) = z.
Proof.
  intros Hn Hz. rewrite le_decode_le_bytes. change 256 with (2 ^ 8). rewrite <- Z.pow_mul_r by lia.
  rewrite <- (to_signed_small (8 * Z.of_nat n) z) at 2 by (done || lia). unfold to_signed, wrap.
  by rewrite Zmod_mod.
Qed.

Lemma length_task_image a : length (task_image a) = TASK_SIZE.
Proof. done. Qed.

Lemma read_task_image a : wf_args a = true -> read_task (task_image a) = task_of a.
Proof.
  unfold wf_args. rewrite !andb_true_iff. intros ((((Hop & Hn) & H0) & H1) & H2).
  set (fields := [le_bytes 4 (a_op a); le_bytes 4 0; le_bytes 8 (a_numel a); le_bytes 8 (a_in0 a);
    le_bytes 8 (a_in1 a); le_bytes 8 (a_out0 a); le_bytes 4 3]).
  pose proof (fun k l => bytes_at_concat fields k l (repeat 0 20)) as Hat.
  change (task_image a) with (concat fields ++ repeat 0 20). unfold read_task, task_of. f_equal.
  - refine (eq_trans (f_equal (to_signed 32) (Hat 0%nat _ eq_refl)) _). exact (to_signed_le_bytes 4 _ ltac:(lia) Hop).
  - refine (eq_trans (f_equal (to_signed 64) (Hat 2%nat _ eq_refl)) _). exact (to_signed_le_bytes 8 _ ltac:(lia) Hn).
  - refine (eq_trans (Hat 3%nat _ eq_refl) _). exact (le_decode_le_bytes_small 8 _ (proj1 (is_u_spec 64 _) H0)).
  - refine (eq_trans (Hat 4%nat _ eq_refl) _). exact (le_decode_le_bytes_small 8 _ (proj1 (is_u_spec 64 _) H1)).
  - refine (eq_trans (Hat 5%nat _ eq_refl) _). exact (le_decode_le_bytes_small 8 _ (proj1 (is_u_spec 64 _) H2)).
Qed.

(** ** Slots *)
Section Slots.
Context (cap : Z) (mem : list Z) (Hmem : length mem = (Z.to_nat cap * TASK_SIZE)%nat).

Lemma slot_write_same slot bytes :
  0 <= slot < cap -> length bytes = TASK_SIZE ->
  slot_bytes slot (list_inserts (Z.to_nat slot * TASK_SIZE) bytes mem) = bytes.
Proof.
  intros Hs Hb. unfold slot_bytes. apply list_eq. intros i.
  destruct (decide (i < TASK_SIZE)%nat).
  - rewrite lookup_take_lt, lookup_drop by done. rewrite lookup_inserts_in by (unfold TASK_SIZE in *; lia).
    f_equal. lia.
  - rewrite lookup_take_ge by lia. symmetry. apply lookup_ge_None_2. lia.
Qed.

Lemma slot_write_other slot slot' bytes :
  0 <= slot < cap -> 0 <= slot' < cap -> slot <> slot' -> length bytes = TASK_SIZE ->
  slot_bytes slot (list_inserts (Z.to_nat slot' * TASK_SIZE) bytes mem) = slot_bytes slot mem.
Proof.
  intros Hs Hs' Hne Hb. unfold slot_bytes. apply list_eq. intros i.
  destruct (decide (i < TASK_SIZE)%nat).
  - rewrite !lookup_take_lt, !lookup_drop by done. apply lookup_inserts_out.
    rewrite Hb. unfold TASK_SIZE in *. lia.
  - by rewrite !lookup_take_ge by lia.
Qed.

End Slots.

(** Positions less than a lap apart have different slots. *)
Lemma slots_apart cap i j : 0 < cap -> i < j -> j - i < cap -> i mod cap <> j mod cap.
Proof.
  intros Hc Hij Hd Heq. pose proof (Z.div_mod i cap ltac:(lia)). pose proof (Z.div_mod j cap ltac:(lia)).
  assert (cap * (j / cap - i / cap) = j - i) by lia.
  destruct (decide (j / cap - i / cap <= 0)); nia.
Qed.

(** ** The invariant *)
Record kern_inv (cap : Z) (subs : list task_args) (k : GpuPersistentKernel) : Prop := mk_kern_inv {
  ki_cap : capacity k = cap;
  ki_len : length (tasks k) = (Z.to_nat cap * TASK_SIZE)%nat;
  ki_tail : tail k = Z.of_nat (length subs);
  ki_head : 0 <= head k <= tail k;
  ki_room : tail k - head k <= cap;
  ki_slots : forall i a, subs !! i = Some a -> head k <= Z.of_nat i ->
    slot_bytes (Z.of_nat i mod cap) (tasks k) = task_image a;
}.

Definition host_inv (cap : Z) (k : GpuPersistentKernel) (h : host_pc) : Prop :=
  match h with
  | HIdle | HJoin => submitted k = tail k
  | HHead a => wf_args a = true /\ submitted k = tail k
  | HTail a h => wf_args a = true /\ 0 <= h <= head k /\ submitted k = tail k
  | HSlot a t => wf_args a = true /\ t = tail k /\ tail k - head k < cap /\ submitted k = tail k
  | HPublish a t => wf_args a = true /\ t = tail k /\ tail k - head k < cap /\ submitted k = tail k /\
      slot_bytes (t mod cap) (tasks k) = task_image a
  | HCount => submitted k = tail k - 1
  | HSync target => submitted k = tail k /\ target = submitted k
  end.

(** The task at position [i] of the queue. *)
Definition is_task (subs : list task_args) (i : Z) (t : Task) : Prop :=
  exists a, subs !! Z.to_nat i = Some a /\ t = task_of a.

Definition worker_inv (subs : list task_args) (n : Z) (k : GpuPersistentKernel) (w : worker_pc) : Prop :=
  match w with
  | WTop | WHead | WExit => n = head k /\ processed k = n
  | WTail h => h = head k /\ n = head k /\ processed k = n
  | WCopy h => h = head k /\ head k < tail k /\ n = head k /\ processed k = n
  | WAdvance h t => h = head k /\ head k < tail k /\ n = head k /\ processed k = n /\ is_task subs h t
  | WRun t => n = head k - 1 /\ processed k = n /\ is_task subs n t
  | WCount => n = head k /\ processed k = n - 1 /\ 0 < n
  end.

Record ring_inv `{DeviceFloat} (cap : Z) (m0 : mem) (subs : list task_args) (done : list Task) (s : system) : Prop := mk_ring_inv {
  ri_kern : kern_inv cap subs (kernel s);
  ri_wf : Forall (fun a => wf_args a = true) subs;
  ri_host : host_inv cap (kernel s) (host s);
  ri_worker : worker_inv subs (Z.of_nat (length done)) (kernel s) (worker s);
  ri_done : done = task_of <$> take (length done) subs;
  ri_mem : run_all done m0 (device s);
}.

Section Invariant.
Context `{DeviceFloat} (cap : Z) (Hcap : 1 <= cap < 2 ^ 31) (m0 : mem).

Lemma kern_inv_same subs k k' :
  kern_inv cap subs k -> tasks k' = tasks k -> capacity k' = capacity k -> head k' = head k -> tail k' = tail k ->
  kern_inv cap subs k'.
Proof. intros [] Ht Hc Hh Htl. by split; rewrite ?Ht, ?Hc, ?Hh, ?Htl. Qed.

Lemma slot_of_small t : 0 <= t < 2 ^ 31 -> slot_of t cap = t mod cap.
Proof. intros. unfold slot_of. by rewrite (wrap_small 32) by lia. Qed.

Lemma to_signed_nonneg t : 0 <= t < 2 ^ 31 -> to_signed 32 t = t.
Proof.
  intros. apply to_signed_small; [lia|]. unfold is_s. rewrite andb_true_iff, Z.leb_le, Z.ltb_lt. simpl; lia.
Qed.

Lemma is_full_small h t : 0 <= h <= t -> t < 2 ^ 31 -> is_full h t cap = (cap <=? t - h).
Proof. intros Hh Ht. unfold is_full. by rewrite !to_signed_nonneg by lia. Qed.

(** Writing the slot at the tail keeps the queued tasks. *)
Lemma kern_inv_write subs k a :
  kern_inv cap subs k -> tail k < 2 ^ 31 -> tail k - head k < cap ->
  kern_inv cap subs (write_slot (slot_of (tail k) cap) (task_image a) k) /\
  slot_bytes (tail k mod cap) (tasks (write_slot (slot_of (tail k) cap) (task_image a) k)) = task_image a.
Proof.
  intros [Hc Hl Ht Hh Hr Hs] Htl Hroom. rewrite slot_of_small by lia.
  assert (forall i, 0 <= i mod cap < cap) as Hmod by (intros; apply Z.mod_pos_bound; lia). split.
  - split; cbn [capacity tasks head tail write_slot]; try assumption.
    + rewrite length_inserts. exact Hl.
    + intros i b Hi Hle. rewrite (slot_write_other cap); [by apply Hs|exact Hl|apply Hmod|apply Hmod| |apply length_task_image].
      apply slots_apart; [lia|..]; apply lookup_lt_Some in Hi; lia.
  - apply (slot_write_same cap); [exact Hl|apply Hmod|apply length_task_image].
Qed.

Lemma kern_inv_publish subs k a :
  kern_inv cap subs k -> tail k + 1 < 2 ^ 31 -> tail k - head k < cap ->
  slot_bytes (tail k mod cap) (tasks k) = task_image a ->
  kern_inv cap (subs ++ [a]) (set_tail (to_signed 32 (tail k + 1)) k).
Proof.
  intros [Hc Hl Ht Hh Hr Hs] Htl Hroom Hslot. rewrite to_signed_nonneg by lia. split; cbn [capacity tasks head tail set_head set_tail]; try assumption; try lia.
  - rewrite length_app. simpl. lia.
  - intros i b Hi Hle. apply lookup_app_Some in Hi as [Hi|[Hge Hi]]; [by apply Hs|].
    destruct (i - length subs)%nat eqn:E; [|done]. injection Hi as <-.
    replace (Z.of_nat i) with (tail k) by lia. done.
Qed.

Lemma kern_inv_advance subs k :
  kern_inv cap subs k -> tail k < 2 ^ 31 -> head k < tail k ->
  kern_inv cap subs (set_head (to_signed 32 (head k + 1)) k).
Proof.
  intros [Hc Hl Ht Hh Hr Hs] Htl Hlt. rewrite to_signed_nonneg by lia. split; cbn [capacity tasks head tail set_head set_tail]; try assumption; try lia.
  intros i b Hi Hle. apply Hs; [done|lia].
Qed.

(** The worker's view does not depend on what the host changes. *)
Lemma worker_inv_host subs extra n k k' w :
  worker_inv subs n k w -> head k' = head k -> processed k' = processed k -> tail k <= tail k' ->
  worker_inv (subs ++ extra) n k' w.
Proof.
  intros Hw Hh Hp Ht.
  assert (forall i t, is_task subs i t -> is_task (subs ++ extra) i t) as Happ.
  { intros i t (a & Ha & ->). exists a. split; [|done]. by apply lookup_app_l_Some. }
  destruct w; simpl in *; rewrite Hh, Hp; intuition (lia || auto).
Qed.

Lemma host_inv_worker k k' h :
  host_inv cap k h -> tail k' = tail k -> submitted k' = submitted k -> tasks k' = tasks k -> head k <= head k' ->
  host_inv cap k' h.
Proof.
  intros Hi Ht Hs Htk Hh. destruct h; simpl in *; rewrite ?Ht, ?Hs, ?Htk; intuition lia.
Qed.

Lemma host_step_kern subs k w h ev k' h' :
  kern_inv cap subs k -> host_inv cap k h -> Z.of_nat (length (subs ++ submits ev)) < 2 ^ 31 ->
  host_step (k, w, h) ev (k', h') ->
  kern_inv cap (subs ++ submits ev) k' /\ host_inv cap k' h' /\
  head k' = head k /\ processed k' = processed k /\ tail k <= tail k' /\
  Forall (fun a => wf_args a = true) (submits ev).
Proof.
  intros Hk Hi Hb Hstep. pose proof (ki_head _ _ _ Hk) as Hh. rewrite length_app in Hb.
  inversion Hstep; subst; pose proof (ki_tail _ _ _ Hk) as Ht; pose proof (ki_cap _ _ _ Hk) as Hc;
    rewrite ?Hc in *; cbn [submits] in *; rewrite ?app_nil_r; cbn [host_inv] in *;
    try (split_and!; try done; try lia; by eapply kern_inv_same).
  - destruct Hi as [Hwf Hsub]. split_and!; try done; lia.
  - destruct Hi as (Hwf & Hh0 & Hsub).
    match goal with H : is_full _ _ _ = false |- _ => rewrite is_full_small in H by lia; apply Z.leb_gt in H end.
    split_and!; try done; lia.
  - destruct Hi as (Hwf & -> & Hroom & Hsub). destruct (kern_inv_write subs k a Hk ltac:(lia) Hroom) as [Hk' Hslot].
    split_and!; try done; try lia.
  - destruct Hi as (Hwf & -> & Hroom & Hsub & Hslot). simpl in Hb.
    split_and!; [by apply kern_inv_publish; [done|lia..|]| | | | |by repeat constructor]; simpl; try lia.
    all: rewrite ?to_signed_nonneg by lia; lia.
  - split_and!; try done; try lia; [by eapply kern_inv_same|].
    cbn [submitted tail count_submitted]. unfold wrapping_add. rewrite Hi, wrap_small by lia. lia.
Qed.

Lemma worker_step_kern subs n k m h w ev k' m' w' :
  kern_inv cap subs k -> host_inv cap k h -> worker_inv subs n k w ->
  Forall (fun a => wf_args a = true) subs -> Z.of_nat (length subs) < 2 ^ 31 -> 0 <= n ->
  worker_step (k, m, w) ev (k', m', w') ->
  kern_inv cap subs k' /\ host_inv cap k' h /\
  worker_inv subs (n + Z.of_nat (length (run_tasks ev))) k' w' /\ submits ev = [] /\
  (forall t, ev = Run t -> is_task subs n t /\ runs 128 1 0 t m m') /\ (run_tasks ev = [] -> m' = m).
Proof.
  intros Hk Hi Hw Hwf Hb Hn0 Hstep. pose proof (ki_head _ _ _ Hk) as Hh.
  inversion Hstep; subst; pose proof (ki_tail _ _ _ Hk) as Ht; pose proof (ki_cap _ _ _ Hk) as Hc;
    rewrite ?Hc in *; cbn [run_tasks length submits worker_inv] in *; rewrite ?Z.add_0_r;
    try (split_and!; try done; try lia; fail).
  - destruct Hw as (-> & Hlt & Hn & Hp). split_and!; try done; try lia.
    destruct (lookup_lt_is_Some_2 subs (Z.to_nat (head k'))) as [a Ha]; [lia|]. exists a. split; [done|].
    rewrite to_signed_nonneg by lia. rewrite Z.rem_mod_nonneg by lia.
    pose proof (ki_slots _ _ _ Hk _ _ Ha ltac:(lia)) as Hslot. rewrite Z2Nat.id in Hslot by lia.
    rewrite Hslot. apply read_task_image. rewrite Forall_lookup in Hwf. by eapply Hwf.
  - destruct Hw as (-> & Hlt & Hn & Hp & Htask). pose proof (kern_inv_advance subs k Hk ltac:(lia) Hlt) as Hk'.
    split_and!; try done; cbn [head processed set_head]; rewrite ?to_signed_nonneg by lia; try lia; [|by rewrite Hn].
    eapply host_inv_worker; [exact Hi|done..|]. cbn [head set_head]. lia.
  - destruct Hw as (Hn & Hp & Htask). split_and!; try done; try lia.
    + intros t' [= <-]. done.
  - destruct Hw as (Hn & Hp & Hpos). split_and!; try done; try lia; [by eapply kern_inv_same|].
    cbn [processed count_processed]. unfold wrapping_add. rewrite Hp, wrap_small by lia. lia.
Qed.

Lemma reachable_inv subs done s :
  reachable cap m0 subs done s -> Z.of_nat (length subs) < 2 ^ 31 -> ring_inv cap m0 subs done s.
Proof.
  intros Hr. induction Hr as [|subs done s ev s' Hr IH Hstep]; intros Hb.
  - unfold kernel_new. replace (Z.max cap 1) with cap by lia. split; cbn [kernel device host worker].
    + split; cbn [capacity tasks head tail length]; try done; try lia. by rewrite repeat_length.
    + constructor.
    + done.
    + done.
    + done.
    + constructor.
  - rewrite length_app in Hb. destruct (IH ltac:(lia)) as [Hk Hwf Hi Hw Hd Hm].
    inversion Hstep as [k m h w ev' k' h' Hh|k m h w ev' k' m' w' Hwk]; subst; cbn [kernel device host worker] in *.
    + destruct (host_step_kern subs k w h ev k' h' Hk Hi ltac:(rewrite length_app; lia) Hh)
        as (Hk' & Hi' & Hhd & Hp & Ht & Hsub).
      assert (run_tasks ev = []) as -> by (by inversion Hh). rewrite app_nil_r.
      split; cbn [kernel device host worker]; try done.
      * by apply Forall_app.
      * by apply (worker_inv_host subs _ _ k).
      * rewrite take_app_le; [done|]. rewrite Hd, length_fmap, length_take. lia.
    + destruct (worker_step_kern subs (Z.of_nat (length done)) k m h w ev k' m' w' Hk Hi Hw Hwf ltac:(lia) ltac:(lia) Hwk)
        as (Hk' & Hi' & Hw' & Hsub & Hrun & Hquiet). rewrite Hsub, app_nil_r in *.
      split; cbn [kernel device host worker]; try done.
      * by rewrite length_app, Nat2Z.inj_add.
      * destruct ev as [|a|t]; cbn [run_tasks]; rewrite ?app_nil_r; [done..|].
        destruct (Hrun t eq_refl) as [(a & Ha & ->) _]. rewrite Nat2Z.id in Ha.
        rewrite length_app. cbn [length]. rewrite Nat.add_1_r, (take_S_r _ _ _ Ha), fmap_app. by rewrite <- Hd.
      * destruct ev as [|a|t]; cbn [run_tasks]; rewrite ?app_nil_r; [by rewrite Hquiet..|].
        destruct (Hrun t eq_refl) as [_ Hr']. by econstructor.
Qed.

End Invariant.

(** ** The worker alone *)
Section Drain.
Context `{DeviceFloat}.

(** [n] steps of the worker while the host makes none, with the tasks they run. *)
Inductive worker_runs : nat -> system -> list Task -> system -> Prop :=
| wr_nil s : worker_runs 0 s [] s
| wr_step n k m h w ev k' m' w' ts s :
    worker_step (k, m, w) ev (k', m', w') -> worker_runs n (mkSystem k' m' h w') ts s ->
    worker_runs (S n) (mkSystem k m h w) (run_tasks ev ++ ts) s.

Lemma worker_step_submits k m w ev k' m' w' : worker_step (k, m, w) ev (k', m', w') -> submits ev = [].
Proof. by inversion 1. Qed.

Lemma reachable_worker_step cap m0 subs done k m h w ev k' m' w' :
  reachable cap m0 subs done (mkSystem k m h w) -> worker_step (k, m, w) ev (k', m', w') ->
  reachable cap m0 subs (done ++ run_tasks ev) (mkSystem k' m' h w').
Proof.
  intros Hr Hw. rewrite <- (app_nil_r subs), <- (worker_step_submits _ _ _ _ _ _ _ Hw).
  eapply reach_step; [exact Hr|]. by apply s_worker.
Qed.

Lemma reachable_exit cap m0 subs done s :
  reachable cap m0 subs done s -> worker s = WExit -> quit (kernel s) <> 0.
Proof.
  induction 1 as [|subs done s ev s' Hr IH Hstep]; [done|].
  inversion Hstep as [k m h w ev' k' h' Hh|k m h w ev' k' m' w' Hw]; subst; cbn [kernel worker] in *.
  - intros Hx. specialize (IH Hx). by inversion Hh; subst.
  - inversion Hw; subst; done.
Qed.

(** How far the worker is from having run everything: seven steps a task. *)
Definition pc_weight (w : worker_pc) : Z :=
  match w with
  | WTop => 7 | WHead => 6 | WTail _ => 5 | WCopy _ => 4 | WAdvance _ _ => 3 | WRun _ => 2 | WCount => 1 | WExit => 0
  end.

Definition work_left (k : GpuPersistentKernel) (w : worker_pc) : Z := 7 * (tail k - processed k) + pc_weight w.

Lemma runs_exist t m : exists m', runs 128 1 0 t m m'.
Proof. eexists _, _. split; reflexivity. Qed.

(** Before a shutdown the worker always has a step. *)
Lemma worker_not_stuck k m w :
  quit k = 0 -> w <> WExit -> exists ev k' m' w', worker_step (k, m, w) ev (k', m', w').
Proof.
  intros Hq Hx. destruct w as [| |h|h|h t|t| |]; try done; try (do 4 eexists; by constructor).
  - destruct (decide (h < tail k)); do 4 eexists; [by apply w_some|by apply w_empty].
  - destruct (runs_exist t m) as [m' Hr]. do 4 eexists. by apply w_run.
Qed.

(** Each of its steps brings it closer, while a task is left. *)
Lemma worker_progress subs n k m w ev k' m' w' :
  worker_inv subs n k w -> quit k = 0 -> 0 <= n -> tail k < 2 ^ 31 -> head k <= tail k ->
  worker_step (k, m, w) ev (k', m', w') ->
  quit k' = 0 /\ w' <> WExit /\ tail k' = tail k /\ processed k <= processed k' /\
  (processed k < tail k -> work_left k' w' < work_left k w).
Proof.
  intros Hw Hq Hn Ht Hh Hstep. unfold work_left. inversion Hstep; subst; cbn [worker_inv pc_weight] in *;
    cbn [quit tail processed set_head]; try (split_and!; (done || lia)).
  cbn [count_processed quit tail processed]. unfold wrapping_add. rewrite wrap_small by lia. split_and!; (done || lia).
Qed.

(** A worker run with tasks left at its end has used that many of the steps
    that were left, and has another step. *)
Lemma worker_runs_bounded cap m0 subs n s ts s' :
  1 <= cap < 2 ^ 31 -> Z.of_nat (length subs) < 2 ^ 31 -> worker_runs n s ts s' ->
  forall done, reachable cap m0 subs done s -> quit (kernel s) = 0 ->
  reachable cap m0 subs (done ++ ts) s' /\ quit (kernel s') = 0 /\ host s' = host s /\
  processed (kernel s) <= processed (kernel s') /\
  (processed (kernel s') < Z.of_nat (length subs) ->
   work_left (kernel s') (worker s') + Z.of_nat n <= work_left (kernel s) (worker s)).
Proof.
  intros Hcap Hb. induction 1 as [s|n k m h w ev k' m' w' ts s Hstep Hruns IH]; intros done Hr Hq.
  - rewrite app_nil_r. split_and!; (done || lia).
  - destruct (reachable_inv cap Hcap m0 subs done _ Hr Hb) as [Hk _ _ Hw _ _]. cbn [kernel worker host] in *.
    pose proof (ki_head _ _ _ Hk). pose proof (ki_tail _ _ _ Hk) as Htl.
    destruct (worker_progress subs (Z.of_nat (length done)) k m w ev k' m' w' Hw Hq ltac:(lia) ltac:(lia) ltac:(lia) Hstep)
      as (Hq' & _ & Ht' & Hp & Hlt).
    destruct (IH (done ++ run_tasks ev)) as (Hr2 & Hq2 & Hh2 & Hp2 & Hlt2);
      [by eapply reachable_worker_step|done|]. cbn [kernel worker host] in *.
    rewrite app_assoc. split_and!; try (done || lia).
Qed.

Lemma worker_runs_exist cap m0 subs n :
  1 <= cap < 2 ^ 31 -> Z.of_nat (length subs) < 2 ^ 31 ->
  forall done s, reachable cap m0 subs done s -> quit (kernel s) = 0 -> exists ts s', worker_runs n s ts s'.
Proof.
  intros Hcap Hb. induction n as [|n IH]; intros done [k m h w] Hr Hq; [do 2 eexists; constructor|].
  cbn [kernel] in Hq. destruct (worker_not_stuck k m w Hq) as (ev & k' & m' & w' & Hstep).
  { intros ->. by apply (reachable_exit _ _ _ _ _ Hr). }
  destruct (reachable_inv cap Hcap m0 subs done _ Hr Hb) as [Hk _ _ Hw _ _]. cbn [kernel worker] in *.
  pose proof (ki_head _ _ _ Hk). pose proof (ki_tail _ _ _ Hk).
  destruct (worker_progress subs (Z.of_nat (length done)) k m w ev k' m' w' Hw Hq ltac:(lia) ltac:(lia) ltac:(lia) Hstep) as (Hq' & _).
  destruct (IH (done ++ run_tasks ev) (mkSystem k' m' h w')) as (ts & s' & Hruns);
    [by eapply reachable_worker_step|done|].
  do 2 eexists. by econstructor.
Qed.

End Drain.

(** [enqueue_task] is the host's run without interference. *)
Inductive host_runs (w : worker_pc) : GpuPersistentKernel * host_pc -> list task_args -> GpuPersistentKernel * host_pc -> Prop :=
| hr_nil s : host_runs w s [] s
| hr_step k h ev k' h' evs s :
    host_step (k, w, h) ev (k', h') -> host_runs w (k', h') evs s -> host_runs w (k, h) (submits ev ++ evs) s.

Lemma enqueue_task_host_runs w a k k' r :
  running k = true -> wf_args a = true -> enqueue_task a k = (k', r) ->
  host_runs w (k, HIdle) (match r with Ok _ => [a] | _ => [] end) (k', HIdle).
Proof.
  intros Hrun Hwf. unfold enqueue_task. rewrite Hrun. cbn [negb].
  destruct (is_full _ _ _) eqn:Hfull; intros [= <- <-].
  - eapply (hr_step w _ _ Quiet); [by constructor|]. eapply (hr_step w _ _ Quiet); [by constructor|].
    eapply (hr_step w _ _ Quiet); [by apply h_full|]. constructor.
  - eapply (hr_step w _ _ Quiet); [by constructor|]. eapply (hr_step w _ _ Quiet); [by constructor|].
    eapply (hr_step w _ _ Quiet); [by apply h_room|]. eapply (hr_step w _ _ Quiet); [by constructor|].
    eapply (hr_step w _ _ (Submit a)); [by constructor|]. eapply (hr_step w _ _ Quiet); [by constructor|]. constructor.
Qed.

(** ** Theorems *)

(** [C12] Under every interleaving of the host and the worker the ring is a
    queue: the tasks run so far are the first of those published, in order and
    each once, with the arguments the host gave; at most one more than the
    capacity is pending; device memory is what running them one after the other
    leaves; and when [sync] returns, every published task has been run. *)
Theorem ring_refines_queue `{DeviceFloat} cap m0 subs done s :
  1 <= cap < 2 ^ 31 -> reachable cap m0 subs done s -> Z.of_nat (length subs) < 2 ^ 31 ->
  (exists rest, task_of <$> subs = done ++ rest /\ Z.of_nat (length rest) <= cap + 1) /\
  run_all done m0 (device s) /\
  (forall target, host s = HSync target -> target <= processed (kernel s) -> done = task_of <$> subs).
Proof.
  intros Hcap Hr Hb. destruct (reachable_inv cap Hcap m0 subs done s Hr Hb) as [Hk Hwf Hi Hw Hd Hm].
  pose proof (ki_head _ _ _ Hk). pose proof (ki_tail _ _ _ Hk). pose proof (ki_room _ _ _ Hk).
  assert (head (kernel s) - 1 <= Z.of_nat (length done) <= tail (kernel s) /\ processed (kernel s) <= Z.of_nat (length done))
    as [Hn Hp] by (destruct (worker s); cbn [worker_inv] in Hw; lia).
  split_and!; [|done|].
  - exists (task_of <$> drop (length done) subs). split.
    + rewrite Hd at 1. by rewrite <- fmap_app, take_drop.
    + rewrite length_fmap, length_drop. lia.
  - intros target Hs Ht. rewrite Hs in Hi. destruct Hi as [Hsub ->].
    rewrite Hd, take_ge by lia. done.
Qed.

(** [C29] [sync] terminates, before a shutdown and while fewer than 2^31 tasks
    have been submitted (beyond that the 32-bit positions wrap and it spins
    forever, [ring_stalls_at_wrap]): from such a reachable state the worker, left
    alone (a spinning host changes nothing), never gets stuck, and every run of at
    least seven of its steps for each task not yet counted as processed has run
    exactly the published tasks, in order, so that the counter the host spins on
    has reached its target. *)
Theorem ring_drains `{DeviceFloat} cap m0 subs done s :
  1 <= cap < 2 ^ 31 -> reachable cap m0 subs done s -> Z.of_nat (length subs) < 2 ^ 31 ->
  quit (kernel s) = 0 ->
  (forall n, exists ts s', worker_runs n s ts s') /\
  (forall n ts s', worker_runs n s ts s' ->
     7 * (Z.of_nat (length subs) - processed (kernel s)) <= Z.of_nat n ->
     host s' = host s /\ done ++ ts = task_of <$> subs /\
     processed (kernel s') = Z.of_nat (length subs) /\
     (forall target, host s' = HSync target -> target <= processed (kernel s'))).
Proof.
  intros Hcap Hr Hb Hq. split; [intros n; by eapply worker_runs_exist|]. intros n ts s' Hruns Hn.
  destruct (worker_runs_bounded _ _ _ _ _ _ _ Hcap Hb Hruns done Hr Hq) as (Hr' & Hq' & Hh & _ & Hlt).
  destruct (reachable_inv cap Hcap m0 subs _ _ Hr Hb) as [Hk0 _ _ _ _ _].
  destruct (reachable_inv cap Hcap m0 subs _ _ Hr' Hb) as [Hk Hwf Hi Hw Hd Hm].
  pose proof (ki_head _ _ _ Hk). pose proof (ki_tail _ _ _ Hk). pose proof (ki_tail _ _ _ Hk0).
  assert (processed (kernel s') = Z.of_nat (length subs)) as Hp.
  { assert (processed (kernel s') <= tail (kernel s')) by (destruct (worker s'); cbn [worker_inv] in Hw; lia).
    destruct (decide (processed (kernel s') < Z.of_nat (length subs))) as [Hl|]; [|lia]. specialize (Hlt Hl).
    assert (worker s' <> WExit) by (intros Hx; by apply (reachable_exit _ _ _ _ _ Hr')).
    unfold work_left in Hlt. destruct (worker s), (worker s'); cbn [pc_weight] in Hlt; (done || lia). }
  split_and!; try done.
  - rewrite Hd, take_ge; [done|]. destruct (worker s'); cbn [worker_inv] in Hw; lia.
  - intros target Hs. rewrite Hs in Hi. cbn [host_inv] in Hi. lia.
Qed.

Lemma reachable_host_runs `{DeviceFloat} cap m0 subs done m w s evs s' :
  host_runs w s evs s' -> reachable cap m0 subs done (mkSystem (fst s) m (snd s) w) ->
  reachable cap m0 (subs ++ evs) done (mkSystem (fst s') m (snd s') w).
Proof.
  intros Hh. revert subs. induction Hh as [s|k h ev k' h' evs s Hstep Hh IH]; intros subs Hr; [by rewrite app_nil_r|].
  rewrite app_assoc. apply IH. cbn [fst snd] in *. rewrite <- (app_nil_r done).
  replace [] with (run_tasks ev) by (by inversion Hstep). eapply reach_step; [exact Hr|]. by apply s_host.
Qed.

(** A staging copy of one byte is queued. *)
Definition sample_args : task_args := mkArgs 8 1 7 0 100.
Definition sample_system : system := mkSystem (fst (enqueue_task sample_args (kernel_new 2))) sample_mem HIdle WTop.

Lemma sample_reachable : reachable 2 sample_mem [sample_args] [] sample_system.
Proof.
  apply (reachable_host_runs 2 sample_mem [] [] sample_mem WTop (kernel_new 2, HIdle) [sample_args]
    (fst (enqueue_task sample_args (kernel_new 2)), HIdle)); [|constructor].
  apply (enqueue_task_host_runs WTop sample_args (kernel_new 2) _ (Ok 0)); reflexivity.
Qed.

Lemma ring_refines_queue_witness :
  exists rest, task_of <$> [sample_args] = [] ++ rest /\ Z.of_nat (length rest) <= 3.
Proof.
  destruct (ring_refines_queue 2 sample_mem [sample_args] [] sample_system ltac:(lia) sample_reachable eq_refl)
    as [H _]. exact H.
Defined.

Lemma ring_drains_witness :
  exists s', worker_runs 7 sample_system [task_of sample_args] s' /\ processed (kernel s') = 1.
Proof.
  destruct (ring_drains 2 sample_mem [sample_args] [] sample_system ltac:(lia) sample_reachable eq_refl eq_refl)
    as (Hex & Hall).
  destruct (Hex 7%nat) as (ts & s' & Hr). destruct (Hall 7%nat ts s' Hr ltac:(vm_compute; discriminate)) as (_ & Hts & Hp & _).
  exists s'. simpl in Hts. subst ts. split; [exact Hr|exact Hp].
Defined.

(** ** Past two billion tasks *)
Definition worn_ring : GpuPersistentKernel :=
  mkKernel (repeat 0 (4 * TASK_SIZE)) 4 (2 ^ 31 - 1) (2 ^ 31 - 1) 0 (2 ^ 31 - 1) (2 ^ 31 - 1) true.

Lemma worn_stuck `{DeviceFloat} n k m h w ts s :
  tail k = - 2 ^ 31 -> head k = 2 ^ 31 - 1 -> quit k = 0 ->
  (w = WTop \/ w = WHead \/ w = WTail (2 ^ 31 - 1)) ->
  worker_runs n (mkSystem k m h w) ts s -> ts = [] /\ kernel s = k.
Proof.
  intros Ht Hh Hq Hw Hr. remember (mkSystem k m h w) as s0 eqn:Hs0. revert w m Hw Hs0.
  induction Hr as [s0|n k1 m1 h1 w1 ev k2 m2 w2 ts s Hstep Hr IH]; intros w m Hw Hs0; [by subst|].
  injection Hs0 as -> -> -> ->.
  destruct Hw as [-> | [-> | ->]]; inversion Hstep; subst; simpl; try lia; try congruence.
  - apply (IH WHead m2); auto.
  - apply (IH (WTail (head k2)) m2); [rewrite Hh; auto|done].
  - apply (IH WTop m2); auto.
Qed.

(** The 32-bit positions wrap: when 2^31 - 1 tasks have been run, the next
    one is accepted and counted as submitted, but the published tail is
    negative, the worker never sees it, and a [sync] would spin forever. *)
Theorem ring_stalls_at_wrap `{DeviceFloat} a m h :
  let '(k, r) := enqueue_task a worn_ring in
  r = Ok (2 ^ 31 - 1) /\ submitted k = 2 ^ 31 /\ tail k = - 2 ^ 31 /\
  forall n ts s, worker_runs n (mkSystem k m h WTop) ts s -> ts = [] /\ processed (kernel s) < submitted k.
Proof.
  unfold enqueue_task, worn_ring. cbn [running head tail capacity negb].
  change (is_full _ _ _) with false. cbn match. split; [done|]. split; [done|]. split; [done|].
  intros n ts s Hr. apply worn_stuck in Hr as [-> ->]; [done..|by left].
Qed.
