(* ===== verification/Router.v ===== *)
(** * Routing of kernel launches to the persistent worker ([persistent_router.rs])

    A launch whose kernel name and shape look like an element-wise operation is
    turned into a task of the ring; every other launch is left to the driver. *)
From stdpp Require Import base numbers list strings gmap.
From Stdlib Require Import ZArith Lia Ascii.
From S2P Require Import Prelude RustStr HostIO Delta Aof Runtime Device Ring.

Local Open Scope string_scope.
Local Open Scope Z_scope.

Inductive PersistentOp : Type :=
| OpAdd | OpMul | OpSub | OpSilu | OpRelu | OpScale | OpAddRelu | OpDirtyScan | OpAofAppend | OpRestoreCopy.

(** The discriminants, [op as i32]. *)
Definition op_code (op : PersistentOp) : Z :=
  match op with
  | OpAdd => 0 | OpMul => 1 | OpSub => 2 | OpSilu => 3 | OpRelu => 4 | OpScale => 5 | OpAddRelu => 6
  | OpDirtyScan => 7 | OpAofAppend => 8 | OpRestoreCopy => 9
  end.

Inductive Routing : Type :=
| Persistent (op : PersistentOp) (numel : Z)
| Passthrough.

Definition is_persistent_enabled_for_value (value : option string) : bool :=
  match trim <$> value with
  | Some v => existsb (String.eqb v) ["1"; "true"; "TRUE"; "yes"; "YES"; "on"]
  | None => false
  end.

(** The value of the first call is kept for the life of the process. *)
Definition is_persistent_enabled (env : environment) : bool :=
  is_persistent_enabled_for_value (env "CONCORDIA_PERSISTENT").

Definition PERSISTENT_DEVICE_KEYS : list string :=
  ["CONCORDIA_PERSISTENT_DEVICE"; "CONCORDIA_MPI_LOCAL_RANK"; "HETGPU_CONCORDIA_MPI_LOCAL_RANK";
   "OMPI_COMM_WORLD_LOCAL_RANK"; "MPI_LOCALRANKID"; "MV2_COMM_WORLD_LOCAL_RANK"; "SLURM_LOCALID";
   "PMI_LOCAL_RANK"; "LOCAL_RANK"].

Definition ROUTER_LOCAL_RANK_KEYS : list string :=
  ["CONCORDIA_MPI_LOCAL_RANK"; "HETGPU_CONCORDIA_MPI_LOCAL_RANK"; "OMPI_COMM_WORLD_LOCAL_RANK";
   "MPI_LOCALRANKID"; "MV2_COMM_WORLD_LOCAL_RANK"; "SLURM_LOCALID"; "PMI_LOCAL_RANK"; "LOCAL_RANK"].

Definition read_i32_from_pairs (pairs : list (string * string)) (keys : list string) (fallback : option Z)
    : option Z :=
  match find_map (fun key => value ← assoc key pairs; parse_i32 (trim value)) keys with
  | Some z => Some z
  | None => fallback
  end.

Definition persistent_device_id_from_pairs (pairs : list (string * string)) : Z :=
  Z.max 0 (default 0
    match read_i32_from_pairs pairs ["CONCORDIA_PERSISTENT_DEVICE"] None with
    | Some z => Some z
    | None => read_i32_from_pairs pairs ROUTER_LOCAL_RANK_KEYS None
    end).

Definition persistent_device_id (env : environment) : Z :=
  persistent_device_id_from_pairs (env_pairs env PERSISTENT_DEVICE_KEYS).

(** A launch dimension. *)
Definition dim3 : Type := Z * Z * Z.

(** The operation a kernel name suggests. *)
Definition op_of_name (kernel_name : string) : option PersistentOp :=
  let name := to_ascii_lowercase kernel_name in
  let is_add := contains "add" name || contains "plus" name in
  let is_mul := contains "mul" name || contains "multiply" name in
  let is_sub := contains "sub" name || contains "minus" name in
  let is_relu := contains "relu" name in
  let is_silu := contains "silu" name || contains "swish" name in
  if is_silu && negb is_add then Some OpSilu
  else if is_relu && is_add then Some OpAddRelu
  else if is_relu then Some OpRelu
  else if is_add then Some OpAdd
  else if is_mul then Some OpMul
  else if is_sub then Some OpSub
  else None.

Definition classify (kernel_name : string) (grid_dims block_dims : dim3) (num_params : nat) : Routing :=
  let '(gx, gy, gz) := grid_dims in
  let '(bx, by_, bz) := block_dims in
  if negb (gy =? 1) || negb (gz =? 1) || negb (by_ =? 1) || negb (bz =? 1) then Passthrough
  else if (num_params <? 2)%nat || (8 <? num_params)%nat then Passthrough
  else match op_of_name kernel_name with
       | None => Passthrough
       | Some op =>
           let numel := gx * bx in
           if (32 <=? numel) && (numel <=? 2 ^ 30) then Persistent op numel else Passthrough
       end.

(** [PersistentRouter]: its handle; the ring behind a valid one is the state. *)
Record PersistentRouter : Type := mkRouter { kernel_handle : Z }.

Definition route (self : PersistentRouter) (op : PersistentOp) (numel in0 in1 out0 : Z) (k : GpuPersistentKernel)
    : GpuPersistentKernel * bool :=
  if kernel_handle self <? 0 then (k, false)
  else let '(k, seq) := concordia_gpu_enqueue (kernel_handle self) (op_code op) numel in0 in1 out0 k in
       (k, 0 <=? seq).

(** [PersistentRouter::new]; [init] is [concordia_gpu_init], which starts the
    worker through the CUDA driver and returns its handle or -1. *)
Definition router_new (env : environment) (init : Z -> Z -> Z) : option PersistentRouter :=
  if negb (is_persistent_enabled env) then None
  else
    let capacity := default 1024 (env "CONCORDIA_PERSISTENT_CAPACITY" ≫= parse_u32) in
    let handle := init (persistent_device_id env) capacity in
    if 0 <=? handle then Some (mkRouter handle) else None.

(** Parameter [index]: the 64-bit value behind its pointer, 0 for a null
    pointer or past the end. *)
Definition param (params : list (option Z)) (num_params index : nat) : Z :=
  if (num_params <=? index)%nat then 0 else default 0 (default None (params !! index)).

Definition try_route (enabled : bool) (router : option PersistentRouter) (kernel_name : string)
    (kernel_params : option (list (option Z))) (num_params : nat) (grid_dims block_dims : dim3)
    (k : GpuPersistentKernel) : GpuPersistentKernel * bool :=
  match kernel_params with
  | Some params =>
      if negb enabled then (k, false)
      else match classify kernel_name grid_dims block_dims num_params with
           | Passthrough => (k, false)
           | Persistent op numel =>
               let in0 := param params num_params 1 in
               let in1 := param params num_params 2 in
               let out0 := param params num_params 0 in
               if (in0 =? 0) || (out0 =? 0) then (k, false)
               else match router with
                    | Some r => route r op numel in0 in1 out0 k
                    | None => (k, false)
                    end
           end
  | None => (k, false)
  end.

(** ** Routed launches *)

(** The device function of each operation. *)
Definition element_op `{DeviceFloat} (op : PersistentOp) : Task -> Z -> Z -> mem -> mem :=
  match op with
  | OpAdd => fun t _ => do_add t
  | OpMul => fun t _ => do_mul t
  | OpSub => fun t _ => do_sub t
  | OpSilu => fun t _ => do_silu t
  | OpRelu => fun t _ => do_relu t
  | OpScale => do_scale
  | OpAddRelu => fun t _ => do_add_relu t
  | OpDirtyScan => fun t _ => do_dirty_scan t
  | OpAofAppend | OpRestoreCopy => fun t _ => do_copy_bytes t
  end.

Lemma do_index_op `{DeviceFloat} op t s i m : t_op t = op_code op -> do_index t s i m = element_op op t s i m.
Proof. intros Hop. unfold do_index. rewrite Hop. by destruct op. Qed.

Lemma classify_Persistent name grid block n op numel :
  classify name grid block n = Persistent op numel ->
  op_of_name name = Some op /\ 32 <= numel <= 2 ^ 30 /\ (2 <= n <= 8)%nat /\
  grid = (fst (fst grid), 1, 1) /\ block = (fst (fst block), 1, 1) /\ numel = fst (fst grid) * fst (fst block).
Proof.
  destruct grid as [[gx gy] gz], block as [[bx by_] bz]. unfold classify.
  destruct (_ || _ || _ || _) eqn:Hd; [done|]. destruct ((n <? 2)%nat || (8 <? n)%nat) eqn:Hn; [done|].
  destruct (op_of_name name) as [op'|]; [|done]. cbv zeta. destruct (_ && _) eqn:Hr; [|done]. intros [= -> <-].
  apply orb_false_iff in Hd as [Hd H4]. apply orb_false_iff in Hd as [Hd H3]. apply orb_false_iff in Hd as [H1 H2].
  apply negb_false_iff, Z.eqb_eq in H1, H2, H3, H4. apply orb_false_iff in Hn as [Hn1 Hn2].
  apply Nat.ltb_ge in Hn1, Hn2. apply andb_true_iff in Hr as [Hr1%Z.leb_le Hr2%Z.leb_le].
  subst. split_and!; cbn; try done; lia.
Qed.

(** A launch is either routed or left alone, never both: when [try_route]
    reports success, the ring has exactly one more task, at its tail, which the
    device decodes as the operation the name suggests, over the 32 to 2^30
    elements of the one-dimensional launch, on the first three parameters, and
    dispatches to that operation's device function; when it reports failure the
    ring is unchanged, so that the driver's own launch is the only one. *)
Theorem try_route_exact `{DeviceFloat} enabled router name params n grid block k k' routed :
  0 <= submitted k < 2 ^ 63 - 1 -> (forall i, is_u 64 (param params n i) = true) ->
  1 <= capacity k < 2 ^ 31 -> 0 <= tail k < 2 ^ 31 - 1 -> length (tasks k) = (Z.to_nat (capacity k) * TASK_SIZE)%nat ->
  try_route enabled router name (Some params) n grid block k = (k', routed) ->
  (routed = false /\ k' = k) \/
  (routed = true /\ exists op numel,
     classify name grid block n = Persistent op numel /\ 32 <= numel <= 2 ^ 30 /\
     submitted k' = submitted k + 1 /\ tail k' = tail k + 1 /\ head k' = head k /\
     let t := read_task (slot_bytes (tail k mod capacity k) (tasks k')) in
     t_numel t = numel /\ t_in0 t = param params n 1 /\ t_in1 t = param params n 2 /\ t_out0 t = param params n 0 /\
     t_in0 t <> 0 /\ t_out0 t <> 0 /\
     forall s i m, do_index t s i m = element_op op t s i m).
Proof.
  intros Hsub Hpar Hcap Htl Hlen. unfold try_route. destruct enabled; [|intros [= <- <-]; by left]. cbn [negb].
  destruct (classify name grid block n) as [op numel|] eqn:Hc; [|intros [= <- <-]; by left].
  destruct (_ || _) eqn:Hz; [intros [= <- <-]; by left|]. apply orb_false_iff in Hz as [Hz1%Z.eqb_neq Hz2%Z.eqb_neq].
  destruct router as [r|]; [|intros [= <- <-]; by left].
  unfold route, concordia_gpu_enqueue, enqueue_task. destruct (kernel_handle r <? 0) eqn:Hh; [intros [= <- <-]; by left|].
  destruct (kernel_handle r <=? 0); [intros [= <- <-]; by left|].
  destruct (running k); cbn [negb]; [|intros [= <- <-]; by left].
  destruct (is_full _ _ _); [intros [= <- <-]; by left|].
  set (a := mkArgs _ _ _ _ _). cbn [enqueue_code submitted set_tail write_slot tail].
  rewrite (to_signed_small 64 (submitted k)) by (first [lia|apply andb_true_iff; rewrite Z.leb_le, Z.ltb_lt; lia]).
  rewrite (proj2 (Z.leb_le 0 (submitted k))) by lia. intros [= <- <-]. right. split; [done|]. exists op, numel.
  destruct (classify_Persistent _ _ _ _ _ _ Hc) as (_ & Hn & _).
  assert (wf_args a = true) as Hwf.
  { unfold wf_args, a. cbn [a_op a_numel a_in0 a_in1 a_out0]. rewrite !Hpar, !andb_true_r.
    apply andb_true_iff. split; [by destruct op|]. apply andb_true_iff. rewrite Z.leb_le, Z.ltb_lt. simpl. lia. }
  unfold count_submitted. cbn [submitted set_tail write_slot tail head tasks capacity].
  unfold wrapping_add. rewrite wrap_small by lia. rewrite to_signed_nonneg by lia.
  rewrite (slot_of_small (capacity k)) by lia. do 5 (split; [first [exact Hn|done|lia]|]).
  cbv zeta. rewrite (slot_write_same (capacity k)); [|exact Hlen|apply Z.mod_pos_bound; lia|apply length_task_image].
  rewrite read_task_image by done. unfold task_of, a. cbn [t_numel t_in0 t_in1 t_out0 a_numel a_in0 a_in1 a_out0].
  split_and!; try done. intros s i m. by apply do_index_op.
Qed.

Lemma try_route_exact_witness :
  exists k', try_route true (Some (mkRouter 1)) "vector_add" (Some [Some 300; Some 100; Some 200]) 3
      (8, 1, 1) (128, 1, 1) (kernel_new 4) = (k', true) /\ submitted k' = 1 /\
    classify "vector_add" (8, 1, 1) (128, 1, 1) 3 = Persistent OpAdd 1024.
Proof.
  destruct (try_route true (Some (mkRouter 1)) "vector_add" (Some [Some 300; Some 100; Some 200]) 3
    (8, 1, 1) (128, 1, 1) (kernel_new 4)) as [k' routed] eqn:E.
  destruct (try_route_exact true (Some (mkRouter 1)) "vector_add" [Some 300; Some 100; Some 200] 3
    (8, 1, 1) (128, 1, 1) (kernel_new 4) k' routed ltac:(split; [apply Z.le_refl|reflexivity])
    ltac:(intros [|[|[|i]]]; reflexivity) ltac:(split; [discriminate|reflexivity])
    ltac:(split; [apply Z.le_refl|reflexivity]) eq_refl E) as [[-> ->]|(-> & op & numel & _ & _ & H & _)].
  - exfalso. vm_compute in E. discriminate E.
  - exists k'. split; [reflexivity|]. split; [exact H|]. vm_compute. reflexivity.
Defined.

(** The name is only searched for syllables: a padding kernel is routed as an
    addition, and a fused activation loses its activation. *)
Example classify_misroutes :
  classify "constant_padding_kernel" (1024, 1, 1) (256, 1, 1) 3 = Persistent OpAdd 262144 /\
  classify "fused_silu_add" (1024, 1, 1) (256, 1, 1) 3 = Persistent OpAdd 262144.
Proof. split; vm_compute; reflexivity. Qed.
