(* ===== verification/Instrument.v ===== *)
(** * Safe points and resume records ([concordia_instrument.rs])

    Where a kernel can be interrupted, how its PTX is labelled there, and the
    layouts in which its live registers and its context are saved. *)
From stdpp Require Import base numbers list strings sets pretty.
From Stdlib Require Import ZArith Lia Ascii.
From S2P Require Import Prelude RustStr.

Local Open Scope Z_scope.

Inductive SafePointKind : Type := Entry | Barrier | Exit.

#[global] Instance SafePointKind_eq_dec : EqDecision SafePointKind.
Proof. solve_decision. Defined.

Record SafePoint : Type := mkSafePoint {
  sp_kind : SafePointKind;
  sp_line : nat;
  sp_label : string;
}.

Definition SASS_LIVE_STATE_MAGIC : Z := 0x43535353.
Definition SASS_LIVE_STATE_VERSION : Z := 1.
Definition SASS_LIVE_STATE_HEADER_BYTES : Z := 64.

Record SassLiveRegisterSlot : Type := mkSlot {
  slot_name : string;
  slot_offset : Z;
  slot_size : Z;
}.

Record SassLiveStateLayout : Type := mkLayout {
  ly_magic : Z;
  ly_version : Z;
  ly_header_bytes : Z;
  ly_record_bytes : Z;
  ly_slots : list SassLiveRegisterSlot;
}.

Definition CTX_RESUME_MAGIC : Z := 0x30585443.
Definition CTX_RESUME_VERSION : Z := 1.
Definition CTX_RESUME_HEADER_BYTES : Z := 48.

Inductive CtxResumeTarget : Type := NvidiaPtx | AmdRocm | IntelSpirv | TenstorrentTosa.

(** One constructor per message. *)
Inductive InstrumentError : Type :=
| UnsupportedTarget (value : string)
| PayloadOverflow
| RecordOverflow
| RegisterPayloadTooLarge
| SharedPayloadTooLarge
| RecordTooLarge
| UnsupportedRegister (raw : string).

(** Membership in the alternatives of a [match] arm. *)
Definition one_of (s : string) (l : list string) : bool := existsb (String.eqb s) l.

Definition target_parse (value : string) : outcome InstrumentError CtxResumeTarget :=
  let v := replace "_" "-" (to_ascii_lowercase (trim value)) in
  if one_of v ["nvidia"; "nvidia-ptx"; "ptx"] then Ok NvidiaPtx
  else if one_of v ["amd"; "amd-rocm"; "rocm"] then Ok AmdRocm
  else if one_of v ["intel"; "intel-spirv"; "spirv"; "level-zero"] then Ok IntelSpirv
  else if one_of v ["tenstorrent"; "tenstorrent-tosa"; "tosa"] then Ok TenstorrentTosa
  else Err (UnsupportedTarget v).

Definition target_code (t : CtxResumeTarget) : Z :=
  match t with NvidiaPtx => 1 | AmdRocm => 2 | IntelSpirv => 3 | TenstorrentTosa => 4 end.

Record CtxResumeHeader : Type := mkHeader {
  h_magic : Z;
  h_version : Z;
  h_header_bytes : Z;
  h_target : CtxResumeTarget;
  h_kernel_id : Z;
  h_safe_point_id : Z;
  h_register_bytes : Z;
  h_shared_memory_bytes : Z;
  h_record_bytes : Z;
}.

Record CtxResumeRecord : Type := mkResumeRecord {
  rr_header : CtxResumeHeader;
  rr_bytes : list Z;
}.

(** [checked_add] on [usize] *)
Definition checked_add (a b : Z) : option Z := if a + b <? 2 ^ 64 then Some (a + b) else None.

(** [u32::try_from] *)
Definition try_u32 (z : Z) : option Z := if z <? 2 ^ 32 then Some z else None.

Definition build_ctx_resume_record (target : CtxResumeTarget) (kernel_id safe_point_id : Z)
    (register_payload shared_memory_payload : list Z) : outcome InstrumentError CtxResumeRecord :=
  let register_bytes := Z.of_nat (length register_payload) in
  let shared_memory_bytes := Z.of_nat (length shared_memory_payload) in
  payload_bytes ← ok_or PayloadOverflow (checked_add register_bytes shared_memory_bytes);
  record_bytes ← ok_or RecordOverflow (checked_add CTX_RESUME_HEADER_BYTES payload_bytes);
  register_bytes_u32 ← ok_or RegisterPayloadTooLarge (try_u32 register_bytes);
  shared_memory_bytes_u32 ← ok_or SharedPayloadTooLarge (try_u32 shared_memory_bytes);
  record_bytes_u32 ← ok_or RecordTooLarge (try_u32 record_bytes);
  let header := mkHeader CTX_RESUME_MAGIC CTX_RESUME_VERSION CTX_RESUME_HEADER_BYTES target kernel_id
                  safe_point_id register_bytes shared_memory_bytes record_bytes in
  let bytes :=
    le_bytes 4 CTX_RESUME_MAGIC ++ le_bytes 2 CTX_RESUME_VERSION ++ le_bytes 2 CTX_RESUME_HEADER_BYTES ++
    le_bytes 2 (target_code target) ++ le_bytes 2 0 ++ le_bytes 8 kernel_id ++ le_bytes 8 safe_point_id ++
    le_bytes 4 register_bytes_u32 ++ le_bytes 4 shared_memory_bytes_u32 ++ le_bytes 4 record_bytes_u32 ++
    le_bytes 4 0 ++ le_bytes 4 0 in
  Ok (mkResumeRecord header (bytes ++ register_payload ++ shared_memory_payload)).

(** ** Live registers *)
Definition register_number (text : string) : option Z :=
  if String.eqb text "" then None else parse_u32 text.

Definition sass_live_register_bytes (name : string) : option Z :=
  match strip_prefix "UR" name with
  | Some rest => (fun _ => 8) <$> register_number rest
  | None =>
  match strip_prefix "UP" name with
  | Some rest => (fun _ => 1) <$> register_number rest
  | None =>
  match strip_prefix "R" name with
  | Some rest => (fun _ => 8) <$> register_number rest
  | None =>
  match strip_prefix "P" name with
  | Some rest => (fun _ => 1) <$> register_number rest
  | None => None
  end end end end.

Definition canonical_sass_live_register (raw : string) : outcome InstrumentError string :=
  let name := to_ascii_uppercase (trim raw) in
  if sass_live_register_bytes name then Ok name else Err (UnsupportedRegister raw).

(** [value.div_ceil(align) * align], with [align] at least 1 *)
Definition align_up (value align : Z) : Z :=
  let align := Z.max align 1 in wrapping_mul 64 ((value + align - 1) / align) align.

(** One iteration of the loop of [build_sass_live_state_layout]: the slots, the
    names seen and the next offset. *)
Definition layout_step (acc : list SassLiveRegisterSlot * list string * Z) (raw : string)
    : outcome InstrumentError (list SassLiveRegisterSlot * list string * Z) :=
  let '(slots, seen, offset) := acc in
  name ← canonical_sass_live_register raw;
  if existsb (String.eqb name) seen then Ok (slots, seen, offset)
  else
    bytes ← ok_or (UnsupportedRegister raw) (sass_live_register_bytes name);
    let offset := align_up offset (Z.min bytes 8) in
    Ok (slots ++ [mkSlot name offset bytes], seen ++ [name], saturating_add 64 offset bytes).

Definition build_sass_live_state_layout (registers : list string) : outcome InstrumentError SassLiveStateLayout :=
  '(slots, _, offset) ← foldM layout_step ([], [], SASS_LIVE_STATE_HEADER_BYTES) registers;
  Ok (mkLayout SASS_LIVE_STATE_MAGIC SASS_LIVE_STATE_VERSION SASS_LIVE_STATE_HEADER_BYTES
        (align_up offset 8) slots).

(** ** Safe points *)
Local Open Scope string_scope.

Definition is_entry_line (trimmed : string) : bool := contains ".entry " trimmed || starts_with ".entry" trimmed.
Definition is_barrier_line (trimmed : string) : bool := starts_with "bar." trimmed || contains "bar.sync" trimmed.
Definition is_exit_line (trimmed : string) : bool := starts_with "ret" trimmed.

(** [format!("__concordia_safe_..._{index}")] *)
Definition safe_label (kind : SafePointKind) (index : nat) : string :=
  sapp match kind with
       | Entry => "__concordia_safe_entry_"
       | Barrier => "__concordia_safe_barrier_"
       | Exit => "__concordia_safe_exit_"
       end (dec (Z.of_nat index)).

(** What both loops carry. *)
Record safe_state : Type := mkSafeState {
  in_entry : bool;
  entry_index : nat;
  barrier_index : nat;
  exit_index : nat;
}.

Definition safe_init : safe_state := mkSafeState false 0 0 0.

(** One iteration of [discover_ptx_safe_points]. *)
Definition discover_line (line : nat) (st : safe_state) (text : string) : safe_state * list SafePoint :=
  let trimmed := trim_start text in
  let '(st, points) :=
    if is_entry_line trimmed
    then (mkSafeState true (S (entry_index st)) (barrier_index st) (exit_index st),
          [mkSafePoint Entry line (safe_label Entry (entry_index st))])
    else (st, []) in
  if negb (in_entry st) then (st, points)
  else
    let '(st, points) :=
      if is_barrier_line trimmed
      then (mkSafeState (in_entry st) (entry_index st) (S (barrier_index st)) (exit_index st),
            points ++ [mkSafePoint Barrier line (safe_label Barrier (barrier_index st))])%list
      else (st, points) in
    let '(st, points) :=
      if is_exit_line trimmed
      then (mkSafeState (in_entry st) (entry_index st) (barrier_index st) (S (exit_index st)),
            points ++ [mkSafePoint Exit line (safe_label Exit (exit_index st))])%list
      else (st, points) in
    let st := if starts_with "}" trimmed
              then mkSafeState false (entry_index st) (barrier_index st) (exit_index st) else st in
    (st, points).

(** The points of each line. *)
Fixpoint discover_from (line : nat) (st : safe_state) (texts : list string) : list (list SafePoint) :=
  match texts with
  | [] => []
  | text :: texts =>
      let '(st, points) := discover_line line st text in points :: discover_from (S line) st texts
  end.

Definition discover_ptx_safe_points (ptx : string) : list SafePoint :=
  concat (discover_from 0 safe_init (lines ptx)).

(** [&text\[..text.len() - trimmed.len()\]] *)
Definition indent_of (text : string) : string :=
  String.substring 0 (String.length text - String.length (trim_start text)) text.

(** A label line, with the indentation of the text. *)
Definition label_line (text label : string) : string := sapp (indent_of text) (sapp label ":").

(** One iteration of [annotate_ptx_with_concordia_safe_points]: the lines it
    appends, with the label waiting for an opening brace. *)
Definition annotate_line (acc : safe_state * option string) (text : string)
    : (safe_state * option string) * list string :=
  let '(st, pending) := acc in
  let trimmed := trim_start text in
  let '(st, pending) :=
    if is_entry_line trimmed
    then (mkSafeState true (S (entry_index st)) (barrier_index st) (exit_index st),
          Some (safe_label Entry (entry_index st)))
    else (st, pending) in
  let '(st, out) :=
    if in_entry st && is_barrier_line trimmed
    then (mkSafeState (in_entry st) (entry_index st) (S (barrier_index st)) (exit_index st),
          [label_line text (safe_label Barrier (barrier_index st))])
    else (st, []) in
  let '(st, out) :=
    if in_entry st && is_exit_line trimmed
    then (mkSafeState (in_entry st) (entry_index st) (barrier_index st) (S (exit_index st)),
          out ++ [label_line text (safe_label Exit (exit_index st))])%list
    else (st, out) in
  let out := (out ++ [text])%list in
  let '(pending, out) :=
    match pending with
    | Some label => if contains "{" text then (None, out ++ [label_line text label])%list else (Some label, out)
    | None => (None, out)
    end in
  if in_entry st && starts_with "}" trimmed
  then ((mkSafeState false (entry_index st) (barrier_index st) (exit_index st), None), out)
  else ((st, pending), out).

Fixpoint annotate_from (acc : safe_state * option string) (texts : list string) : list (list string) :=
  match texts with
  | [] => []
  | text :: texts => let '(acc, out) := annotate_line acc text in out :: annotate_from acc texts
  end.

(** Every appended line ends in a newline. *)
Definition with_newlines (ls : list string) : string :=
  foldr (fun l rest => sapp l (String newline rest)) "" ls.

Definition annotate_ptx_with_concordia_safe_points (ptx : string) : string :=
  with_newlines (concat (annotate_from (safe_init, None) (lines ptx))).

Definition sample_entry : string :=
  with_newlines [".visible .entry k("; ")"; "{"; "  bar.sync 0;"; "  ret;"; "}"; "bar.sync 1;"].

Example annotate_sample :
  annotate_ptx_with_concordia_safe_points sample_entry =
  with_newlines [".visible .entry k("; ")"; "{"; "__concordia_safe_entry_0:"; "  __concordia_safe_barrier_0:";
    "  bar.sync 0;"; "  __concordia_safe_exit_0:"; "  ret;"; "}"; "bar.sync 1;"].
Proof. vm_compute. reflexivity. Qed.

(** ** Resume records *)
Local Open Scope Z_scope.

Definition ctx_header_fields (target : CtxResumeTarget) (kernel_id safe_point_id reg_len shared_len : Z) : list (list Z) :=
  [le_bytes 4 CTX_RESUME_MAGIC; le_bytes 2 CTX_RESUME_VERSION; le_bytes 2 CTX_RESUME_HEADER_BYTES;
   le_bytes 2 (target_code target); le_bytes 2 0; le_bytes 8 kernel_id; le_bytes 8 safe_point_id;
   le_bytes 4 reg_len; le_bytes 4 shared_len; le_bytes 4 (CTX_RESUME_HEADER_BYTES + (reg_len + shared_len));
   le_bytes 4 0; le_bytes 4 0].

Lemma build_ctx_resume_record_eq target kernel_id safe_point_id registers shared :
  let reg_len := Z.of_nat (length registers) in
  let shared_len := Z.of_nat (length shared) in
  48 + reg_len + shared_len < 2 ^ 32 ->
  build_ctx_resume_record target kernel_id safe_point_id registers shared =
  Ok (mkResumeRecord
        (mkHeader CTX_RESUME_MAGIC CTX_RESUME_VERSION CTX_RESUME_HEADER_BYTES target kernel_id safe_point_id
           reg_len shared_len (CTX_RESUME_HEADER_BYTES + (reg_len + shared_len)))
        (concat (ctx_header_fields target kernel_id safe_point_id reg_len shared_len) ++ registers ++ shared)).
Proof.
  intros reg_len shared_len Hn. unfold build_ctx_resume_record. fold reg_len shared_len.
  assert (0 <= reg_len /\ 0 <= shared_len) as [H1 H2] by lia.
  unfold checked_add, try_u32, CTX_RESUME_HEADER_BYTES.
  rewrite (proj2 (Z.ltb_lt (reg_len + shared_len) (2 ^ 64))) by lia. cbn [ok_or mbind outcome_bind].
  rewrite (proj2 (Z.ltb_lt (48 + (reg_len + shared_len)) (2 ^ 64))) by lia. cbn [ok_or mbind outcome_bind].
  rewrite (proj2 (Z.ltb_lt reg_len (2 ^ 32))) by lia. cbn [ok_or mbind outcome_bind].
  rewrite (proj2 (Z.ltb_lt shared_len (2 ^ 32))) by lia. cbn [ok_or mbind outcome_bind].
  rewrite (proj2 (Z.ltb_lt (48 + (reg_len + shared_len)) (2 ^ 32))) by lia. cbn [ok_or mbind outcome_bind].
  reflexivity.
Qed.

(** A resume record holds what it is built from: it is built exactly when
    its length fits 32 bits, and then the magic, version, header length, target,
    kernel, safe point and the three lengths read back from their positions, the
    two payloads from behind the 48-byte header, and the length is the one
    recorded. *)
Theorem ctx_resume_record_reads_back target kernel_id safe_point_id registers shared :
  0 <= kernel_id < 2 ^ 64 -> 0 <= safe_point_id < 2 ^ 64 ->
  let n := 48 + Z.of_nat (length registers) + Z.of_nat (length shared) in
  (2 ^ 32 <= n /\ exists e, build_ctx_resume_record target kernel_id safe_point_id registers shared = Err e) \/
  exists r, build_ctx_resume_record target kernel_id safe_point_id registers shared = Ok r /\
    let b := rr_bytes r in
    n < 2 ^ 32 /\ Z.of_nat (length b) = n /\ h_record_bytes (rr_header r) = n /\
    bytes_at 0 4 b = CTX_RESUME_MAGIC /\ bytes_at 4 2 b = CTX_RESUME_VERSION /\ bytes_at 6 2 b = 48 /\
    bytes_at 8 2 b = target_code target /\ bytes_at 12 8 b = kernel_id /\ bytes_at 20 8 b = safe_point_id /\
    bytes_at 28 4 b = Z.of_nat (length registers) /\ bytes_at 32 4 b = Z.of_nat (length shared) /\
    bytes_at 36 4 b = n /\ take (length registers) (drop 48 b) = registers /\
    drop (48 + length registers) b = shared.
Proof.
  intros Hk Hs n. destruct (decide (n < 2 ^ 32)) as [Hn|Hn].
  - right. eexists. split; [by apply build_ctx_resume_record_eq|]. cbn [rr_bytes rr_header h_record_bytes].
    set (fields := ctx_header_fields _ _ _ _ _).
    pose proof (fun k l => bytes_at_concat fields k l (registers ++ shared)) as Hat.
    assert (length (concat fields) = 48%nat) as Hlen by reflexivity.
    assert (forall w v, 0 <= v < 256 ^ Z.of_nat w -> le_decode (le_bytes w v) = v) as Hle
      by (intros; by apply le_decode_le_bytes_small).
    split_and!; try lia.
    + rewrite !length_app, Hlen. lia.
    + unfold CTX_RESUME_HEADER_BYTES. lia.
    + exact (Hat 0%nat _ eq_refl).
    + exact (Hat 1%nat _ eq_refl).
    + exact (Hat 2%nat _ eq_refl).
    + refine (eq_trans (Hat 3%nat _ eq_refl) _). by destruct target.
    + refine (eq_trans (Hat 5%nat _ eq_refl) _). by apply (Hle 8%nat).
    + refine (eq_trans (Hat 6%nat _ eq_refl) _). by apply (Hle 8%nat).
    + refine (eq_trans (Hat 7%nat _ eq_refl) _). apply (Hle 4%nat). simpl. lia.
    + refine (eq_trans (Hat 8%nat _ eq_refl) _). apply (Hle 4%nat). simpl. lia.
    + refine (eq_trans (Hat 9%nat _ eq_refl) _). unfold CTX_RESUME_HEADER_BYTES. rewrite (Hle 4%nat); simpl; lia.
    + rewrite <- Hlen. by rewrite drop_app_length, take_app_length.
    + rewrite <- Hlen, <- drop_drop, drop_app_length. by rewrite drop_app_length.
  - left. split; [lia|]. unfold build_ctx_resume_record, checked_add, try_u32, CTX_RESUME_HEADER_BYTES.
    repeat (case_match; cbn [ok_or mbind outcome_bind]; try by eexists).
    all: repeat match goal with H : (_ <? _) = true |- _ => apply Z.ltb_lt in H end; lia.
Qed.

Lemma ctx_resume_record_reads_back_witness :
  exists r, build_ctx_resume_record AmdRocm 7 9 [1; 2; 3] [4] = Ok r /\ bytes_at 12 8 (rr_bytes r) = 7 /\
    take 3 (drop 48 (rr_bytes r)) = [1; 2; 3].
Proof.
  destruct (ctx_resume_record_reads_back AmdRocm 7 9 [1; 2; 3] [4] ltac:(lia) ltac:(lia)) as [[H _]|(r & Hr & H)].
  - exfalso. apply H. reflexivity.
  - exists r. split; [exact Hr|]. destruct H as (_ & _ & _ & _ & _ & _ & _ & H12 & _ & _ & _ & _ & Hp & _).
    split; [exact H12|exact Hp].
Defined.

(** ** Register layouts *)

(** Slots one behind the other from [lo] to [hi], each aligned to its size. *)
Fixpoint packed (lo : Z) (slots : list SassLiveRegisterSlot) (hi : Z) : Prop :=
  match slots with
  | [] => lo <= hi
  | s :: slots => lo <= slot_offset s /\ slot_offset s mod slot_size s = 0 /\ (slot_size s = 1 \/ slot_size s = 8) /\
      packed (slot_offset s + slot_size s) slots hi
  end.

Lemma packed_snoc lo slots s hi :
  packed lo slots hi -> hi <= slot_offset s -> slot_offset s mod slot_size s = 0 -> slot_size s = 1 \/ slot_size s = 8 ->
  packed lo (slots ++ [s]) (slot_offset s + slot_size s).
Proof.
  revert lo. induction slots as [|s' slots IH]; intros lo Hp Ho Hm Hs; cbn [packed app] in *.
  - split_and!; [lia|done|done|lia].
  - destruct Hp as (? & ? & ? & Hp). split_and!; try done. by apply IH.
Qed.

Lemma packed_weaken lo slots hi hi' : packed lo slots hi -> hi <= hi' -> packed lo slots hi'.
Proof.
  revert lo. induction slots as [|s slots IH]; intros lo Hp Hle; cbn [packed] in *; [lia|].
  destruct Hp as (? & ? & ? & Hp). split_and!; try done. by apply IH.
Qed.

Lemma align_up_spec v a : 0 <= v < 2 ^ 63 -> a = 1 \/ a = 8 -> v <= align_up v a < v + a /\ align_up v a mod a = 0.
Proof.
  intros Hv Ha. unfold align_up, wrapping_mul. rewrite Z.max_l by lia.
  pose proof (Z.div_mod (v + a - 1) a ltac:(lia)). pose proof (Z.mod_pos_bound (v + a - 1) a ltac:(lia)).
  rewrite wrap_small by lia. split; [lia|]. apply Z.mod_mul. lia.
Qed.

Definition canonical (raw : string) : string := to_ascii_uppercase (trim raw).

Lemma register_bytes_size name b : sass_live_register_bytes name = Some b -> b = 1 \/ b = 8.
Proof.
  unfold sass_live_register_bytes. repeat case_match; try done; intros (? & _ & ?)%fmap_Some; auto.
Qed.

(** The loop after a prefix of the registers. *)
Record laid_out (done : list string) (acc : list SassLiveRegisterSlot * list string * Z) : Prop := mk_laid_out {
  lo_seen : snd (fst acc) = slot_name <$> fst (fst acc);
  lo_nodup : NoDup (snd (fst acc));
  lo_packed : packed 64 (fst (fst acc)) (snd acc);
  lo_bound : 64 <= snd acc <= 64 + 16 * Z.of_nat (length done);
  lo_slots : forall s, s ∈ fst (fst acc) ->
    sass_live_register_bytes (slot_name s) = Some (slot_size s) /\ exists raw, raw ∈ done /\ slot_name s = canonical raw;
  lo_all : forall raw, raw ∈ done -> canonical raw ∈ snd (fst acc);
}.

Lemma layout_step_spec done acc raw :
  laid_out done acc -> Z.of_nat (length done) < 2 ^ 32 ->
  (exists b, sass_live_register_bytes (canonical raw) = Some b /\
     exists acc', layout_step acc raw = Ok acc' /\ laid_out (done ++ [raw]) acc') \/
  (sass_live_register_bytes (canonical raw) = None /\ layout_step acc raw = Err (UnsupportedRegister raw)).
Proof.
  destruct acc as [[slots seen] offset]. intros [Hseen Hnd Hp Hb Hs Hall] Hlen. cbn [fst snd] in *.
  unfold layout_step, canonical_sass_live_register. fold (canonical raw).
  destruct (sass_live_register_bytes (canonical raw)) as [b|] eqn:Hbytes; [left|by right].
  exists b. split; [done|]. cbn [mbind outcome_bind]. destruct (existsb _ seen) eqn:He.
  - apply existsb_exists in He as (name & Hin%list_elem_of_In & Heq%String.eqb_eq). subst name.
    eexists. split; [done|]. split; cbn [fst snd]; try done.
    + rewrite length_app. simpl. lia.
    + intros s Hin'. destruct (Hs s Hin') as (H1 & raw' & H2 & H3). split; [done|]. exists raw'. set_solver.
    + intros raw' [Hr|Hr%list_elem_of_singleton]%elem_of_app; [by apply Hall|by subst].
  - assert (canonical raw ∉ seen) as Hfresh.
    { intros Hin. apply not_true_iff_false in He. apply He, existsb_exists.
      exists (canonical raw). split; [by apply list_elem_of_In|]. apply String.eqb_refl. }
    pose proof (register_bytes_size _ _ Hbytes) as Hsz. rewrite Hbytes. cbn [ok_or mbind outcome_bind].
    replace (Z.min b 8) with b by lia. destruct (align_up_spec offset b ltac:(lia) Hsz) as [Ha Hm].
    eexists. split; [done|]. unfold saturating_add. rewrite Z.min_l by lia. split; cbn [fst snd].
    + by rewrite Hseen, fmap_app.
    + apply NoDup_app. split_and!; [done|set_solver|apply NoDup_singleton].
    + apply (packed_snoc 64 slots (mkSlot (canonical raw) (align_up offset b) b) offset); cbn; try done; lia.
    + rewrite length_app. simpl. lia.
    + intros s [Hin | ->%list_elem_of_singleton]%elem_of_app.
      * destruct (Hs s Hin) as (H1 & raw' & H2 & H3). split; [done|]. exists raw'. set_solver.
      * split; [done|]. exists raw. set_solver.
    + intros raw' [Hr|Hr%list_elem_of_singleton]%elem_of_app; [specialize (Hall _ Hr)|subst]; set_solver.
Qed.

Lemma layout_fold done rest acc :
  laid_out done acc -> Z.of_nat (length (done ++ rest)) < 2 ^ 32 ->
  match foldM layout_step acc rest with
  | Ok acc' => laid_out (done ++ rest) acc'
  | Err e => exists raw, raw ∈ rest /\ e = UnsupportedRegister raw /\ sass_live_register_bytes (canonical raw) = None
  | Panic => False
  end.
Proof.
  revert done acc. induction rest as [|raw rest IH]; intros done acc Hl Hlen; cbn [foldM]; [by rewrite app_nil_r|].
  rewrite length_app in Hlen. cbn [length] in Hlen.
  destruct (layout_step_spec done acc raw Hl ltac:(lia)) as [(b & Hb & acc' & Hs & Hl')|[Hn Hs]]; rewrite Hs; cbn [mbind outcome_bind].
  - specialize (IH (done ++ [raw])%list acc' Hl'). rewrite <- app_assoc in IH. cbn [app] in IH.
    specialize (IH ltac:(rewrite length_app; cbn [length]; lia)).
    destruct (foldM layout_step acc' rest); [done| |done].
    destruct IH as (raw' & Hin & ?). exists raw'. split; [by right|done].
  - exists raw. split; [left|done].
Qed.

(** [C35] A live-state layout is sound: it is built exactly when every register
    name is known, each distinct register has one slot of its size, the slots
    start behind the header, are aligned, do not overlap and end inside the
    record, whose length is a multiple of 8; otherwise an unknown name is
    reported. *)
Theorem live_state_layout_sound registers :
  Z.of_nat (length registers) < 2 ^ 32 ->
  match build_sass_live_state_layout registers with
  | Ok l =>
      packed SASS_LIVE_STATE_HEADER_BYTES (ly_slots l) (ly_record_bytes l) /\ ly_record_bytes l mod 8 = 0 /\
      NoDup (slot_name <$> ly_slots l) /\
      (forall s, s ∈ ly_slots l -> sass_live_register_bytes (slot_name s) = Some (slot_size s)) /\
      (forall name, name ∈ (slot_name <$> ly_slots l) <-> exists raw, raw ∈ registers /\ name = canonical raw)
  | Err e => exists raw, raw ∈ registers /\ e = UnsupportedRegister raw /\ sass_live_register_bytes (canonical raw) = None
  | Panic => False
  end.
Proof.
  intros Hlen. assert (laid_out [] ([], [], SASS_LIVE_STATE_HEADER_BYTES)) as H0.
  { split; cbn [fst snd packed]; try done; try set_solver. constructor. }
  pose proof (layout_fold [] registers _ H0 Hlen) as H. unfold build_sass_live_state_layout.
  destruct (foldM layout_step _ registers) as [[[slots seen] offset]|e|]; cbn [mbind outcome_bind]; [|done|done].
  destruct H as [Hseen Hnd Hp Hb Hs Hall]. cbn [fst snd app ly_slots ly_record_bytes] in *.
  destruct (align_up_spec offset 8 ltac:(lia) ltac:(lia)) as [Ha Hm]. subst seen. split_and!; try done.
  - by eapply packed_weaken; [exact Hp|lia].
  - intros s Hin. by apply Hs.
  - intros name. split.
    + intros (s & -> & Hin)%list_elem_of_fmap. destruct (Hs s Hin) as (_ & raw & Hr & Hn). eauto.
    + intros (raw & Hr & ->). by apply Hall.
Qed.

Lemma live_state_layout_sound_witness :
  exists l, build_sass_live_state_layout [" r1"; "P0"; "R1"; "UR4"]%string = Ok l /\
    NoDup (slot_name <$> ly_slots l) /\ ly_record_bytes l mod 8 = 0.
Proof.
  pose proof (live_state_layout_sound [" r1"; "P0"; "R1"; "UR4"]%string ltac:(reflexivity)) as H.
  destruct (build_sass_live_state_layout _) as [l|e|] eqn:E.
  - exists l. split; [reflexivity|]. destruct H as (_ & Hm & Hn & _). split; [exact Hn|exact Hm].
  - exfalso. vm_compute in E. discriminate E.
  - exfalso. exact H.
Defined.

(** ** Labels *)
Definition inner_labels (points : list SafePoint) : list string :=
  sp_label <$> filter (fun p => sp_kind p <> Entry) points.

(** An entry label comes from an entry point already found. *)
Definition entry_label (points : list SafePoint) (line : nat) (label : string) : Prop :=
  exists j, mkSafePoint Entry j label ∈ points /\ (j <= line)%nat.

Lemma annotate_line_spec line st pending text :
  let '(st', points) := discover_line line st text in
  let '((st'', pending'), out) := annotate_line (st, pending) text in
  st'' = st' /\
  exists post, out = ((label_line text <$> inner_labels points) ++ [text] ++ post)%list /\
    (post = [] \/ exists label, post = [label_line text label] /\ contains "{" text = true /\
       (pending = Some label \/ mkSafePoint Entry line label ∈ points)) /\
    (forall label, pending' = Some label -> pending = Some label \/ mkSafePoint Entry line label ∈ points).
Proof.
  unfold discover_line, annotate_line. cbv zeta. destruct st as [inside e b x].
  destruct (is_entry_line _), inside, (is_barrier_line _), (is_exit_line _), (starts_with "}" _), pending as [label|],
    (contains "{" text); cbn -[label_line safe_label]; (split; [reflexivity|]);
    (eexists; split; [reflexivity|]); (split; [|intros ? [= <-] || intros ? [=]]);
    try (by left); try (right; eexists; split; [reflexivity|]; split; [reflexivity|]);
    first [by left|right; by left|by auto|set_solver].
Qed.

Lemma entry_label_mono points points' line line' label :
  entry_label points line label -> (forall p, p ∈ points -> p ∈ points') -> (line <= line')%nat ->
  entry_label points' line' label.
Proof. intros (j & Hj & Hle) Hsub Hl. exists j. split; [by apply Hsub|lia]. Qed.

Lemma annotate_from_spec texts line st pending found :
  (forall label, pending = Some label -> entry_label found line label) ->
  forall i text, texts !! i = Some text ->
  exists points block post,
    discover_from line st texts !! i = Some points /\ annotate_from (st, pending) texts !! i = Some block /\
    block = ((label_line text <$> inner_labels points) ++ [text] ++ post)%list /\
    (post = [] \/ exists label, post = [label_line text label] /\ contains "{" text = true /\
       entry_label (found ++ concat (discover_from line st texts))%list (line + i) label).
Proof.
  revert line st pending found. induction texts as [|text0 texts IH]; intros line st pending found Hp i text Hi; [done|].
  pose proof (annotate_line_spec line st pending text0) as Hs. cbn [discover_from annotate_from].
  destruct (discover_line line st text0) as [st' points]. destruct (annotate_line (st, pending) text0) as [[st'' pending'] out].
  destruct Hs as (-> & post & -> & Hpost & Hpend).
  assert (forall label, pending = Some label \/ mkSafePoint Entry line label ∈ points ->
            entry_label (found ++ points)%list line label) as Hlab.
  { intros label [Hl|Hl]; [|by exists line; set_solver]. eapply entry_label_mono; [by apply Hp|set_solver|lia]. }
  destruct i as [|i].
  - injection Hi as ->. eexists _, _, post. split; [reflexivity|]. split; [reflexivity|]. split; [reflexivity|].
    destruct Hpost as [->|(label & -> & Hc & Hl)]; [by left|right]. exists label. split_and!; [done|done|].
    eapply entry_label_mono; [by apply Hlab| |lia]. cbn [concat]. set_solver.
  - destruct (IH (S line) st' pending' (found ++ points)%list) with (i := i) (text := text)
      as (points' & block & post' & H1 & H2 & H3 & H4); [|done|].
    + intros label Hl. eapply entry_label_mono; [by apply Hlab, Hpend|done|lia].
    + exists points', block, post'. split_and!; try done. destruct H4 as [->|(label & -> & Hc & Hl)]; [by left|right].
      exists label. split_and!; [done|done|]. cbn [concat]. rewrite app_assoc.
      by replace (line + S i)%nat with (S line + i)%nat by lia.
Qed.

(** ** Labels are unique *)
Lemma safe_label_inj k1 n1 k2 n2 : safe_label k1 n1 = safe_label k2 n2 -> k1 = k2 /\ n1 = n2.
Proof.
  unfold safe_label. destruct k1, k2; unfold sapp; cbn [String.append]; intros Heq; try discriminate Heq;
    (split; [reflexivity|]); injection Heq as Heq; apply (inj pretty) in Heq; lia.
Qed.

Definition next_index (st : safe_state) (kind : SafePointKind) : nat :=
  match kind with Entry => entry_index st | Barrier => barrier_index st | Exit => exit_index st end.

(** The labels of a stretch of lines carry indices from [st] up to [st']. *)
Definition labels_between (st st' : safe_state) (points : list SafePoint) : Prop :=
  NoDup (sp_label <$> points) /\ (forall k, (next_index st k <= next_index st' k)%nat) /\
  forall p, p ∈ points -> exists n, sp_label p = safe_label (sp_kind p) n /\
    (next_index st (sp_kind p) <= n < next_index st' (sp_kind p))%nat.

Lemma labels_between_app st1 st2 st3 ps qs :
  labels_between st1 st2 ps -> labels_between st2 st3 qs -> labels_between st1 st3 (ps ++ qs)%list.
Proof.
  intros (Hn1 & Hi1 & Hp) (Hn2 & Hi2 & Hq). split; [|split].
  - rewrite fmap_app. apply NoDup_app. split_and!; [done| |done].
    intros l (p & -> & Hin)%list_elem_of_fmap (q & Heq & Hin')%list_elem_of_fmap.
    destruct (Hp p Hin) as (n & Hl & Hn). destruct (Hq q Hin') as (n' & Hl' & Hn').
    rewrite Hl, Hl' in Heq. apply safe_label_inj in Heq as [Hk ->]. rewrite Hk in Hn. lia.
  - intros k. specialize (Hi1 k). specialize (Hi2 k). lia.
  - intros p [Hin|Hin]%elem_of_app; [destruct (Hp p Hin) as (n & ? & ?)|destruct (Hq p Hin) as (n & ? & ?)];
      exists n; (split; [done|]); specialize (Hi1 (sp_kind p)); specialize (Hi2 (sp_kind p)); lia.
Qed.

Lemma discover_line_labels line st text :
  labels_between st (fst (discover_line line st text)) (snd (discover_line line st text)).
Proof.
  unfold discover_line. cbv zeta. destruct st as [inside e b x].
  destruct (is_entry_line _), inside, (is_barrier_line _), (is_exit_line _), (starts_with "}" _);
    cbn -[safe_label]; (split; [|split; [intros []; cbn; lia|]]).
  all: try (repeat constructor; cbn -[safe_label];
    repeat match goal with |- _ ∉ _ => intros Hin | H : _ ∈ _ :: _ |- _ => apply elem_of_cons in H as [H|H]
           | H : _ ∈ [] |- _ => by apply elem_of_nil in H
           | H : safe_label _ _ = safe_label _ _ |- _ => apply safe_label_inj in H as [? _]; discriminate end).
  all: intros p Hin; repeat (apply elem_of_cons in Hin as [-> |Hin]); try (by apply elem_of_nil in Hin);
    eexists; (split; [reflexivity|]); cbn; lia.
Qed.

Lemma discover_from_labels texts line st : exists st', labels_between st st' (concat (discover_from line st texts)).
Proof.
  revert line st. induction texts as [|text texts IH]; intros line st; cbn [discover_from concat].
  - exists st. split; [constructor|]. split; [done|]. intros p Hp. by apply elem_of_nil in Hp.
  - pose proof (discover_line_labels line st text) as Hl. destruct (discover_line line st text) as [st1 points].
    destruct (IH (S line) st1) as [st2 Hr]. exists st2. cbn [concat]. by eapply labels_between_app.
Qed.

(** Instrumentation adds labels and nothing else: each line of the PTX is
    kept, preceded by the labels of the barrier and exit points discovered on it
    and followed at most by the label of an entry point discovered on it or
    before, at an opening brace; every discovered label is unique. *)
Theorem annotate_matches_discovery ptx :
  let texts := lines ptx in
  exists blocks,
    annotate_ptx_with_concordia_safe_points ptx = with_newlines (concat blocks) /\ length blocks = length texts /\
    NoDup (sp_label <$> discover_ptx_safe_points ptx) /\
    forall i text, texts !! i = Some text ->
      exists points post,
        discover_from 0 safe_init texts !! i = Some points /\
        blocks !! i = Some ((label_line text <$> inner_labels points) ++ [text] ++ post)%list /\
        (post = [] \/ exists label, post = [label_line text label] /\ contains "{" text = true /\
           entry_label (discover_ptx_safe_points ptx) i label).
Proof.
  cbv zeta. exists (annotate_from (safe_init, None) (lines ptx)). split; [done|]. split_and!.
  - generalize (safe_init, @None string). induction (lines ptx) as [|text texts IH]; intros acc; [done|].
    cbn [annotate_from]. destruct (annotate_line acc text). cbn [length]. by rewrite IH.
  - destruct (discover_from_labels (lines ptx) 0 safe_init) as (st & Hn & _). exact Hn.
  - intros i text Hi. destruct (annotate_from_spec (lines ptx) 0 safe_init None [] ltac:(done) i text Hi)
      as (points & block & post & H1 & H2 & -> & H4). by exists points, post.
Qed.
