(* ===== verification/Replay.v ===== *)
(** * Recording kernel launches and memory ([zluda/src/impl/replay.rs] 1-1153)

    The trace of a program run is a header, the PTX sources by module, the
    allocations and the kernel launches with their memory snapshots.  A tracker
    keeps, per allocation, a bitmap of dirty pages and a shadow copy, and turns
    the contents of an allocation into a snapshot that is full, incremental or a
    reference to the previous one.  A recording session owns a trace and a
    tracker; the process has at most one.  Mutexes are never poisoned here, and
    clock readings are arguments. *)
From stdpp Require Import base numbers list strings gmap.
From Stdlib Require Import ZArith Lia.
From S2P Require Import Prelude HostIO RustStr Runtime.

Open Scope Z_scope.

Definition REPLAY_TRACE_MAGIC : Z := 0x48455452.
Definition REPLAY_TRACE_VERSION : Z := 1.
Definition PAGE_SIZE : nat := Z.to_nat 4096.
Definition DEFAULT_TRACE_DIR : string := "/tmp/hetgpu_traces".

(** ** Data of a trace *)
Inductive CompressionType : Type := CompressionNone | Zstd | Lz4.

Inductive Backend : Type := Nvidia | Amd | Intel | Tenstorrent | Virtual.

#[global] Instance CompressionType_eq_dec : EqDecision CompressionType.
Proof. solve_decision. Defined.
#[global] Instance Backend_eq_dec : EqDecision Backend.
Proof. solve_decision. Defined.

(** [Display] of a backend *)
Definition backend_text (b : Backend) : string :=
  match b with
  | Nvidia => "nvidia"
  | Amd => "amd"
  | Intel => "intel"
  | Tenstorrent => "tenstorrent"
  | Virtual => "virtual"
  end.

Definition launch_dim : Type := Z * Z * Z.

Record ReplayTraceHeader : Type := mkReplayTraceHeader {
  th_magic : Z;
  th_version : Z;
  th_timestamp : Z;
  th_source_backend : Backend;
  th_device_name : string;
  th_compute_capability : Z * Z;
  th_total_kernels : Z;
  th_total_memory_ops : Z;
  th_compression : CompressionType;
}.

Inductive ArgumentType : Type := ArgScalar | DevicePointer | HostPointer | Texture | Surface.

Record KernelArgument : Type := mkKernelArgument {
  ka_index : Z;
  ka_size : Z;
  ka_arg_type : ArgumentType;
  ka_device_addr : option Z;
  ka_scalar_data : option (list Z);
}.

Inductive SnapshotType : Type :=
| SnapFull
| SnapIncremental
| SnapReference (snapshot_id : Z).

Record DirtyRegion : Type := mkDirtyRegion {
  reg_offset : Z;
  reg_size : Z;
  reg_data : list Z;
}.

Record MemorySnapshot : Type := mkMemorySnapshot {
  ms_snapshot_id : Z;
  ms_device_addr : Z;
  ms_allocation_size : Z;
  ms_snapshot_type : SnapshotType;
  ms_full_data : option (list Z);
  ms_dirty_regions : option (list DirtyRegion);
  ms_checksum : Z;
}.

Record RecordedKernelLaunch : Type := mkRecordedKernelLaunch {
  kl_sequence_id : Z;
  kl_timestamp_ns : Z;
  kl_kernel_name : string;
  kl_module_handle : Z;
  kl_function_handle : Z;
  kl_grid_dim : launch_dim;
  kl_block_dim : launch_dim;
  kl_shared_mem_bytes : Z;
  kl_stream_handle : Z;
  kl_arguments : list KernelArgument;
  kl_input_memory : list MemorySnapshot;
  kl_output_memory : list MemorySnapshot;
  kl_execution_duration_ns : option Z;
}.

Inductive AllocationType : Type := AllocDevice | AllocManaged | AllocPinned | AllocMapped | AllocHost.

Record TrackedAllocation : Type := mkTrackedAllocation {
  ta_device_addr : Z;
  ta_size : Z;
  ta_allocation_time : Z;
  ta_allocation_type : AllocationType;
  ta_dirty_bitmap : list Z;
  ta_last_snapshot_seq : Z;
  ta_shadow_copy : option (list Z);
}.

Record ReplayTrace : Type := mkReplayTrace {
  tc_header : ReplayTraceHeader;
  tc_ptx_sources : gmap Z string;
  tc_allocations : list TrackedAllocation;
  tc_kernel_launches : list RecordedKernelLaunch;
}.

#[global] Instance SnapshotType_eq_dec : EqDecision SnapshotType.
Proof. solve_decision. Defined.
#[global] Instance DirtyRegion_eq_dec : EqDecision DirtyRegion.
Proof. solve_decision. Defined.

(** ** Header and trace at creation, at system time [now] (seconds) *)
Definition header_default (now : Z) : ReplayTraceHeader :=
  mkReplayTraceHeader REPLAY_TRACE_MAGIC REPLAY_TRACE_VERSION now Virtual "" (0, 0) 0 0 CompressionNone.

Definition trace_default (now : Z) : ReplayTrace := mkReplayTrace (header_default now) ∅ [] [].

Definition trace_new (now : Z) (source_backend : Backend) (device_name : string) : ReplayTrace :=
  let h := tc_header (trace_default now) in
  mkReplayTrace
    (mkReplayTraceHeader (th_magic h) (th_version h) (th_timestamp h) source_backend device_name
       (th_compute_capability h) (th_total_kernels h) (th_total_memory_ops h) (th_compression h))
    ∅ [] [].

(** ** Errors, one constructor per message *)
Inductive ReplayError : Type :=
| FailedToCreateFile (e : io_error)
| FailedToSerialize (e : io_error)
| FailedToOpenFile (e : io_error)
| FailedToDeserialize
| BadMagic
| FailedToCreateDirectory (e : io_error)
| NoActiveSession
| NoAddressMapping (addr : Z)
| NoMemoryState (addr : Z)
| NotInitialized
| ModuleNotCompiled (handle : Z)
| PositionOutOfRange (position max : nat).

(** ** [BufWriter] over a file

    A buffer of 8192 bytes; a write that does not fit flushes it first, and one
    as large as the buffer goes to the file directly.  A failed flush keeps what
    was not written.  Dropping the writer flushes it again and ignores the
    result. *)
Definition buf_capacity : nat := Z.to_nat 8192.

Definition flush_buf (path : string) (buf : list Z) (w : world) : world * list Z * outcome io_error unit :=
  let '(w', r) := write_all path buf w in
  match r with
  | Ok _ => (w', [], r)
  | _ => (w', drop (length (file_bytes path w') - length (file_bytes path w)) buf, r)
  end.

Definition buf_write_all (path : string) (chunk buf : list Z) (w : world)
    : world * list Z * outcome io_error unit :=
  let spare := (buf_capacity - length buf)%nat in
  if decide (length chunk < spare)%nat then (w, buf ++ chunk, Ok tt)
  else
    let '(w, buf, r) := if decide (spare < length chunk)%nat then flush_buf path buf w else (w, buf, Ok tt) in
    match r with
    | Ok _ =>
        if decide (buf_capacity <= length chunk)%nat then
          let '(w, r) := write_all path chunk w in (w, buf, r)
        else (w, buf ++ chunk, Ok tt)
    | _ => (w, buf, r)
    end.

Fixpoint buf_write_chunks (path : string) (chunks : list (list Z)) (buf : list Z) (w : world)
    : world * list Z * outcome io_error unit :=
  match chunks with
  | [] => (w, buf, Ok tt)
  | c :: cs =>
      let '(w, buf, r) := buf_write_all path c buf w in
      match r with Ok _ => buf_write_chunks path cs buf w | _ => (w, buf, r) end
  end.

(** A serializer that writes [chunks] to a [BufWriter] it owns. *)
Definition write_and_drop (path : string) (chunks : list (list Z)) : stm world io_error unit := fun w =>
  let '(w, buf, r) := buf_write_chunks path chunks [] w in
  let '(w, _, _) := flush_buf path buf w in
  (w, r).

(** [std::fs::create_dir_all] *)
Definition create_dir_all (path : string) : stm world io_error unit := fun w =>
  if decide (path = "" \/ path ∉ denied w) then (w, Ok tt) else (w, Err PermissionDenied).

(** ** Saving and loading

    The JSON text of a trace is that of the [serde_json] crate: the pieces it
    writes, and what it reads back. *)
Class TraceJson : Type := {
  trace_chunks : ReplayTrace -> list (list Z);
  parse_trace : list Z -> option ReplayTrace;
}.

(** [BufReader] and [from_reader]: all bytes, unless the device fails first. *)
Definition read_to_end (r : reader) : option (list Z) :=
  match rd_fault r with
  | Some k => if decide (k < length (rd_rest r))%nat then None else Some (rd_rest r)
  | None => Some (rd_rest r)
  end.

Section SaveLoad.
Context `{TraceJson}.

Definition trace_save (t : ReplayTrace) (path : string) : stm world ReplayError unit :=
  stm_map_err FailedToCreateFile (open_truncate path);;
  stm_map_err FailedToSerialize (write_and_drop path (trace_chunks t)).

Definition trace_load (path : string) (w : world) : outcome ReplayError ReplayTrace :=
  rd ← map_err FailedToOpenFile (open_read path w);
  t ← ok_or FailedToDeserialize (read_to_end rd ≫= parse_trace);
  if decide (th_magic (tc_header t) <> REPLAY_TRACE_MAGIC) then Err BadMagic else Ok t.
End SaveLoad.

(** ** Checksum *)
Definition crc_bit (crc : Z) : Z :=
  if decide (Z.land crc 1 <> 0) then Z.lxor (Z.shiftr crc 1) 0xEDB88320 else Z.shiftr crc 1.

Definition crc_byte (crc byte : Z) : Z := Nat.iter 8 crc_bit (Z.lxor crc byte).

Definition crc32_checksum (data : list Z) : Z :=
  Z.lxor (foldl crc_byte 0xFFFFFFFF data) 0xFFFFFFFF.

(** ** Snapshots *)
Definition snapshot_full (snapshot_id device_addr : Z) (data : list Z) : MemorySnapshot :=
  mkMemorySnapshot snapshot_id device_addr (Z.of_nat (length data)) SnapFull (Some data) None
    (crc32_checksum data).

Definition snapshot_incremental (snapshot_id device_addr allocation_size : Z)
    (dirty_regions : list DirtyRegion) : MemorySnapshot :=
  mkMemorySnapshot snapshot_id device_addr allocation_size SnapIncremental None (Some dirty_regions)
    (crc32_checksum (concat (reg_data <$> dirty_regions))).

Definition snapshot_reference (snapshot_id device_addr allocation_size last_seq : Z) : MemorySnapshot :=
  mkMemorySnapshot snapshot_id device_addr allocation_size (SnapReference last_seq) None None 0.

(** ** Tracked allocations *)

(** [((size as usize) + PAGE_SIZE - 1) / PAGE_SIZE] *)
Definition pages_of (size : Z) : nat := Z.to_nat (wrap 64 (size + 4096 - 1) / 4096).

Definition allocation_new (now device_addr size : Z) (allocation_type : AllocationType) : TrackedAllocation :=
  mkTrackedAllocation device_addr size now allocation_type
    (repeat 0 ((pages_of size + 63) / 64)%nat) 0 None.

Definition num_pages (a : TrackedAllocation) : nat := pages_of (ta_size a).

Definition set_bitmap (bitmap : list Z) (a : TrackedAllocation) : TrackedAllocation :=
  mkTrackedAllocation (ta_device_addr a) (ta_size a) (ta_allocation_time a) (ta_allocation_type a)
    bitmap (ta_last_snapshot_seq a) (ta_shadow_copy a).

Definition mark_page_dirty (page_index : nat) (a : TrackedAllocation) : TrackedAllocation :=
  if decide (page_index < num_pages a)%nat then
    let word_idx := (page_index / 64)%nat in
    match ta_dirty_bitmap a !! word_idx with
    | Some word =>
        set_bitmap (<[word_idx := Z.lor word (shl 1 (Z.of_nat (page_index mod 64)))]> (ta_dirty_bitmap a)) a
    | None => a
    end
  else a.

Definition is_page_dirty (a : TrackedAllocation) (page_index : nat) : bool :=
  if decide (num_pages a <= page_index)%nat then false
  else match ta_dirty_bitmap a !! (page_index / 64)%nat with
       | Some word => negb (Z.land word (shl 1 (Z.of_nat (page_index mod 64))) =? 0)
       | None => false
       end.

Definition clear_dirty_bits (a : TrackedAllocation) : TrackedAllocation :=
  set_bitmap ((fun _ => 0) <$> ta_dirty_bitmap a) a.

Definition mark_all_dirty (a : TrackedAllocation) : TrackedAllocation :=
  set_bitmap ((fun _ => u64_max) <$> ta_dirty_bitmap a) a.

Definition set_shadow_copy (shadow : list Z) (a : TrackedAllocation) : TrackedAllocation :=
  mkTrackedAllocation (ta_device_addr a) (ta_size a) (ta_allocation_time a) (ta_allocation_type a)
    (ta_dirty_bitmap a) (ta_last_snapshot_seq a) (Some shadow).

Definition set_last_snapshot (seq : Z) (a : TrackedAllocation) : TrackedAllocation :=
  mkTrackedAllocation (ta_device_addr a) (ta_size a) (ta_allocation_time a) (ta_allocation_type a)
    (ta_dirty_bitmap a) seq (ta_shadow_copy a).

(** ** The tracker *)
Inductive DirtyTrackingMethod : Type := FullDump | SoftwareShadow | Checksum.

#[global] Instance DirtyTrackingMethod_eq_dec : EqDecision DirtyTrackingMethod.
Proof. solve_decision. Defined.

Record DirtyPageTracker : Type := mkDirtyPageTracker {
  dt_allocations : gmap Z TrackedAllocation;
  dt_method : DirtyTrackingMethod;
  dt_snapshot_counter : Z;
}.

Definition tracker_new (method : DirtyTrackingMethod) : DirtyPageTracker := mkDirtyPageTracker ∅ method 0.

Definition set_allocation (addr : Z) (a : TrackedAllocation) (t : DirtyPageTracker) : DirtyPageTracker :=
  mkDirtyPageTracker (<[addr := a]> (dt_allocations t)) (dt_method t) (dt_snapshot_counter t).

(** [vec![0u8; size as usize]], which panics past [isize::MAX] bytes *)
Definition zeroed (size : Z) : option (list Z) :=
  if decide (size <= isize_max) then Some (repeat 0 (Z.to_nat size)) else None.

Definition track_allocation (now device_addr size : Z) (alloc_type : AllocationType)
    : stm DirtyPageTracker ReplayError unit := fun t =>
  let allocation := allocation_new now device_addr size alloc_type in
  match (if decide (dt_method t = SoftwareShadow)
         then (fun z => set_shadow_copy z allocation) <$> zeroed size
         else Some allocation) with
  | Some allocation => (set_allocation device_addr (mark_all_dirty allocation) t, Ok tt)
  | None => (t, Panic)
  end.

Definition untrack_allocation (device_addr : Z) (t : DirtyPageTracker) : DirtyPageTracker :=
  mkDirtyPageTracker (delete device_addr (dt_allocations t)) (dt_method t) (dt_snapshot_counter t).

(** The order in which the allocations are visited. *)
Class AllocationOrder : Type := {
  alloc_iter : gmap Z TrackedAllocation -> list (Z * TrackedAllocation);
  alloc_iter_perm : forall m, alloc_iter m ≡ₚ map_to_list m;
}.

(** The pages [start_page..end_page.min(num_pages)] that a write touches. *)
Definition dirty_page_range (offset size : Z) (a : TrackedAllocation) : list nat :=
  let start_page := Z.to_nat (offset / 4096) in
  let end_page := Z.to_nat (wrap 64 (wrap 64 (offset + size) + 4096 - 1) / 4096) in
  seq start_page ((end_page `min` num_pages a) - start_page).

Definition holds_address (device_addr : Z) (entry : Z * TrackedAllocation) : bool :=
  let '(base_addr, a) := entry in
  (base_addr <=? device_addr) && (device_addr <? wrap 64 (base_addr + ta_size a)).

Section Marking.
Context `{AllocationOrder}.

Definition mark_dirty (device_addr size : Z) (t : DirtyPageTracker) : DirtyPageTracker :=
  match list_find (fun entry => holds_address device_addr entry = true) (alloc_iter (dt_allocations t)) with
  | Some (_, (base_addr, a)) =>
      set_allocation base_addr
        (foldl (fun a page => mark_page_dirty page a) a (dirty_page_range (device_addr - base_addr) size a)) t
  | None => t
  end.
End Marking.

(** The counter before and after [fetch_add(1)]. *)
Definition next_snapshot_id (t : DirtyPageTracker) : Z * DirtyPageTracker :=
  (dt_snapshot_counter t,
   mkDirtyPageTracker (dt_allocations t) (dt_method t) (wrapping_add 64 (dt_snapshot_counter t) 1)).

(** ** Regions of consecutive dirty pages *)

(** A region [start..endp] with its bytes. *)
Definition dirty_region_of (current : list Z) (start endp : nat) : outcome ReplayError DirtyRegion :=
  data ← unwrap (slice start endp current);
  Ok (mkDirtyRegion (Z.of_nat start) (Z.of_nat (endp - start)) data).

(** One page of the loop of [detect_dirty_regions_static]: the regions so far
    and the start of the open one. *)
Definition region_state : Type := list DirtyRegion * option nat.

Definition scan_page (current : list Z) (is_dirty : bool) (page_start : nat) (st : region_state)
    : outcome ReplayError region_state :=
  let '(regions, region_start) := st in
  if is_dirty then Ok (regions, Some (default page_start region_start))
  else match region_start with
       | Some start => r ← dirty_region_of current start page_start; Ok (regions ++ [r], None)
       | None => Ok (regions, None)
       end.

(** The trailing region *)
Definition close_region (current : list Z) (st : region_state) : outcome ReplayError (list DirtyRegion) :=
  match snd st with
  | Some start => r ← dirty_region_of current start (length current); Ok (fst st ++ [r])
  | None => Ok (fst st)
  end.

Fixpoint shadow_loop (current shadow : list Z) (pages : list nat) (st : region_state)
    : outcome ReplayError region_state :=
  match pages with
  | [] => Ok st
  | page_idx :: rest =>
      let page_start := (page_idx * PAGE_SIZE)%nat in
      let page_end := ((page_start + PAGE_SIZE) `min` length current)%nat in
      if decide (length shadow < page_end)%nat then Ok st
      else
        c ← unwrap (slice page_start page_end current);
        s ← unwrap (slice page_start page_end shadow);
        st ← scan_page current (bool_decide (c <> s)) page_start st;
        shadow_loop current shadow rest st
  end.

Definition detect_dirty_regions_static (current shadow : list Z) (a : TrackedAllocation)
    : outcome ReplayError (list DirtyRegion) :=
  st ← shadow_loop current shadow (seq 0 (num_pages a)) ([], None);
  close_region current st.

(** The loop of the [Checksum] method, over the bitmap. *)
Definition bitmap_page (current : list Z) (a : TrackedAllocation) (st : region_state) (page_idx : nat)
    : outcome ReplayError region_state :=
  let '(regions, region_start) := st in
  if is_page_dirty a page_idx then Ok (regions, Some (default (page_idx * PAGE_SIZE)%nat region_start))
  else match region_start with
       | Some start =>
           let endp := (page_idx * PAGE_SIZE)%nat in
           data ← unwrap (slice start (endp `min` length current) current);
           Ok (regions ++ [mkDirtyRegion (Z.of_nat start) (Z.of_nat (endp - start)) data], None)
       | None => Ok (regions, None)
       end.

Definition bitmap_regions (current : list Z) (a : TrackedAllocation) : outcome ReplayError (list DirtyRegion) :=
  st ← foldM (bitmap_page current a) ([], None) (seq 0 (num_pages a));
  close_region current st.

(** ** Capturing a snapshot *)
Definition capture_snapshot (device_addr : Z) (read_device_memory : Z -> Z -> option (list Z))
    : stm DirtyPageTracker ReplayError (option MemorySnapshot) := fun t =>
  let '(snapshot_id, t) := next_snapshot_id t in
  match dt_allocations t !! device_addr with
  | None => (t, Ok None)
  | Some a =>
      match read_device_memory device_addr (ta_size a) with
      | None => (t, Ok None)
      | Some current =>
          match dt_method t with
          | FullDump => (t, Ok (Some (snapshot_full snapshot_id device_addr current)))
          | SoftwareShadow =>
              match ta_shadow_copy a with
              | None => (t, Ok None)
              | Some shadow =>
                  match detect_dirty_regions_static current shadow a with
                  | Ok [] =>
                      (t, Ok (Some (snapshot_reference snapshot_id device_addr (ta_size a)
                                      (ta_last_snapshot_seq a))))
                  | Ok regions =>
                      (set_allocation device_addr
                         (set_last_snapshot snapshot_id (clear_dirty_bits (set_shadow_copy current a))) t,
                       Ok (Some (snapshot_incremental snapshot_id device_addr (ta_size a) regions)))
                  | Err e => (t, Err e)
                  | Panic => (t, Panic)
                  end
              end
          | Checksum =>
              match bitmap_regions current a with
              | Ok regions =>
                  let t' := set_allocation device_addr
                              (set_last_snapshot snapshot_id (clear_dirty_bits a)) t in
                  (t', Ok (Some (match regions with
                                 | [] => snapshot_reference snapshot_id device_addr (ta_size a)
                                           (ta_last_snapshot_seq a)
                                 | _ => snapshot_incremental snapshot_id device_addr (ta_size a) regions
                                 end)))
              | Err e => (t, Err e)
              | Panic => (t, Panic)
              end
          end
      end
  end.

Definition is_tracked (device_addr : Z) (t : DirtyPageTracker) : bool :=
  bool_decide (is_Some (dt_allocations t !! device_addr)).

(** ** Recording configuration *)
Record RecordingConfig : Type := mkRecordingConfig {
  rc_dirty_tracking : bool;
  rc_dirty_method : DirtyTrackingMethod;
  rc_capture_inputs : bool;
  rc_capture_outputs : bool;
  rc_max_memory_per_kernel : Z;
  rc_compression : CompressionType;
  rc_output_path : string;
}.

Definition recording_config_default : RecordingConfig :=
  mkRecordingConfig true SoftwareShadow true true 0 CompressionNone (path_join DEFAULT_TRACE_DIR "trace.hetr").

(** [val == "1" || val.to_lowercase() == "true"] *)
Definition flag_value (val : string) : bool :=
  String.eqb val "1" || String.eqb (to_ascii_lowercase val) "true".

Definition dirty_method_of (val : string) : DirtyTrackingMethod :=
  let v := to_ascii_lowercase val in
  if String.eqb v "full" then FullDump
  else if String.eqb v "shadow" then SoftwareShadow
  else if String.eqb v "checksum" then Checksum
  else SoftwareShadow.

Definition recording_config_from_env (env : environment) : RecordingConfig :=
  let d := recording_config_default in
  mkRecordingConfig (rc_dirty_tracking d)
    (from_option dirty_method_of (rc_dirty_method d) (env "HETGPU_RECORD_DIRTY_METHOD"))
    (from_option flag_value (rc_capture_inputs d) (env "HETGPU_RECORD_INPUTS"))
    (from_option flag_value (rc_capture_outputs d) (env "HETGPU_RECORD_OUTPUTS"))
    (rc_max_memory_per_kernel d) (rc_compression d)
    (default (rc_output_path d) (env "HETGPU_RECORD_OUTPUT")).

(** ** The recording session *)
Record RecordingSession : Type := mkRecordingSession {
  rs_active : bool;
  rs_trace : ReplayTrace;
  rs_dirty_tracker : DirtyPageTracker;
  rs_sequence : Z;
  rs_start_time : Z;
  rs_config : RecordingConfig;
  rs_current_launch : option RecordedKernelLaunch;
}.

Definition session_new (now start_time : Z) (config : RecordingConfig) (source_backend : Backend)
    (device_name : string) : RecordingSession :=
  mkRecordingSession false (trace_new now source_backend device_name) (tracker_new (rc_dirty_method config))
    0 start_time config None.

Definition set_active (b : bool) (s : RecordingSession) : RecordingSession :=
  mkRecordingSession b (rs_trace s) (rs_dirty_tracker s) (rs_sequence s) (rs_start_time s) (rs_config s)
    (rs_current_launch s).
Definition set_trace (t : ReplayTrace) (s : RecordingSession) : RecordingSession :=
  mkRecordingSession (rs_active s) t (rs_dirty_tracker s) (rs_sequence s) (rs_start_time s) (rs_config s)
    (rs_current_launch s).
Definition set_tracker (t : DirtyPageTracker) (s : RecordingSession) : RecordingSession :=
  mkRecordingSession (rs_active s) (rs_trace s) t (rs_sequence s) (rs_start_time s) (rs_config s)
    (rs_current_launch s).
Definition set_current (l : option RecordedKernelLaunch) (s : RecordingSession) : RecordingSession :=
  mkRecordingSession (rs_active s) (rs_trace s) (rs_dirty_tracker s) (rs_sequence s) (rs_start_time s)
    (rs_config s) l.

Definition session_start : RecordingSession -> RecordingSession := set_active true.

(** [start_time.elapsed().as_nanos() as u64], at instant [now] *)
Definition elapsed_ns (now : Z) (s : RecordingSession) : Z := wrap 64 (Z.max 0 (now - rs_start_time s)).

Definition next_sequence (s : RecordingSession) : Z * RecordingSession :=
  (rs_sequence s,
   mkRecordingSession (rs_active s) (rs_trace s) (rs_dirty_tracker s) (wrapping_add 64 (rs_sequence s) 1)
     (rs_start_time s) (rs_config s) (rs_current_launch s)).

Section Stop.
Context `{TraceJson}.

Definition session_stop : stm (RecordingSession * world) ReplayError string := fun '(s, w) =>
  let s := set_active false s in
  let path := rc_output_path (rs_config s) in
  let '(w, r) :=
    (match parent path with
     | Some dir => stm_map_err FailedToCreateDirectory (create_dir_all dir)
     | None => mret tt
     end;;
     trace_save (rs_trace s) path;;
     mret path) w in
  ((s, w), r).
End Stop.

Definition register_ptx (module_handle : Z) (ptx_source : string) (s : RecordingSession) : RecordingSession :=
  let t := rs_trace s in
  set_trace (mkReplayTrace (tc_header t) (<[module_handle := ptx_source]> (tc_ptx_sources t))
               (tc_allocations t) (tc_kernel_launches t)) s.

Definition session_track_allocation (now device_addr size : Z) (alloc_type : AllocationType)
    : stm RecordingSession ReplayError unit := fun s =>
  match track_allocation now device_addr size alloc_type (rs_dirty_tracker s) with
  | (tracker, Ok _) =>
      let t := rs_trace s in
      (set_trace (mkReplayTrace (tc_header t) (tc_ptx_sources t)
                    (tc_allocations t ++ [allocation_new now device_addr size alloc_type])
                    (tc_kernel_launches t)) (set_tracker tracker s), Ok tt)
  | (tracker, r) => (set_tracker tracker s, r)
  end.

Definition session_untrack_allocation (device_addr : Z) (s : RecordingSession) : RecordingSession :=
  set_tracker (untrack_allocation device_addr (rs_dirty_tracker s)) s.

Definition session_mark_dirty `{AllocationOrder} (device_addr size : Z) (s : RecordingSession) : RecordingSession :=
  set_tracker (mark_dirty device_addr size (rs_dirty_tracker s)) s.

(** What a launch is called with. *)
Record LaunchParams : Type := mkLaunchParams {
  lp_kernel_name : string;
  lp_module_handle : Z;
  lp_function_handle : Z;
  lp_grid_dim : launch_dim;
  lp_block_dim : launch_dim;
  lp_shared_mem_bytes : Z;
  lp_stream_handle : Z;
  lp_arguments : list KernelArgument;
}.

Definition launch_new (sequence_id timestamp_ns : Z) (p : LaunchParams) : RecordedKernelLaunch :=
  mkRecordedKernelLaunch sequence_id timestamp_ns (lp_kernel_name p) (lp_module_handle p)
    (lp_function_handle p) (lp_grid_dim p) (lp_block_dim p) (lp_shared_mem_bytes p) (lp_stream_handle p)
    [] [] [] None.

Definition set_arguments (args : list KernelArgument) (l : RecordedKernelLaunch) : RecordedKernelLaunch :=
  mkRecordedKernelLaunch (kl_sequence_id l) (kl_timestamp_ns l) (kl_kernel_name l) (kl_module_handle l)
    (kl_function_handle l) (kl_grid_dim l) (kl_block_dim l) (kl_shared_mem_bytes l) (kl_stream_handle l)
    args (kl_input_memory l) (kl_output_memory l) (kl_execution_duration_ns l).

Definition set_duration (ns : Z) (l : RecordedKernelLaunch) : RecordedKernelLaunch :=
  mkRecordedKernelLaunch (kl_sequence_id l) (kl_timestamp_ns l) (kl_kernel_name l) (kl_module_handle l)
    (kl_function_handle l) (kl_grid_dim l) (kl_block_dim l) (kl_shared_mem_bytes l) (kl_stream_handle l)
    (kl_arguments l) (kl_input_memory l) (kl_output_memory l) (Some ns).

Definition record_pre_launch (now : Z) (p : LaunchParams) (s : RecordingSession) : Z * RecordingSession :=
  let '(sequence_id, s) := next_sequence s in
  let launch := launch_new sequence_id (elapsed_ns now s) p in
  (sequence_id, set_current (Some (set_arguments (lp_arguments p) launch)) s).

Definition count_kernel (h : ReplayTraceHeader) : ReplayTraceHeader :=
  mkReplayTraceHeader (th_magic h) (th_version h) (th_timestamp h) (th_source_backend h) (th_device_name h)
    (th_compute_capability h) (wrapping_add 64 (th_total_kernels h) 1) (th_total_memory_ops h)
    (th_compression h).

Definition record_post_launch (sequence_id execution_time_ns : Z) (s : RecordingSession) : RecordingSession :=
  match rs_current_launch s with
  | Some launch =>
      let t := rs_trace s in
      set_trace (mkReplayTrace (count_kernel (tc_header t)) (tc_ptx_sources t) (tc_allocations t)
                   (tc_kernel_launches t ++ [set_duration execution_time_ns launch]))
        (set_current None s)
  | None => s
  end.

Record RecordingStats : Type := mkRecordingStats {
  st_kernels_recorded : Z;
  st_allocations_tracked : Z;
  st_recording_duration_ns : Z;
  st_is_active : bool;
}.

Definition get_stats (now : Z) (s : RecordingSession) : RecordingStats :=
  mkRecordingStats (Z.of_nat (length (tc_kernel_launches (rs_trace s))))
    (Z.of_nat (size (dt_allocations (rs_dirty_tracker s)))) (elapsed_ns now s) (rs_active s).

(** ** The process-wide session *)
Definition recording_global : Type := option RecordingSession.

Definition is_recording_enabled (env : environment) : bool := from_option flag_value false (env "HETGPU_RECORD").

Definition is_recording_active (g : recording_global) : bool := from_option rs_active false g.

Definition start_recording (env : environment) (now start_time : Z) (source_backend : Backend)
    (device_name : string) (g : recording_global) : recording_global :=
  Some (session_start (session_new now start_time (recording_config_from_env env) source_backend device_name)).

Definition stop_recording `{TraceJson} : stm (recording_global * world) ReplayError string := fun '(g, w) =>
  match g with
  | Some s => let '((s, w), r) := session_stop (s, w) in ((Some s, w), r)
  | None => ((g, w), Err NoActiveSession)
  end.

(** The guard of the recording entry points: an active session. *)
Definition with_active {A} (idle : A) (f : RecordingSession -> A * RecordingSession) (g : recording_global)
    : A * recording_global :=
  match g with
  | Some s => if rs_active s then let '(a, s) := f s in (a, Some s) else (idle, g)
  | None => (idle, g)
  end.

Definition record_ptx_source (module_handle : Z) (ptx_source : string) (g : recording_global) : recording_global :=
  snd (with_active tt (fun s => (tt, register_ptx module_handle ptx_source s)) g).

Definition record_allocation (now device_addr size : Z) (alloc_type : AllocationType)
    : stm recording_global ReplayError unit := fun g =>
  let '(r, g) := with_active (Ok tt)
      (fun s => let '(s, r) := session_track_allocation now device_addr size alloc_type s in (r, s)) g in
  (g, r).

Definition record_deallocation (device_addr : Z) (g : recording_global) : recording_global :=
  snd (with_active tt (fun s => (tt, session_untrack_allocation device_addr s)) g).

Definition record_memory_dirty `{AllocationOrder} (device_addr size : Z) (g : recording_global) : recording_global :=
  snd (with_active tt (fun s => (tt, session_mark_dirty device_addr size s)) g).

Definition record_kernel_pre_launch (now : Z) (p : LaunchParams) (g : recording_global) : Z * recording_global :=
  with_active 0 (record_pre_launch now p) g.

Definition record_kernel_post_launch (sequence_id execution_time_ns : Z) (g : recording_global) : recording_global :=
  snd (with_active tt (fun s => (tt, record_post_launch sequence_id execution_time_ns s)) g).

Definition get_recording_stats (now : Z) (g : recording_global) : option RecordingStats := get_stats now <$> g.
