(* ===== verification/ReplayEngine.v ===== *)
(** * Replaying a trace ([zluda/src/impl/replay.rs] 1155-2410)

    The engine gives every recorded allocation an address of its own and a
    zeroed buffer, registers the PTX modules, and walks through the recorded
    launches: it applies the input snapshots of a launch to the buffers, launches
    the kernel (on every backend a message only) and compares checksums with the
    recorded output snapshots.  A debug session adds breakpoints.  The counter
    for virtual addresses is a static of the process, and so part of the state
    of an initialisation; clock readings are arguments. *)
From stdpp Require Import base numbers list strings gmap pretty.
From Stdlib Require Import ZArith Lia Ascii.
From S2P Require Import Prelude HostIO RustStr Replay.

Open Scope Z_scope.

(** ** Configuration and results *)
Record ReplayConfig : Type := mkReplayConfig {
  cf_step_mode : bool;
  cf_validate_outputs : bool;
  cf_fp_tolerance : Z;  (** the bits of a double, never read *)
  cf_kernel_filter : option string;
  cf_max_kernels : option nat;
}.

Definition replay_config_default : ReplayConfig := mkReplayConfig false true 0x3EB0C6F7A0B5ED8D None None.

Record MemoryMismatch : Type := mkMemoryMismatch {
  mm_address : Z;
  mm_offset : Z;
  mm_size : nat;
  mm_expected_checksum : Z;
  mm_actual_checksum : Z;
}.

Record ValidationResult : Type := mkValidationResult {
  vr_kernel_sequence : Z;
  vr_kernel_name : string;
  vr_passed : bool;
  vr_mismatches : list MemoryMismatch;
  vr_time_recorded : Z;
  vr_time_replayed : Z;
}.

Record ReplayResults : Type := mkReplayResults {
  rr_total_kernels : Z;
  rr_passed_kernels : Z;
  rr_failed_kernels : Z;
  rr_time_recorded_ns : Z;
  rr_time_replayed_ns : Z;
}.

Record ReconstructedMemory : Type := mkReconstructedMemory {
  rm_device_addr : Z;
  rm_data : list Z;
  rm_last_snapshot_id : Z;
}.

Record CompiledModule : Type := mkCompiledModule {
  cm_original_handle : Z;
  cm_ptx_source : string;
  cm_target_handle : option Z;
  cm_kernel_handles : gmap string Z;
}.

Record ReplayEngine : Type := mkReplayEngine {
  en_trace : ReplayTrace;
  en_target_backend : Backend;
  en_address_map : gmap Z Z;
  en_reverse_address_map : gmap Z Z;
  en_memory_state : gmap Z ReconstructedMemory;
  en_compiled_modules : gmap Z CompiledModule;
  en_current_position : nat;
  en_config : ReplayConfig;
  en_validation_results : list ValidationResult;
  en_initialized : bool;
  en_step_callback : option (RecordedKernelLaunch -> ValidationResult -> bool);
}.

(** ** Field updates *)
Definition set_maps (am rm : gmap Z Z) (ms : gmap Z ReconstructedMemory) (e : ReplayEngine) : ReplayEngine :=
  mkReplayEngine (en_trace e) (en_target_backend e) am rm ms (en_compiled_modules e) (en_current_position e)
    (en_config e) (en_validation_results e) (en_initialized e) (en_step_callback e).
Definition set_memory_state (ms : gmap Z ReconstructedMemory) (e : ReplayEngine) : ReplayEngine :=
  set_maps (en_address_map e) (en_reverse_address_map e) ms e.
Definition set_modules (cm : gmap Z CompiledModule) (e : ReplayEngine) : ReplayEngine :=
  mkReplayEngine (en_trace e) (en_target_backend e) (en_address_map e) (en_reverse_address_map e)
    (en_memory_state e) cm (en_current_position e) (en_config e) (en_validation_results e) (en_initialized e)
    (en_step_callback e).
Definition set_position (p : nat) (e : ReplayEngine) : ReplayEngine :=
  mkReplayEngine (en_trace e) (en_target_backend e) (en_address_map e) (en_reverse_address_map e)
    (en_memory_state e) (en_compiled_modules e) p (en_config e) (en_validation_results e) (en_initialized e)
    (en_step_callback e).
Definition set_results (rs : list ValidationResult) (e : ReplayEngine) : ReplayEngine :=
  mkReplayEngine (en_trace e) (en_target_backend e) (en_address_map e) (en_reverse_address_map e)
    (en_memory_state e) (en_compiled_modules e) (en_current_position e) (en_config e) rs (en_initialized e)
    (en_step_callback e).
Definition set_initialized (e : ReplayEngine) : ReplayEngine :=
  mkReplayEngine (en_trace e) (en_target_backend e) (en_address_map e) (en_reverse_address_map e)
    (en_memory_state e) (en_compiled_modules e) (en_current_position e) (en_config e)
    (en_validation_results e) true (en_step_callback e).
Definition set_config (cf : ReplayConfig) (e : ReplayEngine) : ReplayEngine :=
  mkReplayEngine (en_trace e) (en_target_backend e) (en_address_map e) (en_reverse_address_map e)
    (en_memory_state e) (en_compiled_modules e) (en_current_position e) cf (en_validation_results e)
    (en_initialized e) (en_step_callback e).
Definition set_step_callback (f : RecordedKernelLaunch -> ValidationResult -> bool) (e : ReplayEngine)
    : ReplayEngine :=
  mkReplayEngine (en_trace e) (en_target_backend e) (en_address_map e) (en_reverse_address_map e)
    (en_memory_state e) (en_compiled_modules e) (en_current_position e) (en_config e)
    (en_validation_results e) (en_initialized e) (Some f).

(** The engine around a loaded trace *)
Definition engine_of (trace : ReplayTrace) (target_backend : Backend) : ReplayEngine :=
  mkReplayEngine trace target_backend ∅ ∅ ∅ ∅ 0 replay_config_default [] false None.

Definition engine_load `{TraceJson} (trace_path : string) (target_backend : Backend) (w : world)
    : outcome ReplayError ReplayEngine :=
  trace ← trace_load trace_path w;
  Ok (engine_of trace target_backend).

Definition total_kernels (e : ReplayEngine) : nat := length (tc_kernel_launches (en_trace e)).
Definition is_complete (e : ReplayEngine) : bool := (total_kernels e <=? en_current_position e)%nat.

(** ** Initialisation *)

(** [VIRTUAL_ADDR] at the start of the process *)
Definition VIRTUAL_ADDR : Z := 0x100000000000.

(** [((size + 4095) / 4096) * 4096] *)
Definition page_aligned (size : Z) : Z := wrap 64 (size + 4095) / 4096 * 4096.

(** The address returned, and the counter after it. *)
Definition allocate_on_target (size : Z) (virtual_addr : Z) : Z * Z :=
  (virtual_addr, wrapping_add 64 virtual_addr (page_aligned size)).

Definition fresh_memory (addr : Z) (data : list Z) : ReconstructedMemory := mkReconstructedMemory addr data 0.

Definition allocate_one (a : TrackedAllocation) : stm (ReplayEngine * Z) ReplayError unit := fun '(e, va) =>
  let '(new_addr, va) := allocate_on_target (ta_size a) va in
  let am := <[ta_device_addr a := new_addr]> (en_address_map e) in
  let rm := <[new_addr := ta_device_addr a]> (en_reverse_address_map e) in
  match zeroed (ta_size a) with
  | Some data => ((set_maps am rm (<[new_addr := fresh_memory new_addr data]> (en_memory_state e)) e, va), Ok tt)
  | None => ((set_maps am rm (en_memory_state e) e, va), Panic)
  end.

Definition allocate_memory : stm (ReplayEngine * Z) ReplayError unit := fun s =>
  stm_iter allocate_one (tc_allocations (en_trace (fst s))) s.

(** The names after [.entry], numbered in order. *)
Definition entry_name (parts : list string) : option string :=
  '(i, _) ← list_find (fun part => part = ".entry") (take (length parts - 1) parts);
  trim_end_matches (fun c => Ascii.eqb c "("%char) <$> parts !! (S i).

Definition extract_line (acc : gmap string Z * Z) (line : string) : gmap string Z * Z :=
  let '(kernels, handle_counter) := acc in
  let trimmed := trim line in
  if starts_with ".entry" trimmed || starts_with ".visible .entry" trimmed then
    match entry_name (split_whitespace trimmed) with
    | Some name => (<[name := handle_counter]> kernels, wrapping_add 64 handle_counter 1)
    | None => acc
    end
  else acc.

Definition extract_kernel_names (ptx_source : string) : gmap string Z :=
  fst (foldl extract_line (∅, 0) (lines ptx_source)).

Definition target_handle (b : Backend) (original_handle : Z) : Z :=
  match b with
  | Nvidia => original_handle
  | Amd => Z.lor original_handle 0xA5D000000000
  | Intel => Z.lor original_handle 0x0E1E00000000
  | Tenstorrent => Z.lor original_handle 0x770000000000
  | Virtual => original_handle
  end.

Definition compile_ptx_for_target (b : Backend) (original_handle : Z) (ptx_source : string) : CompiledModule :=
  mkCompiledModule original_handle ptx_source (Some (target_handle b original_handle))
    (extract_kernel_names ptx_source).

(** Every module is compiled under its own handle, so the order of the hash map
    does not matter. *)
Definition compile_modules (e : ReplayEngine) : ReplayEngine :=
  set_modules
    (map_imap (fun h src => Some (compile_ptx_for_target (en_target_backend e) h src))
       (tc_ptx_sources (en_trace e)) ∪ en_compiled_modules e) e.

(** ** Applying snapshots *)

(** One dirty region over the data: skipped when it does not fit or its data has
    another size; a range that wraps around panics. *)
Definition apply_region (region : DirtyRegion) : stm (list Z) ReplayError unit := fun data =>
  let start := reg_offset region in
  let endp := wrap 64 (start + reg_size region) in
  if decide (endp <= Z.of_nat (length data) /\ Z.of_nat (length (reg_data region)) = reg_size region) then
    if decide (start <= endp) then (list_inserts (Z.to_nat start) (reg_data region) data, Ok tt)
    else (data, Panic)
  else (data, Ok tt).

(** The data under a snapshot *)
Definition apply_to_data (s : MemorySnapshot) : stm (list Z) ReplayError unit := fun data =>
  match ms_snapshot_type s with
  | SnapFull =>
      match ms_full_data s with
      | Some full =>
          if decide (length full <= length data)%nat then (list_inserts 0 full data, Ok tt) else (data, Ok tt)
      | None => (data, Ok tt)
      end
  | SnapIncremental => stm_iter apply_region (default [] (ms_dirty_regions s)) data
  | SnapReference _ => (data, Ok tt)
  end.

Definition apply_snapshot (s : MemorySnapshot) : stm ReplayEngine ReplayError unit := fun e =>
  match en_address_map e !! ms_device_addr s with
  | None => (e, Err (NoAddressMapping (ms_device_addr s)))
  | Some new_addr =>
      match en_memory_state e !! new_addr with
      | None => (e, Err (NoMemoryState new_addr))
      | Some m =>
          let put data id := set_memory_state
            (<[new_addr := mkReconstructedMemory (rm_device_addr m) data id]> (en_memory_state e)) e in
          match apply_to_data s (rm_data m) with
          | (data, Ok _) => (put data (ms_snapshot_id s), Ok tt)
          | (data, r) => (put data (rm_last_snapshot_id m), r)
          end
      end
  end.

Definition reconstruct_initial_memory : stm ReplayEngine ReplayError unit := fun e =>
  stm_iter apply_snapshot (from_option kl_input_memory [] (head (tc_kernel_launches (en_trace e)))) e.

(** A method on the engine alone, within an initialisation. *)
Definition on_engine {A} (f : stm ReplayEngine ReplayError A) : stm (ReplayEngine * Z) ReplayError A :=
  fun '(e, va) => let '(e, r) := f e in ((e, va), r).

Definition initialize : stm (ReplayEngine * Z) ReplayError unit := fun s =>
  if en_initialized (fst s) then (s, Ok tt)
  else (allocate_memory;;
        on_engine (fun e => (compile_modules e, Ok tt));;
        on_engine reconstruct_initial_memory;;
        on_engine (fun e => (set_initialized e, Ok tt))) s.

(** ** Replaying a kernel *)
Definition remap_argument (am : gmap Z Z) (arg : KernelArgument) : KernelArgument :=
  mkKernelArgument (ka_index arg) (ka_size arg) (ka_arg_type arg)
    ((fun orig => default orig (am !! orig)) <$> ka_device_addr arg) (ka_scalar_data arg).

Definition remap_arguments (e : ReplayEngine) (args : list KernelArgument) : list KernelArgument :=
  remap_argument (en_address_map e) <$> args.

(** Every backend writes a message; only the module lookup can fail. *)
Definition execute_kernel (e : ReplayEngine) (launch : RecordedKernelLaunch) (remapped : list KernelArgument)
    : outcome ReplayError unit :=
  _ ← ok_or (ModuleNotCompiled (kl_module_handle launch)) (en_compiled_modules e !! kl_module_handle launch);
  Ok tt.

(** The mismatch of one output snapshot, if its memory is known. *)
Definition check_output (e : ReplayEngine) (s : MemorySnapshot) : option MemoryMismatch :=
  new_addr ← en_address_map e !! ms_device_addr s;
  m ← en_memory_state e !! new_addr;
  let actual := crc32_checksum (rm_data m) in
  if decide (actual <> ms_checksum s)
  then Some (mkMemoryMismatch (ms_device_addr s) 0 (length (rm_data m)) (ms_checksum s) actual)
  else None.

Definition validate_kernel_output (e : ReplayEngine) (launch : RecordedKernelLaunch) (execution_time : Z)
    : ValidationResult :=
  let mismatches := omap (check_output e) (kl_output_memory launch) in
  mkValidationResult (kl_sequence_id launch) (kl_kernel_name launch) (bool_decide (mismatches = []))
    mismatches (default 0 (kl_execution_duration_ns launch)) execution_time.

(** The launch is skipped by the kernel filter. *)
Definition filtered_out (cf : ReplayConfig) (launch : RecordedKernelLaunch) : bool :=
  match cf_kernel_filter cf with
  | Some filter => negb (contains filter (kl_kernel_name launch))
  | None => false
  end.

(** The result of a launch whose inputs are applied. *)
Definition launch_result (execution_time : Z) (launch : RecordedKernelLaunch) (e : ReplayEngine)
    : ValidationResult :=
  if cf_validate_outputs (en_config e) then validate_kernel_output e launch execution_time
  else mkValidationResult (kl_sequence_id launch) (kl_kernel_name launch)
         (is_ok (execute_kernel e launch (remap_arguments e (kl_arguments launch)))) []
         (default 0 (kl_execution_duration_ns launch)) execution_time.

(** The step callback refuses to go on. *)
Definition callback_stops (e : ReplayEngine) (launch : RecordedKernelLaunch) (v : ValidationResult) : bool :=
  cf_step_mode (en_config e) &&
  match en_step_callback e with Some callback => negb (callback launch v) | None => false end.

(** Storing the result and going on to the next position. *)
Definition finish_launch (execution_time : Z) (launch : RecordedKernelLaunch)
    : stm ReplayEngine ReplayError (option ValidationResult) := fun e =>
  let v := launch_result execution_time launch e in
  let e := set_results (en_validation_results e ++ [v]) e in
  if callback_stops e launch v then (e, Ok (Some v))
  else (set_position (S (en_current_position e)) e, Ok (Some v)).

Definition replay_launch (execution_time : Z) (launch : RecordedKernelLaunch)
    : stm ReplayEngine ReplayError (option ValidationResult) :=
  stm_iter apply_snapshot (kl_input_memory launch);;
  finish_launch execution_time launch.

(** The recursion over skipped launches, on the launches that are left. *)
Fixpoint replay_rest (execution_time : Z) (rest : list RecordedKernelLaunch)
    : stm ReplayEngine ReplayError (option ValidationResult) := fun e =>
  match rest with
  | [] => (e, Ok None)
  | launch :: rest =>
      if filtered_out (en_config e) launch
      then replay_rest execution_time rest (set_position (S (en_current_position e)) e)
      else replay_launch execution_time launch e
  end.

Definition replay_next (execution_time : Z) : stm ReplayEngine ReplayError (option ValidationResult) := fun e =>
  if negb (en_initialized e) then (e, Err NotInitialized)
  else replay_rest execution_time (drop (en_current_position e) (tc_kernel_launches (en_trace e))) e.

(** ** Replaying all kernels *)
Definition add_result (r : ReplayResults) (v : ValidationResult) : ReplayResults :=
  mkReplayResults (rr_total_kernels r)
    (if vr_passed v then wrapping_add 64 (rr_passed_kernels r) 1 else rr_passed_kernels r)
    (if vr_passed v then rr_failed_kernels r else wrapping_add 64 (rr_failed_kernels r) 1)
    (wrapping_add 64 (rr_time_recorded_ns r) (vr_time_recorded v))
    (wrapping_add 64 (rr_time_replayed_ns r) (vr_time_replayed v)).

Definition max_reached (e : ReplayEngine) : bool :=
  match cf_max_kernels (en_config e) with
  | Some max => (max <=? en_current_position e)%nat
  | None => false
  end.

(** The [while] loop, [clock i] the time of its [i]-th kernel; [None] when the
    fuel runs out. *)
Fixpoint replay_loop (clock : nat -> Z) (fuel i : nat) (r : ReplayResults) (e : ReplayEngine)
    : option (ReplayEngine * outcome ReplayError ReplayResults) :=
  match fuel with
  | O => None
  | S fuel =>
      if is_complete e then Some (e, Ok r)
      else if max_reached e then Some (e, Ok r)
      else match replay_next (clock i) e with
           | (e, Ok (Some v)) => replay_loop clock fuel (S i) (add_result r v) e
           | (e, Ok None) => Some (e, Ok r)
           | (e, Err err) => Some (e, Err err)
           | (e, Panic) => Some (e, Panic)
           end
  end.

Definition replay_all_kernels (clock : nat -> Z) (fuel : nat) (s : ReplayEngine * Z)
    : option (ReplayEngine * Z * outcome ReplayError ReplayResults) :=
  match initialize s with
  | ((e, va), Ok _) =>
      '(e, r) ← replay_loop clock fuel 0 (mkReplayResults (Z.of_nat (total_kernels e)) 0 0 0 0) e;
      Some (e, va, r)
  | ((e, va), Err err) => Some (e, va, Err err)
  | ((e, va), Panic) => Some (e, va, Panic)
  end.

Definition reset (e : ReplayEngine) : ReplayEngine := set_results [] (set_position 0 e).

(** ** Seeking *)
Definition seek_allocations (e : ReplayEngine) : list (Z * Z) :=
  omap (fun a => (fun new_addr => (new_addr, ta_size a)) <$> en_address_map e !! ta_device_addr a)
    (tc_allocations (en_trace e)).

Definition restore_zero (entry : Z * Z) : stm ReplayEngine ReplayError unit := fun e =>
  let '(new_addr, size) := entry in
  match zeroed size with
  | Some data => (set_memory_state (<[new_addr := fresh_memory new_addr data]> (en_memory_state e)) e, Ok tt)
  | None => (e, Panic)
  end.

Definition seek (position : nat) : stm ReplayEngine ReplayError unit := fun e =>
  if decide (total_kernels e <= position)%nat then (e, Err (PositionOutOfRange position (total_kernels e)))
  else
    (stm_iter restore_zero (seek_allocations e);;
     stm_iter apply_snapshot
       (concat (kl_input_memory <$> take (S position) (tc_kernel_launches (en_trace e))));;
     (fun e => (set_position position e, Ok tt) : _ * outcome ReplayError unit) : stm ReplayEngine ReplayError unit)
    (set_memory_state ∅ e).

(** ** Inspection *)
Definition read_replayed (e : ReplayEngine) (original_addr : Z) : option (list Z) :=
  new_addr ← en_address_map e !! original_addr;
  rm_data <$> en_memory_state e !! new_addr.

Definition get_kernel_launch (e : ReplayEngine) (sequence_id : Z) : option RecordedKernelLaunch :=
  snd <$> list_find (fun l => kl_sequence_id l = sequence_id) (tc_kernel_launches (en_trace e)).

(** One region over the expected data of [diff_memory]: clipped to the data. *)
Definition expect_region (data : list Z) (region : DirtyRegion) : list Z :=
  let start := reg_offset region in
  let endp := Z.min (wrap 64 (start + reg_size region)) (Z.of_nat (length data)) in
  if decide (start <= endp /\ endp - start <= Z.of_nat (length (reg_data region)))
  then list_inserts (Z.to_nat start) (take (Z.to_nat (endp - start)) (reg_data region)) data
  else data.

(** [None] for a reference snapshot *)
Definition expected_data (s : MemorySnapshot) : outcome ReplayError (option (list Z)) :=
  match ms_snapshot_type s with
  | SnapFull => Ok (Some (default [] (ms_full_data s)))
  | SnapIncremental =>
      data ← unwrap (zeroed (ms_allocation_size s));
      Ok (Some (foldl expect_region data (default [] (ms_dirty_regions s))))
  | SnapReference _ => Ok None
  end.

Definition diff_memory (now : Z) (e : ReplayEngine) (original_addr : Z) (s : MemorySnapshot)
    : outcome ReplayError (list DirtyRegion) :=
  match read_replayed e original_addr with
  | None => Ok []
  | Some data =>
      expected ← expected_data s;
      match expected with
      | None => Ok []
      | Some expected =>
          detect_dirty_regions_static data expected
            (allocation_new now original_addr (Z.of_nat (length data)) AllocDevice)
      end
  end.

(** ** Hexadecimal text *)
Definition hex_digit (d : Z) : string :=
  match List.nth_error ["0"; "1"; "2"; "3"; "4"; "5"; "6"; "7"; "8"; "9"; "a"; "b"; "c"; "d"; "e"; "f"]%string
          (Z.to_nat d) with
  | Some s => s
  | None => ""
  end.

(** [n] digits *)
Fixpoint hex_fixed (n : nat) (z : Z) : string :=
  match n with
  | O => ""
  | S n => String.append (hex_fixed n (z / 16)) (hex_digit (z mod 16))
  end.

(** [{:0wx}]: at least [w] digits *)
Definition hex_padded (w : nat) (z : Z) : string :=
  hex_fixed (w `max` Z.to_nat (if decide (z = 0) then 1 else Z.log2 z / 4 + 1)) z.

(** [{:x}] *)
Definition hex (z : Z) : string := hex_padded 1 z.

(** [{:02x?}] of a byte slice *)
Definition hex_list (l : list Z) : string :=
  String.append "[" (String.append (join ", " (hex_padded 2 <$> l)) "]").

(** ** The memory diff report *)
Record DiffRegion : Type := mkDiffRegion {
  df_offset : Z;
  df_size : Z;
  df_expected_preview : string;
  df_actual_preview : string;
}.

Record MemoryDiffReport : Type := mkMemoryDiffReport {
  md_device_addr : Z;
  md_allocation_size : Z;
  md_num_differences : nat;
  md_bytes_different : Z;
  md_diff_regions : list DiffRegion;
}.

Definition preview (offset len : nat) (l : list Z) : string :=
  match slice offset (offset + len) l with Some s => hex_list s | None => "N/A" end.

Definition diff_region (actual expected : list Z) (region : DirtyRegion) : DiffRegion :=
  let preview_len := Z.to_nat (Z.min (reg_size region) 16) in
  let offset := Z.to_nat (reg_offset region) in
  mkDiffRegion (reg_offset region) (reg_size region) (preview offset preview_len expected)
    (preview offset preview_len actual).

Definition generate_memory_diff_report (now : Z) (e : ReplayEngine) (original_addr : Z) (expected : list Z)
    : outcome ReplayError (option MemoryDiffReport) :=
  match read_replayed e original_addr with
  | None => Ok None
  | Some actual =>
      let len := Z.of_nat (length actual) in
      regions ← detect_dirty_regions_static actual expected (allocation_new now original_addr len AllocDevice);
      let diffs := diff_region actual expected <$> regions in
      Ok (Some (mkMemoryDiffReport original_addr len (length diffs)
                  (foldl (fun n r => wrapping_add 64 n (reg_size r)) 0 regions) diffs))
  end.

(** ** Timeline *)
Record TimelineEntry : Type := mkTimelineEntry {
  te_sequence_id : Z;
  te_kernel_name : string;
  te_start_time_ns : Z;
  te_duration_ns : Z;
  te_grid_dim : launch_dim;
  te_block_dim : launch_dim;
  te_num_inputs : nat;
  te_num_outputs : nat;
  te_input_bytes : Z;
  te_output_bytes : Z;
  te_validation_status : option bool;
}.

Record AllocationEvent : Type := mkAllocationEvent {
  ae_event_type : string;
  ae_device_addr : Z;
  ae_size : Z;
  ae_timestamp_ns : Z;
}.

Record ExecutionTimeline : Type := mkExecutionTimeline {
  tl_source_backend : string;
  tl_device_name : string;
  tl_timestamp : Z;
  tl_total_time_ns : Z;
  tl_entries : list TimelineEntry;
  tl_allocations : list AllocationEvent;
}.

(** [{:?}] of a backend *)
Definition backend_debug (b : Backend) : string :=
  match b with
  | Nvidia => "Nvidia"
  | Amd => "Amd"
  | Intel => "Intel"
  | Tenstorrent => "Tenstorrent"
  | Virtual => "Virtual"
  end.

Definition sum_sizes (l : list MemorySnapshot) : Z :=
  foldl (fun n s => wrapping_add 64 n (ms_allocation_size s)) 0 l.

Definition timeline_entry (results : list ValidationResult) (l : RecordedKernelLaunch) : TimelineEntry :=
  mkTimelineEntry (kl_sequence_id l) (kl_kernel_name l) (kl_timestamp_ns l)
    (default 0 (kl_execution_duration_ns l)) (kl_grid_dim l) (kl_block_dim l)
    (length (kl_input_memory l)) (length (kl_output_memory l))
    (sum_sizes (kl_input_memory l)) (sum_sizes (kl_output_memory l))
    (vr_passed ∘ snd <$> list_find (fun r => vr_kernel_sequence r = kl_sequence_id l) results).

Definition generate_timeline (e : ReplayEngine) : ExecutionTimeline :=
  let t := en_trace e in
  let entries := timeline_entry (en_validation_results e) <$> tc_kernel_launches t in
  mkExecutionTimeline (backend_debug (th_source_backend (tc_header t))) (th_device_name (tc_header t))
    (th_timestamp (tc_header t))
    (foldl (fun m en => Z.max m (wrapping_add 64 (te_start_time_ns en) (te_duration_ns en))) 0 entries)
    entries
    ((fun a => mkAllocationEvent "alloc" (ta_device_addr a) (ta_size a) (ta_allocation_time a))
       <$> tc_allocations t).

(** The JSON text of a timeline is the [serde_json] crate's. *)
Definition export_timeline_json (timeline_chunks : ExecutionTimeline -> list (list Z)) (e : ReplayEngine)
    (path : string) : stm world ReplayError unit :=
  stm_map_err FailedToCreateFile (open_truncate path);;
  stm_map_err FailedToSerialize (write_and_drop path (timeline_chunks (generate_timeline e))).

(** ** Debug sessions *)
Inductive BreakpointType : Type :=
| BpKernelSequence (seq : Z)
| BpKernelName (name : string)
| BpMemoryAccess (addr : Z)
| BpKernelCount (count : Z).

Record Breakpoint : Type := mkBreakpoint {
  bp_type : BreakpointType;
  bp_enabled : bool;
  bp_hit_count : Z;
}.

Record DebugSession : Type := mkDebugSession {
  ds_engine : ReplayEngine;
  ds_breakpoints : list Breakpoint;
  ds_paused : bool;
  ds_last_result : option ValidationResult;
}.

Definition debug_new (e : ReplayEngine) : DebugSession := mkDebugSession e [] false None.

Definition add_breakpoint (b : BreakpointType) (d : DebugSession) : nat * DebugSession :=
  let bps := ds_breakpoints d ++ [mkBreakpoint b true 0] in
  ((length bps - 1)%nat, mkDebugSession (ds_engine d) bps (ds_paused d) (ds_last_result d)).

Definition remove_breakpoint (index : nat) (d : DebugSession) : bool * DebugSession :=
  if decide (index < length (ds_breakpoints d))%nat then
    (true, mkDebugSession (ds_engine d) (delete index (ds_breakpoints d)) (ds_paused d) (ds_last_result d))
  else (false, d).

Definition set_engine (e : ReplayEngine) (d : DebugSession) : DebugSession :=
  mkDebugSession e (ds_breakpoints d) (ds_paused d) (ds_last_result d).

Definition debug_step (t : Z) : stm DebugSession ReplayError (option ValidationResult) := fun d =>
  let '(e, r) := replay_next t (ds_engine d) in (set_engine e d, r).

Definition bp_matches (position : nat) (launch : RecordedKernelLaunch) (b : BreakpointType) : bool :=
  match b with
  | BpKernelSequence seq => kl_sequence_id launch =? seq
  | BpKernelName name => contains name (kl_kernel_name launch)
  | BpKernelCount count => count <=? Z.of_nat position
  | BpMemoryAccess addr =>
      existsb (fun arg => from_option (fun a => a =? addr) false (ka_device_addr arg)) (kl_arguments launch)
  end.

(** The first enabled breakpoint that matches is hit. *)
Fixpoint hit_first (position : nat) (launch : RecordedKernelLaunch) (bps : list Breakpoint)
    : option (list Breakpoint) :=
  match bps with
  | [] => None
  | bp :: rest =>
      if bp_enabled bp && bp_matches position launch (bp_type bp)
      then Some (mkBreakpoint (bp_type bp) (bp_enabled bp) (wrapping_add 64 (bp_hit_count bp) 1) :: rest)
      else cons bp <$> hit_first position launch rest
  end.

Definition current_kernel (d : DebugSession) : option RecordedKernelLaunch :=
  tc_kernel_launches (en_trace (ds_engine d)) !! en_current_position (ds_engine d).

Definition should_break (d : DebugSession) : bool * DebugSession :=
  match current_kernel d with
  | None => (false, d)
  | Some launch =>
      match hit_first (en_current_position (ds_engine d)) launch (ds_breakpoints d) with
      | Some bps => (true, mkDebugSession (ds_engine d) bps (ds_paused d) (ds_last_result d))
      | None => (false, d)
      end
  end.

Definition should_break_post (v : ValidationResult) : bool := negb (vr_passed v).

Definition pause (d : DebugSession) : DebugSession :=
  mkDebugSession (ds_engine d) (ds_breakpoints d) true (ds_last_result d).

(** The [loop], [None] when the fuel runs out. *)
Fixpoint continue_loop (clock : nat -> Z) (fuel i : nat) (d : DebugSession)
    : option (DebugSession * outcome ReplayError (option ValidationResult)) :=
  match fuel with
  | O => None
  | S fuel =>
      if is_complete (ds_engine d) then Some (d, Ok None)
      else
        let '(hit, d) := should_break d in
        if hit then Some (pause d, Ok (ds_last_result d))
        else match debug_step (clock i) d with
             | (d, Ok (Some v)) =>
                 let d := mkDebugSession (ds_engine d) (ds_breakpoints d) (ds_paused d) (Some v) in
                 if should_break_post v then Some (pause d, Ok (Some v))
                 else continue_loop clock fuel (S i) d
             | (d, r) => Some (d, r)
             end
  end.

Definition continue_execution (clock : nat -> Z) (fuel : nat) (d : DebugSession)
    : option (DebugSession * outcome ReplayError (option ValidationResult)) := continue_loop clock fuel 0 d.

(** ** The hex dump *)
Definition dump_byte (entry : nat * Z) : string :=
  let '(j, b) := entry in
  String.append (hex_padded 2 b) (if decide (j = 7%nat) then "  " else " ").

Definition dump_char (b : Z) : string :=
  if (0x20 <=? b) && (b <? 0x7f) then String (ascii_of_nat (Z.to_nat b)) "" else ".".

Definition dump_line (offset : nat) (entry : nat * list Z) : string :=
  let '(i, chunk) := entry in
  String.concat ""
    ([hex_padded 8 (Z.of_nat (offset + i * 16)); "  "]%string ++ (dump_byte <$> imap pair chunk) ++
     [" |"%string] ++ (dump_char <$> chunk) ++ [String.append "|" (String newline "")]).

(** [slice.chunks(16)] *)
Fixpoint chunks16 (fuel : nat) (l : list Z) : list (list Z) :=
  match fuel, l with
  | S fuel, _ :: _ => take 16 l :: chunks16 fuel (drop 16 l)
  | _, _ => []
  end.

Definition print_memory (d : DebugSession) (original_addr : Z) (offset len : nat) : option string :=
  data ← read_replayed (ds_engine d) original_addr;
  let endp := ((offset + len) `min` length data)%nat in
  if decide (length data <= offset)%nat then None
  else
    let sl := take (endp - offset) (drop offset data) in
    Some (String.concat ""
      (["Memory at 0x"; hex original_addr; "+0x"; hex (Z.of_nat offset); " ("; pretty (endp - offset)%nat;
        String.append " bytes):" (String newline "")]%string ++
       (dump_line offset <$> imap pair (chunks16 (length sl) sl)))).
