(* ===== verification/ReplaySpec.v ===== *)
(** * Snapshots are exact

    What a tracker captures, applied to the memory the previous captures built,
    gives the contents at the capture, for each of the three tracking methods. *)
From stdpp Require Import base numbers list strings gmap.
From Stdlib Require Import ZArith Lia.
From S2P Require Import Prelude HostIO RustStr Runtime Replay ReplayEngine.

Open Scope nat_scope.

(** ** Regions of a buffer *)

(** The region holds the bytes [offset..offset+size) of [current]. *)
Definition faithful (current : list Z) (r : DirtyRegion) : Prop :=
  exists lo hi, lo <= hi <= length current /\
    r = mkDirtyRegion (Z.of_nat lo) (Z.of_nat (hi - lo)) (take (hi - lo) (drop lo current)).

Definition covers (r : DirtyRegion) (i : nat) : Prop :=
  (reg_offset r <= Z.of_nat i < reg_offset r + reg_size r)%Z.

Lemma PAGE_SIZE_pos : 0 < PAGE_SIZE.
Proof. unfold PAGE_SIZE. lia. Qed.

Lemma region_of_ok current lo hi :
  lo <= hi <= length current ->
  exists r, dirty_region_of current lo hi = Ok r /\ faithful current r /\ forall i, lo <= i < hi -> covers r i.
Proof.
  intros H. unfold dirty_region_of, slice. rewrite decide_True by done. simpl.
  eexists; split; [done|]. split; [by exists lo, hi|]. unfold covers; simpl. lia.
Qed.

Lemma faithful_apply current r data :
  faithful current r -> length data = length current -> (Z.of_nat (length current) < 2 ^ 64)%Z ->
  exists data', apply_region r data = (data', Ok tt) /\ length data' = length current /\
    forall i, (covers r i -> data' !! i = current !! i) /\ (~ covers r i -> data' !! i = data !! i).
Proof.
  intros (lo & hi & Hle & ->) Hlen Hmax. unfold apply_region; simpl.
  rewrite wrap_small by lia. rewrite length_take, length_drop.
  rewrite decide_True by lia. rewrite decide_True by lia. rewrite Nat2Z.id.
  eexists; split; [done|]. split; [by rewrite length_inserts|].
  intros i. unfold covers; simpl. split; intros Hi.
  - rewrite lookup_inserts_in by (rewrite length_take, length_drop; lia).
    rewrite lookup_take_lt, lookup_drop by lia. f_equal. lia.
  - apply lookup_inserts_out. rewrite length_take, length_drop. lia.
Qed.

Lemma apply_regions_exact current rs :
  Forall (faithful current) rs -> (Z.of_nat (length current) < 2 ^ 64)%Z ->
  forall data, length data = length current ->
  (forall i, i < length current -> Exists (fun r => covers r i) rs \/ data !! i = current !! i) ->
  stm_iter apply_region rs data = (current, Ok tt).
Proof.
  intros Hrs Hmax. induction Hrs as [|r rs Hr Hrs IH]; intros data Hlen Hcov.
  - simpl. unfold mret, stm_ret. f_equal. apply list_eq_same_length with (length current); [done..|].
    intros i x y Hi Hx Hy. destruct (Hcov i Hi) as [H|H]; [by inversion H|]. congruence.
  - destruct (faithful_apply _ _ _ Hr Hlen Hmax) as (data' & Hap & Hlen' & Hd).
    simpl. rewrite (stm_bind_Ok _ _ _ _ _ Hap). apply IH; [done|].
    intros i Hi. destruct (Hcov i Hi) as [[H|H]%Exists_cons|H].
    + right. by apply Hd.
    + by left.
    + right. destruct (Hd i) as [Hc Hn].
      destruct (decide (reg_offset r <= Z.of_nat i < reg_offset r + reg_size r)%Z); [by apply Hc|].
      by rewrite Hn.
Qed.

(** ** The page loops *)

(** Both loops close a region at the first clean page after dirty ones. *)
Definition scan_inv (current : list Z) (dirty : nat -> bool) (k : nat) (st : region_state) : Prop :=
  let '(rs, open) := st in
  Forall (faithful current) rs /\
  (forall start, open = Some start -> start < k * PAGE_SIZE) /\
  forall i, i < k * PAGE_SIZE -> dirty (i / PAGE_SIZE) = true ->
    Exists (fun r => covers r i) rs \/ exists start, open = Some start /\ start <= i.

Lemma scan_inv_nil current dirty : scan_inv current dirty 0 ([], None).
Proof. split; [constructor|]. split; [done|]. intros i ?; lia. Qed.

Lemma page_of_lt i k : i < S k * PAGE_SIZE -> ~ i < k * PAGE_SIZE -> i / PAGE_SIZE = k.
Proof.
  pose proof PAGE_SIZE_pos. intros H1 H2.
  symmetry. apply Nat.div_unique with (i - k * PAGE_SIZE); lia.
Qed.

Lemma scan_dirty current dirty k rs open :
  scan_inv current dirty k (rs, open) -> dirty k = true ->
  scan_inv current dirty (S k) (rs, Some (default (k * PAGE_SIZE) open)).
Proof.
  pose proof PAGE_SIZE_pos. intros (Hf & Ho & Hc) Hd. split; [done|]. split.
  - intros start [= <-]. destruct open as [s|]; simpl; [specialize (Ho s eq_refl)|]; lia.
  - intros i Hi Hdi. destruct (decide (i < k * PAGE_SIZE)) as [Hlt|Hge].
    + destruct (Hc i Hlt Hdi) as [?|(s & -> & ?)]; [by left|]. right; simpl; eauto.
    + right. eexists; split; [done|]. destruct open as [s|]; simpl; [specialize (Ho s eq_refl)|]; lia.
Qed.

Lemma scan_clean_closed current dirty k rs :
  scan_inv current dirty k (rs, None) -> dirty k = false -> scan_inv current dirty (S k) (rs, None).
Proof.
  intros (Hf & Ho & Hc) Hd. split; [done|]. split; [done|].
  intros i Hi Hdi. apply Hc; [|done]. destruct (decide (i < k * PAGE_SIZE)) as [|Hge]; [done|].
  rewrite (page_of_lt i k Hi Hge) in Hdi. congruence.
Qed.

Lemma scan_clean_open current dirty k rs start r :
  scan_inv current dirty k (rs, Some start) -> dirty k = false ->
  faithful current r -> (forall i, start <= i < k * PAGE_SIZE -> covers r i) ->
  scan_inv current dirty (S k) (rs ++ [r], None).
Proof.
  intros (Hf & Ho & Hc) Hd Hr Hcov. split; [apply Forall_app; auto|]. split; [done|].
  intros i Hi Hdi. left. rewrite Exists_app.
  destruct (decide (i < k * PAGE_SIZE)) as [Hlt|Hge].
  - destruct (Hc i Hlt Hdi) as [?|(s & [= ->] & ?)]; [by left|].
    right. constructor. by apply Hcov.
  - rewrite (page_of_lt i k Hi Hge) in Hdi. congruence.
Qed.

Lemma close_region_ok current dirty n st :
  scan_inv current dirty n st -> (forall s, snd st = Some s -> s <= length current) ->
  exists rs, close_region current st = Ok rs /\ Forall (faithful current) rs /\
    forall i, i < length current -> i < n * PAGE_SIZE -> dirty (i / PAGE_SIZE) = true ->
    Exists (fun r => covers r i) rs.
Proof.
  destruct st as [rs [start|]]; intros (Hf & Ho & Hc) Hs; unfold close_region; simpl.
  - destruct (region_of_ok current start (length current)) as (r & -> & Hr & Hcov).
    { specialize (Hs start eq_refl). lia. }
    simpl. eexists; split; [done|]. split; [apply Forall_app; auto|].
    intros i Hi Hn Hd. rewrite Exists_app.
    destruct (Hc i Hn Hd) as [?|(s & [= ->] & ?)]; [by left|]. right. constructor. apply Hcov. lia.
  - eexists; split; [done|]. split; [done|]. intros i Hi Hn Hd.
    destruct (Hc i Hn Hd) as [?|(s & ? & ?)]; done.
Qed.

Definition open_inside (current : list Z) (st : region_state) : Prop :=
  forall s, snd st = Some s -> s < length current.

Lemma pages_of_spec (size : Z) (k : nat) :
  (0 <= size <= isize_max)%Z -> k < pages_of size <-> (Z.of_nat (k * PAGE_SIZE) < size)%Z.
Proof.
  unfold isize_max. intros Hs. unfold pages_of. rewrite wrap_small by lia.
  assert (HP : Z.of_nat PAGE_SIZE = 4096%Z) by (unfold PAGE_SIZE; lia).
  rewrite Nat2Z.inj_mul, HP.
  pose proof (Z.div_mod (size + 4096 - 1) 4096 ltac:(lia)).
  pose proof (Z.mod_pos_bound (size + 4096 - 1) 4096 ltac:(lia)).
  set (q := ((size + 4096 - 1) / 4096)%Z) in *. lia.
Qed.

Lemma foldM_seq {E B} (f : B -> nat -> outcome E B) (P : nat -> B -> Prop) m : forall k b,
  (forall j b, k <= j < k + m -> P j b -> exists b', f b j = Ok b' /\ P (S j) b') ->
  P k b -> exists b', foldM f b (seq k m) = Ok b' /\ P (k + m) b'.
Proof.
  induction m as [|m IH]; intros k b Hf Hb; simpl.
  - rewrite Nat.add_0_r. eauto.
  - destruct (Hf k b) as (b' & -> & Hb'); [lia|done|]. simpl.
    destruct (IH (S k) b') as (b2 & -> & H2); [|done|].
    + intros j b3 Hj. apply Hf. lia.
    + exists b2. split; [done|]. by replace (k + S m) with (S k + m) by lia.
Qed.

Section Loops.
Context (current : list Z) (a : TrackedAllocation).
Hypothesis Hsize : ta_size a = Z.of_nat (length current).
Hypothesis Hmax : (Z.of_nat (length current) <= isize_max)%Z.

Lemma page_inside k : k < num_pages a -> k * PAGE_SIZE < length current.
Proof. unfold num_pages. rewrite Hsize, pages_of_spec by lia. lia. Qed.

Lemma inside_page i : i < length current -> i < num_pages a * PAGE_SIZE.
Proof.
  intros Hi. pose proof PAGE_SIZE_pos.
  destruct (decide (i < num_pages a * PAGE_SIZE)) as [|Hge]; [done|].
  assert (~ num_pages a < num_pages a) by lia.
  exfalso; apply H0. unfold num_pages at 2. rewrite Hsize. apply pages_of_spec; lia.
Qed.

Lemma scan_page_step dirty k st :
  k < num_pages a -> scan_inv current dirty k st /\ open_inside current st ->
  exists st', scan_page current (dirty k) (k * PAGE_SIZE) st = Ok st' /\
    scan_inv current dirty (S k) st' /\ open_inside current st'.
Proof.
  intros Hk%page_inside [Hinv Ho]. destruct st as [rs open]. unfold scan_page.
  destruct (dirty k) eqn:Hd.
  - eexists; split; [done|]. split; [by apply scan_dirty|].
    intros s [= <-]. destruct open as [s'|]; simpl; [by apply Ho|lia].
  - destruct open as [start|].
    + destruct Hinv as (Hf & Hs & Hc). pose proof (Hs _ eq_refl).
      destruct (region_of_ok current start (k * PAGE_SIZE)) as (r & -> & Hr & Hcov); [lia|]. simpl.
      eexists; split; [done|]. split; [by eapply scan_clean_open|done].
    + eexists; split; [done|]. split; [by apply scan_clean_closed|done].
Qed.

(** The bitmap loop is the page scan with the bits as predicate. *)
Lemma bitmap_page_scan k st :
  k < num_pages a -> open_inside current st ->
  bitmap_page current a st k = scan_page current (is_page_dirty a k) (k * PAGE_SIZE) st.
Proof.
  intros Hk%page_inside Ho. destruct st as [rs open]. unfold bitmap_page, scan_page.
  destruct (is_page_dirty a k); [done|]. destruct open as [start|]; [|done].
  rewrite Nat.min_l by lia. unfold dirty_region_of. by destruct (slice start (k * PAGE_SIZE) current).
Qed.

Lemma bitmap_regions_ok :
  exists rs, bitmap_regions current a = Ok rs /\ Forall (faithful current) rs /\
    forall i, i < length current -> is_page_dirty a (i / PAGE_SIZE) = true -> Exists (fun r => covers r i) rs.
Proof.
  destruct (foldM_seq (bitmap_page current a)
    (fun k st => scan_inv current (is_page_dirty a) k st /\ open_inside current st) (num_pages a) 0 ([], None))
    as (st & Hst & Hinv & Ho).
  - intros k st Hk [Hinv Ho]. rewrite bitmap_page_scan by (done || lia). apply scan_page_step; [lia|done].
  - split; [apply scan_inv_nil|done].
  - destruct (close_region_ok current (is_page_dirty a) (num_pages a) st) as (rs & Hrs & Hf & Hc);
      [done|intros s Hs; apply Ho in Hs; lia|].
    exists rs. unfold bitmap_regions. rewrite Hst. simpl. split; [done|]. split; [done|].
    intros i Hi. apply Hc; [done|by apply inside_page].
Qed.

(** The page of [current] differs from the shadow's. *)
Definition page_differs (shadow : list Z) (k : nat) : bool :=
  bool_decide (take PAGE_SIZE (drop (k * PAGE_SIZE) current) <> take PAGE_SIZE (drop (k * PAGE_SIZE) shadow)).

Lemma slice_page (l : list Z) k :
  length l = length current -> k * PAGE_SIZE < length current ->
  slice (k * PAGE_SIZE) ((k * PAGE_SIZE + PAGE_SIZE) `min` length current) l
  = Some (take PAGE_SIZE (drop (k * PAGE_SIZE) l)).
Proof.
  intros Hl Hk. unfold slice. rewrite decide_True by lia. f_equal.
  destruct (decide (k * PAGE_SIZE + PAGE_SIZE <= length current)).
  - rewrite Nat.min_l by lia. f_equal. lia.
  - rewrite Nat.min_r by lia. rewrite !take_ge; [done|rewrite length_drop; lia..].
Qed.

Lemma shadow_loop_scan shadow pages st :
  length shadow = length current -> Forall (fun k => k < num_pages a) pages ->
  shadow_loop current shadow pages st =
  foldM (fun st k => scan_page current (page_differs shadow k) (k * PAGE_SIZE) st) st pages.
Proof.
  intros Hl Hp. revert st. induction Hp as [|k pages Hk Hp IH]; intros st; simpl; [done|].
  apply page_inside in Hk. rewrite decide_False by lia.
  rewrite !slice_page by done. simpl. unfold page_differs at 1.
  destruct (scan_page current _ _ st); simpl; [apply IH|done..].
Qed.

Lemma detect_ok shadow :
  length shadow = length current ->
  exists rs, detect_dirty_regions_static current shadow a = Ok rs /\ Forall (faithful current) rs /\
    forall i, i < length current -> Exists (fun r => covers r i) rs \/ shadow !! i = current !! i.
Proof.
  intros Hl.
  destruct (foldM_seq (fun st k => scan_page current (page_differs shadow k) (k * PAGE_SIZE) st)
    (fun k st => scan_inv current (page_differs shadow) k st /\ open_inside current st) (num_pages a) 0 ([], None))
    as (st & Hst & Hinv & Ho).
  - intros k st Hk Hi. apply scan_page_step; [lia|done].
  - split; [apply scan_inv_nil|done].
  - destruct (close_region_ok current (page_differs shadow) (num_pages a) st) as (rs & Hrs & Hf & Hc);
      [done|intros s Hs; apply Ho in Hs; lia|].
    exists rs. unfold detect_dirty_regions_static.
    rewrite shadow_loop_scan by (done || (apply Forall_forall; intros k Hk%elem_of_seq; lia)).
    rewrite Hst. simpl. split; [done|]. split; [done|].
    intros i Hi. destruct (page_differs shadow (i / PAGE_SIZE)) eqn:Hd.
    + left. apply Hc; [done|by apply inside_page|done].
    + right. apply bool_decide_eq_false, dec_stable in Hd.
      pose proof PAGE_SIZE_pos. pose proof (Nat.div_mod i PAGE_SIZE ltac:(lia)) as Hdm.
      pose proof (Nat.mod_upper_bound i PAGE_SIZE ltac:(lia)) as Hub.
      apply (f_equal (.!! (i mod PAGE_SIZE))) in Hd.
      rewrite !lookup_take_lt, !lookup_drop in Hd by done.
      replace (i / PAGE_SIZE * PAGE_SIZE + i mod PAGE_SIZE) with i in Hd by lia. done.
Qed.
End Loops.

(** ** Dirty bits *)
Definition bitmap_wf (a : TrackedAllocation) : Prop :=
  num_pages a <= 64 * length (ta_dirty_bitmap a) /\ Forall (fun w => 0 <= w < 2 ^ 64)%Z (ta_dirty_bitmap a).

Lemma shl_one b : b < 64 -> shl 1 (Z.of_nat b) = (2 ^ Z.of_nat b)%Z.
Proof.
  intros Hb. unfold shl. rewrite Z.shiftl_1_l. apply wrap_small. split; [lia|].
  apply Z.pow_lt_mono_r; lia.
Qed.

Lemma land_bit w b : b < 64 -> negb (Z.land w (shl 1 (Z.of_nat b)) =? 0)%Z = Z.testbit w (Z.of_nat b).
Proof.
  intros Hb. rewrite shl_one by done. destruct (Z.testbit w (Z.of_nat b)) eqn:Ht.
  - apply negb_true_iff, Z.eqb_neq. intros H0. apply (f_equal (fun z => Z.testbit z (Z.of_nat b))) in H0.
    rewrite Z.land_spec, Ht, Z.pow2_bits_true, Z.testbit_0_l in H0 by lia. done.
  - apply negb_false_iff, Z.eqb_eq, Z.bits_inj_0. intros i. rewrite Z.land_spec.
    destruct (decide (i = Z.of_nat b)) as [->|]; [by rewrite Ht|].
    rewrite Z.pow2_bits_false by lia. apply andb_false_r.
Qed.

Lemma is_page_dirty_bit a p word :
  p < num_pages a -> ta_dirty_bitmap a !! (p / 64) = Some word ->
  is_page_dirty a p = Z.testbit word (Z.of_nat (p mod 64)).
Proof.
  intros Hp Hw. unfold is_page_dirty. rewrite decide_False by lia. rewrite Hw.
  apply land_bit. apply Nat.mod_upper_bound. lia.
Qed.

Lemma bitmap_word a p : bitmap_wf a -> p < num_pages a -> is_Some (ta_dirty_bitmap a !! (p / 64)).
Proof.
  intros [Hl _] Hp. apply lookup_lt_is_Some. apply Nat.Div0.div_lt_upper_bound. lia.
Qed.

Lemma mark_page_dirty_size p a : ta_size (mark_page_dirty p a) = ta_size a.
Proof. unfold mark_page_dirty. case_decide; [|done]. by case_match. Qed.

Lemma mark_page_dirty_wf p a : bitmap_wf a -> bitmap_wf (mark_page_dirty p a).
Proof.
  intros [Hl Hw]. unfold mark_page_dirty. case_decide as Hp; [|done].
  destruct (_ !! _) as [word|] eqn:Hword; [|done]. split; simpl.
  - rewrite length_insert. done.
  - apply Forall_insert; [done|]. apply lor_u64; [exact (Forall_lookup_1 _ _ _ _ Hw Hword)|].
    unfold shl. apply wrap_range. lia.
Qed.

Lemma mark_page_dirty_bits p q a :
  bitmap_wf a -> is_page_dirty a q = true \/ (p = q /\ p < num_pages a) -> is_page_dirty (mark_page_dirty p a) q = true.
Proof.
  intros Hwf H. unfold mark_page_dirty. case_decide as Hp; [|destruct H as [H|[-> H]]; [done|lia]].
  destruct (bitmap_word a p Hwf Hp) as [word Hword]. rewrite Hword.
  assert (Hq : q < num_pages a).
  { destruct H as [H|[-> H]]; [|done]. unfold is_page_dirty in H. case_decide; [done|]. lia. }
  destruct (bitmap_word a q Hwf Hq) as [wq Hwq].
  assert (Hm : p mod 64 < 64) by (apply Nat.mod_upper_bound; lia).
  destruct (decide (p / 64 = q / 64)) as [Heq|Hne].
  - rewrite Heq in Hword. rewrite Hwq in Hword. injection Hword as ->.
    erewrite is_page_dirty_bit; [|done|cbn [ta_dirty_bitmap set_bitmap]; rewrite Heq; eapply list_lookup_insert_eq, lookup_lt_Some; exact Hwq].
    rewrite Z.lor_spec, shl_one by done. destruct H as [H|[-> H]].
    + rewrite (is_page_dirty_bit a q _ Hq Hwq) in H. by rewrite H.
    + rewrite Z.pow2_bits_true by lia. apply orb_true_r.
  - destruct H as [H|[-> H]]; [|done].
    erewrite is_page_dirty_bit; [|done|cbn [ta_dirty_bitmap set_bitmap]; by rewrite list_lookup_insert_ne].
    by rewrite (is_page_dirty_bit a q wq) in H.
Qed.

Lemma mark_pages ps a :
  bitmap_wf a -> let a' := foldl (fun a page => mark_page_dirty page a) a ps in
  bitmap_wf a' /\ ta_size a' = ta_size a /\
  forall q, is_page_dirty a q = true \/ (q ∈ ps /\ q < num_pages a) -> is_page_dirty a' q = true.
Proof.
  revert a. induction ps as [|p ps IH]; intros a Hwf; simpl.
  - split; [done|]. split; [done|]. intros q [?|[?%elem_of_nil ?]]; done.
  - destruct (IH (mark_page_dirty p a)) as (H1 & H2 & H3); [by apply mark_page_dirty_wf|].
    rewrite mark_page_dirty_size in H2. split; [done|]. split; [done|].
    assert (Hn : num_pages (mark_page_dirty p a) = num_pages a)
      by (unfold num_pages; by rewrite mark_page_dirty_size).
    intros q Hq. apply H3. rewrite Hn. destruct Hq as [Hq|[[->|Hq]%elem_of_cons Hlt]].
    + left. apply mark_page_dirty_bits; auto.
    + left. apply mark_page_dirty_bits; auto.
    + auto.
Qed.

Lemma mark_all_dirty_bits a p : bitmap_wf a -> p < num_pages a -> is_page_dirty (mark_all_dirty a) p = true.
Proof.
  intros Hwf Hp. destruct (bitmap_word a p Hwf Hp) as [w Hw].
  erewrite is_page_dirty_bit; [|done|cbn [ta_dirty_bitmap set_bitmap mark_all_dirty]; rewrite list_lookup_fmap, Hw; done].
  assert (p mod 64 < 64) by (apply Nat.mod_upper_bound; lia).
  change u64_max with (Z.ones 64). apply Z.ones_spec_low. lia.
Qed.

Lemma allocation_new_wf now addr size ty : bitmap_wf (allocation_new now addr size ty).
Proof.
  split; unfold num_pages, allocation_new; cbn [ta_size ta_dirty_bitmap].
  - rewrite repeat_length.
    pose proof (Nat.div_mod (pages_of size + 63) 64 ltac:(lia)).
    pose proof (Nat.mod_upper_bound (pages_of size + 63) 64 ltac:(lia)). lia.
  - apply Forall_forall. intros x Hx%list_elem_of_In%repeat_spec. subst. lia.
Qed.

Lemma map_const_wf c a :
  (0 <= c < 2 ^ 64)%Z -> bitmap_wf a -> bitmap_wf (set_bitmap ((fun _ => c) <$> ta_dirty_bitmap a) a).
Proof.
  intros Hc [Hl Hw]. split; simpl; [by rewrite length_fmap|].
  apply Forall_fmap. eapply Forall_impl; [done|]. done.
Qed.

(** ** Capturing *)

(** Allocation [addr] of the tracker, its device contents [mem], and the
    contents [last] at its last capture (zeros before the first). *)
Inductive tracked (t : DirtyPageTracker) (addr : Z) (mem last : list Z) : Prop :=
| mkTracked (a : TrackedAllocation)
    (found : dt_allocations t !! addr = Some a)
    (size : ta_size a = Z.of_nat (length mem))
    (max : (Z.of_nat (length mem) <= isize_max)%Z)
    (same_length : length last = length mem)
    (bitmap : bitmap_wf a)
    (method :
       match dt_method t with
       | FullDump => True
       | SoftwareShadow => ta_shadow_copy a = Some last
       | Checksum => forall i, i < length mem -> is_page_dirty a (i / PAGE_SIZE) = true \/ last !! i = mem !! i
       end).

Lemma list_inserts_whole (full data : list Z) : length full = length data -> list_inserts 0 full data = full.
Proof.
  intros Hl. apply list_eq_same_length with (length full); [done|by rewrite length_inserts|].
  intros i x y Hi Hx Hy. rewrite lookup_inserts_in, Nat.sub_0_r in Hx by lia. congruence.
Qed.

Lemma incremental_apply id addr size rs current data :
  Forall (faithful current) rs -> (Z.of_nat (length current) <= isize_max)%Z -> length data = length current ->
  (forall i, i < length current -> Exists (fun r => covers r i) rs \/ data !! i = current !! i) ->
  apply_to_data (snapshot_incremental id addr size rs) data = (current, Ok tt).
Proof.
  intros Hrs Hmax Hl Hc. unfold apply_to_data, snapshot_incremental.
  cbn [ms_snapshot_type ms_dirty_regions default].
  apply apply_regions_exact; [done|unfold isize_max in Hmax; lia|done|done].
Qed.

Lemma no_regions_equal (current data : list Z) :
  length data = length current ->
  (forall i, i < length current -> Exists (fun r => covers r i) [] \/ data !! i = current !! i) -> data = current.
Proof.
  intros Hl Hc. apply list_eq_same_length with (length current); [done..|].
  intros i x y Hi Hx Hy. destruct (Hc i Hi) as [H|H]; [by inversion H|]. congruence.
Qed.

(** A capture turns the contents of the last capture into the current ones. *)
Lemma capture_exact t addr mem last :
  tracked t addr mem last ->
  exists s t', capture_snapshot addr (fun _ _ => Some mem) t = (t', Ok (Some s)) /\
    ms_device_addr s = addr /\ apply_to_data s last = (mem, Ok tt) /\ tracked t' addr mem mem.
Proof.
  intros [a Hf Hs Hm Hl Hb Hmeth]. unfold capture_snapshot.
  cbn [next_snapshot_id dt_allocations dt_method]. rewrite Hf. destruct (dt_method t) eqn:Hmt.
  - do 2 eexists. split; [done|]. split; [done|]. split.
    + unfold apply_to_data; simpl. rewrite decide_True by lia. by rewrite list_inserts_whole.
    + apply (mkTracked _ _ _ _ a); simpl; try done; by rewrite Hmt.
  - rewrite Hmeth. destruct (detect_ok mem a Hs Hm last Hl) as (rs & -> & Hrs & Hc).
    destruct rs as [|r rs].
    + pose proof (no_regions_equal mem last Hl Hc) as ->.
      do 2 eexists. split; [done|]. split; [done|]. split; [done|].
      apply (mkTracked _ _ _ _ a); simpl; try done; by rewrite Hmt.
    + do 2 eexists. split; [done|]. split; [done|]. split; [by apply incremental_apply|].
      eapply mkTracked; simpl; [apply lookup_insert_eq|..]; try done.
      by apply (map_const_wf 0 a).
  - destruct (bitmap_regions_ok mem a Hs Hm) as (rs & -> & Hrs & Hc).
    assert (Hc' : forall i, i < length mem -> Exists (fun r => covers r i) rs \/ last !! i = mem !! i).
    { intros i Hi. destruct (Hmeth i Hi); [left|right]; auto. }
    do 2 eexists. split; [done|]. split; [by destruct rs|]. split.
    + destruct rs as [|r rs]; [|by apply incremental_apply].
      by pose proof (no_regions_equal mem last Hl Hc') as ->.
    + eapply mkTracked; simpl; [apply lookup_insert_eq|..]; try done.
      * by apply (map_const_wf 0 a).
      * by right.
Qed.

(** ** Writes between captures *)
Definition no_overlap (addr size : Z) (entry : Z * TrackedAllocation) : Prop :=
  let '(b, a) := entry in
  (0 <= b + ta_size a)%Z /\ ((b + ta_size a <= addr)%Z \/ (addr + size <= b)%Z).

Definition others_apart (t : DirtyPageTracker) (addr size : Z) : Prop :=
  forall b a, dt_allocations t !! b = Some a -> b <> addr -> no_overlap addr size (b, a).

Lemma no_overlap_holds addr size x entry :
  no_overlap addr size entry -> (addr <= x < addr + size)%Z -> holds_address x entry = false.
Proof.
  destruct entry as [b a]; simpl. intros [H0 H] Hx. apply andb_false_iff.
  destruct H as [H|H]; [right|left; apply Z.leb_gt; lia].
  apply Z.ltb_ge. assert (wrap 64 (b + ta_size a) <= b + ta_size a)%Z; [|lia].
  apply Z.mod_le; lia.
Qed.

Section Writes.
Context `{AllocationOrder}.

Lemma mark_dirty_found t addr size a x n :
  dt_allocations t !! addr = Some a -> ta_size a = size -> (0 <= addr)%Z -> (addr + size < 2 ^ 64)%Z ->
  others_apart t addr size -> (addr <= x < addr + size)%Z ->
  mark_dirty x n t =
  set_allocation addr (foldl (fun a page => mark_page_dirty page a) a (dirty_page_range (x - addr) n a)) t.
Proof.
  intros Hf Hs H0 Hmax Hap Hx. unfold mark_dirty.
  assert (Hin : (addr, a) ∈ alloc_iter (dt_allocations t)).
  { rewrite alloc_iter_perm. by apply elem_of_map_to_list. }
  destruct (list_find _ _) as [[j [b a']]|] eqn:Hfind.
  - apply list_find_Some in Hfind as (Hj & Hh & _).
    apply list_elem_of_lookup_2 in Hj. rewrite alloc_iter_perm in Hj.
    apply elem_of_map_to_list in Hj. destruct (decide (b = addr)) as [->|Hne].
    + by rewrite Hf in Hj; injection Hj as <-.
    + rewrite (no_overlap_holds addr size) in Hh; [done|by apply Hap|done].
  - apply list_find_None in Hfind. rewrite Forall_forall in Hfind. exfalso.
    apply (Hfind _ Hin). unfold holds_address. rewrite wrap_small by lia.
    apply andb_true_iff. rewrite Z.leb_le, Z.ltb_lt. lia.
Qed.

Lemma dirty_page_range_spec off n a i :
  (Z.of_nat (off + n) <= ta_size a <= isize_max)%Z -> off <= i < off + n ->
  i / PAGE_SIZE ∈ dirty_page_range (Z.of_nat off) (Z.of_nat n) a /\ i / PAGE_SIZE < num_pages a.
Proof.
  unfold isize_max. intros Hs Hi. pose proof PAGE_SIZE_pos as HP.
  assert (HP' : Z.of_nat PAGE_SIZE = 4096%Z) by (unfold PAGE_SIZE; lia).
  assert (Hlt : i / PAGE_SIZE < num_pages a).
  { apply pages_of_spec; [unfold isize_max; lia|].
    pose proof (Nat.div_mod i PAGE_SIZE ltac:(lia)). nia. }
  split; [|done]. unfold dirty_page_range. rewrite !wrap_small by (rewrite ?wrap_small; lia).
  apply elem_of_seq.
  assert (Hd : Z.of_nat (i / PAGE_SIZE) = (Z.of_nat i / 4096)%Z) by (rewrite Nat2Z.inj_div, HP'; done).
  assert (Z.of_nat off / 4096 <= Z.of_nat i / 4096)%Z by (apply Z.div_le_mono; lia).
  assert (Z.of_nat i / 4096 < (Z.of_nat off + Z.of_nat n + 4096 - 1) / 4096)%Z.
  { pose proof (Z.div_mod (Z.of_nat i) 4096 ltac:(lia)).
    pose proof (Z.mod_pos_bound (Z.of_nat i) 4096 ltac:(lia)).
    apply Z.lt_le_trans with (Z.of_nat i / 4096 + 1)%Z; [lia|].
    apply Z.div_le_lower_bound; lia. }
  assert (0 <= Z.of_nat off / 4096)%Z by (apply Z.div_pos; lia). lia.
Qed.

Lemma write_tracked t addr mem last off data :
  tracked t addr mem last -> others_apart t addr (Z.of_nat (length mem)) ->
  (0 <= addr)%Z -> (addr + Z.of_nat (length mem) < 2 ^ 64)%Z ->
  data <> [] -> off + length data <= length mem ->
  let t' := mark_dirty (addr + Z.of_nat off) (Z.of_nat (length data)) t in
  tracked t' addr (list_inserts off data mem) last /\ others_apart t' addr (Z.of_nat (length mem)).
Proof.
  intros [a Hf Hs Hm Hl Hb Hmeth] Hap H0 Hmax Hne Hoff. simpl.
  assert (0 < length data) by (destruct data; simpl; [done|lia]).
  rewrite (mark_dirty_found t addr (Z.of_nat (length mem)) a) by (done || lia).
  replace (addr + Z.of_nat off - addr)%Z with (Z.of_nat off) by lia.
  set (ps := dirty_page_range _ _ a).
  destruct (mark_pages ps a Hb) as (Hb' & Hs' & Hd'). split.
  - eapply mkTracked; simpl; [apply lookup_insert_eq|..]; rewrite ?length_inserts; try done.
    + by rewrite Hs'.
    + destruct (dt_method t) eqn:Hmt; [done| |].
      * assert (Hsh : forall ps a, ta_shadow_copy (foldl (fun a page => mark_page_dirty page a) a ps) = ta_shadow_copy a).
        { clear. induction ps as [|p ps IH]; intros a; simpl; [done|]. rewrite IH.
          unfold mark_page_dirty. case_decide; [|done]. by case_match. }
        by rewrite Hsh.
      * intros i Hi. destruct (decide (off <= i < off + length data)) as [Hin|Hout].
        -- left. apply Hd'. right. apply dirty_page_range_spec; [rewrite Hs; lia|done].
        -- rewrite lookup_inserts_out by lia. destruct (Hmeth i Hi); [left|right; done]. apply Hd'. by left.
  - intros b a' Hb2 Hne'. simpl in Hb2. rewrite lookup_insert_ne in Hb2 by done. by apply Hap.
Qed.
End Writes.

(** ** A history of writes and captures of one allocation *)
Inductive device_event : Type :=
| DevWrite (off : nat) (data : list Z)
| DevCapture.

Definition event_inside (len : nat) (ev : device_event) : Prop :=
  match ev with
  | DevWrite off data => data <> [] /\ off + length data <= len
  | DevCapture => True
  end.

Section Observe.
Context `{AllocationOrder}.

(** The snapshots taken, each with the device contents at its capture; a write
    is reported to the tracker. *)
Fixpoint observe (addr : Z) (evs : list device_event) (t : DirtyPageTracker) (mem : list Z)
    : option (list (MemorySnapshot * list Z)) :=
  match evs with
  | [] => Some []
  | DevWrite off data :: evs =>
      observe addr evs (mark_dirty (addr + Z.of_nat off) (Z.of_nat (length data)) t) (list_inserts off data mem)
  | DevCapture :: evs =>
      match capture_snapshot addr (fun _ _ => Some mem) t with
      | (t, Ok (Some s)) => cons (s, mem) <$> observe addr evs t mem
      | _ => None
      end
  end.

Lemma apply_snapshot_data e s last mem :
  read_replayed e (ms_device_addr s) = Some last -> apply_to_data s last = (mem, Ok tt) ->
  exists e', apply_snapshot s e = (e', Ok tt) /\ read_replayed e' (ms_device_addr s) = Some mem.
Proof.
  unfold read_replayed, apply_snapshot. intros Hr Ha.
  destruct (en_address_map e !! _) as [n|] eqn:Hn; simpl in *; [|done].
  destruct (en_memory_state e !! n) as [m|]; simpl in *; [|done].
  injection Hr as ->. rewrite Ha. eexists; split; [done|]. simpl. rewrite Hn. simpl.
  by rewrite lookup_insert_eq.
Qed.

Lemma capture_keeps_others t addr size read t' r :
  capture_snapshot addr read t = (t', r) -> others_apart t addr size -> others_apart t' addr size.
Proof.
  intros Hc Hap b a Hb Hne. apply Hap; [|done].
  assert (forall x, dt_allocations (set_allocation addr x t) !! b = Some a -> dt_allocations t !! b = Some a) as Hset.
  { intros x Hx. simpl in Hx. by rewrite lookup_insert_ne in Hx. }
  revert Hc. unfold capture_snapshot. simpl.
  repeat case_match; intros ?; simplify_eq; simpl in *; rewrite ?lookup_insert_ne in Hb; done.
Qed.

Lemma observe_replays addr len evs : (0 <= addr)%Z -> (addr + Z.of_nat len < 2 ^ 64)%Z ->
  Forall (event_inside len) evs -> forall t mem last,
  length mem = len -> tracked t addr mem last -> others_apart t addr (Z.of_nat len) ->
  exists obs, observe addr evs t mem = Some obs /\
    forall n s c, obs !! n = Some (s, c) -> forall e, read_replayed e addr = Some last ->
    exists e', stm_iter apply_snapshot (fst <$> take (S n) obs) e = (e', Ok tt) /\ read_replayed e' addr = Some c.
Proof.
  intros H0 Hmax Hevs. induction Hevs as [|[off data|] evs Hev Hevs IH]; intros t mem last Hlen Ht Hap.
  - exists []. split; [done|]. intros n s c Hn. by rewrite lookup_nil in Hn.
  - destruct Hev as [Hne Hin]. rewrite <- Hlen in *.
    destruct (write_tracked t addr mem last off data) as [Ht' Hap']; try done.
    apply (IH _ (list_inserts off data mem) last); [by rewrite length_inserts|done|done].
  - destruct (capture_exact _ _ _ _ Ht) as (s & t' & Hc & Haddr & Hap1 & Ht').
    destruct (IH t' mem mem Hlen Ht') as (obs & Hobs & Hall); [by eapply capture_keeps_others|].
    exists ((s, mem) :: obs). simpl. rewrite Hc, Hobs. split; [done|].
    intros n s' c Hn e He. rewrite <- Haddr in He |- *.
    destruct (apply_snapshot_data e s last mem He Hap1) as (e1 & He1 & Hr1).
    simpl. rewrite (stm_bind_Ok _ _ _ _ _ He1). destruct n as [|n].
    + injection Hn as -> ->. rewrite take_0. eauto.
    + rewrite Haddr in *. by apply (Hall n s').
Qed.

Lemma track_allocation_tracked now addr (mem : list Z) ty t t' :
  (Z.of_nat (length mem) <= isize_max)%Z ->
  track_allocation now addr (Z.of_nat (length mem)) ty t = (t', Ok tt) ->
  tracked t' addr mem (repeat 0%Z (length mem)).
Proof.
  intros Hmax. unfold track_allocation. set (a := allocation_new _ _ _ _).
  assert (Hwf : bitmap_wf a) by apply allocation_new_wf.
  unfold zeroed. rewrite (decide_True _ _ Hmax), Nat2Z.id.
  destruct (decide _) as [Hm|Hm]; intros [= <-];
    (eapply mkTracked; cbn [dt_allocations set_allocation dt_method]; [apply lookup_insert_eq|..];
     rewrite ?repeat_length; try done;
     [by apply (map_const_wf u64_max)|]).
  - by rewrite Hm.
  - destruct (dt_method t); [done..|]. intros i Hi. left. apply mark_all_dirty_bits; [done|].
    pose proof PAGE_SIZE_pos. change (i / PAGE_SIZE < pages_of (Z.of_nat (length mem))).
    apply pages_of_spec; [lia|].
    pose proof (Nat.div_mod i PAGE_SIZE ltac:(lia)). nia.
Qed.

(** [C21] Whatever the tracking method, the order the hash map is visited in and
    the other allocations, if an allocation that is tracked with the contents
    [mem] is written and captured any number of times, every capture succeeds,
    and a replay that applies the first [n+1] snapshots over zeros holds exactly
    what the device held at capture [n]. *)
Theorem snapshots_rebuild_memory now addr ty (mem : list Z) evs t0 t :
  (0 <= addr)%Z -> (addr + Z.of_nat (length mem) < 2 ^ 64)%Z -> (Z.of_nat (length mem) <= isize_max)%Z ->
  track_allocation now addr (Z.of_nat (length mem)) ty t0 = (t, Ok tt) ->
  others_apart t addr (Z.of_nat (length mem)) -> Forall (event_inside (length mem)) evs ->
  exists obs, observe addr evs t mem = Some obs /\
    forall n s c, obs !! n = Some (s, c) ->
    forall e, read_replayed e addr = Some (repeat 0%Z (length mem)) ->
    exists e', stm_iter apply_snapshot (fst <$> take (S n) obs) e = (e', Ok tt) /\ read_replayed e' addr = Some c.
Proof.
  intros H0 Hmax Hm Ht Hap Hevs.
  apply (observe_replays addr (length mem)); try done. by eapply track_allocation_tracked.
Qed.
End Observe.

#[local] Instance map_order : AllocationOrder := {| alloc_iter := map_to_list; alloc_iter_perm := fun m => reflexivity _ |}.

Definition sample_tracker : DirtyPageTracker :=
  fst (track_allocation 0 0x7000 12 AllocDevice (tracker_new Checksum)).

Lemma snapshots_rebuild_memory_witness :
  exists obs, observe 0x7000 [DevWrite 2 [5%Z; 6%Z]; DevCapture; DevCapture; DevWrite 0 [1%Z]; DevCapture]
                sample_tracker (repeat 9%Z 12) = Some obs /\
    forall n s c, obs !! n = Some (s, c) ->
    forall e, read_replayed e 0x7000 = Some (repeat 0%Z 12) ->
    exists e', stm_iter apply_snapshot (fst <$> take (S n) obs) e = (e', Ok tt) /\ read_replayed e' 0x7000 = Some c.
Proof.
  apply (snapshots_rebuild_memory 0 0x7000 AllocDevice (repeat 9%Z 12) _ (tracker_new Checksum) sample_tracker);
    [lia|vm_compute; done|vm_compute; done|vm_compute; done| |].
  - intros b a Hb Hne. exfalso. unfold sample_tracker in Hb. simpl in Hb.
    by rewrite lookup_insert_ne, lookup_empty in Hb.
  - repeat constructor; simpl; try done; lia.
Defined.
