(* ===== verification/ReplayRun.v ===== *)
(** * What a replay does

    The memory of an engine as a function of the snapshots applied; seeking
    equals replaying; allocations get disjoint addresses; the loop over all
    kernels ends and counts every kernel; and where validation falls short. *)
From stdpp Require Import base numbers list strings gmap.
From Stdlib Require Import ZArith Lia.
From S2P Require Import Prelude HostIO RustStr Runtime Replay ReplayEngine.

Open Scope Z_scope.

(** ** Applying snapshots changes the memory only *)
Abbreviation memory := (gmap Z ReconstructedMemory).

Definition apply_mem (am : gmap Z Z) (s : MemorySnapshot) : stm memory ReplayError unit := fun ms =>
  match am !! ms_device_addr s with
  | None => (ms, Err (NoAddressMapping (ms_device_addr s)))
  | Some n =>
      match ms !! n with
      | None => (ms, Err (NoMemoryState n))
      | Some m =>
          let '(data, r) := apply_to_data s (rm_data m) in
          (<[n := mkReconstructedMemory (rm_device_addr m) data
                    (if is_ok r then ms_snapshot_id s else rm_last_snapshot_id m)]> ms, r)
      end
  end.

Lemma set_memory_state_id e : set_memory_state (en_memory_state e) e = e.
Proof. by destruct e. Qed.

Lemma apply_snapshot_mem s e :
  apply_snapshot s e =
  let '(ms, r) := apply_mem (en_address_map e) s (en_memory_state e) in (set_memory_state ms e, r).
Proof.
  unfold apply_snapshot, apply_mem. destruct (_ !! _) as [n|]; [|by rewrite set_memory_state_id].
  destruct (_ !! _) as [m|]; [|by rewrite set_memory_state_id].
  by destruct (apply_to_data s (rm_data m)) as [data [[]| |]].
Qed.

Lemma iter_apply_mem ss e :
  stm_iter apply_snapshot ss e =
  let '(ms, r) := stm_iter (apply_mem (en_address_map e)) ss (en_memory_state e) in (set_memory_state ms e, r).
Proof.
  revert e. induction ss as [|s ss IH]; intros e; simpl.
  - unfold mret, stm_ret. by rewrite set_memory_state_id.
  - unfold mbind, stm_bind. rewrite apply_snapshot_mem.
    destruct (apply_mem _ s _) as [ms [[]| |]]; [|done..]. rewrite IH.
    by destruct (stm_iter _ ss _).
Qed.

Lemma stm_iter_app {S E A} (f : A -> stm S E unit) l1 l2 s :
  stm_iter f (l1 ++ l2) s = (stm_iter f l1;; stm_iter f l2) s.
Proof.
  revert s. induction l1 as [|a l1 IH]; intros s; simpl; [done|].
  unfold mbind, stm_bind in *. destruct (f a s) as [s' [[]| |]]; [|done..]. apply IH.
Qed.

(** ** Two runs on memories of the same shape

    Every byte is either set by the snapshots, to the same value in both runs,
    or kept in both. *)
Definition same_shape (ms ms' : memory) : Prop :=
  forall n, match ms !! n, ms' !! n with
            | Some m, Some m' => length (rm_data m) = length (rm_data m') /\ rm_device_addr m = rm_device_addr m'
            | None, None => True
            | _, _ => False
            end.

(** Reading a byte, or the last snapshot id at [None]. *)
Definition cell (ms : memory) (n : Z) (i : option nat) : option Z :=
  m ← ms !! n;
  match i with Some i => rm_data m !! i | None => Some (rm_last_snapshot_id m) end.

Definition set_or_kept {A} (x y x' y' : A) : Prop := y = y' \/ (y = x /\ y' = x').

Lemma set_or_kept_trans {A} (x y z x' y' z' : A) :
  set_or_kept x y x' y' -> set_or_kept y z y' z' -> set_or_kept x z x' z'.
Proof. intros [->|[-> ->]] [->|[-> ->]]; unfold set_or_kept; auto. Qed.

(** What [apply_region] and [apply_to_data] do to two buffers of equal length. *)
Definition uniform (f : stm (list Z) ReplayError unit) : Prop :=
  forall d d', length d = length d' ->
  snd (f d) = snd (f d') /\ length (fst (f d)) = length d /\ length (fst (f d')) = length d' /\
  forall i, set_or_kept (d !! i) (fst (f d) !! i) (d' !! i) (fst (f d') !! i).

Lemma uniform_inserts lo (src d d' : list Z) i :
  length d = length d' ->
  set_or_kept (d !! i) (list_inserts lo src d !! i) (d' !! i) (list_inserts lo src d' !! i).
Proof.
  intros Hl. destruct (decide (lo <= i < lo + length src /\ i < length d)%nat) as [[Hi Hd]|Hi].
  - left. rewrite !list_lookup_inserts by lia. done.
  - right. destruct (decide (lo <= i < lo + length src)%nat).
    + split; rewrite !lookup_ge_None_2; rewrite ?length_inserts; try lia; done.
    + by rewrite !lookup_inserts_out by lia.
Qed.

Lemma uniform_keep r : uniform (fun d => (d, r)).
Proof. intros d d' Hl; simpl. repeat split; try done. by right. Qed.

Lemma uniform_bind f g : uniform f -> uniform g -> uniform (f;; g).
Proof.
  intros Hf Hg d d' Hl. unfold mbind, stm_bind.
  specialize (Hf d d' Hl). destruct (f d) as [e r], (f d') as [e' r']; simpl in Hf.
  destruct Hf as (<- & Hle & Hle' & Hc).
  destruct r as [[]|err|]; [|by simpl..].
  destruct (Hg e e') as (Hr & Hle2 & Hle2' & Hc2); [congruence|].
  repeat split; try congruence. intros i. by eapply set_or_kept_trans.
Qed.

Lemma uniform_region r : uniform (apply_region r).
Proof.
  intros d d' Hl. unfold apply_region. rewrite <- Hl.
  repeat case_decide; simpl; rewrite ?length_inserts; repeat split; try done; intros i;
    [by apply uniform_inserts|by right..].
Qed.

Lemma uniform_iter {A} (f : A -> stm (list Z) ReplayError unit) l :
  (forall a, uniform (f a)) -> uniform (stm_iter f l).
Proof. intros Hf. induction l; simpl; [apply uniform_keep|by apply uniform_bind]. Qed.

Lemma uniform_apply s : uniform (apply_to_data s).
Proof.
  destruct (ms_snapshot_type s) eqn:Hty.
  - destruct (ms_full_data s) as [full|] eqn:Hf; intros d d' Hl; unfold apply_to_data; rewrite Hty, ?Hf;
      [|by apply uniform_keep].
    rewrite <- Hl. case_decide; simpl; rewrite ?length_inserts; repeat split; try done; intros i;
      [by apply uniform_inserts|by right].
  - intros d d' Hl. unfold apply_to_data. rewrite Hty.
    apply (uniform_iter apply_region); [apply uniform_region|done].
  - intros d d' Hl. unfold apply_to_data. rewrite Hty. by apply uniform_keep.
Qed.

Lemma cell_insert ms n m k i :
  cell (<[n := m]> ms) k i =
  if decide (k = n) then match i with Some i => rm_data m !! i | None => Some (rm_last_snapshot_id m) end
  else cell ms k i.
Proof. unfold cell. case_decide; [subst; by rewrite lookup_insert_eq|by rewrite lookup_insert_ne by congruence]. Qed.

Lemma apply_mem_uniform am s ms ms' :
  same_shape ms ms' ->
  let '(ms1, r) := apply_mem am s ms in let '(ms1', r') := apply_mem am s ms' in
  r = r' /\ same_shape ms ms1 /\ same_shape ms1 ms1' /\
  forall n i, set_or_kept (cell ms n i) (cell ms1 n i) (cell ms' n i) (cell ms1' n i).
Proof.
  intros Hsh. assert (same_shape ms ms) as Hrefl by (intros n; by destruct (ms !! n)).
  unfold apply_mem. destruct (am !! _) as [n|]; [|by repeat split; try done; right].
  pose proof (Hsh n) as Hn. destruct (ms !! n) as [m|] eqn:Hm, (ms' !! n) as [m'|] eqn:Hm'; try done;
    [|by repeat split; try done; right].
  destruct Hn as [Hlen Haddr]. pose proof (uniform_apply s (rm_data m) (rm_data m') Hlen) as Hu.
  destruct (apply_to_data s (rm_data m)) as [d r], (apply_to_data s (rm_data m')) as [d' r'].
  simpl in Hu. destruct Hu as (<- & Hd & Hd' & Hc). split; [done|]. split; [|split].
  - intros k. destruct (decide (k = n)) as [->|]; [rewrite Hm, lookup_insert_eq; simpl; by rewrite Hd|].
    rewrite lookup_insert_ne by done. by destruct (ms !! k).
  - intros k. destruct (decide (k = n)) as [->|]; [rewrite !lookup_insert_eq; simpl; split; congruence|].
    rewrite !lookup_insert_ne by done. apply Hsh.
  - intros k i. rewrite !cell_insert. case_decide as Hk; [subst|by right]. unfold cell. rewrite Hm, Hm'. simpl.
    destruct i as [i|]; [apply Hc|]. destruct (is_ok r); [by left|by right].
Qed.

Lemma same_shape_trans ms1 ms2 ms3 : same_shape ms1 ms2 -> same_shape ms2 ms3 -> same_shape ms1 ms3.
Proof.
  intros H1 H2 n. specialize (H1 n); specialize (H2 n).
  destruct (ms1 !! n), (ms2 !! n), (ms3 !! n); try done. destruct H1, H2. split; congruence.
Qed.

Lemma iter_mem_uniform am ss : forall ms ms', same_shape ms ms' ->
  let '(ms1, r) := stm_iter (apply_mem am) ss ms in let '(ms1', r') := stm_iter (apply_mem am) ss ms' in
  r = r' /\ same_shape ms ms1 /\ same_shape ms1 ms1' /\
  forall n i, set_or_kept (cell ms n i) (cell ms1 n i) (cell ms' n i) (cell ms1' n i).
Proof.
  induction ss as [|s ss IH]; intros ms ms' Hsh; simpl.
  - repeat split; try done; [intros n; by destruct (ms !! n)|by right].
  - unfold mbind, stm_bind. pose proof (apply_mem_uniform am s ms ms' Hsh) as H1.
    destruct (apply_mem am s ms) as [ms1 r], (apply_mem am s ms') as [ms1' r'].
    destruct H1 as (<- & Hs1 & Hs2 & Hc). destruct r as [[]| |]; [|done..].
    pose proof (IH ms1 ms1' Hs2) as H2.
    destruct (stm_iter _ ss ms1) as [ms2 r2], (stm_iter _ ss ms1') as [ms2' r2'].
    destruct H2 as (<- & Hs3 & Hs4 & Hc2). split; [done|]. split; [by eapply same_shape_trans|].
    split; [done|]. intros n i. by eapply set_or_kept_trans.
Qed.

Lemma cells_equal ms ms' : same_shape ms ms' -> (forall n i, cell ms n i = cell ms' n i) -> ms = ms'.
Proof.
  intros Hsh Hc. apply map_eq. intros n. specialize (Hsh n). unfold cell in Hc.
  pose proof (fun i => Hc n (Some i)) as Hd. pose proof (Hc n None) as Hid. simpl in *.
  destruct (ms !! n) as [[a d l]|], (ms' !! n) as [[a' d' l']|]; simpl in *; try done.
  destruct Hsh as [_ ->]. injection Hid as ->. do 2 f_equal. by apply list_eq.
Qed.

(** Applying the same snapshots again changes nothing. *)
Lemma apply_again am ss ms ms1 r :
  stm_iter (apply_mem am) ss ms = (ms1, r) -> stm_iter (apply_mem am) ss ms1 = (ms1, r).
Proof.
  intros H. assert (same_shape ms ms1) as Hsh.
  { pose proof (iter_mem_uniform am ss ms ms ltac:(intros n; by destruct (ms !! n))) as Hu.
    rewrite H in Hu. apply Hu. }
  pose proof (iter_mem_uniform am ss ms ms1 Hsh) as Hu. rewrite H in Hu.
  destruct (stm_iter _ ss ms1) as [ms2 r2]. destruct Hu as (<- & _ & Hs & Hc). f_equal.
  symmetry. apply cells_equal; [done|]. intros n i. destruct (Hc n i) as [?|[-> ->]]; done.
Qed.

(** ** Only mapped memory matters *)
Definition agree (am : gmap Z Z) (ms ms' : memory) : Prop :=
  forall d n, am !! d = Some n -> ms !! n = ms' !! n.

Lemma agree_apply am s ms ms' :
  agree am ms ms' ->
  let '(ms1, r) := apply_mem am s ms in let '(ms1', r') := apply_mem am s ms' in r = r' /\ agree am ms1 ms1'.
Proof.
  intros Hag. unfold apply_mem. destruct (am !! _) as [n|] eqn:Hn; [|done].
  rewrite <- (Hag _ _ Hn). destruct (ms !! n) as [m|]; [|done].
  destruct (apply_to_data s (rm_data m)) as [d r]. split; [done|]. intros a k Hk.
  destruct (decide (k = n)) as [->|]; [by rewrite !lookup_insert_eq|].
  rewrite !lookup_insert_ne by done. by eapply Hag.
Qed.

Lemma agree_iter am ss : forall ms ms', agree am ms ms' ->
  let '(ms1, r) := stm_iter (apply_mem am) ss ms in let '(ms1', r') := stm_iter (apply_mem am) ss ms' in
  r = r' /\ agree am ms1 ms1'.
Proof.
  induction ss as [|s ss IH]; intros ms ms' Hag; simpl; [done|].
  unfold mbind, stm_bind. pose proof (agree_apply am s ms ms' Hag) as H.
  destruct (apply_mem am s ms) as [ms1 r], (apply_mem am s ms') as [ms1' r'].
  destruct H as [<- H]. destruct r as [[]| |]; [by apply IH|done..].
Qed.

(** ** Addresses of the replay *)

(** The size of the last allocation recorded at an address *)
Definition size_at (allocs : list TrackedAllocation) (d : Z) : option Z :=
  ta_size <$> last (filter (fun a => ta_device_addr a = d) allocs).

Lemma size_at_snoc allocs a d :
  size_at (allocs ++ [a]) d = if decide (ta_device_addr a = d) then Some (ta_size a) else size_at allocs d.
Proof.
  unfold size_at. rewrite filter_app, filter_cons, filter_nil. case_decide; [by rewrite last_snoc|].
  by rewrite app_nil_r.
Qed.

Definition sizes_ok (allocs : list TrackedAllocation) : Prop :=
  Forall (fun a => 0 < ta_size a <= isize_max) allocs.

(** The address space the allocations take *)
Definition space (allocs : list TrackedAllocation) : Z :=
  foldr (fun a n => page_aligned (ta_size a) + n) 0 allocs.

Definition zero_memory (n size : Z) : ReconstructedMemory := fresh_memory n (repeat 0 (Z.to_nat size)).

(** The maps after the allocations [done], from [lo] up to [va]. *)
Record alloc_inv (done : list TrackedAllocation) (lo va : Z) (am : gmap Z Z) (ms : memory) : Prop := mkAllocInv {
  ai_zero : forall d n, am !! d = Some n ->
    exists size, size_at done d = Some size /\ 0 < size /\ lo <= n /\ n + size <= va /\
      ms !! n = Some (zero_memory n size);
  ai_apart : forall d1 d2 n1 n2 s1 s2, d1 <> d2 -> am !! d1 = Some n1 -> am !! d2 = Some n2 ->
    size_at done d1 = Some s1 -> size_at done d2 = Some s2 -> n1 + s1 <= n2 \/ n2 + s2 <= n1;
  ai_dom : forall a, a ∈ done -> is_Some (am !! ta_device_addr a);
}.

Lemma page_aligned_ge size : 0 < size <= isize_max -> size <= page_aligned size < 2 ^ 64.
Proof.
  unfold isize_max, page_aligned. intros Hs. rewrite wrap_small by lia.
  pose proof (Z.div_mod (size + 4095) 4096 ltac:(lia)).
  pose proof (Z.mod_pos_bound (size + 4095) 4096 ltac:(lia)). lia.
Qed.

Lemma alloc_inv_step done lo va am ms a :
  alloc_inv done lo va am ms -> lo <= va -> 0 < ta_size a <= isize_max ->
  alloc_inv (done ++ [a]) lo (va + page_aligned (ta_size a)) (<[ta_device_addr a := va]> am)
    (<[va := zero_memory va (ta_size a)]> ms).
Proof.
  intros [Hz Hap Hd] Hlo Hs. pose proof (page_aligned_ge _ Hs). split.
  - intros d n Hn. rewrite size_at_snoc. destruct (decide (ta_device_addr a = d)) as [<-|Hne].
    + rewrite lookup_insert_eq in Hn. injection Hn as <-. exists (ta_size a).
      rewrite lookup_insert_eq. repeat split; try done; lia.
    + rewrite lookup_insert_ne in Hn by done. destruct (Hz d n Hn) as (s & H1 & H2 & H3 & H4 & H5).
      exists s. rewrite lookup_insert_ne by lia. repeat split; try done; lia.
  - intros d1 d2 n1 n2 s1 s2 Hne H1 H2. rewrite !size_at_snoc.
    destruct (decide (ta_device_addr a = d1)) as [<-|Hd1], (decide (ta_device_addr a = d2)) as [<-|Hd2]; try done;
      intros Hs1 Hs2.
    + rewrite lookup_insert_eq in H1. rewrite lookup_insert_ne in H2 by done. right. simplify_eq. destruct (Hz d2 n2 H2) as (s & ? & ? & ? & ? & ?). simplify_eq. lia.
    + rewrite lookup_insert_eq in H2. rewrite lookup_insert_ne in H1 by done. left. simplify_eq. destruct (Hz d1 n1 H1) as (s & ? & ? & ? & ? & ?). simplify_eq. lia.
    + rewrite lookup_insert_ne in H1, H2 by done. exact (Hap _ _ _ _ _ _ Hne H1 H2 Hs1 Hs2).
  - intros b [Hb| ->%list_elem_of_singleton]%elem_of_app; [|rewrite lookup_insert_eq; eauto].
    destruct (decide (ta_device_addr a = ta_device_addr b)) as [->|]; [rewrite lookup_insert_eq; eauto|].
    rewrite lookup_insert_ne by done. by apply Hd.
Qed.

Lemma allocate_one_ok a e va :
  0 < ta_size a <= isize_max -> 0 <= va -> va + page_aligned (ta_size a) < 2 ^ 64 ->
  exists rm, allocate_one a (e, va) =
    ((set_maps (<[ta_device_addr a := va]> (en_address_map e)) rm
        (<[va := zero_memory va (ta_size a)]> (en_memory_state e)) e,
      va + page_aligned (ta_size a)), Ok tt).
Proof.
  intros Hs Hva Hmax. pose proof (page_aligned_ge _ Hs). unfold allocate_one, allocate_on_target, zeroed.
  rewrite decide_True by lia. unfold wrapping_add. rewrite wrap_small by lia. eauto.
Qed.

Lemma space_nonneg allocs : sizes_ok allocs -> 0 <= space allocs.
Proof.
  induction 1 as [|a allocs Ha _ IH]; simpl; [done|]. pose proof (page_aligned_ge _ Ha). lia.
Qed.

Lemma allocate_all lo allocs : sizes_ok allocs -> forall done e va,
  alloc_inv done lo va (en_address_map e) (en_memory_state e) -> lo <= va -> 0 <= va ->
  va + space allocs < 2 ^ 64 ->
  exists am rm ms, stm_iter allocate_one allocs (e, va) = ((set_maps am rm ms e, va + space allocs), Ok tt) /\
    alloc_inv (done ++ allocs) lo (va + space allocs) am ms.
Proof.
  induction 1 as [|a allocs Ha Hs IH]; intros done e va Hinv Hlo Hva Hmax.
  - exists (en_address_map e), (en_reverse_address_map e), (en_memory_state e). simpl.
    rewrite Z.add_0_r, app_nil_r. split; [by destruct e|done].
  - pose proof (space_nonneg _ Hs). simpl in Hmax.
    destruct (allocate_one_ok a e va) as (rm & Hone); [done|done|lia|].
    pose proof (page_aligned_ge _ Ha).
    destruct (IH (done ++ [a]) _ _ (alloc_inv_step _ _ _ _ _ _ Hinv Hlo Ha : alloc_inv _ _ _
      (en_address_map (set_maps _ rm _ e)) (en_memory_state (set_maps _ rm _ e)))) as (am & rm' & ms & Hrest & Hinv');
      [lia..|].
    exists am, rm', ms. simpl. rewrite (stm_bind_Ok _ _ _ _ _ Hone), Hrest.
    rewrite <- app_assoc in Hinv'. rewrite Z.add_assoc. done.
Qed.

(** The engine maps every recorded allocation of a positive size to a range
    of zeros of its own: the ranges are pairwise disjoint, start at the process
    counter, and an address that was freed and allocated again gets the range of
    its last allocation. *)
Theorem allocations_disjoint trace b va :
  sizes_ok (tc_allocations trace) -> 0 <= va -> va + space (tc_allocations trace) < 2 ^ 64 ->
  exists e, allocate_memory (engine_of trace b, va) = ((e, va + space (tc_allocations trace)), Ok tt) /\
    (forall a, a ∈ tc_allocations trace -> exists n size,
       en_address_map e !! ta_device_addr a = Some n /\ size_at (tc_allocations trace) (ta_device_addr a) = Some size /\
       va <= n /\ n + size <= va + space (tc_allocations trace) /\
       read_replayed e (ta_device_addr a) = Some (repeat 0 (Z.to_nat size))) /\
    (forall a1 a2 n1 n2 s1 s2, ta_device_addr a1 <> ta_device_addr a2 ->
       en_address_map e !! ta_device_addr a1 = Some n1 -> en_address_map e !! ta_device_addr a2 = Some n2 ->
       size_at (tc_allocations trace) (ta_device_addr a1) = Some s1 ->
       size_at (tc_allocations trace) (ta_device_addr a2) = Some s2 -> n1 + s1 <= n2 \/ n2 + s2 <= n1).
Proof.
  intros Hs Hva Hmax.
  destruct (allocate_all va (tc_allocations trace) Hs [] (engine_of trace b) va) as (am & rm & ms & Hal & Hinv);
    [|lia..|].
  { split; simpl; [intros d n; by rewrite lookup_empty|intros ????????; by rewrite lookup_empty|].
    intros a Ha%elem_of_nil. done. }
  eexists. split; [exact Hal|]. destruct Hinv as [Hz Hap Hd]. split; [|intros a1 a2 n1 n2 s1 s2; apply Hap].
  intros a Ha. destruct (Hd a Ha) as [n Hn]. destruct (Hz _ _ Hn) as (s & H1 & H2 & H3 & H4 & H5).
  exists n, s. unfold read_replayed; simpl. rewrite Hn; simpl. rewrite H5. done.
Qed.

Definition sample_alloc (addr size : Z) : TrackedAllocation := allocation_new 0 addr size AllocDevice.

Lemma allocations_disjoint_witness :
  exists e, allocate_memory (engine_of (mkReplayTrace (header_default 0) ∅ [sample_alloc 0x7000 12; sample_alloc 0x8000 5000] []) Virtual,
      VIRTUAL_ADDR) = ((e, VIRTUAL_ADDR + 12288), Ok tt).
Proof.
  destruct (allocations_disjoint
    (mkReplayTrace (header_default 0) ∅ [sample_alloc 0x7000 12; sample_alloc 0x8000 5000] []) Virtual VIRTUAL_ADDR)
    as (e & He & _); [repeat constructor; done|done|done|]. exists e. exact He.
Defined.

(** ** Seeking *)
Lemma alloc_inv_inj done lo va am ms d1 d2 n :
  alloc_inv done lo va am ms -> am !! d1 = Some n -> am !! d2 = Some n -> d1 = d2.
Proof.
  intros [Hz Hap _] H1 H2. destruct (Hz _ _ H1) as (s1 & ? & ? & _), (Hz _ _ H2) as (s2 & ? & ? & _).
  destruct (decide (d1 = d2)) as [|Hne]; [done|].
  destruct (Hap d1 d2 n n s1 s2) as [?|?]; done || lia.
Qed.

(** The zeroed memory [seek] starts from *)
Definition rebuilt (am : gmap Z Z) (allocs : list TrackedAllocation) (ms : memory) : Prop :=
  forall d n size, am !! d = Some n -> size_at allocs d = Some size -> ms !! n = Some (zero_memory n size).

Lemma restore_all am e : (forall d1 d2 n, am !! d1 = Some n -> am !! d2 = Some n -> d1 = d2) ->
  forall rest done ms, sizes_ok rest -> rebuilt am done ms ->
  exists ms', stm_iter restore_zero
      (omap (fun a => (fun n => (n, ta_size a)) <$> am !! ta_device_addr a) rest) (set_memory_state ms e)
    = (set_memory_state ms' e, Ok tt) /\ rebuilt am (done ++ rest) ms'.
Proof.
  intros Hinj. induction rest as [|a rest IH]; intros done ms Hs Hr.
  - exists ms. rewrite app_nil_r. done.
  - inversion_clear Hs as [|? ? Ha Hs']. simpl. destruct (am !! ta_device_addr a) as [n|] eqn:Hn; simpl.
    + destruct (IH (done ++ [a]) (<[n := zero_memory n (ta_size a)]> ms)) as (ms' & Hms & Hr'); [done| |].
      { intros d k size Hk. rewrite size_at_snoc. case_decide as Hd.
        - subst d. intros [= <-]. rewrite Hn in Hk. injection Hk as <-. by rewrite lookup_insert_eq.
        - intros Hsz. rewrite lookup_insert_ne; [by eapply Hr|]. intros <-. apply Hd. by eapply Hinj. }
      exists ms'. unfold mbind, stm_bind, restore_zero at 1, zeroed. rewrite decide_True by lia.
      rewrite <- app_assoc in Hr'. split; [exact Hms|done].
    + destruct (IH (done ++ [a]) ms) as (ms' & Hms & Hr'); [done| |].
      { intros d k size Hk. rewrite size_at_snoc. case_decide as Hd; [congruence|]. by apply Hr. }
      exists ms'. rewrite <- app_assoc in Hr'. done.
Qed.

(** Engines that differ in memory, position and results only *)
Record same_setup (e e0 : ReplayEngine) : Prop := mkSameSetup {
  su_trace : en_trace e = en_trace e0;
  su_map : en_address_map e = en_address_map e0;
  su_modules : en_compiled_modules e = en_compiled_modules e0;
  su_config : en_config e = en_config e0;
  su_initialized : en_initialized e = en_initialized e0;
}.

Lemma launch_result_agree t l e e' :
  same_setup e e' -> agree (en_address_map e) (en_memory_state e) (en_memory_state e') ->
  launch_result t l e = launch_result t l e'.
Proof.
  intros [_ Hmap Hmod Hcf _] Hag. unfold launch_result. rewrite Hcf.
  destruct (cf_validate_outputs _).
  - unfold validate_kernel_output.
    assert (Hc : forall s, check_output e s = check_output e' s).
    { intros s. unfold check_output. rewrite <- Hmap.
      destruct (en_address_map e !! ms_device_addr s) as [n|] eqn:Hn; simpl; [|done].
      by rewrite (Hag _ _ Hn). }
    assert (omap (check_output e) (kl_output_memory l) = omap (check_output e') (kl_output_memory l)) as ->; [|done].
    generalize (kl_output_memory l). intros ss. induction ss as [|s ss IH]; csimpl; [done|]. by rewrite Hc, IH.
  - unfold execute_kernel. by rewrite Hmod.
Qed.

Definition plain_config (cf : ReplayConfig) : Prop := cf_kernel_filter cf = None /\ cf_step_mode cf = false.

(** One step of a plain replay *)
Lemma replay_next_plain t e l :
  plain_config (en_config e) -> en_initialized e = true ->
  tc_kernel_launches (en_trace e) !! en_current_position e = Some l ->
  replay_next t e =
  match stm_iter (apply_mem (en_address_map e)) (kl_input_memory l) (en_memory_state e) with
  | (ms, Ok _) =>
      let e' := set_memory_state ms e in
      let v := launch_result t l e' in
      (set_position (S (en_current_position e)) (set_results (en_validation_results e ++ [v]) e'), Ok (Some v))
  | (ms, Err err) => (set_memory_state ms e, Err err)
  | (ms, Panic) => (set_memory_state ms e, Panic)
  end.
Proof.
  intros [Hf Hst] Hi Hl. unfold replay_next. rewrite Hi. simpl. rewrite (drop_S _ _ _ Hl). simpl.
  unfold filtered_out. rewrite Hf. unfold replay_launch, mbind, stm_bind. rewrite iter_apply_mem.
  destruct (stm_iter _ _ _) as [ms [[]| |]]; [|done..]. unfold finish_launch, callback_stops. simpl.
  by rewrite Hst.
Qed.

Lemma replay_next_done t e :
  en_initialized e = true -> tc_kernel_launches (en_trace e) !! en_current_position e = None ->
  replay_next t e = (e, Ok None).
Proof.
  intros Hi Hl%lookup_ge_None. unfold replay_next. rewrite Hi. simpl. by rewrite drop_ge.
Qed.

Lemma plain_step_setup t e r e' :
  plain_config (en_config e) -> en_initialized e = true -> replay_next t e = (e', r) -> same_setup e' e.
Proof.
  intros Hp Hi. destruct (tc_kernel_launches (en_trace e) !! en_current_position e) as [l|] eqn:Hl.
  - rewrite (replay_next_plain t e l) by done. destruct (stm_iter _ _ _) as [ms [[]| |]]; intros [= <- <-]; done.
  - rewrite replay_next_done by done. intros [= <- <-]. done.
Qed.

Definition inputs_upto (e : ReplayEngine) (p : nat) : list MemorySnapshot :=
  concat (kl_input_memory <$> take p (tc_kernel_launches (en_trace e))).

Lemma inputs_upto_S e p l :
  tc_kernel_launches (en_trace e) !! p = Some l -> inputs_upto e (S p) = inputs_upto e p ++ kl_input_memory l.
Proof.
  intros Hl. unfold inputs_upto. rewrite (take_S_r _ _ _ Hl), fmap_app, concat_app. simpl. by rewrite app_nil_r.
Qed.

(** At every point of a plain replay, the inputs of the next launch complete
    the inputs so far over the initial zeros. *)
Definition on_track (ms0 : memory) (e : ReplayEngine) : Prop :=
  forall l, tc_kernel_launches (en_trace e) !! en_current_position e = Some l ->
  stm_iter (apply_mem (en_address_map e)) (kl_input_memory l) (en_memory_state e) =
  stm_iter (apply_mem (en_address_map e)) (inputs_upto e (S (en_current_position e))) ms0.

Definition replay_times (ts : list Z) : stm ReplayEngine ReplayError unit :=
  stm_iter (fun t => replay_next t;; mret tt) ts.

Lemma replay_times_on_track ms0 ts e e' :
  plain_config (en_config e) -> en_initialized e = true -> on_track ms0 e ->
  replay_times ts e = (e', Ok tt) -> same_setup e' e /\ on_track ms0 e'.
Proof.
  unfold replay_times. revert e. induction ts as [|t ts IH]; intros e Hp Hi Ht Hr; simpl in Hr.
  - injection Hr as <-. done.
  - apply stm_bind_Ok_inv in Hr as (e1 & [] & Hr1 & Hr).
    apply stm_bind_Ok_inv in Hr1 as (e2 & r & Hr1 & [= <-]).
    pose proof (plain_step_setup _ _ _ _ Hp Hi Hr1) as Hsu.
    assert (Ht' : on_track ms0 e2).
    { destruct (tc_kernel_launches (en_trace e) !! en_current_position e) as [l|] eqn:Hl.
      - rewrite (replay_next_plain t e l Hp Hi Hl), (Ht l Hl) in Hr1.
        destruct (stm_iter (apply_mem (en_address_map e)) (inputs_upto e _) ms0) as [ms [[]| |]] eqn:Hrun;
          cbv zeta in Hr1; simplify_eq. intros l' Hl'.
        change (stm_iter (apply_mem (en_address_map e)) (kl_input_memory l') ms =
                stm_iter (apply_mem (en_address_map e)) (inputs_upto e (S (S (en_current_position e)))) ms0).
        rewrite (inputs_upto_S e (S (en_current_position e)) l' Hl'), stm_iter_app.
        unfold mbind, stm_bind. by rewrite Hrun.
      - rewrite replay_next_done in Hr1 by done. simplify_eq. done. }
    destruct (IH e2) as [Hsu' Ht2]; [by rewrite (su_config _ _ Hsu)|by rewrite (su_initialized _ _ Hsu)|done|done|].
    split; [|done]. destruct Hsu, Hsu'. split; congruence.
Qed.

(** The state after [initialize] *)
Lemma initialize_on_track trace b cf va e0 va' :
  sizes_ok (tc_allocations trace) -> 0 <= va -> va + space (tc_allocations trace) < 2 ^ 64 ->
  initialize (set_config cf (engine_of trace b), va) = ((e0, va'), Ok tt) ->
  exists ms0, alloc_inv (tc_allocations trace) va (va + space (tc_allocations trace)) (en_address_map e0) ms0 /\
    en_trace e0 = trace /\ en_config e0 = cf /\ en_initialized e0 = true /\ on_track ms0 e0.
Proof.
  intros Hs Hva Hmax Hin. unfold initialize in Hin. simpl in Hin.
  apply stm_bind_Ok_inv in Hin as ([e1 v1] & [] & Hal & Hin).
  destruct (allocate_all va (tc_allocations trace) Hs [] (set_config cf (engine_of trace b)) va)
    as (am & rm & ms0 & Hal' & Hinv); [|lia..|].
  { split; simpl; [intros d n; by rewrite lookup_empty|intros ????????; by rewrite lookup_empty|].
    intros a Ha%elem_of_nil. done. }
  unfold allocate_memory in Hal. simpl in Hal. rewrite Hal' in Hal. injection Hal as <- <-.
  apply stm_bind_Ok_inv in Hin as ([e2 v2] & [] & [= <- <-] & Hin).
  apply stm_bind_Ok_inv in Hin as ([e3 v3] & [] & Hrec & [= <- <-]).
  exists ms0. unfold on_engine, reconstruct_initial_memory in Hrec. rewrite iter_apply_mem in Hrec. simpl in Hrec.
  destruct (stm_iter _ _ _) as [ms r] eqn:Hrun in Hrec. simplify_eq. simpl.
  repeat split; try done; try apply Hinv. intros l Hl. simpl in *. unfold inputs_upto. simpl.
  destruct (tc_kernel_launches trace) as [|l0 ls]; [done|]. simpl in *. injection Hl as ->.
  rewrite app_nil_r, Hrun. by apply apply_again in Hrun.
Qed.

(** [seek] is the inputs up to the position over the rebuilt zeros. *)
Lemma seek_memory e e0 p msz ms3 :
  same_setup e e0 -> (p < total_kernels e0)%nat ->
  stm_iter restore_zero
    (omap (fun a => (fun n => (n, ta_size a)) <$> en_address_map e0 !! ta_device_addr a) (tc_allocations (en_trace e0)))
    (set_memory_state ∅ e) = (set_memory_state msz e, Ok tt) ->
  stm_iter (apply_mem (en_address_map e0)) (inputs_upto e0 (S p)) msz = (ms3, Ok tt) ->
  seek p e = (set_position p (set_memory_state ms3 e), Ok tt).
Proof.
  intros [Htr Hmap _ _ _] Hp Hrz H3. unfold seek, total_kernels, seek_allocations. rewrite Htr, Hmap.
  rewrite decide_False by (unfold total_kernels in Hp; lia).
  rewrite (stm_bind_Ok _ _ _ _ _ Hrz). unfold mbind, stm_bind at 1. rewrite iter_apply_mem.
  change (en_address_map (set_memory_state msz e)) with (en_address_map e). rewrite Hmap.
  change (concat _) with (inputs_upto e0 (S p)). change (en_memory_state (set_memory_state msz e)) with msz.
  by rewrite H3.
Qed.

(** [C22] Seeking to a kernel equals replaying up to it.  In a replay without
    filter and step mode, whatever was replayed before, [seek] to the position of
    an engine that replayed the trace from the start and then replaying one
    kernel gives that engine's validation result, position and memory. *)
Theorem seek_equals_replay trace b cf va e0 va' ts e1 t e2 v e :
  sizes_ok (tc_allocations trace) -> 0 <= va -> va + space (tc_allocations trace) < 2 ^ 64 ->
  plain_config cf -> initialize (set_config cf (engine_of trace b), va) = ((e0, va'), Ok tt) ->
  replay_times ts e0 = (e1, Ok tt) -> replay_next t e1 = (e2, Ok (Some v)) -> same_setup e e0 ->
  exists e3 e4, seek (en_current_position e1) e = (e3, Ok tt) /\ replay_next t e3 = (e4, Ok (Some v)) /\
    en_current_position e4 = en_current_position e2 /\ forall d, read_replayed e4 d = read_replayed e2 d.
Proof.
  intros Hs Hva Hmax Hcf Hin Hts Hnext Hsu.
  destruct (initialize_on_track _ _ _ _ _ _ Hs Hva Hmax Hin) as (ms0 & Hinv & Htr & Hc & Hi & Ht0).
  destruct (replay_times_on_track ms0 ts e0 e1) as [Hsu1 Ht1]; [by rewrite Hc|done..|].
  assert (Hp1 : plain_config (en_config e1)) by (by rewrite (su_config _ _ Hsu1), Hc).
  assert (Hi1 : en_initialized e1 = true) by (by rewrite (su_initialized _ _ Hsu1)).
  set (p := en_current_position e1) in *. set (am := en_address_map e0) in *.
  destruct (tc_kernel_launches (en_trace e1) !! p) as [l|] eqn:Hl;
    [|rewrite replay_next_done in Hnext by done; simplify_eq].
  rewrite (replay_next_plain t e1 l Hp1 Hi1 Hl), (Ht1 l Hl) in Hnext.
  rewrite (su_map _ _ Hsu1) in Hnext. fold am in Hnext. fold p in Hnext.
  destruct (stm_iter (apply_mem am) (inputs_upto e1 (S p)) ms0) as [msX [[]| |]] eqn:HX; cbv zeta in Hnext; simplify_eq.
  rewrite (su_trace _ _ Hsu1) in Hl.
  destruct (restore_all am e (fun d1 d2 n => alloc_inv_inj _ _ _ _ _ d1 d2 n Hinv)
              (tc_allocations (en_trace e0)) [] ∅ Hs) as (msz & Hrz & Hreb).
  { intros d n size _ Hz. unfold size_at in Hz. rewrite filter_nil in Hz. done. }
  assert (Hag : agree am msz ms0).
  { intros d n Hn. destruct (ai_zero _ _ _ _ _ Hinv d n Hn) as (size & Hsz & _ & _ & _ & ->). by eapply Hreb. }
  assert (HeX : inputs_upto e1 (S p) = inputs_upto e0 (S p)) by (unfold inputs_upto; by rewrite (su_trace _ _ Hsu1)).
  rewrite HeX in HX. pose proof (agree_iter am (inputs_upto e0 (S p)) _ _ Hag) as Hag3. rewrite HX in Hag3.
  destruct (stm_iter (apply_mem am) (inputs_upto e0 (S p)) msz) as [ms3 r3] eqn:H3. destruct Hag3 as [-> Hag3].
  pose proof (seek_memory e e0 p msz ms3 Hsu (lookup_lt_Some _ _ _ Hl) Hrz H3) as Hseek.
  assert (Hagain : stm_iter (apply_mem am) (kl_input_memory l) ms3 = (ms3, Ok tt)).
  { rewrite (inputs_upto_S _ _ _ Hl), stm_iter_app in H3.
    apply stm_bind_Ok_inv in H3 as (msy & [] & _ & H3). by apply apply_again in H3. }
  do 2 eexists. split; [exact Hseek|].
  rewrite (replay_next_plain t _ l); [|by simpl; rewrite (su_config _ _ Hsu)|
    by simpl; rewrite (su_initialized _ _ Hsu)|by simpl; rewrite (su_trace _ _ Hsu)].
  cbn [en_address_map set_position set_memory_state set_maps en_memory_state en_current_position en_validation_results].
  rewrite (su_map _ _ Hsu). fold am. rewrite Hagain. cbv zeta.
  rewrite (launch_result_agree t l _ (set_memory_state msX e1)); [|destruct Hsu, Hsu1; split; simpl; congruence|
    simpl; by rewrite (su_map _ _ Hsu)].
  split; [done|]. split; [done|]. intros d. unfold read_replayed. simpl.
  rewrite (su_map _ _ Hsu), (su_map _ _ Hsu1). fold am.
  destruct (am !! d) as [n|] eqn:Hn; simpl; [|done]. by rewrite (Hag3 _ _ Hn).
Qed.

Definition sample_launch (id : Z) (inputs outputs : list MemorySnapshot) : RecordedKernelLaunch :=
  mkRecordedKernelLaunch id (10 * id) "axpy" 1 2 (1, 1, 1) (32, 1, 1) 0 0 [] inputs outputs (Some 5).

Definition sample_trace : ReplayTrace :=
  mkReplayTrace (header_default 0) ∅ [sample_alloc 0x7000 4]
    [sample_launch 0 [snapshot_full 0 0x7000 [1; 2; 3; 4]] [];
     sample_launch 1 [snapshot_incremental 1 0x7000 4 [mkDirtyRegion 1 2 [8; 9]]] []].

Definition sample_engine : ReplayEngine :=
  fst (fst (initialize (set_config replay_config_default (engine_of sample_trace Virtual), VIRTUAL_ADDR))).

Lemma seek_equals_replay_witness :
  exists e3 e4 v, seek 1 sample_engine = (e3, Ok tt) /\ replay_next 7 e3 = (e4, Ok (Some v)) /\
    read_replayed e4 0x7000 = Some [1; 8; 9; 4].
Proof.
  destruct (seek_equals_replay sample_trace Virtual replay_config_default VIRTUAL_ADDR sample_engine
    (VIRTUAL_ADDR + 4096) [3] (fst (replay_times [3] sample_engine)) 7
    (fst (replay_next 7 (fst (replay_times [3] sample_engine))))
    (mkValidationResult 1 "axpy" true [] 5 7) sample_engine) as (e3 & e4 & H3 & H4 & _ & Hr).
  - repeat constructor; done.
  - done.
  - done.
  - done.
  - vm_compute; reflexivity.
  - vm_compute; reflexivity.
  - vm_compute; reflexivity.
  - done.
  - exists e3, e4, (mkValidationResult 1 "axpy" true [] 5 7). split; [exact H3|]. split; [exact H4|].
    rewrite Hr. vm_compute. reflexivity.
Defined.

(** ** The loop over all kernels *)
Definition goes_on (e : ReplayEngine) : Prop :=
  cf_step_mode (en_config e) = false \/
  match en_step_callback e with Some f => forall l v, f l v = true | None => True end.

Lemma goes_on_stops e l v : goes_on e -> callback_stops e l v = false.
Proof.
  unfold goes_on, callback_stops. intros [->|H]; [done|]. destruct (en_step_callback e); [rewrite H|]; apply andb_false_r.
Qed.

(** The launches still to be replayed *)
Definition kernels_left (e : ReplayEngine) : list RecordedKernelLaunch :=
  filter (fun l => filtered_out (en_config e) l = false)
    (drop (en_current_position e) (tc_kernel_launches (en_trace e))).

Record progress (e e' : ReplayEngine) : Prop := mkProgress {
  pg_trace : en_trace e' = en_trace e;
  pg_config : en_config e' = en_config e;
  pg_callback : en_step_callback e' = en_step_callback e;
  pg_initialized : en_initialized e' = en_initialized e;
}.

Lemma replay_rest_progress t rest : forall e, goes_on e ->
  drop (en_current_position e) (tc_kernel_launches (en_trace e)) = rest ->
  match replay_rest t rest e with
  | (e', Ok (Some v)) =>
      progress e e' /\ (en_current_position e < en_current_position e' <= total_kernels e)%nat /\
      length (kernels_left e) = S (length (kernels_left e'))
  | (e', Ok None) => progress e e' /\ kernels_left e = [] /\ (total_kernels e <= en_current_position e')%nat
  | _ => True
  end.
Proof.
  induction rest as [|l rest IH]; intros e Hgo Hrest; simpl.
  - split; [done|]. split; [unfold kernels_left; by rewrite Hrest|].
    apply (f_equal length) in Hrest. rewrite length_drop in Hrest. unfold total_kernels. simpl in Hrest. lia.
  - assert (Hl : tc_kernel_launches (en_trace e) !! en_current_position e = Some l).
    { rewrite <- (Nat.add_0_r (en_current_position e)), <- lookup_drop, Hrest. done. }
    assert (Hd : drop (S (en_current_position e)) (tc_kernel_launches (en_trace e)) = rest).
    { rewrite <- Nat.add_1_r, <- drop_drop, Hrest. done. }
    assert (Hlt := lookup_lt_Some _ _ _ Hl).
    assert (Hk : kernels_left e = if filtered_out (en_config e) l
      then kernels_left (set_position (S (en_current_position e)) e)
      else l :: kernels_left (set_position (S (en_current_position e)) e)).
    { unfold kernels_left. simpl. rewrite Hrest, Hd. rewrite filter_cons.
      destruct (filtered_out _ l); [by rewrite decide_False|by rewrite decide_True]. }
    destruct (filtered_out (en_config e) l).
    + specialize (IH (set_position (S (en_current_position e)) e) Hgo Hd).
      destruct (replay_rest t rest _) as [e' [[v|]| |]]; [|rewrite Hk; destruct IH as [[] ?]; split; [by split|done]|done..].
      destruct IH as (Hp & Hpos & Hlen). rewrite Hk. split; [by destruct Hp; split|]. simpl in *.
      unfold total_kernels in *. simpl in *. lia.
    + unfold replay_launch, mbind, stm_bind. rewrite iter_apply_mem.
      destruct (stm_iter _ _ _) as [ms [[]| |]]; [|done..]. unfold finish_launch.
      rewrite goes_on_stops by done. rewrite Hk. split; [done|]. unfold total_kernels. simpl. split; [lia|done].
Qed.

(** [C25] Replaying all kernels ends: unless a step callback refuses, a fuel larger
    than the number of kernels left is enough for the loop, whatever the filter,
    the limit and the snapshots; and when it succeeds without a limit, every
    kernel the filter lets through is counted once, as passed or failed. *)
Theorem replay_all_terminates clock fuel i r e :
  en_initialized e = true -> goes_on e -> (total_kernels e - en_current_position e < fuel)%nat ->
  exists e' res, replay_loop clock fuel i r e = Some (e', res) /\
    forall r', res = Ok r' -> cf_max_kernels (en_config e) = None ->
    0 <= rr_passed_kernels r -> 0 <= rr_failed_kernels r ->
    rr_passed_kernels r + rr_failed_kernels r + Z.of_nat (length (kernels_left e)) < 2 ^ 64 ->
    rr_passed_kernels r' + rr_failed_kernels r' =
      rr_passed_kernels r + rr_failed_kernels r + Z.of_nat (length (kernels_left e)) /\
    is_complete e' = true.
Proof.
  revert i r e. induction fuel as [|fuel IH]; intros i r e Hi Hgo Hf; [lia|]. simpl.
  destruct (is_complete e) eqn:Hcomp.
  { do 2 eexists. split; [done|]. intros r' [= <-] _ _ _ _. split; [|done].
    unfold kernels_left. rewrite drop_ge by (apply Nat.leb_le in Hcomp; done). simpl. lia. }
  destruct (max_reached e) eqn:Hmr.
  { do 2 eexists. split; [done|]. intros r' _ Hm. unfold max_reached in Hmr. by rewrite Hm in Hmr. }
  unfold replay_next. rewrite Hi. simpl. pose proof (replay_rest_progress (clock i) _ e Hgo eq_refl) as Hpr.
  destruct (replay_rest _ _ e) as [e' [[v|]|err|]]; [| |by do 2 eexists..].
  - destruct Hpr as ([Htr Hcf Hcb Hin] & Hpos & Hlen).
    destruct (IH (S i) (add_result r v) e') as (e2 & res & Hrun & Hres).
    { congruence. } { unfold goes_on. by rewrite Hcf, Hcb. }
    { unfold total_kernels in *. rewrite Htr. lia. }
    do 2 eexists. split; [exact Hrun|]. intros r' Hr' Hm Hp Hfl Hsum.
    assert (Hadd : 0 <= rr_passed_kernels (add_result r v) /\ 0 <= rr_failed_kernels (add_result r v) /\
      rr_passed_kernels (add_result r v) + rr_failed_kernels (add_result r v) =
      rr_passed_kernels r + rr_failed_kernels r + 1).
    { unfold add_result; simpl. destruct (vr_passed v); unfold wrapping_add; rewrite wrap_small by lia; lia. }
    destruct (Hres r') as [Heq Hc]; [done|congruence|lia..|]. split; [lia|done].
  - destruct Hpr as (Hpg & Hk & Hge). do 2 eexists. split; [done|]. intros r' [= <-] _ _ _ _. rewrite Hk. simpl.
    split; [lia|]. unfold is_complete, total_kernels in *. rewrite (pg_trace _ _ Hpg). by apply Nat.leb_le.
Qed.

Lemma replay_all_terminates_witness :
  exists e' r', replay_loop (fun _ => 3) 3 0 (mkReplayResults 2 0 0 0 0) sample_engine = Some (e', Ok r') /\
    rr_passed_kernels r' + rr_failed_kernels r' = 2 /\ is_complete e' = true.
Proof.
  destruct (replay_all_terminates (fun _ => 3) 3 0 (mkReplayResults 2 0 0 0 0) sample_engine)
    as (e' & res & Hrun & Hres); [vm_compute; reflexivity|left; vm_compute; reflexivity|vm_compute; lia|].
  assert (Hr : exists r', res = Ok r') by (vm_compute in Hrun; injection Hrun as <- <-; eauto).
  destruct Hr as [r' ->]. exists e', r'. split; [exact Hrun|].
  apply (Hres r' eq_refl); vm_compute; done.
Defined.

(** A step callback that answers [false] to stop the replay makes
    [replay_all] replay the same kernel for ever: the position does not advance,
    and no fuel is enough. *)
Theorem refusing_callback_diverges clock fuel i r e l ms :
  en_initialized e = true -> cf_kernel_filter (en_config e) = None -> cf_max_kernels (en_config e) = None ->
  cf_step_mode (en_config e) = true -> en_step_callback e = Some (fun _ _ => false) ->
  tc_kernel_launches (en_trace e) !! en_current_position e = Some l ->
  stm_iter (apply_mem (en_address_map e)) (kl_input_memory l) (en_memory_state e) = (ms, Ok tt) ->
  replay_loop clock fuel i r e = None.
Proof.
  revert i r e ms. induction fuel as [|fuel IH]; intros i r e ms Hi Hf Hm Hst Hcb Hl Hap; [done|]. simpl.
  unfold is_complete, total_kernels, max_reached. rewrite Hm.
  assert (Hlt := lookup_lt_Some _ _ _ Hl). rewrite (proj2 (Nat.leb_gt _ _)) by done.
  unfold replay_next. rewrite Hi. simpl. rewrite (drop_S _ _ _ Hl). simpl. unfold filtered_out. rewrite Hf.
  unfold replay_launch, mbind, stm_bind. rewrite iter_apply_mem, Hap.
  unfold finish_launch, callback_stops. simpl. rewrite Hst, Hcb. simpl.
  eapply IH; simpl; try done. by apply apply_again in Hap.
Qed.

Definition refusing_engine : ReplayEngine :=
  set_step_callback (fun _ _ => false)
    (set_config (mkReplayConfig true true 0 None None) sample_engine).

Lemma refusing_callback_diverges_witness :
  replay_loop (fun _ => 3) 1000 0 (mkReplayResults 2 0 0 0 0) refusing_engine = None.
Proof.
  apply (refusing_callback_diverges (fun _ => 3) 1000 0 (mkReplayResults 2 0 0 0 0) refusing_engine
    (sample_launch 0 [snapshot_full 0 0x7000 [1; 2; 3; 4]] [])
    (en_memory_state refusing_engine)); vm_compute; reflexivity.
Defined.

(** ** The kernel filter and incremental snapshots *)
Definition filter_trace : ReplayTrace :=
  mkReplayTrace (header_default 0) ∅ [sample_alloc 0x7000 2]
    [mkRecordedKernelLaunch 0 0 "a" 1 2 (1, 1, 1) (1, 1, 1) 0 0 [] [snapshot_full 0 0x7000 [1; 1]] [] None;
     mkRecordedKernelLaunch 1 0 "b" 1 2 (1, 1, 1) (1, 1, 1) 0 0 []
       [snapshot_incremental 1 0x7000 2 [mkDirtyRegion 0 2 [7; 7]]] [] None;
     mkRecordedKernelLaunch 2 0 "a" 1 2 (1, 1, 1) (1, 1, 1) 0 0 [] [snapshot_reference 2 0x7000 2 1] [] None].

(** The memory of the last kernel of a replay under a filter *)
Definition filtered_memory (filter : option string) : option (list Z) :=
  let cf := mkReplayConfig false true 0 filter None in
  let e0 := fst (fst (initialize (set_config cf (engine_of filter_trace Virtual), VIRTUAL_ADDR))) in
  read_replayed (fst (replay_times [1; 1; 1] e0)) 0x7000.

(** The inputs of a skipped kernel are not applied, so that a later kernel whose
    snapshot refers to them runs on stale memory. *)
Lemma filter_replays_stale_memory :
  filtered_memory None = Some [7; 7] /\ filtered_memory (Some "a"%string) = Some [1; 1].
Proof. split; vm_compute; reflexivity. Qed.

(** A kernel whose module was never compiled passes when outputs are validated:
    the result of the launch is looked at only without validation. *)
Lemma execution_error_ignored t l e :
  cf_validate_outputs (en_config e) = true -> kl_output_memory l = [] ->
  en_compiled_modules e !! kl_module_handle l = None ->
  vr_passed (launch_result t l e) = true /\
  execute_kernel e l (remap_arguments e (kl_arguments l)) = Err (ModuleNotCompiled (kl_module_handle l)).
Proof.
  intros Hv Ho Hm. unfold launch_result, execute_kernel. rewrite Hv, Hm. split; [|done].
  unfold validate_kernel_output. by rewrite Ho.
Qed.
