(* ===== verification/ReplayCheck.v ===== *)
(** * Checksums and validation of a replay

    The CRC of [replay.rs] tells apart any two buffers that differ in one byte,
    so a full output snapshot is checked; the checksum of the other snapshots is
    not one of the memory they describe. *)
From stdpp Require Import base numbers list strings gmap.
From Stdlib Require Import ZArith Lia.
From S2P Require Import Prelude HostIO RustStr Runtime Replay ReplayEngine ReplayRun.

Open Scope Z_scope.

Definition u32 (z : Z) : Prop := 0 <= z < 2 ^ 32.

(** ** One bit *)
Lemma u32_lxor a b : u32 a -> u32 b -> u32 (Z.lxor a b).
Proof.
  unfold u32. intros Ha Hb.
  assert (H0 : 0 <= Z.lxor a b) by (apply Z.lxor_nonneg; lia). split; [done|].
  destruct (decide (Z.lxor a b = 0)) as [->|]; [done|]. apply Z.log2_lt_pow2; [lia|].
  eapply Z.le_lt_trans; [by apply Z.log2_lxor; lia|].
  apply Z.max_lub_lt; (destruct (decide (a = 0)), (decide (b = 0)); subst; try done; apply Z.log2_lt_pow2; lia).
Qed.

Lemma crc_bit_parity crc : crc_bit crc =
  if Z.testbit crc 0 then Z.lxor (Z.shiftr crc 1) 0xEDB88320 else Z.shiftr crc 1.
Proof.
  unfold crc_bit. replace (Z.land crc 1) with (Z.b2z (Z.testbit crc 0)).
  - by destruct (Z.testbit crc 0).
  - rewrite Z.bit0_mod. change 1 with (Z.ones 1). by rewrite Z.land_ones.
Qed.

Lemma crc_bit_u32 crc : u32 crc -> u32 (crc_bit crc).
Proof.
  intros H. rewrite crc_bit_parity. assert (u32 (Z.shiftr crc 1)) as Hs.
  { unfold u32 in *. rewrite Z.shiftr_div_pow2 by lia. change (2 ^ 1) with 2. split; [apply Z.div_pos; lia|].
    apply Z.div_lt_upper_bound; lia. }
  destruct (Z.testbit crc 0); [apply u32_lxor|]; done.
Qed.

(** The bit that is shifted out comes back as the top bit: nothing is lost. *)
Lemma crc_bit_top crc : u32 crc -> Z.testbit (crc_bit crc) 31 = Z.testbit crc 0.
Proof.
  intros H. rewrite crc_bit_parity.
  assert (Hb : Z.testbit (Z.shiftr crc 1) 31 = false).
  { rewrite Z.shiftr_spec by lia. by apply (testbit_small crc 32). }
  destruct (Z.testbit crc 0); [|done]. rewrite Z.lxor_spec, Hb. done.
Qed.

Lemma crc_bit_inj a b : u32 a -> u32 b -> crc_bit a = crc_bit b -> a = b.
Proof.
  intros Ha Hb Heq. assert (H0 : Z.testbit a 0 = Z.testbit b 0) by (by rewrite <- !crc_bit_top, Heq).
  assert (Hs : Z.shiftr a 1 = Z.shiftr b 1).
  { rewrite !crc_bit_parity, H0 in Heq. destruct (Z.testbit b 0); [|done].
    apply (f_equal (fun z => Z.lxor z 0xEDB88320)) in Heq. by rewrite !Z.lxor_assoc, !Z.lxor_nilpotent, !Z.lxor_0_r in Heq. }
  apply Z.bits_inj'. intros n Hn. destruct (decide (n = 0)) as [->|]; [done|].
  replace n with (n - 1 + 1) by lia. by rewrite <- !(Z.shiftr_spec _ 1) by lia; rewrite Hs.
Qed.

(** ** Bytes and buffers *)
Lemma iter_crc n a b : u32 a -> u32 b ->
  u32 (Nat.iter n crc_bit a) /\ u32 (Nat.iter n crc_bit b) /\
  (Nat.iter n crc_bit a = Nat.iter n crc_bit b -> a = b).
Proof.
  intros Ha Hb. induction n as [|n (IHa & IHb & IH)]; simpl; [done|].
  split; [by apply crc_bit_u32|]. split; [by apply crc_bit_u32|]. intros H. by apply IH, crc_bit_inj.
Qed.

Lemma lxor_inj_r a b c : Z.lxor a c = Z.lxor b c -> a = b.
Proof.
  intros H. apply (f_equal (fun z => Z.lxor z c)) in H.
  by rewrite !Z.lxor_assoc, !Z.lxor_nilpotent, !Z.lxor_0_r in H.
Qed.

Lemma byte_u32 b : is_byte b -> u32 b.
Proof. unfold is_byte, u32. lia. Qed.

Lemma crc_byte_u32 crc b : u32 crc -> is_byte b -> u32 (crc_byte crc b).
Proof. intros Hc Hb. unfold crc_byte. apply (iter_crc 8 _ 0); [by apply u32_lxor, byte_u32|done]. Qed.

Lemma crc_byte_inj a b x y : u32 a -> u32 b -> is_byte x -> is_byte y ->
  crc_byte a x = crc_byte b y -> Z.lxor a x = Z.lxor b y.
Proof.
  intros Ha Hb Hx Hy. apply (iter_crc 8); apply u32_lxor; try done; by apply byte_u32.
Qed.

Lemma crc_fold_inj data : Forall is_byte data -> forall a b, u32 a -> u32 b ->
  foldl crc_byte a data = foldl crc_byte b data -> a = b.
Proof.
  induction 1 as [|x data Hx Hd IH]; intros a b Ha Hb H; simpl in H; [done|].
  apply IH in H; [|by apply crc_byte_u32..]. apply crc_byte_inj in H; [|done..]. by apply lxor_inj_r in H.
Qed.

Lemma crc_fold_u32 data a : Forall is_byte data -> u32 a -> u32 (foldl crc_byte a data).
Proof. intros Hd. revert a. induction Hd; intros a Ha; simpl; [done|]. apply IHHd. by apply crc_byte_u32. Qed.

Lemma crc32_one_byte pre x y post :
  Forall is_byte (pre ++ x :: post) -> is_byte y -> x <> y ->
  crc32_checksum (pre ++ x :: post) <> crc32_checksum (pre ++ y :: post).
Proof.
  intros [Hpre [Hx Hpost]%Forall_cons]%Forall_app Hy Hne Heq. apply lxor_inj_r in Heq.
  rewrite !foldl_app in Heq. simpl in Heq. set (c := foldl crc_byte 4294967295 pre) in Heq.
  assert (Hc : u32 c) by (by apply crc_fold_u32).
  apply crc_fold_inj in Heq; [|done|by apply crc_byte_u32..].
  apply crc_byte_inj in Heq; [|done..]. rewrite !(Z.lxor_comm c) in Heq. by apply lxor_inj_r in Heq.
Qed.

(** ** Validation *)

(** The engine holds [data] for the recorded address. *)
Lemma check_output_data e s data :
  read_replayed e (ms_device_addr s) = Some data ->
  check_output e s = if decide (crc32_checksum data <> ms_checksum s)
    then Some (mkMemoryMismatch (ms_device_addr s) 0 (length data) (ms_checksum s) (crc32_checksum data)) else None.
Proof.
  unfold read_replayed, check_output. destruct (_ !! _) as [n|]; simpl; [|done].
  destruct (_ !! _) as [m|]; simpl; [|done]. by intros [= ->].
Qed.

(** Validation against a full output snapshot accepts the recorded contents
    and rejects every memory that differs from them in one byte. *)
Theorem full_output_validated t e l id addr pre x post actual :
  kl_output_memory l = [snapshot_full id addr (pre ++ x :: post)] ->
  Forall is_byte (pre ++ x :: post) -> is_byte actual ->
  read_replayed e addr = Some (pre ++ actual :: post) ->
  vr_passed (validate_kernel_output e l t) = bool_decide (actual = x).
Proof.
  intros Ho Hb Ha Hr. unfold validate_kernel_output. rewrite Ho. simpl.
  rewrite (check_output_data e (snapshot_full id addr (pre ++ x :: post)) _ Hr). simpl.
  destruct (decide (actual = x)) as [->|Hne].
  - rewrite decide_False by auto. by rewrite !bool_decide_true.
  - rewrite decide_True; [by rewrite !bool_decide_false by done|].
    intros Heq. symmetry in Heq. by apply crc32_one_byte in Heq.
Qed.

Lemma full_output_validated_witness :
  vr_passed (validate_kernel_output sample_engine
    (sample_launch 0 [] [snapshot_full 3 0x7000 ([1; 2] ++ 3 :: [4])]) 9) = true /\
  vr_passed (validate_kernel_output sample_engine
    (sample_launch 0 [] [snapshot_full 3 0x7000 ([1; 2] ++ 5 :: [4])]) 9) = false.
Proof.
  split.
  - rewrite (full_output_validated 9 sample_engine _ 3 0x7000 [1; 2] 3 [4] 3);
      [reflexivity|reflexivity|by repeat constructor|done|vm_compute; reflexivity].
  - rewrite (full_output_validated 9 sample_engine _ 3 0x7000 [1; 2] 5 [4] 3);
      [reflexivity|reflexivity|by repeat constructor|done|vm_compute; reflexivity].
Defined.

(** An output snapshot that says "unchanged" carries no checksum: validation
    passes only if the CRC of the memory happens to be 0. *)
Lemma reference_output_validation t e l id addr size last data :
  kl_output_memory l = [snapshot_reference id addr size last] -> read_replayed e addr = Some data ->
  vr_passed (validate_kernel_output e l t) = bool_decide (crc32_checksum data = 0).
Proof.
  intros Ho Hr. unfold validate_kernel_output. rewrite Ho. simpl.
  rewrite (check_output_data e (snapshot_reference id addr size last) data Hr). simpl.
  case_decide as Hc; simpl.
  - by rewrite !bool_decide_false.
  - by rewrite !bool_decide_true.
Qed.

(** Memory that is exactly as recorded is rejected against the reference and the
    incremental snapshot that describe it. *)
Lemma exact_memory_rejected :
  read_replayed sample_engine 0x7000 = Some [1; 2; 3; 4] /\
  vr_passed (validate_kernel_output sample_engine (sample_launch 0 [] [snapshot_reference 3 0x7000 4 0]) 9) = false /\
  vr_passed (validate_kernel_output sample_engine
    (sample_launch 0 [] [snapshot_incremental 3 0x7000 4 [mkDirtyRegion 1 2 [2; 3]]]) 9) = false.
Proof. repeat split; vm_compute; reflexivity. Qed.
