(* ===== verification/ReplayRecord.v ===== *)
(** * What a recording holds

    Whatever calls a program makes, its trace lists the launches whose end was
    reported, in order; a saved trace loads again; and a write error at the end
    of a save goes unnoticed. *)
From stdpp Require Import base numbers list strings gmap.
From Stdlib Require Import ZArith Lia.
From S2P Require Import Prelude HostIO RustStr Runtime Replay ReplayEngine ReplayRun.

Open Scope Z_scope.

(** ** Calls of the recording entry points *)
Inductive record_call : Type :=
| CallPtx (module_handle : Z) (src : string)
| CallAlloc (now addr size : Z) (ty : AllocationType)
| CallFree (addr : Z)
| CallDirty (addr size : Z)
| CallPre (now : Z) (p : LaunchParams)
| CallPost (sequence_id ns : Z).

Section Recording.
Context `{AllocationOrder}.

Definition do_call (c : record_call) : stm recording_global ReplayError unit :=
  match c with
  | CallPtx h src => fun g => (record_ptx_source h src g, Ok tt)
  | CallAlloc now addr size ty => record_allocation now addr size ty
  | CallFree addr => fun g => (record_deallocation addr g, Ok tt)
  | CallDirty addr size => fun g => (record_memory_dirty addr size g, Ok tt)
  | CallPre now p => fun g => (snd (record_kernel_pre_launch now p g), Ok tt)
  | CallPost id ns => fun g => (record_kernel_post_launch id ns g, Ok tt)
  end.

(** The launches that end, by the order of the calls alone: a launch is the
    last one begun, and beginning another before it ends drops it. *)
Fixpoint completed (n : Z) (pending : option (Z * LaunchParams)) (calls : list record_call)
    : list (Z * LaunchParams * Z) :=
  match calls with
  | [] => []
  | CallPre _ p :: calls => completed (n + 1) (Some (n, p)) calls
  | CallPost _ ns :: calls =>
      match pending with
      | Some (k, p) => (k, p, ns) :: completed n None calls
      | None => completed n None calls
      end
  | _ :: calls => completed n pending calls
  end.

(** The parameters a recorded launch was called with *)
Definition params_of (l : RecordedKernelLaunch) : LaunchParams :=
  mkLaunchParams (kl_kernel_name l) (kl_module_handle l) (kl_function_handle l) (kl_grid_dim l) (kl_block_dim l)
    (kl_shared_mem_bytes l) (kl_stream_handle l) (kl_arguments l).

Definition launch_entry (l : RecordedKernelLaunch) : Z * LaunchParams * option Z :=
  (kl_sequence_id l, params_of l, kl_execution_duration_ns l).

Definition entry_of (c : Z * LaunchParams * Z) : Z * LaunchParams * option Z :=
  let '(k, p, ns) := c in (k, p, Some ns).

Definition no_snapshots (l : RecordedKernelLaunch) : Prop := kl_input_memory l = [] /\ kl_output_memory l = [].

(** The session after some calls: [n] launches were begun, [seen] ended. *)
Record session_inv (n : Z) (pending : option (Z * LaunchParams)) (seen : list (Z * LaunchParams * Z))
    (s : RecordingSession) : Prop := mkSessionInv {
  si_active : rs_active s = true;
  si_sequence : rs_sequence s = n;
  si_pending : (fun l => (kl_sequence_id l, params_of l)) <$> rs_current_launch s = pending;
  si_pending_empty : forall l, rs_current_launch s = Some l -> no_snapshots l;
  si_launches : launch_entry <$> tc_kernel_launches (rs_trace s) = entry_of <$> seen;
  si_empty : Forall no_snapshots (tc_kernel_launches (rs_trace s));
  si_total : th_total_kernels (tc_header (rs_trace s)) = Z.of_nat (length seen);
  si_magic : th_magic (tc_header (rs_trace s)) = REPLAY_TRACE_MAGIC;
}.

Definition call_ok (c : record_call) : Prop :=
  match c with CallAlloc _ _ size _ => size <= isize_max | _ => True end.

Lemma launches_length n pending seen s :
  session_inv n pending seen s -> length (tc_kernel_launches (rs_trace s)) = length seen.
Proof. intros Hs. pose proof (f_equal length (si_launches _ _ _ _ Hs)) as Hl. by rewrite !length_fmap in Hl. Qed.

Lemma post_launch_inv n k p seen s id ns :
  session_inv n (Some (k, p)) seen s -> Z.of_nat (length seen) + 1 < 2 ^ 64 ->
  session_inv n None (seen ++ [(k, p, ns)]) (record_post_launch id ns s).
Proof.
  intros Hs Hlen. pose proof Hs as [Ha Hq Hp He Hl Hem Ht Hm]. unfold record_post_launch.
  destruct (rs_current_launch s) as [l|] eqn:Hcur; [|done]. injection Hp as <- <-.
  split; simpl; try done.
  - rewrite !fmap_app, Hl. done.
  - apply Forall_app. split; [done|]. apply Forall_singleton. by apply (He l).
  - rewrite Ht, length_app. simpl. unfold wrapping_add. rewrite wrap_small by lia. lia.
Qed.

Lemma pre_launch_inv n pending seen s now p :
  session_inv n pending seen s -> 0 <= n -> n + 1 < 2 ^ 64 ->
  session_inv (n + 1) (Some (n, p)) seen (snd (record_pre_launch now p s)).
Proof.
  intros [Ha Hq Hp He Hl Hem Ht Hm] H0 Hlen. unfold record_pre_launch. simpl.
  split; simpl; try done.
  - rewrite Hq. unfold wrapping_add. rewrite wrap_small; lia.
  - rewrite Hq. by destruct p.
  - intros l [= <-]. done.
Qed.

(** Calls that do not begin or end a launch *)
Lemma other_calls_inv n pending seen s c :
  session_inv n pending seen s -> call_ok c ->
  match c with CallPre _ _ | CallPost _ _ => True
  | _ => exists s', do_call c (Some s) = (Some s', Ok tt) /\ session_inv n pending seen s' end.
Proof.
  intros Hs Hc. pose proof Hs as [Ha Hq Hp He Hl Hem Ht Hm].
  destruct c as [h src|now addr size ty|addr|addr size|now p|id ns]; try done;
    unfold do_call, record_ptx_source, record_allocation, record_deallocation, record_memory_dirty, with_active;
    rewrite Ha; simpl; try (eexists; split; [done|by split]).
  unfold session_track_allocation, track_allocation, zeroed. rewrite (decide_True _ _ Hc).
  destruct (decide _); simpl; (eexists; split; [done|by split]).
Qed.

Lemma run_calls_inv calls : Forall call_ok calls -> forall n pending seen s,
  session_inv n pending seen s -> 0 <= n -> n + Z.of_nat (length calls) < 2 ^ 64 ->
  Z.of_nat (length seen) + Z.of_nat (length calls) < 2 ^ 64 ->
  exists n' pending' s', stm_iter do_call calls (Some s) = (Some s', Ok tt) /\
    session_inv n' pending' (seen ++ completed n pending calls) s'.
Proof.
  induction 1 as [|c calls Hc Hcs IH]; intros n pending seen s Hs H0 Hn Hlen.
  - exists n, pending, s. simpl. by rewrite app_nil_r.
  - assert (Hlc : Z.of_nat (length (c :: calls)) = Z.of_nat (length calls) + 1) by (simpl; lia).
    pose proof (si_active _ _ _ _ Hs) as Ha. pose proof (other_calls_inv n pending seen s c Hs Hc) as Hother.
    destruct c as [h src|now addr size ty|addr|addr size|now p|id ns];
      try (destruct Hother as (s1 & Hs1 & Hinv); cbn [stm_iter]; rewrite (stm_bind_Ok _ _ _ _ _ Hs1);
           apply IH; (done || lia)).
    + pose proof (pre_launch_inv n pending seen s now p Hs H0 ltac:(lia)) as Hinv.
      destruct (IH (n + 1) _ _ _ Hinv) as (n' & pd & s' & Hrun & Hfin); [lia..|].
      exists n', pd, s'. split; [|done]. cbn [stm_iter].
      assert (Hdo : do_call (CallPre now p) (Some s) = (Some (snd (record_pre_launch now p s)), Ok tt)).
      { cbn [do_call]. unfold record_kernel_pre_launch, with_active. rewrite Ha.
        by destruct (record_pre_launch now p s). }
      by rewrite (stm_bind_Ok _ _ _ _ _ Hdo).
    + assert (Hdo : do_call (CallPost id ns) (Some s) = (Some (record_post_launch id ns s), Ok tt)).
      { simpl. unfold record_kernel_post_launch, with_active. by rewrite Ha. }
      cbn [stm_iter]. rewrite (stm_bind_Ok _ _ _ _ _ Hdo). destruct pending as [[k p]|].
      * pose proof (post_launch_inv n k p seen s id ns Hs ltac:(lia)) as Hinv.
        destruct (IH n None _ _ Hinv) as (n' & pd & s' & Hrun & Hfin); [lia|lia|rewrite length_app; simpl; lia|].
        exists n', pd, s'. split; [done|]. simpl. by rewrite <- app_assoc in Hfin.
      * assert (Hsame : record_post_launch id ns s = s).
        { unfold record_post_launch. pose proof (si_pending _ _ _ _ Hs) as Hp. by destruct (rs_current_launch s). }
        rewrite Hsame. apply IH; (done || lia).
Qed.

Lemma start_inv env now start b name g : exists s, start_recording env now start b name g = Some s /\
  session_inv 0 None [] s.
Proof. eexists. split; [done|]. by split. Qed.

Lemma recording_runs env now start b name g calls :
  Forall call_ok calls -> Z.of_nat (length calls) < 2 ^ 64 ->
  exists n pending s, stm_iter do_call calls (start_recording env now start b name g) = (Some s, Ok tt) /\
    session_inv n pending (completed 0 None calls) s.
Proof.
  intros Hc Hlen. destruct (start_inv env now start b name g) as (s0 & Hs0 & Hinv). rewrite Hs0.
  destruct (run_calls_inv calls Hc 0 None [] s0 Hinv) as (n & pd & s & Hrun & Hfin); [lia|lia|simpl; lia|].
  by exists n, pd, s.
Qed.

(** [C24] A recording pairs every end of a launch with the last launch begun: after
    any sequence of fewer than 2^64 calls that track allocations of at most
    [isize::MAX] bytes, each of which succeeds, the trace holds exactly
    the completed launches, in order, with the parameters given when they began,
    their sequence numbers, and the durations given when they ended; the header
    counts them.  A launch begun while another is pending replaces it. *)
Theorem recording_pairs_launches env now start b name g calls :
  Forall call_ok calls -> Z.of_nat (length calls) < 2 ^ 64 ->
  exists s, stm_iter do_call calls (start_recording env now start b name g) = (Some s, Ok tt) /\
    launch_entry <$> tc_kernel_launches (rs_trace s) = entry_of <$> completed 0 None calls /\
    th_total_kernels (tc_header (rs_trace s)) = Z.of_nat (length (tc_kernel_launches (rs_trace s))).
Proof.
  intros Hc Hlen. destruct (recording_runs env now start b name g calls Hc Hlen) as (n & pd & s & Hrun & Hfin).
  exists s. split; [done|]. split; [apply Hfin|]. rewrite (launches_length _ _ _ _ Hfin). apply Hfin.
Qed.

(** The memory before and after a launch, which the configuration asks for by
    default, is never captured while recording. *)
Lemma recorded_launches_have_no_snapshots env now start b name g calls :
  Forall call_ok calls -> Z.of_nat (length calls) < 2 ^ 64 ->
  exists s, stm_iter do_call calls (start_recording env now start b name g) = (Some s, Ok tt) /\
    Forall no_snapshots (tc_kernel_launches (rs_trace s)).
Proof.
  intros Hc Hlen. destruct (recording_runs env now start b name g calls Hc Hlen) as (n & pd & s & Hrun & Hfin).
  exists s. split; [done|]. apply Hfin.
Qed.

(** Replaying a recorded trace therefore validates nothing: every kernel passes. *)
Lemma recorded_kernels_pass t e l : cf_validate_outputs (en_config e) = true -> no_snapshots l ->
  vr_passed (launch_result t l e) = true.
Proof.
  intros Hv [_ Ho]. unfold launch_result, validate_kernel_output. by rewrite Hv, Ho.
Qed.
End Recording.

#[local] Instance map_alloc_order : AllocationOrder :=
  {| alloc_iter := map_to_list; alloc_iter_perm := fun m => reflexivity _ |}.

Definition sample_params (name : string) : LaunchParams := mkLaunchParams name 1 2 (1, 1, 1) (32, 1, 1) 0 0 [].

Definition sample_calls : list record_call :=
  [CallAlloc 5 0x7000 64 AllocDevice; CallPre 6 (sample_params "a"); CallPre 7 (sample_params "b");
   CallPost 1 30; CallPost 0 20; CallPre 9 (sample_params "c"); CallPost 2 10].

Lemma recording_pairs_launches_witness :
  exists s, stm_iter do_call sample_calls (start_recording (fun _ => None) 1 2 Nvidia "gpu" None) = (Some s, Ok tt) /\
    launch_entry <$> tc_kernel_launches (rs_trace s) =
      [(1, sample_params "b", Some 30); (2, sample_params "c", Some 10)].
Proof.
  destruct (recording_pairs_launches (fun _ => None) 1 2 Nvidia "gpu" None sample_calls) as (s & Hrun & Hl & _);
    [by repeat constructor|done|].
  exists s. split; [exact Hrun|]. rewrite Hl. vm_compute. reflexivity.
Defined.

(** ** Saving *)
Section Saving.
Context `{TraceJson}.

Definition quiet (w : world) : Prop := write_faults w = [].

Lemma write_all_quiet path data w : quiet w ->
  exists w', write_all path data w = (w', Ok tt) /\ quiet w' /\ file_bytes path w' = file_bytes path w ++ data /\
    denied w' = denied w /\ read_fault w' = read_fault w /\
    (is_Some (files w !! path) -> is_Some (files w' !! path)).
Proof.
  intros Hq. unfold write_all. rewrite Hq. destruct data as [|x data].
  - exists w. rewrite app_nil_r. done.
  - eexists. split; [done|]. rewrite file_bytes_set_file. simpl. rewrite lookup_insert_eq. eauto 10.
Qed.

(** The state of a buffered write: what reached the file and what is buffered. *)
Definition buffered (path : string) (w0 : world) (done : list Z) (w : world) (buf : list Z) : Prop :=
  quiet w /\ file_bytes path w ++ buf = file_bytes path w0 ++ done /\ denied w = denied w0 /\
  read_fault w = read_fault w0 /\ is_Some (files w !! path).

Lemma flush_buffered path w0 done w buf : buffered path w0 done w buf ->
  exists w', flush_buf path buf w = (w', [], Ok tt) /\ buffered path w0 done w' [].
Proof.
  intros (Hq & Hb & Hd & Hr & Hs). destruct (write_all_quiet path buf w Hq) as (w' & Hw & Hq' & Hb' & Hd' & Hr' & Hs').
  exists w'. unfold flush_buf. rewrite Hw. split; [done|].
  repeat split; [done|by rewrite app_nil_r, Hb'|congruence|congruence|auto].
Qed.

Lemma buf_write_buffered path w0 done w buf chunk : buffered path w0 done w buf ->
  exists w' buf', buf_write_all path chunk buf w = (w', buf', Ok tt) /\ buffered path w0 (done ++ chunk) w' buf'.
Proof.
  intros Hb. unfold buf_write_all.
  assert (Happ : forall w buf, buffered path w0 done w buf -> buffered path w0 (done ++ chunk) w (buf ++ chunk)).
  { intros w1 b1 (Hq & Hb1 & Hd & Hr & Hs). repeat split; try done. by rewrite !app_assoc, Hb1. }
  case_decide as Hfit; [do 2 eexists; split; [done|by apply Happ]|].
  assert (exists w1 b1, (if decide (buf_capacity - length buf < length chunk)%nat then flush_buf path buf w
    else (w, buf, Ok tt)) = (w1, b1, Ok tt) /\ buffered path w0 done w1 b1 /\
    ((buf_capacity <= length chunk)%nat -> b1 = [])) as (w1 & b1 & -> & Hb1 & Hdirect).
  { case_decide as Hspare.
    - destruct (flush_buffered _ _ _ _ _ Hb) as (w' & Hf & Hb'). exists w', []. by split_and!.
    - exists w, buf. split; [done|]. split; [done|]. intros Hcap.
      assert (0 < buf_capacity)%nat by (unfold buf_capacity; lia). apply length_zero_iff_nil. lia. }
  case_decide as Hcap; [|do 2 eexists; split; [done|by apply Happ]].
  specialize (Hdirect Hcap) as ->. destruct Hb1 as (Hq & Hb1 & Hd & Hr & Hs).
  destruct (write_all_quiet path chunk w1 Hq) as (w' & Hw & Hq' & Hb' & Hd' & Hr' & Hs'). rewrite Hw.
  do 2 eexists. split; [done|]. rewrite app_nil_r in Hb1.
  repeat split; [done|by rewrite app_nil_r, Hb', Hb1, app_assoc|congruence|congruence|auto].
Qed.

Lemma buf_chunks_buffered path w0 chunks : forall done w buf, buffered path w0 done w buf ->
  exists w' buf', buf_write_chunks path chunks buf w = (w', buf', Ok tt) /\
    buffered path w0 (done ++ concat chunks) w' buf'.
Proof.
  induction chunks as [|c cs IH]; intros done w buf Hb; simpl.
  - do 2 eexists. split; [done|]. by rewrite app_nil_r.
  - destruct (buf_write_buffered _ _ _ _ _ c Hb) as (w1 & b1 & -> & Hb1).
    destruct (IH _ _ _ Hb1) as (w2 & b2 & -> & Hb2). rewrite <- app_assoc in Hb2. eauto.
Qed.

(** What [serde] leaves out of an allocation *)
Definition serde_allocation (a : TrackedAllocation) : TrackedAllocation :=
  mkTrackedAllocation (ta_device_addr a) (ta_size a) (ta_allocation_time a) (ta_allocation_type a) []
    (ta_last_snapshot_seq a) None.

Definition serde_trace (t : ReplayTrace) : ReplayTrace :=
  mkReplayTrace (tc_header t) (tc_ptx_sources t) (serde_allocation <$> tc_allocations t) (tc_kernel_launches t).

(** A trace that is saved without a write fault loads again: all of it but
    the dirty bits and shadow copies, which are not serialized.  The JSON of the
    trace is read back by the crate that wrote it. *)
Theorem saved_trace_loads t path w :
  th_magic (tc_header t) = REPLAY_TRACE_MAGIC -> path ∉ denied w -> quiet w -> read_fault w = None ->
  parse_trace (concat (trace_chunks t)) = Some (serde_trace t) ->
  exists w', trace_save t path w = (w', Ok tt) /\ trace_load path w' = Ok (serde_trace t).
Proof.
  intros Hm Hden Hq Hrf Hjson. unfold trace_save, open_truncate, stm_map_err, mbind, stm_bind.
  rewrite decide_False by done. simpl. set (w0 := set_file path [] w).
  destruct (buf_chunks_buffered path w0 (trace_chunks t) [] w0 []) as (w1 & b1 & Hrun & Hb1).
  { repeat split; try done. simpl. rewrite lookup_insert_eq. eauto. }
  unfold write_and_drop. rewrite Hrun. destruct (flush_buffered _ _ _ _ _ Hb1) as (w2 & Hf & Hb2). rewrite Hf.
  eexists. split; [done|]. destruct Hb2 as (_ & Hb2 & Hd2 & Hr2 & [bytes Hbytes]).
  unfold w0 in Hb2. rewrite app_nil_r, file_bytes_set_file in Hb2. simpl in Hb2, Hr2.
  unfold file_bytes in Hb2. rewrite Hbytes in Hb2. simpl in Hb2. subst bytes.
  unfold trace_load, open_read. rewrite decide_False by (by rewrite Hd2). rewrite Hbytes. simpl.
  unfold read_to_end. simpl. rewrite Hr2, Hrf. simpl. rewrite Hjson. simpl. by rewrite decide_False by auto.
Qed.

(** A trace shorter than the buffer of the writer is written when the writer
    is dropped, where errors are ignored: if that write fails, [save] still
    reports success, and the file holds a proper prefix of the text. *)
Theorem save_hides_write_error t path w k faults :
  path ∉ denied w -> write_faults w = Some k :: faults ->
  (0 < length (concat (trace_chunks t)) < buf_capacity)%nat ->
  exists w', trace_save t path w = (w', Ok tt) /\
    file_bytes path w' = take (k `min` (length (concat (trace_chunks t)) - 1)) (concat (trace_chunks t)).
Proof.
  intros Hden Hf Hlen. unfold trace_save, open_truncate, stm_map_err, mbind, stm_bind.
  rewrite decide_False by done. simpl. set (w0 := set_file path [] w).
  assert (Hsmall : forall chunks buf, (length (buf ++ concat chunks) < buf_capacity)%nat ->
    buf_write_chunks path chunks buf w0 = (w0, buf ++ concat chunks, Ok tt)).
  { induction chunks as [|c cs IH]; intros buf Hl; simpl in *; [by rewrite app_nil_r|].
    unfold buf_write_all. rewrite !length_app in Hl. rewrite decide_True by lia.
    rewrite IH by (rewrite !length_app; lia). by rewrite app_assoc. }
  unfold write_and_drop. rewrite Hsmall by (simpl; lia). simpl. set (text := concat (trace_chunks t)) in *.
  unfold flush_buf, write_all. destruct text as [|x text]; [simpl in Hlen; lia|].
  change (write_faults w0) with (write_faults w). rewrite Hf. simpl.
  eexists. split; [done|]. rewrite file_bytes_set_file. unfold w0. by rewrite file_bytes_set_file.
Qed.
End Saving.

Definition sample_json : TraceJson :=
  {| trace_chunks := fun _ => [[123]; [125]]; parse_trace := fun _ => Some (trace_default 0) |}.

Definition sample_world (faults : list (option nat)) : world := mkWorld ∅ ∅ faults None.

Lemma saved_trace_loads_witness :
  exists w', @trace_save sample_json (trace_default 0) "t.hetr" (sample_world []) = (w', Ok tt) /\
    @trace_load sample_json "t.hetr" w' = Ok (trace_default 0).
Proof.
  apply (@saved_trace_loads sample_json (trace_default 0) "t.hetr" (sample_world []));
    [reflexivity|set_solver|reflexivity|reflexivity|reflexivity].
Defined.

Lemma save_hides_write_error_witness :
  exists w', @trace_save sample_json (trace_default 0) "t.hetr" (sample_world [Some 1%nat]) = (w', Ok tt) /\
    file_bytes "t.hetr" w' = [123].
Proof.
  apply (@save_hides_write_error sample_json (trace_default 0) "t.hetr" (sample_world [Some 1%nat]) 1 []);
    [set_solver|reflexivity|vm_compute; lia].
Defined.
