(* ===== verification/Kimi.v ===== *)
(** * The Kimi manager of Concordia ([zluda/src/impl/kimi_concordia.rs])

    Device allocations of a model server that are large enough are tracked as
    regions, classified by the kernels that use them, described in a manifest
    file, and checkpointed page by page into the append-only log.  The manager's
    own state, the manifest, the selection of kernels, dirty bitmaps and the
    translation of offsets between block tables are here; the code on device
    memory is in [KimiDevice].  Log lines are dropped. *)
From stdpp Require Import base numbers list strings gmap sorting pretty.
From Stdlib Require Import ZArith Lia Ascii.
From S2P Require Import Prelude HostIO Delta Aof RustStr Runtime Replay.

Open Scope Z_scope.

Definition KIMI_PAGE_SIZE : Z := 4096.
Definition DEFAULT_MIN_ALLOCATION_BYTES : Z := 1048576.
Definition DEFAULT_MAX_REGIONS : Z := 128.
Definition DEFAULT_CHECKPOINT_EVERY : Z := 1.
Definition DEFAULT_AOF_PATH : string := "/tmp/concordia/kimi.aof".

(** ** Configuration *)
Record KimiConcordiaConfig : Type := mkKimiConfig {
  kc_enabled : bool;
  kc_restore_enabled : bool;
  kc_min_allocation_bytes : Z;
  kc_max_regions : Z;
  kc_checkpoint_every : Z;
  kc_aof_path : string;
  kc_restore_aof_path : string;
  kc_manifest_path : string;
  kc_logs_enabled : bool;
}.

Definition CONFIG_KEYS : list string :=
  ["HETGPU_KIMI_CONCORDIA"; "HETGPU_KIMI_CONCORDIA_RESTORE"; "HETGPU_KIMI_CONCORDIA_ALLOC_MIN_BYTES";
   "HETGPU_KIMI_CONCORDIA_MAX_REGIONS"; "HETGPU_KIMI_CONCORDIA_CHECKPOINT_EVERY";
   "HETGPU_KIMI_CONCORDIA_AOF_PATH"; "CONCORDIA_AOF_PATH"; "HETGPU_KIMI_CONCORDIA_MANIFEST";
   "CONCORDIA_MANIFEST_PATH"; "HETGPU_KIMI_CONCORDIA_RESTORE_AOF"; "CONCORDIA_RESTORE_AOF_PATH";
   "HETGPU_KIMI_CONCORDIA_LOGS"; "CONCORDIA_LOGS"].

Definition parse_bool (value : string) : bool :=
  let v := to_ascii_lowercase (trim value) in
  String.eqb v "1" || String.eqb v "true" || String.eqb v "yes" || String.eqb v "on".

Definition read_bool_from_pairs (pairs : list (string * string)) (keys : list string) (fallback : bool) : bool :=
  default fallback (find_map (fun key => parse_bool <$> assoc key pairs) keys).

Definition parse_u64 : string -> option Z := parse_int 10 0 (2 ^ 64 - 1).

(** [usize] is 64 bits wide, so this is also [read_u64_from_pairs]. *)
Definition read_usize_from_pairs (pairs : list (string * string)) (keys : list string) (fallback : Z) : Z :=
  default fallback (find_map (fun key => value ← assoc key pairs; parse_u64 (trim value)) keys).

Definition read_path_from_pairs (pairs : list (string * string)) (keys : list string) (fallback : string) : string :=
  default fallback (find_map (fun key => assoc key pairs) keys).

(** [PathBuf::set_extension] with a non-empty extension *)
Definition set_extension (ext path : string) : string :=
  match last_component path, file_stem path with
  | Some (front, _), Some stem => join "/" (front ++ [String.append stem (String "." ext)])
  | _, _ => path
  end.

Definition default_manifest_path (aof_path : string) : string := set_extension "manifest.json" aof_path.

Definition kimi_config_from_pairs (env : environment) (pairs : list (string * string)) : KimiConcordiaConfig :=
  let aof_path := read_path_from_pairs pairs ["HETGPU_KIMI_CONCORDIA_AOF_PATH"; "CONCORDIA_AOF_PATH"]%string
                    DEFAULT_AOF_PATH in
  mkKimiConfig
    (read_bool_from_pairs pairs ["HETGPU_KIMI_CONCORDIA"%string] false)
    (read_bool_from_pairs pairs ["HETGPU_KIMI_CONCORDIA_RESTORE"%string] false)
    (Z.max (read_usize_from_pairs pairs ["HETGPU_KIMI_CONCORDIA_ALLOC_MIN_BYTES"%string]
              DEFAULT_MIN_ALLOCATION_BYTES) KIMI_PAGE_SIZE)
    (read_usize_from_pairs pairs ["HETGPU_KIMI_CONCORDIA_MAX_REGIONS"%string] DEFAULT_MAX_REGIONS)
    (Z.max (read_usize_from_pairs pairs ["HETGPU_KIMI_CONCORDIA_CHECKPOINT_EVERY"%string]
              DEFAULT_CHECKPOINT_EVERY) 1)
    aof_path
    (read_path_from_pairs pairs
       ["HETGPU_KIMI_CONCORDIA_RESTORE_AOF"; "CONCORDIA_RESTORE_AOF_PATH"; "HETGPU_KIMI_CONCORDIA_AOF_PATH";
        "CONCORDIA_AOF_PATH"]%string aof_path)
    (mpi_scoped_aof_path env
       (read_path_from_pairs pairs ["HETGPU_KIMI_CONCORDIA_MANIFEST"; "CONCORDIA_MANIFEST_PATH"]%string
          (default_manifest_path aof_path)))
    (read_bool_from_pairs pairs ["HETGPU_KIMI_CONCORDIA_LOGS"; "CONCORDIA_LOGS"]%string false).

Definition kimi_config_from_env (env : environment) : KimiConcordiaConfig :=
  kimi_config_from_pairs env (env_pairs env CONFIG_KEYS).

Definition tracked_len (size : Z) : Z := size / KIMI_PAGE_SIZE * KIMI_PAGE_SIZE.

Definition should_track_allocation (c : KimiConcordiaConfig) (size : Z) : bool :=
  kc_enabled c && (kc_min_allocation_bytes c <=? tracked_len size).

(** ** Regions and the manifest *)
Inductive KimiRegionKind : Type := KimiOpaqueMutable | KimiKvCache | KimiAdapter.

#[global] Instance KimiRegionKind_eq_dec : EqDecision KimiRegionKind.
Proof. solve_decision. Defined.

Definition stable_prefix (k : KimiRegionKind) : string :=
  match k with
  | KimiOpaqueMutable => "opaque"
  | KimiKvCache => "kv-cache"
  | KimiAdapter => "adapter"
  end.

Record KimiAllocatorMetadata : Type := mkKimiAllocator {
  al_block_table_ptr : Z;
  al_block_count : Z;
  al_dirty_bitmap_ptr : Z;
  al_dirty_bitmap_bytes : Z;
  al_block_table_snapshot : list Z;
}.

Record KimiRegionSpec : Type := mkKimiRegionSpec {
  sp_region_id : Z;
  sp_stable_key : string;
  sp_kind : KimiRegionKind;
  sp_ptr : Z;
  sp_requested_size : Z;
  sp_tracked_size : Z;
  sp_allocation_index : Z;
  sp_last_kernel : option string;
  sp_allocator : option KimiAllocatorMetadata;
}.

Record KimiRegionManifest : Type := mkKimiManifest { mf_regions : list KimiRegionSpec }.

(** The order of [sort_by_key] on [(allocation_index, region_id)], a stable
    sort. *)
Definition spec_le (a b : KimiRegionSpec) : bool :=
  (sp_allocation_index a <? sp_allocation_index b)
  || ((sp_allocation_index a =? sp_allocation_index b) && (sp_region_id a <=? sp_region_id b)).

Fixpoint insert_spec (a : KimiRegionSpec) (l : list KimiRegionSpec) : list KimiRegionSpec :=
  match l with
  | [] => [a]
  | b :: rest => if spec_le a b then a :: l else b :: insert_spec a rest
  end.

Definition sort_specs (l : list KimiRegionSpec) : list KimiRegionSpec := foldr insert_spec [] l.

Definition manifest_upsert (spec : KimiRegionSpec) (m : KimiRegionManifest) : KimiRegionManifest :=
  let regions := mf_regions m in
  mkKimiManifest (sort_specs
    match list_find (fun region => sp_ptr region = sp_ptr spec) regions with
    | Some (i, _) => <[i := spec]> regions
    | None => regions ++ [spec]
    end).

Definition manifest_remove_ptr (ptr : Z) (m : KimiRegionManifest) : KimiRegionManifest :=
  mkKimiManifest (filter (fun region => sp_ptr region <> ptr) (mf_regions m)).

Definition manifest_find_region_id (kind : KimiRegionKind) (stable_key : string) (tracked_size : Z)
    (m : KimiRegionManifest) : option Z :=
  sp_region_id ∘ snd <$>
    list_find (fun region => sp_kind region = kind /\ sp_stable_key region = stable_key /\
                             sp_tracked_size region = tracked_size) (mf_regions m).

Definition max_region_id (m : KimiRegionManifest) : Z :=
  foldl Z.max 0 (sp_region_id <$> mf_regions m).

(** ** The manager *)
Record DeviceCheckpointResources : Type := mkDeviceResources {
  dc_shadow : Z;
  dc_bitmap : Z;
  dc_bitmap_words : Z;
  dc_staging_host : Z;
  dc_staging_device : Z;
  dc_staging_bytes : Z;
}.

Record KimiTrackedRegion : Type := mkKimiRegion {
  kr_ptr : Z;
  kr_requested_size : Z;
  kr_tracked_size : Z;
  kr_region_id : Z;
  kr_allocation_index : Z;
  kr_kind : KimiRegionKind;
  kr_stable_key : string;
  kr_last_kernel : option string;
  kr_initialized : bool;
  kr_restored : bool;
  kr_allocator : option KimiAllocatorMetadata;
  kr_device : option DeviceCheckpointResources;
}.

Record KimiConcordiaManager : Type := mkKimiManager {
  km_config : KimiConcordiaConfig;
  km_next_region_id : Z;
  km_next_allocation_index : Z;
  km_next_epoch : Z;
  km_stateful_launches : Z;
  km_allocations : gmap Z KimiTrackedRegion;
  km_manifest : KimiRegionManifest;
  km_restore_manifest : option KimiRegionManifest;
  km_aof : option AofDiskLog;
  km_worker_handle : option Z;
}.

(** Field updates *)
Definition km_set_allocations (a : gmap Z KimiTrackedRegion) (k : KimiConcordiaManager) : KimiConcordiaManager :=
  mkKimiManager (km_config k) (km_next_region_id k) (km_next_allocation_index k) (km_next_epoch k)
    (km_stateful_launches k) a (km_manifest k) (km_restore_manifest k) (km_aof k) (km_worker_handle k).
Definition km_set_manifest (m : KimiRegionManifest) (k : KimiConcordiaManager) : KimiConcordiaManager :=
  mkKimiManager (km_config k) (km_next_region_id k) (km_next_allocation_index k) (km_next_epoch k)
    (km_stateful_launches k) (km_allocations k) m (km_restore_manifest k) (km_aof k) (km_worker_handle k).
Definition km_bump_ids (k : KimiConcordiaManager) : KimiConcordiaManager :=
  mkKimiManager (km_config k) (wrapping_add 64 (km_next_region_id k) 1)
    (wrapping_add 64 (km_next_allocation_index k) 1) (km_next_epoch k) (km_stateful_launches k)
    (km_allocations k) (km_manifest k) (km_restore_manifest k) (km_aof k) (km_worker_handle k).
Definition km_bump_epoch (k : KimiConcordiaManager) : KimiConcordiaManager :=
  mkKimiManager (km_config k) (km_next_region_id k) (km_next_allocation_index k)
    (saturating_add 64 (km_next_epoch k) 1) (km_stateful_launches k) (km_allocations k) (km_manifest k)
    (km_restore_manifest k) (km_aof k) (km_worker_handle k).
Definition km_count_launch (k : KimiConcordiaManager) : KimiConcordiaManager :=
  mkKimiManager (km_config k) (km_next_region_id k) (km_next_allocation_index k) (km_next_epoch k)
    (saturating_add 64 (km_stateful_launches k) 1) (km_allocations k) (km_manifest k)
    (km_restore_manifest k) (km_aof k) (km_worker_handle k).
Definition km_set_aof (log : AofDiskLog) (k : KimiConcordiaManager) : KimiConcordiaManager :=
  mkKimiManager (km_config k) (km_next_region_id k) (km_next_allocation_index k) (km_next_epoch k)
    (km_stateful_launches k) (km_allocations k) (km_manifest k) (km_restore_manifest k) (Some log)
    (km_worker_handle k).
Definition km_set_worker (h : option Z) (k : KimiConcordiaManager) : KimiConcordiaManager :=
  mkKimiManager (km_config k) (km_next_region_id k) (km_next_allocation_index k) (km_next_epoch k)
    (km_stateful_launches k) (km_allocations k) (km_manifest k) (km_restore_manifest k) (km_aof k) h.

(** The JSON of a manifest is the [serde_json] crate's. *)
Class ManifestJson : Type := {
  manifest_text : KimiRegionManifest -> list Z;
  parse_manifest : list Z -> option KimiRegionManifest;
}.

Inductive KimiError : Type :=
| ReadManifest (path : string) (e : io_error)
| ParseManifest (path : string)
| CreateManifestDir (dir : string) (e : io_error)
| WriteManifest (path : string) (e : io_error)
| CreateAofDir (dir : string) (e : io_error)
| OpenAof (path : string) (e : io_error)
| AppendAofRecord (region_id : Z) (e : io_error)
| ReadRestoreAof (path : string) (e : io_error)
| NullRegionPointer
| EmptyDirtyBitmap (ptr : Z)
| UnknownAllocation (ptr : Z)
| AbsentPhysicalPage (page : Z)
| NoLogicalPage (page : Z)
| TranslatedOverflow (page : Z)
| BlockTableOverflow (entries : Z)
| NoCheckpointResources (region_id : Z)
| ScanEnqueueFailed (region_id : Z)
| StagingTooSmall (region_id staging len : Z)
| StageEnqueueFailed (region_id : Z)
| WorkerInitFailed
| RestoreOverflow (region_id offset : Z)
| RestoreBeyond (region_id offset endp size : Z)
| NoStagingBuffer (region_id : Z)
| RestoreEnqueueFailed (region_id : Z)
| DriverFailed (call : string) (arg rc : Z)
| NullStaging.

Section Manager.
Context `{ManifestJson}.

Definition read_manifest (path : string) (w : world) : outcome KimiError KimiRegionManifest :=
  rd ← map_err (ReadManifest path) (open_read path w);
  bytes ← ok_or (ReadManifest path DeviceError) (read_to_end rd);
  ok_or (ParseManifest path) (parse_manifest bytes).

(** [create_dir_all] of the parent, unless it is empty, then [std::fs::write] *)
Definition ensure_parent (err : string -> io_error -> KimiError) (path : string) : stm world KimiError unit :=
  match parent path with
  | Some dir => if String.eqb dir "" then mret tt else stm_map_err (err dir) (create_dir_all dir)
  | None => mret tt
  end.

Definition write_manifest (path : string) (m : KimiRegionManifest) : stm world KimiError unit :=
  ensure_parent CreateManifestDir path;;
  stm_map_err (WriteManifest path) (open_truncate path;; write_all path (manifest_text m)).

Definition manager_new (config : KimiConcordiaConfig) (w : world) : KimiConcordiaManager :=
  let restore_manifest :=
    if kc_restore_enabled config
    then match read_manifest (kc_manifest_path config) w with Ok m => Some m | _ => None end
    else None in
  mkKimiManager config
    (from_option (fun m => Z.max (saturating_add 64 (max_region_id m) 1) 1) 1 restore_manifest)
    1 1 0 ∅ (mkKimiManifest []) restore_manifest None None.

(** Operations act on the manager and the files. *)
Definition kimi_state : Type := KimiConcordiaManager * world.

Definition persist_manifest_best_effort (s : kimi_state) : kimi_state :=
  let '(k, w) := s in
  if kc_enabled (km_config k)
  then (k, fst (write_manifest (kc_manifest_path (km_config k)) (km_manifest k) w))
  else s.

Definition spec_of (r : KimiTrackedRegion) : KimiRegionSpec :=
  mkKimiRegionSpec (kr_region_id r) (kr_stable_key r) (kr_kind r) (kr_ptr r) (kr_requested_size r)
    (kr_tracked_size r) (kr_allocation_index r) (kr_last_kernel r) (kr_allocator r).

Definition upsert_manifest_for_ptr (ptr : Z) (k : KimiConcordiaManager) : KimiConcordiaManager :=
  match km_allocations k !! ptr with
  | Some r => km_set_manifest (manifest_upsert (spec_of r) (km_manifest k)) k
  | None => k
  end.

(** [format!("{}:{:04}:{}", prefix, n, size)] *)
Definition stable_key_text (kind : KimiRegionKind) (n size : Z) : string :=
  String.concat "" [stable_prefix kind; ":"; pad4 n; ":"; dec size]%string.

Definition note_allocation_inner (ptr size : Z) (s : kimi_state) : option Z * kimi_state :=
  let '(k, w) := s in
  if (ptr =? 0) || negb (should_track_allocation (km_config k) size) then (None, s)
  else if bool_decide (is_Some (km_allocations k !! ptr))
          || (kc_max_regions (km_config k) <=? Z.of_nat (base.size (km_allocations k))) then (None, s)
  else
    let region_id := km_next_region_id k in
    let allocation_index := km_next_allocation_index k in
    let tracked_size := tracked_len size in
    let region := mkKimiRegion ptr size tracked_size region_id allocation_index KimiOpaqueMutable
                    (stable_key_text KimiOpaqueMutable allocation_index tracked_size) None false false None None in
    let k := km_bump_ids k in
    let k := km_set_allocations (<[ptr := region]> (km_allocations k)) k in
    (Some region_id, persist_manifest_best_effort (upsert_manifest_for_ptr ptr k, w)).

(** ** Kernels *)
Definition is_kimi_stateful_kernel_name (kernel_name : string) : bool :=
  let name := to_ascii_lowercase kernel_name in
  if contains "kv" name || contains "k_cache" name || contains "v_cache" name
     || contains "cache_update" name || contains "paged_cache" name || contains "pagedattention" name
  then true
  else
    let attention_like := contains "attention" name || contains "flash_attn" name || contains "_attn" name in
    let decode_like := contains "decode" name || contains "rope" name || contains "neox" name
                       || contains "qkv" name || contains "kq" name in
    attention_like && decode_like.

Definition region_kind_for_kernel (kernel_name : string) : option KimiRegionKind :=
  let name := to_ascii_lowercase kernel_name in
  if contains "lora" name || contains "adapter" name then Some KimiAdapter
  else if is_kimi_stateful_kernel_name kernel_name then Some KimiKvCache else None.

Definition should_checkpoint_after_launch_inner (kernel_name : string) (k : KimiConcordiaManager)
    : bool * KimiConcordiaManager :=
  if negb (kc_enabled (km_config k)) || negb (is_kimi_stateful_kernel_name kernel_name) then (false, k)
  else
    let k := km_count_launch k in
    (km_stateful_launches k mod kc_checkpoint_every (km_config k) =? 0, k).

Definition stable_key_for_region (ptr : Z) (kind : KimiRegionKind) (tracked_size : Z) (k : KimiConcordiaManager)
    : string :=
  let regions := mf_regions (km_manifest k) in
  match list_find (fun region => sp_ptr region = ptr /\ sp_kind region = kind) regions with
  | Some (_, existing) => sp_stable_key existing
  | None =>
      let ordinal := length (filter (fun region => sp_ptr region <> ptr /\ sp_kind region = kind) regions) in
      stable_key_text kind (Z.of_nat ordinal + 1) tracked_size
  end.

(** The region after a kernel used it *)
Definition classified (kind : KimiRegionKind) (key : string) (id : Z) (kernel_name : string)
    (r : KimiTrackedRegion) : KimiTrackedRegion :=
  mkKimiRegion (kr_ptr r) (kr_requested_size r) (kr_tracked_size r) id (kr_allocation_index r) kind key
    (Some kernel_name) (kr_initialized r) (kr_restored r) (kr_allocator r) (kr_device r).

Definition note_kernel_pointer (kind : KimiRegionKind) (kernel_name : string) (k : KimiConcordiaManager) (ptr : Z)
    : KimiConcordiaManager :=
  match km_allocations k !! ptr with
  | Some r =>
      let tracked_size := kr_tracked_size r in
      let stable_key := stable_key_for_region ptr kind tracked_size k in
      let region_id := default (kr_region_id r)
                         (km_restore_manifest k ≫= manifest_find_region_id kind stable_key tracked_size) in
      upsert_manifest_for_ptr ptr
        (km_set_allocations (<[ptr := classified kind stable_key region_id kernel_name r]> (km_allocations k)) k)
  | None => k
  end.

Definition note_kernel_pointers_inner (kernel_name : string) (ptrs : list Z) (s : kimi_state) : kimi_state :=
  match region_kind_for_kernel kernel_name with
  | None => s
  | Some kind =>
      let '(k, w) := s in
      persist_manifest_best_effort
        (foldl (note_kernel_pointer kind kernel_name) k (filter (fun ptr => ptr <> 0) ptrs), w)
  end.

Definition set_allocator (md : KimiAllocatorMetadata) (r : KimiTrackedRegion) : KimiTrackedRegion :=
  mkKimiRegion (kr_ptr r) (kr_requested_size r) (kr_tracked_size r) (kr_region_id r) (kr_allocation_index r)
    (kr_kind r) (kr_stable_key r) (kr_last_kernel r) (kr_initialized r) (kr_restored r) (Some md) (kr_device r).

Definition note_allocator_metadata_inner (ptr block_table_ptr block_count dirty_bitmap_ptr dirty_bitmap_bytes : Z)
    : stm kimi_state KimiError unit := fun s =>
  let '(k, w) := s in
  if ptr =? 0 then (s, Err NullRegionPointer)
  else if (dirty_bitmap_ptr =? 0) || (dirty_bitmap_bytes =? 0) then (s, Err (EmptyDirtyBitmap ptr))
  else match km_allocations k !! ptr with
       | None => (s, Err (UnknownAllocation ptr))
       | Some r =>
           let md := mkKimiAllocator block_table_ptr block_count dirty_bitmap_ptr dirty_bitmap_bytes [] in
           let k := km_set_allocations (<[ptr := set_allocator md r]> (km_allocations k)) k in
           (persist_manifest_best_effort (upsert_manifest_for_ptr ptr k, w), Ok tt)
       end.

(** [0] or [-1], as the C entry point returns it *)
Definition hetgpu_kimi_concordia_register_allocator_metadata
    (ptr block_table_ptr block_count dirty_bitmap_ptr dirty_bitmap_bytes : Z) (s : kimi_state) : kimi_state * Z :=
  let '(s, r) := note_allocator_metadata_inner ptr block_table_ptr block_count dirty_bitmap_ptr dirty_bitmap_bytes s in
  (s, if is_ok r then 0 else -1).

(** The bookkeeping of [note_deallocation]: the region removed, if any. *)
Definition forget_allocation (ptr : Z) (s : kimi_state) : option KimiTrackedRegion * kimi_state :=
  let '(k, w) := s in
  match km_allocations k !! ptr with
  | None => (None, s)
  | Some r =>
      let k := km_set_allocations (delete ptr (km_allocations k)) k in
      (Some r, persist_manifest_best_effort (km_set_manifest (manifest_remove_ptr ptr (km_manifest k)) k, w))
  end.

(** ** The log *)
Definition open_aof (env : environment) : stm kimi_state KimiError AofDiskLog := fun '(k, w) =>
  match km_aof k with
  | Some log => ((k, w), Ok log)
  | None =>
      let path := mpi_scoped_aof_path env (kc_aof_path (km_config k)) in
      let '(w, r) := (ensure_parent CreateAofDir path;;
                      stm_map_err (OpenAof path) (open_append path)) w in
      match r with
      | Ok log => ((km_set_aof log k, w), Ok log)
      | Err e => ((k, w), Err e)
      | Panic => ((k, w), Panic)
      end
  end.

Definition kimi_append_record (env : environment) (epoch region_id offset : Z) (payload : list Z)
    : stm kimi_state KimiError unit :=
  log ← open_aof env;
  (fun '(k, w) =>
     let '(w, r) := append_record log (mkAofRecord epoch region_id offset payload) w in
     ((k, w), map_err (AppendAofRecord region_id) r)) : stm kimi_state KimiError unit.
End Manager.

(** ** Dirty bitmaps *)
Definition dirty_page_offsets_from_words (bitmap_words : list Z) (page_count : nat) : list Z :=
  omap (fun page =>
          let word := default 0 (bitmap_words !! (page / 64)%nat) in
          if Z.land word (shl 1 (Z.of_nat (page mod 64))) =? 0 then None
          else Some (Z.of_nat page * KIMI_PAGE_SIZE))
    (seq 0 page_count).

Definition dirty_page_offsets_from_bitmap_bytes (bitmap : list Z) (page_count : nat) : list Z :=
  omap (fun page =>
          let byte := default 0 (bitmap !! (page / 8)%nat) in
          if Z.land byte (wrap 8 (Z.shiftl 1 (Z.of_nat (page mod 8)))) =? 0 then None
          else Some (Z.of_nat page * KIMI_PAGE_SIZE))
    (seq 0 page_count).

(** ** Block tables *)

(** [chunks_exact(n)]: the complete chunks *)
Fixpoint chunks_exact (fuel n : nat) (l : list Z) : list (list Z) :=
  match fuel with
  | O => []
  | S fuel => if decide (n <= length l)%nat then take n l :: chunks_exact fuel n (drop n l) else []
  end.

Definition decode_block_table_snapshot (bytes : list Z) : list Z :=
  le_decode <$> chunks_exact (length bytes) 4 bytes.

Definition checked_mul (a b : Z) : option Z := if is_u 64 (a * b) then Some (a * b) else None.
Definition checked_add64 (a b : Z) : option Z := if is_u 64 (a + b) then Some (a + b) else None.

Definition translate_kv_restore_offset (old_offset : Z) (old_allocator new_allocator : KimiAllocatorMetadata)
    : outcome KimiError Z :=
  let old_table := al_block_table_snapshot old_allocator in
  let new_table := al_block_table_snapshot new_allocator in
  if bool_decide (old_table = []) || bool_decide (new_table = []) then Ok old_offset
  else
    let old_physical_page := old_offset / KIMI_PAGE_SIZE in
    let intra_page := old_offset mod KIMI_PAGE_SIZE in
    '(logical_page, _) ← ok_or (AbsentPhysicalPage old_physical_page)
                           (list_find (fun page => page = old_physical_page) old_table);
    new_physical_page ← ok_or (NoLogicalPage (Z.of_nat logical_page)) (new_table !! logical_page);
    ok_or (TranslatedOverflow new_physical_page)
      (base ← checked_mul new_physical_page KIMI_PAGE_SIZE; checked_add64 base intra_page).
