(* ===== verification/KimiDevice.v ===== *)
(** * Checkpoints of device memory by the Kimi manager
    ([zluda/src/impl/kimi_concordia.rs] 834-1412 and its entry points)

    The CUDA driver and the persistent worker are a class of operations on the
    state of a device, which return codes as the C functions do; zero is
    success.  The page size of the worker's scan is that of the manager. *)
From stdpp Require Import base numbers list strings gmap sorting.
From Stdlib Require Import ZArith Lia.
From S2P Require Import Prelude HostIO Delta Aof RustStr Runtime Replay Kimi.

Open Scope Z_scope.

(** The calls into the driver and the worker.  A handle is negative when the
    worker could not be started, a sequence number when a task was refused. *)
Class Gpu (D : Type) : Type := {
  cuMemAlloc : Z -> D -> D * (Z * Z);                    (** bytes; code and pointer *)
  cuMemFree : Z -> D -> D * Z;
  cuMemcpyDtoH : Z -> Z -> D -> Z * list Z;              (** pointer, length; code and bytes *)
  cuMemcpyHtoD : Z -> list Z -> D -> D * Z;
  cuMemsetD8 : Z -> Z -> Z -> D -> D * Z;                (** pointer, value, length *)
  cuMemAllocHost : Z -> D -> D * (Z * Z);                (** bytes; code and host pointer *)
  cuMemHostGetDevicePointer : Z -> D -> Z * Z;           (** host pointer; code and device pointer *)
  cuMemFreeHost : Z -> D -> D * Z;
  host_read : Z -> Z -> D -> list Z;                     (** host pointer, length *)
  host_write : Z -> list Z -> D -> D;
  cuStreamSynchronize : Z -> D -> D * Z;
  gpu_init : D -> D * Z;
  gpu_scan : Z -> Z -> Z -> Z -> Z -> D -> D * Z;        (** handle, region, shadow, bitmap, pages *)
  gpu_stage : Z -> Z -> Z -> Z -> D -> D * Z;            (** handle, source, staging, length *)
  gpu_restore : Z -> Z -> Z -> Z -> D -> D * Z;          (** handle, staging, target, length *)
  gpu_sync : Z -> D -> D;
  gpu_shutdown : Z -> D -> D;
}.

Section Device.
Context {D : Type} `{Gpu D} `{ManifestJson} (env : environment).

(** ** Driver calls with errors *)
Abbreviation dev A := (stm D KimiError A).

Definition raw_device_alloc (bytes : Z) : dev Z := fun d =>
  let '(d, (rc, p)) := cuMemAlloc bytes d in
  (d, if rc =? 0 then Ok p else Err (DriverFailed "cuMemAlloc_v2" bytes rc)).

Definition raw_device_free (ptr : Z) : dev unit := fun d =>
  if ptr =? 0 then (d, Ok tt)
  else let '(d, rc) := cuMemFree ptr d in
       (d, if rc =? 0 then Ok tt else Err (DriverFailed "cuMemFree_v2" ptr rc)).

(** The buffer is allocated first, which panics past [isize::MAX] bytes. *)
Definition raw_device_to_host (ptr len : Z) : dev (list Z) := fun d =>
  if isize_max <? len then (d, Panic)
  else if len =? 0 then (d, Ok [])
  else let '(rc, bytes) := cuMemcpyDtoH ptr len d in
       (d, if rc =? 0 then Ok bytes else Err (DriverFailed "cuMemcpyDtoH_v2" ptr rc)).

Definition raw_host_to_device (ptr : Z) (data : list Z) : dev unit := fun d =>
  if bool_decide (data = []) then (d, Ok tt)
  else let '(d, rc) := cuMemcpyHtoD ptr data d in
       (d, if rc =? 0 then Ok tt else Err (DriverFailed "cuMemcpyHtoD_v2" ptr rc)).

Definition raw_memset (ptr value len : Z) : dev unit := fun d =>
  if len =? 0 then (d, Ok tt)
  else let '(d, rc) := cuMemsetD8 ptr value len d in
       (d, if rc =? 0 then Ok tt else Err (DriverFailed "cuMemsetD8_v2" ptr rc)).

(** The host pointer and the device pointer of a mapped buffer *)
Definition raw_host_mapped_alloc (bytes : Z) : dev (Z * Z) := fun d =>
  let bytes := Z.max bytes 1 in
  let '(d, (rc, host)) := cuMemAllocHost bytes d in
  if negb (rc =? 0) || (host =? 0) then (d, Err (DriverFailed "cuMemAllocHost_v2" bytes rc))
  else
    let '(rc, device) := cuMemHostGetDevicePointer host d in
    if rc =? 0 then (d, Ok (host, device))
    else (fst (cuMemFreeHost host d), Err (DriverFailed "cuMemHostGetDevicePointer_v2" bytes rc)).

Definition raw_host_mapped_free (host : Z) : dev unit := fun d =>
  if host =? 0 then (d, Ok tt)
  else let '(d, rc) := cuMemFreeHost host d in
       (d, if rc =? 0 then Ok tt else Err (DriverFailed "cuMemFreeHost" host rc)).

Definition raw_host_mapped_to_vec (host len : Z) : dev (list Z) := fun d =>
  if (host =? 0) && negb (len =? 0) then (d, Err NullStaging)
  else if isize_max <? len then (d, Panic)
  else (d, Ok (if len =? 0 then [] else host_read host len d)).

Definition raw_host_mapped_copy_from_slice (host : Z) (data : list Z) : dev unit := fun d =>
  if (host =? 0) && negb (bool_decide (data = [])) then (d, Err NullStaging)
  else (if bool_decide (data = []) then d else host_write host data d, Ok tt).

(** [let _ = ...]: the result is dropped. *)
Definition ignore {A} (m : dev A) : dev unit := fun d => (fst (m d), Ok tt).

(** ** State *)
Definition kdev : Type := KimiConcordiaManager * world * D.
Abbreviation kst A := (stm kdev KimiError A).

Definition on_device {A} (m : dev A) : kst A := fun '(k, w, d) => let '(d, r) := m d in ((k, w, d), r).
Definition on_manager {A} (m : stm kimi_state KimiError A) : kst A :=
  fun '(k, w, d) => let '((k, w), r) := m (k, w) in ((k, w, d), r).
Definition update (f : kimi_state -> kimi_state) : kst unit :=
  fun '(k, w, d) => let '(k, w) := f (k, w) in ((k, w, d), Ok tt).
Definition with_manager {A} (f : kimi_state -> A * kimi_state) : kst A :=
  fun '(k, w, d) => let '(a, (k, w)) := f (k, w) in ((k, w, d), Ok a).
Definition manager : kst KimiConcordiaManager := fun s => (s, Ok (fst (fst s))).

Definition region_at (ptr : Z) : kst KimiTrackedRegion :=
  k ← manager;
  stm_lift (ok_or (UnknownAllocation ptr) (km_allocations k !! ptr)).

(** ** The worker *)
Definition ensure_worker : kst Z := fun '(k, w, d) =>
  match km_worker_handle k with
  | Some handle =>
      if 0 <=? handle then ((k, w, d), Ok handle)
      else let '(d, handle) := gpu_init d in
           if handle <? 0 then ((k, w, d), Err WorkerInitFailed)
           else ((km_set_worker (Some handle) k, w, d), Ok handle)
  | None =>
      let '(d, handle) := gpu_init d in
      if handle <? 0 then ((k, w, d), Err WorkerInitFailed)
      else ((km_set_worker (Some handle) k, w, d), Ok handle)
  end.

Definition shutdown_worker : kst unit := fun '(k, w, d) =>
  match km_worker_handle k with
  | Some handle => ((km_set_worker None k, w, gpu_shutdown handle d), Ok tt)
  | None => ((k, w, d), Ok tt)
  end.

(** ** Block tables *)
Definition with_snapshot (table : list Z) (md : KimiAllocatorMetadata) : KimiAllocatorMetadata :=
  mkKimiAllocator (al_block_table_ptr md) (al_block_count md) (al_dirty_bitmap_ptr md)
    (al_dirty_bitmap_bytes md) table.

(** The snapshot stored in the region, if it has allocator metadata. *)
Definition store_snapshot (ptr : Z) (table : list Z) (k : KimiConcordiaManager) : KimiConcordiaManager :=
  match km_allocations k !! ptr with
  | Some r =>
      match kr_allocator r with
      | Some md => km_set_allocations (<[ptr := set_allocator (with_snapshot table md) r]> (km_allocations k)) k
      | None => k
      end
  | None => k
  end.

Definition allocator_with_current_snapshot (ptr : Z) (md : KimiAllocatorMetadata) : kst KimiAllocatorMetadata :=
  if (al_block_table_ptr md =? 0) || (al_block_count md =? 0) then mret md
  else
    table_bytes ← stm_lift (ok_or (BlockTableOverflow (al_block_count md)) (checked_mul (al_block_count md) 4));
    bytes ← on_device (raw_device_to_host (al_block_table_ptr md) table_bytes);
    let table := decode_block_table_snapshot bytes in
    update (fun '(k, w) =>
      persist_manifest_best_effort (upsert_manifest_for_ptr ptr (store_snapshot ptr table k), w));;
    mret (with_snapshot table md).

(** ** Checkpoints *)
Definition next_epoch_of : kst Z := fun '(k, w, d) => ((km_bump_epoch k, w, d), Ok (km_next_epoch k)).

(** [(0..size).step_by(PAGE_SIZE)] *)
Definition page_offsets (size : Z) : list Z :=
  (fun p => Z.of_nat p * KIMI_PAGE_SIZE) <$> seq 0 (Z.to_nat ((size + KIMI_PAGE_SIZE - 1) / KIMI_PAGE_SIZE)).

(** One page of the base snapshot *)
Definition base_page (ptr shadow epoch region_id offset : Z) : kst unit :=
  payload ← on_device (raw_device_to_host (wrapping_add 64 ptr offset) KIMI_PAGE_SIZE);
  on_device (raw_host_to_device (wrapping_add 64 shadow offset) payload);;
  on_manager (kimi_append_record env epoch region_id offset payload).

Definition set_initialized_device (res : DeviceCheckpointResources) (r : KimiTrackedRegion) : KimiTrackedRegion :=
  mkKimiRegion (kr_ptr r) (kr_requested_size r) (kr_tracked_size r) (kr_region_id r) (kr_allocation_index r)
    (kr_kind r) (kr_stable_key r) (kr_last_kernel r) true (kr_restored r) (kr_allocator r) (Some res).

Definition set_restored (b : bool) (r : KimiTrackedRegion) : KimiTrackedRegion :=
  mkKimiRegion (kr_ptr r) (kr_requested_size r) (kr_tracked_size r) (kr_region_id r) (kr_allocation_index r)
    (kr_kind r) (kr_stable_key r) (kr_last_kernel r) (kr_initialized r) b (kr_allocator r) (kr_device r).

Definition set_region (ptr : Z) (f : KimiTrackedRegion -> KimiTrackedRegion) : kst unit :=
  update (fun '(k, w) => (km_set_allocations (alter f ptr (km_allocations k)) k, w)).

(** The mapped staging page; when it cannot be had the other two are freed. *)
Definition staging_or_free (shadow bitmap : Z) : dev (Z * Z) := fun d =>
  match raw_host_mapped_alloc KIMI_PAGE_SIZE d with
  | (d, Ok staging) => (d, Ok staging)
  | (d, r) => let '(d, _) := raw_device_free shadow d in let '(d, _) := raw_device_free bitmap d in (d, r)
  end.

Definition bitmap_words_of (page_count : Z) : Z := Z.max ((page_count + 63) / 64) 1.

Definition initialize_device_region (ptr : Z) : kst unit :=
  region ← region_at ptr;
  let region_id := kr_region_id region in
  let tracked_size := kr_tracked_size region in
  let bitmap_words := bitmap_words_of (tracked_size / KIMI_PAGE_SIZE) in
  shutdown_worker;;
  shadow ← on_device (raw_device_alloc tracked_size);
  bitmap ← on_device (raw_device_alloc (bitmap_words * 8));
  on_device (raw_memset bitmap 0 (bitmap_words * 8));;
  '(staging_host, staging_device) ← on_device (staging_or_free shadow bitmap);
  epoch ← next_epoch_of;
  stm_iter (base_page ptr shadow epoch region_id) (page_offsets tracked_size);;
  _ ← region_at ptr;
  set_region ptr (set_initialized_device
    (mkDeviceResources shadow bitmap bitmap_words staging_host staging_device KIMI_PAGE_SIZE)).

Definition resources_of (region : KimiTrackedRegion) : kst DeviceCheckpointResources :=
  stm_lift (ok_or (NoCheckpointResources (kr_region_id region)) (kr_device region)).

Definition stage_aof_payload_via_worker (handle region_ptr source len : Z) : kst (list Z) :=
  region ← region_at region_ptr;
  res ← resources_of region;
  if dc_staging_bytes res <? len
  then stm_lift (Err (StagingTooSmall (kr_region_id region) (dc_staging_bytes res) len))
  else
    seq ← on_device (fun d => let '(d, s) := gpu_stage handle source (dc_staging_device res) len d in (d, Ok s));
    if seq <? 0 then stm_lift (Err (StageEnqueueFailed (kr_region_id region)))
    else
      on_device (fun d => (gpu_sync handle d, Ok tt));;
      on_device (raw_host_mapped_to_vec (dc_staging_host res) len).

(** The dirty pages of a region, by the allocator's bitmap or by the worker's
    scan, and whether the shadow must be refreshed from the payloads. *)
Definition dirty_offsets (ptr : Z) (region : KimiTrackedRegion) (res : DeviceCheckpointResources)
    : kst (list Z * bool) :=
  let page_count := kr_tracked_size region / KIMI_PAGE_SIZE in
  match kr_allocator region with
  | Some md =>
      md ← allocator_with_current_snapshot ptr md;
      bitmap_data ← on_device (raw_device_to_host (al_dirty_bitmap_ptr md) (al_dirty_bitmap_bytes md));
      mret (dirty_page_offsets_from_bitmap_bytes bitmap_data (Z.to_nat page_count), true)
  | None =>
      let bitmap_bytes := dc_bitmap_words res * 8 in
      on_device (raw_memset (dc_bitmap res) 0 bitmap_bytes);;
      handle ← ensure_worker;
      seq ← on_device (fun d => let '(d, s) := gpu_scan handle ptr (dc_shadow res) (dc_bitmap res) page_count d in
                                (d, Ok s));
      if seq <? 0 then stm_lift (Err (ScanEnqueueFailed (kr_region_id region)))
      else
        on_device (fun d => (gpu_sync handle d, Ok tt));;
        bitmap_data ← on_device (raw_device_to_host (dc_bitmap res) bitmap_bytes);
        mret (dirty_page_offsets_from_words (le_decode <$> chunks_exact (length bitmap_data) 8 bitmap_data)
                (Z.to_nat page_count), false)
  end.

Definition scan_page_out (handle ptr shadow epoch region_id : Z) (refresh : bool) (offset : Z) : kst unit :=
  payload ← stage_aof_payload_via_worker handle ptr (wrapping_add 64 ptr offset) KIMI_PAGE_SIZE;
  (if refresh then on_device (raw_host_to_device (wrapping_add 64 shadow offset) payload) else mret tt);;
  on_manager (kimi_append_record env epoch region_id offset payload).

Definition scan_device_region (ptr : Z) : kst unit :=
  region ← region_at ptr;
  res ← resources_of region;
  if kr_tracked_size region / KIMI_PAGE_SIZE =? 0 then mret tt
  else
    '(offsets, refresh) ← dirty_offsets ptr region res;
    if bool_decide (offsets = []) then mret tt
    else
      epoch ← next_epoch_of;
      handle ← ensure_worker;
      stm_iter (scan_page_out handle ptr (dc_shadow res) epoch (kr_region_id region) refresh) offsets.

(** The keys of a [BTreeMap], ascending *)
Definition btree_keys {A} (m : gmap Z A) : list Z := merge_sort Z.le (fst <$> map_to_list m).

Definition checkpoint_one (ptr : Z) : kst unit :=
  k ← manager;
  match km_allocations k !! ptr with
  | None => mret tt
  | Some r =>
      (if kr_initialized r then mret tt else initialize_device_region ptr);;
      scan_device_region ptr
  end.

Definition checkpoint_device_regions : kst unit :=
  k ← manager;
  stm_iter checkpoint_one (btree_keys (km_allocations k)).

(** ** Restore *)

(** Where a record of the old run goes *)
Definition restore_offset (old new : option KimiAllocatorMetadata) (offset : Z) : outcome KimiError Z :=
  match old, new with
  | Some old, Some new => translate_kv_restore_offset offset old new
  | _, _ => Ok offset
  end.

Definition restore_record (ptr region_id tracked_size : Z) (old new : option KimiAllocatorMetadata)
    (staging : option (Z * Z)) (record : AofRecord) : kst unit :=
  target_offset ← stm_lift (restore_offset old new (ar_offset record));
  let len := Z.of_nat (length (ar_payload record)) in
  endp ← stm_lift (ok_or (RestoreOverflow region_id target_offset) (checked_add64 target_offset len));
  if tracked_size <? endp then stm_lift (Err (RestoreBeyond region_id target_offset endp tracked_size))
  else
    '(staging_host, staging_device) ← stm_lift (ok_or (NoStagingBuffer region_id) staging);
    on_device (raw_host_mapped_copy_from_slice staging_host (ar_payload record));;
    handle ← ensure_worker;
    seq ← on_device (fun d => let '(d, s) := gpu_restore handle staging_device (wrapping_add 64 ptr target_offset) len d in
                              (d, Ok s));
    if seq <? 0 then stm_lift (Err (RestoreEnqueueFailed region_id))
    else on_device (fun d => (gpu_sync handle d, Ok tt)).

(** The closure's loop and the cleanup after it, which runs in any case. *)
Definition restore_records (ptr region_id tracked_size : Z) (old new : option KimiAllocatorMetadata)
    (staging : option (Z * Z)) (records : list AofRecord) : kst unit := fun s =>
  let '(s, r) := stm_iter (restore_record ptr region_id tracked_size old new staging) records s in
  match staging with
  | Some (staging_host, _) =>
      let '(s, _) := (shutdown_worker;; on_device (ignore (raw_host_mapped_free staging_host))) s in (s, r)
  | None => (s, r)
  end.

Definition saved_allocator (region_id : Z) (k : KimiConcordiaManager) : option KimiAllocatorMetadata :=
  m ← km_restore_manifest k;
  '(_, saved) ← list_find (fun saved => sp_region_id saved = region_id) (mf_regions m);
  sp_allocator saved.

Definition max_payload (records : list AofRecord) : Z :=
  foldl Z.max 0 ((fun r => Z.of_nat (length (ar_payload r))) <$> records).

Definition restore_device_region (ptr : Z) : kst Z :=
  k ← manager;
  region ← region_at ptr;
  let region_id := kr_region_id region in
  let old_allocator := saved_allocator region_id k in
  current_allocator ← match kr_allocator region with
                      | Some md => md ← allocator_with_current_snapshot ptr md; mret (Some md)
                      | None => mret None
                      end;
  let path := mpi_scoped_aof_path env (kc_restore_aof_path (km_config k)) in
  records ← on_manager (fun s => (s, map_err (ReadRestoreAof path) (read_committed path (snd s))));
  let region_records := filter (fun r => ar_region_id r = region_id) records in
  staging ← (if 0 <? max_payload region_records
             then st ← on_device (raw_host_mapped_alloc (max_payload region_records)); mret (Some st)
             else mret None);
  restore_records ptr region_id (kr_tracked_size region) old_allocator current_allocator staging region_records;;
  set_region ptr (set_restored (bool_decide (region_records <> [])));;
  mret (Z.of_nat (length region_records)).

(** ** Around kernel launches *)

(** [if let Err(err) = ... { log }] *)
Definition logged {A} (m : kst A) : kst unit := fun s =>
  match m s with
  | (s, Panic) => (s, Panic)
  | (s, _) => (s, Ok tt)
  end.

Definition wants_restore (k : KimiConcordiaManager) (ptr : Z) : bool :=
  match km_allocations k !! ptr with
  | Some r => bool_decide (kr_kind r <> KimiOpaqueMutable) && negb (kr_restored r)
  | None => false
  end.

Definition prepare_kernel_launch (kernel_name : string) (kernel_ptrs : list Z) : kst unit :=
  update (note_kernel_pointers_inner kernel_name kernel_ptrs);;
  k ← manager;
  if negb (kc_restore_enabled (km_config k)) then mret tt
  else stm_iter (fun ptr => logged (restore_device_region ptr))
         (filter (fun ptr => wants_restore k ptr = true) kernel_ptrs).

Definition observe_kernel_launch (kernel_name : string) (stream : Z) (kernel_ptrs : list Z) : kst unit :=
  update (note_kernel_pointers_inner kernel_name kernel_ptrs);;
  due ← with_manager (fun '(k, w) => let '(due, k) := should_checkpoint_after_launch_inner kernel_name k in (due, (k, w)));
  if due : bool then
    rc ← on_device (fun d => let '(d, rc) := cuStreamSynchronize stream d in (d, Ok rc));
    if rc =? 0 then logged checkpoint_device_regions else mret tt
  else mret tt.

Definition release_device_resources (region : KimiTrackedRegion) : kst unit :=
  match kr_device region with
  | Some res =>
      shutdown_worker;;
      on_device (ignore (raw_host_mapped_free (dc_staging_host res)));;
      on_device (ignore (raw_device_free (dc_shadow res)));;
      on_device (ignore (raw_device_free (dc_bitmap res)))
  | None => mret tt
  end.

Definition note_allocation (ptr size : Z) : kst unit :=
  id ← with_manager (note_allocation_inner ptr size);
  match id with
  | None => mret tt
  | Some _ =>
      k ← manager;
      if kc_restore_enabled (km_config k) && bool_decide (km_restore_manifest k = None)
      then logged (restore_device_region ptr) else mret tt
  end.

Definition note_deallocation (ptr : Z) : kst unit :=
  region ← with_manager (forget_allocation ptr);
  match region with
  | Some region => release_device_resources region
  | None => mret tt
  end.
End Device.
