(* ===== verification/KimiSpec.v ===== *)
(** * The Kimi manifest, bitmaps and block tables

    The manifest mirrors the tracked allocations after every operation and is
    what the file holds; the two readings of a dirty bitmap agree; translating
    an offset between block tables is undone by translating it back; and stable
    keys can collide. *)
From stdpp Require Import base numbers list strings gmap sorting.
From Stdlib Require Import ZArith Lia.
From S2P Require Import Prelude HostIO Delta Aof RustStr Runtime Replay Kimi KimiDevice.

Open Scope Z_scope.

(** ** Sorting and upserting *)
Lemma insert_spec_perm a l : insert_spec a l ≡ₚ a :: l.
Proof.
  induction l as [|b l IH]; simpl; [done|]. destruct (spec_le a b); [done|]. rewrite IH. apply perm_swap.
Qed.

Lemma sort_specs_perm l : sort_specs l ≡ₚ l.
Proof. induction l as [|a l IH]; simpl; [done|]. by rewrite insert_spec_perm, IH. Qed.

Definition spec_order (a b : KimiRegionSpec) : Prop := spec_le a b = true.

Lemma spec_le_total a b : spec_le a b = false -> spec_order b a.
Proof. unfold spec_order, spec_le. intros H. lia. Qed.

Lemma insert_spec_sorted a l : Sorted spec_order l -> Sorted spec_order (insert_spec a l).
Proof.
  induction 1 as [|b l Hl IH Hb]; simpl; [by repeat constructor|].
  destruct (spec_le a b) eqn:Hab.
  - constructor; [by constructor|]. by constructor.
  - constructor; [done|]. destruct l as [|c l]; simpl in *; [constructor; by apply spec_le_total|].
    inversion_clear Hb. destruct (spec_le a c); constructor; [by apply spec_le_total|done].
Qed.

Lemma sort_specs_sorted l : Sorted spec_order (sort_specs l).
Proof. induction l; simpl; [constructor|by apply insert_spec_sorted]. Qed.

Lemma perm_insert_at {A} (l : list A) i x y : l !! i = Some x -> <[i := y]> l ≡ₚ y :: delete i l.
Proof.
  intros Hi. rewrite (delete_take_drop l i), (insert_take_drop l i y) by (by eapply lookup_lt_Some).
  by rewrite Permutation_middle.
Qed.

Lemma filter_keeps {A} (P : A -> Prop) `{forall x, Decision (P x)} l : Forall P l -> filter P l = l.
Proof. induction 1 as [|a l Ha _ IH]; [done|]. by rewrite filter_cons, decide_True, IH. Qed.

Lemma filter_strongly_sorted {A} (R : A -> A -> Prop) (P : A -> Prop) `{forall x, Decision (P x)} l :
  StronglySorted R l -> StronglySorted R (filter P l).
Proof.
  induction 1 as [|a l Hl IH Ha]; [constructor|]. rewrite filter_cons. case_decide; [|done].
  constructor; [done|]. rewrite Forall_forall in *. intros x [_ Hx]%list_elem_of_filter. by apply Ha.
Qed.

(** ** The invariant *)
Definition specs_of (m : gmap Z KimiTrackedRegion) : list KimiRegionSpec := (spec_of ∘ snd) <$> map_to_list m.

Record manager_wf (k : KimiConcordiaManager) : Prop := mkManagerWf {
  wf_mirror : mf_regions (km_manifest k) ≡ₚ specs_of (km_allocations k);
  wf_sorted : Sorted spec_order (mf_regions (km_manifest k));
  wf_keys : forall p r, km_allocations k !! p = Some r -> kr_ptr r = p /\ p <> 0;
  wf_sizes : forall p r, km_allocations k !! p = Some r ->
    kr_tracked_size r = tracked_len (kr_requested_size r) /\
    kc_min_allocation_bytes (km_config k) <= kr_tracked_size r;
  wf_bound : (Z.of_nat (size (km_allocations k)) <= Z.max 0 (kc_max_regions (km_config k)));
}.

Lemma specs_of_insert m p r : specs_of (<[p := r]> m) ≡ₚ spec_of r :: specs_of (delete p m).
Proof.
  unfold specs_of. rewrite <- insert_delete_eq, map_to_list_insert by apply lookup_delete_eq. done.
Qed.

Lemma specs_of_lookup m p r : m !! p = Some r -> specs_of m ≡ₚ spec_of r :: specs_of (delete p m).
Proof. intros Hr. rewrite <- (specs_of_insert m p r). by rewrite insert_id. Qed.

Lemma elem_of_specs m x : x ∈ specs_of m <-> exists p r, m !! p = Some r /\ x = spec_of r.
Proof.
  unfold specs_of. rewrite list_elem_of_fmap. split.
  - intros ([p r] & -> & Hin%elem_of_map_to_list). eauto.
  - intros (p & r & Hin & ->). exists (p, r). by rewrite elem_of_map_to_list.
Qed.

Lemma upsert_mirror m l r :
  (forall p r, m !! p = Some r -> kr_ptr r = p) -> l ≡ₚ specs_of m ->
  mf_regions (manifest_upsert (spec_of r) (mkKimiManifest l)) ≡ₚ specs_of (<[kr_ptr r := r]> m).
Proof.
  intros Hk Hl. unfold manifest_upsert; simpl. rewrite sort_specs_perm, specs_of_insert.
  destruct (list_find _ l) as [[i x]|] eqn:Hf.
  - apply list_find_Some in Hf as (Hi & Hx & _). rewrite (perm_insert_at _ _ _ _ Hi). constructor.
    assert (Hin : x ∈ specs_of m) by (rewrite <- Hl; by eapply list_elem_of_lookup_2).
    apply elem_of_specs in Hin as (p & r' & Hp & ->). simpl in Hx. rewrite (Hk _ _ Hp) in Hx. subst p.
    apply (Permutation_cons_inv (a := spec_of r')).
    rewrite <- (specs_of_lookup m _ r') by done. rewrite <- Hl. symmetry. by apply delete_Permutation.
  - apply list_find_None in Hf. rewrite Forall_forall in Hf.
    assert (Hnone : m !! kr_ptr r = None).
    { apply eq_None_not_Some. intros [r' Hr']. apply (Hf (spec_of r')); [rewrite Hl; apply elem_of_specs; eauto|].
      simpl. by apply Hk. }
    rewrite delete_id by done. rewrite Hl. by rewrite Permutation_app_comm.
Qed.

(** Writing a region and then its entry keeps the invariant. *)
Lemma write_region_wf k r :
  manager_wf k -> kr_ptr r <> 0 -> kr_tracked_size r = tracked_len (kr_requested_size r) ->
  kc_min_allocation_bytes (km_config k) <= kr_tracked_size r ->
  is_Some (km_allocations k !! kr_ptr r) \/
    Z.of_nat (size (km_allocations k)) < kc_max_regions (km_config k) ->
  manager_wf (upsert_manifest_for_ptr (kr_ptr r) (km_set_allocations (<[kr_ptr r := r]> (km_allocations k)) k)).
Proof.
  intros [Hm Hs Hk Hz Hb] Hp Ht Hmin Hroom. unfold upsert_manifest_for_ptr. simpl. rewrite lookup_insert_eq.
  destruct (km_manifest k) as [l]. split; simpl.
  - apply upsert_mirror; [|done]. intros p r' Hr'. by apply Hk.
  - apply sort_specs_sorted.
  - intros p r' Hr'. destruct (decide (p = kr_ptr r)) as [->|]; [rewrite lookup_insert_eq in Hr'; by simplify_eq|].
    rewrite lookup_insert_ne in Hr' by done. by apply Hk.
  - intros p r' Hr'. destruct (decide (p = kr_ptr r)) as [->|]; [rewrite lookup_insert_eq in Hr'; by simplify_eq|].
    rewrite lookup_insert_ne in Hr' by done. by eapply Hz.
  - rewrite map_size_insert. destruct (km_allocations k !! kr_ptr r) as [r'|]; simpl; [done|].
    destruct Hroom as [[? ?]|Hroom]; [done|]. lia.
Qed.

Lemma new_manager_wf `{ManifestJson} config w : manager_wf (manager_new config w).
Proof.
  split; simpl; try done. rewrite map_size_empty. lia.
Qed.

Lemma forget_wf k p : manager_wf k ->
  manager_wf (km_set_manifest (manifest_remove_ptr p (km_manifest k))
                (km_set_allocations (delete p (km_allocations k)) k)).
Proof.
  intros [Hm Hs Hk Hz Hb]. split; simpl.
  - rewrite Hm. destruct (km_allocations k !! p) as [r|] eqn:Hr.
    + rewrite (specs_of_lookup _ _ _ Hr), filter_cons. destruct (Hk _ _ Hr) as [Hp _].
      rewrite decide_False by (simpl; intros Hn; by apply Hn). rewrite filter_keeps; [done|]. apply Forall_forall.
      intros x (q & r' & Hq & ->)%elem_of_specs. simpl. apply lookup_delete_Some in Hq as [Hne Hq].
      by destruct (Hk _ _ Hq) as [-> _].
    + rewrite delete_id by done. rewrite filter_keeps; [done|]. apply Forall_forall.
      intros x (q & r' & Hq & ->)%elem_of_specs. simpl. destruct (Hk _ _ Hq) as [-> _]. congruence.
  - apply StronglySorted_Sorted, filter_strongly_sorted. apply Sorted_StronglySorted; [|done].
    unfold spec_order, spec_le. intros a b c. lia.
  - intros q r Hq. apply lookup_delete_Some in Hq as [_ Hq]. by apply Hk.
  - intros q r Hq. apply lookup_delete_Some in Hq as [_ Hq]. by eapply Hz.
  - rewrite map_size_delete. destruct (km_allocations k !! p); simpl; lia.
Qed.

(** ** Every sequence of calls *)
Section Calls.
Context `{ManifestJson}.

Inductive kimi_call : Type :=
| KAlloc (ptr size : Z)
| KFree (ptr : Z)
| KKernel (name : string) (ptrs : list Z)
| KMetadata (ptr table count bitmap bytes : Z).

Definition kimi_do (s : kimi_state) (c : kimi_call) : kimi_state :=
  match c with
  | KAlloc ptr size => snd (note_allocation_inner ptr size s)
  | KFree ptr => snd (forget_allocation ptr s)
  | KKernel name ptrs => note_kernel_pointers_inner name ptrs s
  | KMetadata ptr table count bitmap bytes =>
      fst (hetgpu_kimi_concordia_register_allocator_metadata ptr table count bitmap bytes s)
  end.

(** The file is the text of the manifest, once an operation wrote it. *)
Record kimi_inv (k0 : KimiConcordiaManager) (s : kimi_state) : Prop := mkKimiInv {
  ki_wf : manager_wf (fst s);
  ki_config : km_config (fst s) = km_config k0;
  ki_quiet : write_faults (snd s) = [];
  ki_open : kc_manifest_path (km_config k0) ∉ denied (snd s) /\
    (forall dir, parent (kc_manifest_path (km_config k0)) = Some dir -> dir ∉ denied (snd s));
  ki_file : fst s = k0 \/
    files (snd s) !! kc_manifest_path (km_config k0) = Some (manifest_text (km_manifest (fst s)));
}.

Lemma write_manifest_quiet path m w :
  write_faults w = [] -> path ∉ denied w -> (forall dir, parent path = Some dir -> dir ∉ denied w) ->
  exists w', write_manifest path m w = (w', Ok tt) /\ files w' !! path = Some (manifest_text m) /\
    write_faults w' = [] /\ denied w' = denied w.
Proof.
  intros Hq Hp Hd. unfold write_manifest.
  assert (Hpar : ensure_parent CreateManifestDir path w = (w, Ok tt)).
  { unfold ensure_parent. destruct (parent path) as [dir|] eqn:Hdir; [|done].
    destruct (String.eqb dir ""); [done|]. unfold stm_map_err, create_dir_all.
    rewrite decide_True by (right; by apply Hd). done. }
  rewrite (stm_bind_Ok _ _ _ _ _ Hpar). unfold stm_map_err, mbind, stm_bind, open_truncate.
  rewrite decide_False by done. unfold write_all.
  rewrite file_bytes_set_file. destruct (manifest_text m) as [|b text] eqn:Ht; simpl.
  - eexists. split; [done|]. simpl. by rewrite lookup_insert_eq.
  - rewrite Hq. eexists. split; [done|]. simpl. by rewrite lookup_insert_eq.
Qed.

(** The end of every operation that changes the manager *)
Lemma persist_inv k0 k w :
  kc_enabled (km_config k0) = true -> kimi_inv k0 (k, w) -> forall k', manager_wf k' -> km_config k' = km_config k0 ->
  kimi_inv k0 (persist_manifest_best_effort (k', w)).
Proof.
  intros Hen [_ _ Hq [Hp Hd] _] k' Hwf Hc. unfold persist_manifest_best_effort. rewrite Hc, Hen.
  destruct (write_manifest_quiet (kc_manifest_path (km_config k0)) (km_manifest k') w) as (w' & Hw & Hf & Hq' & Hden);
    [done..|]. rewrite Hw. simpl in *.
  split; simpl; try done; [rewrite Hden; by split|by right].
Qed.

Lemma note_kernel_pointer_wf kind name k ptr :
  manager_wf k -> manager_wf (note_kernel_pointer kind name k ptr) /\
  km_config (note_kernel_pointer kind name k ptr) = km_config k.
Proof.
  intros Hwf. unfold note_kernel_pointer. destruct (km_allocations k !! ptr) as [r|] eqn:Hr; [|done].
  set (key := stable_key_for_region _ _ _ _). set (id := default _ _).
  destruct (wf_keys _ Hwf _ _ Hr) as [Hp Hnz]. destruct (wf_sizes _ Hwf _ _ Hr) as [Ht Hm].
  set (r' := classified kind key id name r). assert (Hp' : kr_ptr r' = ptr) by done.
  split.
  - rewrite <- Hp'. apply write_region_wf; try done; [by rewrite Hp'|]. left. rewrite Hp'. eauto.
  - unfold upsert_manifest_for_ptr. simpl. by rewrite lookup_insert_eq.
Qed.

Lemma upsert_config ptr k : km_config (upsert_manifest_for_ptr ptr k) = km_config k.
Proof. unfold upsert_manifest_for_ptr. by destruct (_ !! _). Qed.

Lemma note_kernel_pointers_wf kind name ptrs : forall k, manager_wf k ->
  manager_wf (foldl (note_kernel_pointer kind name) k ptrs) /\
  km_config (foldl (note_kernel_pointer kind name) k ptrs) = km_config k.
Proof.
  induction ptrs as [|p ptrs IH]; intros k Hwf; simpl; [done|].
  destruct (note_kernel_pointer_wf kind name k p Hwf) as [H1 H2].
  destruct (IH _ H1) as [H3 H4]. split; [done|congruence].
Qed.

Lemma kimi_do_inv k0 s c :
  kc_enabled (km_config k0) = true -> kimi_inv k0 s -> kimi_inv k0 (kimi_do s c).
Proof.
  intros Hen Hinv. destruct s as [k w]. pose proof (ki_wf _ _ Hinv) as Hwf. pose proof (ki_config _ _ Hinv) as Hc.
  simpl in Hwf, Hc. destruct c as [ptr size|ptr|name ptrs|ptr table count bitmap bytes]; unfold kimi_do.
  - unfold note_allocation_inner. destruct (_ || _) eqn:Hg1; [done|]. destruct (bool_decide _ || _) eqn:Hg2; [done|].
    apply orb_false_iff in Hg1 as [Hnz Htr]. apply orb_false_iff in Hg2 as [Hfree Hroom].
    unfold should_track_allocation in Htr. apply Z.eqb_neq in Hnz.
    cbn [snd]. apply (persist_inv k0 k w Hen Hinv); [|by rewrite upsert_config].
    set (r := mkKimiRegion _ _ _ _ _ _ _ _ _ _ _ _). change ptr with (kr_ptr r).
    apply (write_region_wf (km_bump_ids k) r); try done; [by destruct Hwf; split|simpl; lia|right; simpl; lia].
  - unfold forget_allocation. destruct (km_allocations k !! ptr) as [r|]; [|done]. cbn [snd].
    apply (persist_inv k0 k w Hen Hinv); [exact (forget_wf k ptr Hwf)|done].
  - unfold note_kernel_pointers_inner. destruct (region_kind_for_kernel name) as [kind|]; [|done].
    destruct (note_kernel_pointers_wf kind name (filter (fun ptr => ptr <> 0) ptrs) k Hwf) as [H1 H2].
    apply (persist_inv k0 k w Hen Hinv); [done|congruence].
  - unfold hetgpu_kimi_concordia_register_allocator_metadata, note_allocator_metadata_inner.
    destruct (ptr =? 0); [done|]. destruct (_ || _); [done|].
    destruct (km_allocations k !! ptr) as [r|] eqn:Hr; [|done]. cbn [fst].
    set (r' := set_allocator _ r). destruct (wf_keys _ Hwf _ _ Hr) as [Hp Hnz].
    destruct (wf_sizes _ Hwf _ _ Hr) as [Ht Hm]. assert (Hp' : kr_ptr r' = ptr) by done.
    apply (persist_inv k0 k w Hen Hinv); [|by rewrite upsert_config].
    rewrite <- Hp'. apply write_region_wf; try done; [by rewrite Hp'|]. left. rewrite Hp'. eauto.
Qed.

Lemma kimi_calls_inv k0 calls : kc_enabled (km_config k0) = true -> forall s,
  kimi_inv k0 s -> kimi_inv k0 (foldl kimi_do s calls).
Proof.
  intros Hen. induction calls as [|c calls IH]; intros s Hs; simpl; [done|]. apply IH. by apply kimi_do_inv.
Qed.

(** [C23] After any sequence of allocations, frees, kernel launches and metadata
    calls on a new manager, the manifest lists exactly the tracked allocations,
    sorted, each with its current description, at most as many as configured and
    none smaller than the minimum; and the manifest file is its text, as soon as
    an operation changed the manager. *)
Theorem manifest_mirrors_allocations config w calls :
  kc_enabled config = true -> write_faults w = [] -> kc_manifest_path config ∉ denied w ->
  (forall dir, parent (kc_manifest_path config) = Some dir -> dir ∉ denied w) ->
  let '(k, w') := foldl kimi_do (manager_new config w, w) calls in
  manager_wf k /\
  (k = manager_new config w \/ files w' !! kc_manifest_path config = Some (manifest_text (km_manifest k))).
Proof.
  intros Hen Hq Hp Hd.
  assert (Hinv : kimi_inv (manager_new config w) (manager_new config w, w)).
  { split; simpl; try done; [apply new_manager_wf|by left]. }
  pose proof (kimi_calls_inv (manager_new config w) calls Hen _ Hinv) as Hall.
  destruct (foldl _ _ _) as [k w']. split; [apply Hall|]. exact (ki_file _ _ Hall).
Qed.
End Calls.

Definition sample_manifest_json : ManifestJson :=
  {| manifest_text := fun m => [Z.of_nat (length (mf_regions m))]; parse_manifest := fun _ => None |}.

Definition sample_config : KimiConcordiaConfig :=
  kimi_config_from_pairs (fun _ => None)
    [("HETGPU_KIMI_CONCORDIA", "1"); ("HETGPU_KIMI_CONCORDIA_ALLOC_MIN_BYTES", "4096");
     ("HETGPU_KIMI_CONCORDIA_MAX_REGIONS", "4")]%string.

Definition sample_kimi_calls : list kimi_call :=
  [KAlloc 4096 9000; KAlloc 65536 5000; KKernel "paged_kv_update" [65536; 4096]; KFree 4096; KAlloc 8192 100].

Lemma manifest_mirrors_allocations_witness :
  let w := mkWorld ∅ ∅ [] None in
  let '(k, w') := foldl (@kimi_do sample_manifest_json) (@manager_new sample_manifest_json sample_config w, w) sample_kimi_calls in
  manager_wf k /\ files w' !! "/tmp/concordia/kimi.manifest.json"%string = Some [1].
Proof.
  pose proof (@manifest_mirrors_allocations sample_manifest_json sample_config (mkWorld ∅ ∅ [] None) sample_kimi_calls) as H.
  cbv zeta in *. destruct (foldl _ _ _) as [k w'] eqn:Hrun.
  destruct H as [Hwf _]; [vm_compute; reflexivity|reflexivity|apply not_elem_of_empty|intros dir _; apply not_elem_of_empty|].
  split; [exact Hwf|]. vm_compute in Hrun. injection Hrun as _ <-. reflexivity.
Defined.

(** ** Dirty bitmaps *)

(** Bit [page] of a bitmap in bytes, and in 64-bit words *)
Definition byte_bit (bitmap : list Z) (page : nat) : bool :=
  Z.testbit (default 0 (bitmap !! (page / 8)%nat)) (Z.of_nat (page mod 8)).
Definition word_bit (words : list Z) (page : nat) : bool :=
  Z.testbit (default 0 (words !! (page / 64)%nat)) (Z.of_nat (page mod 64)).

Lemma land_pow2_bit v b : 0 <= b -> (Z.land v (2 ^ b) =? 0) = negb (Z.testbit v b).
Proof.
  intros Hb. destruct (Z.testbit v b) eqn:Ht; simpl.
  - apply Z.eqb_neq. intros H0. apply (f_equal (fun z => Z.testbit z b)) in H0.
    rewrite Z.land_spec, Ht, Z.pow2_bits_true, Z.testbit_0_l in H0 by lia. done.
  - apply Z.eqb_eq, Z.bits_inj_0. intros i. rewrite Z.land_spec.
    destruct (decide (i = b)) as [->|]; [by rewrite Ht|].
    rewrite Z.pow2_bits_false by lia. apply andb_false_r.
Qed.

(** The offsets of the pages whose bit is set *)
Definition offsets_where (bit : nat -> bool) (page_count : nat) : list Z :=
  (fun page => Z.of_nat page * KIMI_PAGE_SIZE) <$> filter (fun page => bit page = true) (seq 0 page_count).

Lemma omap_offsets (f : nat -> option Z) bit (l : list nat) :
  (forall page, f page = if bit page : bool then Some (Z.of_nat page * KIMI_PAGE_SIZE) else None) ->
  omap f l = (fun page => Z.of_nat page * KIMI_PAGE_SIZE) <$> filter (fun page => bit page = true) l.
Proof.
  intros Hf. induction l as [|p l IH]; csimpl; [done|]. rewrite Hf, filter_cons.
  destruct (bit p); [rewrite decide_True by done|rewrite decide_False by done]; csimpl; by rewrite IH.
Qed.

Lemma wrap_bit w b : 0 <= b < w -> wrap w (Z.shiftl 1 b) = 2 ^ b.
Proof. intros Hb. rewrite Z.shiftl_1_l. apply wrap_small. split; [lia|]. apply Z.pow_lt_mono_r; lia. Qed.

Lemma words_offsets words n : dirty_page_offsets_from_words words n = offsets_where (word_bit words) n.
Proof.
  apply omap_offsets. intros page. unfold word_bit, shl.
  assert (page mod 64 < 64)%nat by (apply Nat.mod_upper_bound; lia).
  rewrite wrap_bit, land_pow2_bit by lia. by destruct (Z.testbit _ _).
Qed.

Lemma bytes_offsets bitmap n : dirty_page_offsets_from_bitmap_bytes bitmap n = offsets_where (byte_bit bitmap) n.
Proof.
  apply omap_offsets. intros page. unfold byte_bit.
  assert (page mod 8 < 8)%nat by (apply Nat.mod_upper_bound; lia).
  rewrite wrap_bit, land_pow2_bit by lia. by destruct (Z.testbit _ _).
Qed.

(** A byte of a little-endian word *)
Lemma le_bytes_lookup n z j : (j < n)%nat -> le_bytes n z !! j = Some ((z / 2 ^ (8 * Z.of_nat j)) mod 256).
Proof.
  revert z j. induction n as [|n IH]; intros z j Hj; [lia|]. destruct j as [|j]; cbn [le_bytes].
  - simpl. by rewrite Z.div_1_r.
  - change ((?x :: ?l) !! S j) with (l !! j). rewrite IH by lia. f_equal. f_equal.
    rewrite Z.div_div by lia. f_equal. rewrite <- (Z.pow_add_r 2 8) by lia. f_equal. lia.
Qed.

Lemma concat_words_lookup words i :
  concat (le_bytes 8 <$> words) !! i = w ← words !! (i / 8)%nat; le_bytes 8 w !! (i mod 8)%nat.
Proof.
  revert i. induction words as [|w words IH]; intros i; [by rewrite !lookup_nil|].
  change (concat (le_bytes 8 <$> w :: words)) with (le_bytes 8 w ++ concat (le_bytes 8 <$> words)).
  destruct (decide (i < 8)%nat) as [Hi|Hi].
  - rewrite lookup_app_l by (by rewrite length_le_bytes). by rewrite Nat.div_small, Nat.mod_small.
  - rewrite lookup_app_r by (rewrite length_le_bytes; lia). rewrite length_le_bytes, IH.
    assert (i / 8 = S ((i - 8) / 8) /\ i mod 8 = (i - 8) mod 8)%nat as [-> ->]; [|done].
    set (j := (i - 8)%nat). replace i with (j + 1 * 8)%nat by (unfold j; lia).
    rewrite Nat.div_add, Nat.Div0.mod_add by lia. split; [apply Nat.add_1_r|done].
Qed.

Lemma byte_bit_words words page : byte_bit (concat (le_bytes 8 <$> words)) page = word_bit words page.
Proof.
  unfold byte_bit, word_bit. rewrite concat_words_lookup.
  rewrite Nat.Div0.div_div. change (8 * 8)%nat with 64%nat.
  destruct (words !! (page / 64)%nat) as [w|]; cbn [mbind option_bind default]; [|by rewrite !Z.testbit_0_l].
  pose proof (Nat.mod_upper_bound (page / 8) 8 ltac:(lia)) as Hj.
  pose proof (Nat.mod_upper_bound page 8 ltac:(lia)) as Hb.
  rewrite le_bytes_lookup by done. cbn [default from_option id].
  change 256 with (2 ^ 8). rewrite Z.mod_pow2_bits_low by lia.
  rewrite <- Z.shiftr_div_pow2, Z.shiftr_spec by lia. f_equal.
  assert (page mod 64 = 8 * (page / 8 mod 8) + page mod 8)%nat; [|lia].
  change 64%nat with (8 * 8)%nat. rewrite Nat.Div0.mod_mul_r. lia.
Qed.

(** The two readings of a dirty bitmap agree: the bytes of the allocator and
    the words of the worker's scan, read as they lie in memory, give the same
    offsets, which are those of the set bits in ascending order. *)
Theorem dirty_bitmap_readings_agree words page_count :
  dirty_page_offsets_from_bitmap_bytes (concat (le_bytes 8 <$> words)) page_count =
    dirty_page_offsets_from_words words page_count /\
  dirty_page_offsets_from_words words page_count = offsets_where (word_bit words) page_count.
Proof.
  rewrite bytes_offsets, words_offsets. split; [|done]. unfold offsets_where. f_equal.
  apply list_filter_iff. intros page. by rewrite byte_bit_words.
Qed.

(** ** Block tables *)

(** The table as the code reads it: pages of 32 bits, each physical page once. *)
Definition table_wf (md : KimiAllocatorMetadata) : Prop :=
  NoDup (al_block_table_snapshot md) /\ Forall (fun p => 0 <= p < 2 ^ 32) (al_block_table_snapshot md).

Lemma translate_page old new offset p l n :
  al_block_table_snapshot old !! l = Some p -> NoDup (al_block_table_snapshot old) ->
  al_block_table_snapshot new !! l = Some n -> 0 <= n < 2 ^ 32 -> offset / KIMI_PAGE_SIZE = p ->
  translate_kv_restore_offset offset old new = Ok (n * KIMI_PAGE_SIZE + offset mod KIMI_PAGE_SIZE).
Proof.
  intros Hp Hnd Hn Hr Ho. unfold translate_kv_restore_offset.
  assert (Hne : al_block_table_snapshot old <> [] /\ al_block_table_snapshot new <> []).
  { split; intros He; [rewrite He in Hp|rewrite He in Hn]; done. }
  rewrite !bool_decide_false by apply Hne. cbn [orb]. rewrite Ho.
  assert (Hf : list_find (fun page => page = p) (al_block_table_snapshot old) = Some (l, p)).
  { apply list_find_Some. split; [done|]. split; [done|]. intros j y Hj Hlt ->.
    pose proof (NoDup_lookup _ _ _ _ Hnd Hj Hp). lia. }
  rewrite Hf. cbn [ok_or mbind outcome_bind]. rewrite Hn. cbn [ok_or mbind outcome_bind].
  pose proof (Z.mod_pos_bound offset KIMI_PAGE_SIZE ltac:(done)).
  unfold checked_mul, checked_add64, KIMI_PAGE_SIZE in *.
  rewrite (proj2 (is_u_spec 64 (n * 4096))) by lia. cbn [mbind option_bind].
  rewrite (proj2 (is_u_spec 64 _)) by lia. done.
Qed.

(** Restoring into another block table keeps every logical byte: the offset
    of byte [i] of logical page [l] in the old table goes to byte [i] of page [l]
    in the new one, and translating with the tables exchanged goes back. *)
Theorem kv_translation_round_trip old new l p n i :
  table_wf old -> table_wf new ->
  al_block_table_snapshot old !! l = Some p -> al_block_table_snapshot new !! l = Some n ->
  0 <= i < KIMI_PAGE_SIZE ->
  translate_kv_restore_offset (p * KIMI_PAGE_SIZE + i) old new = Ok (n * KIMI_PAGE_SIZE + i) /\
  translate_kv_restore_offset (n * KIMI_PAGE_SIZE + i) new old = Ok (p * KIMI_PAGE_SIZE + i).
Proof.
  intros [Hnd1 Hr1] [Hnd2 Hr2] Hp Hn Hi.
  pose proof (Forall_lookup_1 _ _ _ _ Hr1 Hp) as Hpr. pose proof (Forall_lookup_1 _ _ _ _ Hr2 Hn) as Hnr.
  assert (Hdiv : forall q, (q * KIMI_PAGE_SIZE + i) / KIMI_PAGE_SIZE = q /\ (q * KIMI_PAGE_SIZE + i) mod KIMI_PAGE_SIZE = i).
  { intros q. unfold KIMI_PAGE_SIZE in *. split; [rewrite Z.div_add_l by lia; rewrite Z.div_small by lia; lia|].
    rewrite Z.add_comm, Z.mod_add by lia. by apply Z.mod_small. }
  split; (erewrite translate_page; [|done|done|done|done|apply Hdiv]); by rewrite (proj2 (Hdiv _)).
Qed.

Lemma kv_translation_round_trip_witness :
  let old := mkKimiAllocator 1 3 2 8 [7; 2; 5] in let new := mkKimiAllocator 1 3 2 8 [0; 9; 4] in
  translate_kv_restore_offset (2 * KIMI_PAGE_SIZE + 17) old new = Ok (9 * KIMI_PAGE_SIZE + 17).
Proof.
  refine (proj1 (kv_translation_round_trip (mkKimiAllocator 1 3 2 8 [7; 2; 5]) (mkKimiAllocator 1 3 2 8 [0; 9; 4])
    1 2 9 17 _ _ eq_refl eq_refl _)).
  - split; [|repeat constructor; done]. apply (bool_decide_unpack _). vm_compute. exact I.
  - split; [|repeat constructor; done]. apply (bool_decide_unpack _). vm_compute. exact I.
  - unfold KIMI_PAGE_SIZE. lia.
Defined.

(** ** Stable keys *)

(** Two saved caches of one size *)
Definition saved_kv (id n : Z) : KimiRegionSpec :=
  mkKimiRegionSpec id (stable_key_text KimiKvCache n 8192) KimiKvCache (1000 * id) 8192 8192 n None None.

Definition restoring_manager : KimiConcordiaManager :=
  mkKimiManager sample_config 7 1 1 0 ∅ (mkKimiManifest [])
    (Some (mkKimiManifest [saved_kv 5 1; saved_kv 6 2])) None None.

Definition collision_calls : list kimi_call :=
  [KAlloc 4096 8192; KAlloc 65536 8192; KKernel "kv_update" [4096; 65536]; KFree 4096; KAlloc 131072 8192;
   KKernel "kv_update" [131072]].

(** The ordinal of a stable key counts the live regions of its kind: after a
    region is freed, the next one repeats the key of a region that lives on and
    takes its saved region id, so that both write the same region of the log. *)
Lemma stable_keys_collide :
  let '(k, _) := foldl (@kimi_do sample_manifest_json) (restoring_manager, mkWorld ∅ ∅ [] None) collision_calls in
  exists r1 r2, km_allocations k !! 65536 = Some r1 /\ km_allocations k !! 131072 = Some r2 /\
    kr_region_id r1 = 6 /\ kr_region_id r2 = 6 /\ kr_stable_key r1 = kr_stable_key r2.
Proof. vm_compute. do 2 eexists. split_and!; reflexivity. Qed.
