(* ===== verification/KimiPages.v ===== *)
(** * Device memory under the Kimi manager

    The contract of the driver and of the persistent worker ([GpuLaws], over the
    view [GpuView] of a device), byte ranges of device memory, the replay of
    pages from the log, and bitmaps as they lie in memory. *)
From stdpp Require Import base numbers list strings gmap sorting.
From Stdlib Require Import ZArith Lia.
From S2P Require Import Prelude HostIO Delta Aof RustStr Runtime Device Replay Kimi KimiDevice KimiSpec.

Open Scope Z_scope.

(** ** The contract *)

(** Device memory, the allocated ranges, and host buffers with their device range *)
Class GpuView (D : Type) : Type := {
  dmem : D -> mem;
  live : D -> Z -> Z -> Prop;
  mapped : D -> Z -> Z -> Z -> Prop;
}.

(** From [d] to [d'] the allocated memory changes in [lo..lo+n) at most, and
    what is allocated stays so. *)
Definition frame `{GpuView D} (d d' : D) (lo n : Z) : Prop :=
  (forall p m x, live d p m -> p <= x < p + m -> ~ lo <= x < lo + n -> load8 (dmem d') x = load8 (dmem d) x) /\
  (forall p m, live d p m -> live d' p m) /\ (forall h p m, mapped d h p m -> mapped d' h p m).

Definition bytes_of `{GpuView D} (d : D) (p n : Z) : list Z := load_bytes (dmem d) p (Z.to_nat n).

Definition scan_task (region shadow bitmap pages : Z) : Task := mkTask 7 0 pages region shadow bitmap 3.

(** What a successful call does.  The scan is that of [Device]: its pages are
    visited in some order. *)
Class GpuLaws (D : Type) `{Gpu D} `{GpuView D} : Prop := {
  law_live : forall d p n, live d p n -> 0 <= p /\ p + n < 2 ^ 64;
  law_alloc : forall n d d' p, cuMemAlloc n d = (d', (0, p)) ->
    frame d d' 0 0 /\ live d' p n /\ forall q m, live d q m -> apart_ranges q m p n;
  law_dtoh : forall p n d l, cuMemcpyDtoH p n d = (0, l) -> l = bytes_of d p n;
  law_htod : forall p l d d', cuMemcpyHtoD p l d = (d', 0) -> Forall is_byte l ->
    frame d d' p (Z.of_nat (length l)) /\ bytes_of d' p (Z.of_nat (length l)) = l;
  law_memset : forall p v n d d', cuMemsetD8 p v n d = (d', 0) -> is_byte v ->
    frame d d' p n /\ bytes_of d' p n = repeat v (Z.to_nat n);
  law_host_alloc : forall n d d' h p, cuMemAllocHost n d = (d', (0, h)) -> cuMemHostGetDevicePointer h d' = (0, p) ->
    frame d d' 0 0 /\ live d' p n /\ mapped d' h p n /\ forall q m, live d q m -> apart_ranges q m p n;
  law_host_free : forall h p n d q m, mapped d h p n -> live d q m -> apart_ranges q m p n ->
    let d' := fst (cuMemFreeHost h d) in live d' q m /\ bytes_of d' q m = bytes_of d q m;
  law_host_read : forall h p n k d, mapped d h p n -> k <= n -> host_read h k d = bytes_of d p k;
  law_host_write : forall h p n l d, mapped d h p n -> Z.of_nat (length l) <= n -> Forall is_byte l ->
    frame d (host_write h l d) p (Z.of_nat (length l)) /\
    bytes_of (host_write h l d) p (Z.of_nat (length l)) = l;
  law_init : forall d d' h, gpu_init d = (d', h) -> frame d d' 0 0;
  law_shutdown : forall h d, frame d (gpu_shutdown h d) 0 0;
  law_scan : forall h region shadow bitmap pages d d1 s,
    gpu_scan h region shadow bitmap pages d = (d1, s) -> 0 <= s ->
    scan_layout (scan_task region shadow bitmap pages) ->
    exists order m', order ≡ₚ seqZ 0 pages /\ scanned (scan_task region shadow bitmap pages) (dmem d) order m' /\
      (forall p m x, live d p m -> p <= x < p + m -> load8 (dmem (gpu_sync h d1)) x = load8 m' x) /\
      (forall p m, live d p m -> live (gpu_sync h d1) p m) /\
      (forall h' p m, mapped d h' p m -> mapped (gpu_sync h d1) h' p m);
  law_stage : forall h src dst n d d1 s, gpu_stage h src dst n d = (d1, s) -> 0 <= s -> apart_ranges src n dst n ->
    frame d (gpu_sync h d1) dst n /\ bytes_of (gpu_sync h d1) dst n = bytes_of d src n;
  law_restore : forall h src dst n d d1 s, gpu_restore h src dst n d = (d1, s) -> 0 <= s -> apart_ranges src n dst n ->
    frame d (gpu_sync h d1) dst n /\ bytes_of (gpu_sync h d1) dst n = bytes_of d src n;
}.

Section Bytes.
Context `{GpuView D}.

Lemma frame_trans d1 d2 d3 lo n : frame d1 d2 lo n -> frame d2 d3 lo n -> frame d1 d3 lo n.
Proof.
  intros (A1 & A2 & A3) (B1 & B2 & B3). split_and!; [|auto..].
  intros p m x Hp Hx Hn. rewrite (B1 p m x) by auto. by apply (A1 p m).
Qed.

Lemma frame_widen d d' lo n : frame d d' 0 0 -> frame d d' lo n.
Proof. intros (A1 & A2 & A3). split_and!; [|done..]. intros p m x Hp Hx _. apply (A1 p m); [done|done|lia]. Qed.

Lemma frame_inside d d' lo n lo' n' : frame d d' lo n -> lo' <= lo -> lo + n <= lo' + n' -> frame d d' lo' n'.
Proof. intros (A1 & A2 & A3) Hl Hn. split_and!; [|done..]. intros p m x Hp Hx Ho. apply (A1 p m); [done|done|lia]. Qed.

Lemma frame_refl d lo n : frame d d lo n.
Proof. by split_and!. Qed.

Lemma bytes_length d p n : 0 <= n -> length (bytes_of d p n) = Z.to_nat n.
Proof. intros Hn. unfold bytes_of, load_bytes. rewrite length_fmap, length_seqZ. lia. Qed.

Lemma bytes_lookup d p n i : Z.of_nat i < n -> bytes_of d p n !! i = Some (load8 (dmem d) (p + Z.of_nat i)).
Proof. intros Hi. unfold bytes_of. apply lookup_load_bytes. lia. Qed.

Lemma bytes_are_bytes d p n : Forall is_byte (bytes_of d p n).
Proof. apply load_bytes_bytes. Qed.

(** A range inside an allocated one, apart from what changed, is kept. *)
Lemma frame_bytes d d' lo n p m q k :
  frame d d' lo n -> live d p m -> p <= q -> q + k <= p + m -> apart_ranges q k lo n ->
  bytes_of d' q k = bytes_of d q k.
Proof.
  intros (A1 & _) Hp Hq Hk Hap. unfold bytes_of. apply load_bytes_ext. intros i Hi.
  apply (A1 p m); [done|lia|]. unfold apart_ranges in Hap. lia.
Qed.

Lemma frame_bytes_kept d d' p m q k :
  frame d d' 0 0 -> live d p m -> p <= q -> q + k <= p + m -> bytes_of d' q k = bytes_of d q k.
Proof.
  intros (A1 & _) Hp Hq Hk. unfold bytes_of. apply load_bytes_ext. intros i Hi. apply (A1 p m); [done|lia|lia].
Qed.

Lemma bytes_split d p n off len :
  0 <= off -> 0 <= len -> off + len <= n ->
  bytes_of d (p + off) len = take (Z.to_nat len) (drop (Z.to_nat off) (bytes_of d p n)).
Proof.
  intros Ho Hl Hn. apply list_eq. intros i. destruct (decide (i < Z.to_nat len)%nat) as [Hi|Hi].
  - rewrite lookup_take_lt, lookup_drop, !bytes_lookup by lia. f_equal. f_equal. lia.
  - rewrite !lookup_ge_None_2; [done|rewrite length_take; lia|rewrite bytes_length; lia].
Qed.
End Bytes.

(** ** Replaying pages *)
Definition replay_over (rid : Z) (recs : list AofRecord) (buf : list Z) : list Z :=
  foldl (fun buf r => list_inserts (Z.to_nat (ar_offset r)) (ar_payload r) buf) buf
    (filter (fun r => ar_region_id r = rid) recs).

Lemma replay_over_app rid r1 r2 buf : replay_over rid (r1 ++ r2) buf = replay_over rid r2 (replay_over rid r1 buf).
Proof. unfold replay_over. by rewrite filter_app, foldl_app. Qed.

Lemma replay_over_length rid recs buf : length (replay_over rid recs buf) = length buf.
Proof.
  unfold replay_over. revert buf. generalize (filter (fun r => ar_region_id r = rid) recs). intros l.
  induction l as [|r l IH]; intros buf; simpl; [done|]. by rewrite IH, length_inserts.
Qed.

(** The bytes of page [offset] of the contents *)
Definition page_at (c : list Z) (offset : Z) : list Z := take (Z.to_nat KIMI_PAGE_SIZE) (drop (Z.to_nat offset) c).

Definition page_record (epoch rid : Z) (c : list Z) (offset : Z) : AofRecord :=
  mkAofRecord epoch rid offset (page_at c offset).

(** An offset of a page of [c] *)
Definition page_offset (c : list Z) (offset : Z) : Prop :=
  (KIMI_PAGE_SIZE | offset) /\ 0 <= offset /\ offset + KIMI_PAGE_SIZE <= Z.of_nat (length c).

Lemma page_at_length c o : page_offset c o -> length (page_at c o) = Z.to_nat KIMI_PAGE_SIZE.
Proof.
  intros (_ & H0 & Hl). unfold page_at, KIMI_PAGE_SIZE in *. rewrite length_take, length_drop. lia.
Qed.

Lemma insert_page c buf o i :
  page_offset c o -> length buf = length c ->
  list_inserts (Z.to_nat o) (page_at c o) buf !! i =
  if decide (o <= Z.of_nat i < o + KIMI_PAGE_SIZE) then c !! i else buf !! i.
Proof.
  intros Ho Hl. pose proof (page_at_length c o Ho) as Hp. destruct Ho as (_ & H0 & Hle).
  unfold KIMI_PAGE_SIZE in *. case_decide as Hi.
  - rewrite lookup_inserts_in by lia. unfold page_at, KIMI_PAGE_SIZE.
    rewrite lookup_take_lt, lookup_drop by lia. f_equal. lia.
  - apply lookup_inserts_out. lia.
Qed.

(** Replaying pages of [c] over a buffer that agrees with [c] elsewhere gives
    [c]. *)
Lemma replay_pages epoch rid c offsets : Forall (page_offset c) offsets -> forall buf, length buf = length c ->
  (forall i, (i < length c)%nat ->
     Exists (fun o => o <= Z.of_nat i < o + KIMI_PAGE_SIZE) offsets \/ buf !! i = c !! i) ->
  replay_over rid (page_record epoch rid c <$> offsets) buf = c.
Proof.
  unfold replay_over. induction 1 as [|o offsets Ho Hos IH]; intros buf Hl Hc.
  - simpl. apply list_eq_same_length with (length c); [done..|]. intros i x y Hi Hx Hy.
    destruct (Hc i Hi) as [Hex|Heq]; [by inversion Hex|]. congruence.
  - cbn [fmap list_fmap]. rewrite filter_cons_True by done. cbn [foldl page_record ar_offset ar_payload].
    apply IH; [by rewrite length_inserts|]. intros i Hi. rewrite insert_page by done.
    destruct (Hc i Hi) as [[Hhere|Hlater]%Exists_cons|Heq].
    + right. by rewrite decide_True.
    + by left.
    + right. by case_decide.
Qed.

(** ** Bitmaps in memory *)
Lemma chunks_exact_concat fuel (l : list Z) n : (length l = 8 * n)%nat -> (n <= fuel)%nat -> Forall is_byte l ->
  concat (le_bytes 8 <$> (le_decode <$> chunks_exact fuel 8 l)) = l.
Proof.
  revert fuel l. induction n as [|n IH]; intros fuel l Hl Hf Hb.
  - destruct l; [|simpl in Hl; lia]. by destruct fuel.
  - destruct fuel as [|fuel]; [lia|]. cbn [chunks_exact]. rewrite decide_True by lia. cbn [fmap list_fmap concat].
    rewrite IH; [|rewrite length_drop; lia|lia|by apply Forall_drop].
    replace (le_bytes 8) with (le_bytes (length (take 8 l))) by (rewrite length_take; f_equal; lia).
    rewrite le_bytes_le_decode by (by apply Forall_take). apply take_drop.
Qed.

(** The offsets that the manager reads from a bitmap in device memory *)
Lemma offsets_of_bytes (bytes : list Z) words page_count : length bytes = Z.to_nat (words * 8) -> 0 <= words ->
  Forall is_byte bytes ->
  dirty_page_offsets_from_words (le_decode <$> chunks_exact (length bytes) 8 bytes) page_count =
  offsets_where (byte_bit bytes) page_count.
Proof.
  intros Hl Hw Hb. rewrite words_offsets. unfold offsets_where. f_equal. apply list_filter_iff. intros page.
  rewrite <- byte_bit_words. rewrite (chunks_exact_concat _ _ (Z.to_nat words)); [done|lia|lia|done].
Qed.

Lemma byte_bit_mem m a n page : (page / 8 < n)%nat -> byte_bit (load_bytes m a n) page = mem_bit m a (Z.of_nat page).
Proof.
  intros Hp. unfold byte_bit, mem_bit. rewrite lookup_load_bytes by done. cbn [default from_option id].
  by rewrite Nat2Z.inj_div, Nat2Z.inj_mod.
Qed.

Lemma offsets_where_spec bit n o : o ∈ offsets_where bit n <->
  exists page, o = Z.of_nat page * KIMI_PAGE_SIZE /\ (page < n)%nat /\ bit page = true.
Proof.
  unfold offsets_where. rewrite list_elem_of_fmap. split; intros (page & -> & Hp); exists page.
  - apply list_elem_of_filter in Hp as [Hb Hp%elem_of_seq]. split_and!; [done|lia|done].
  - split; [done|]. apply list_elem_of_filter. split; [by destruct Hp|]. apply elem_of_seq. lia.
Qed.

Lemma mem_bit_zero m a n q : load_bytes m a n = repeat 0 n -> 0 <= q < 8 * Z.of_nat n -> mem_bit m a q = false.
Proof.
  intros Hz Hq. unfold mem_bit. assert (q / 8 < Z.of_nat n) by (apply Z.div_lt_upper_bound; lia).
  assert (0 <= q / 8) by (apply Z.div_pos; lia).
  assert (load8 m (a + q / 8) = 0) as ->; [|apply Z.testbit_0_l].
  pose proof (lookup_load_bytes m a n (Z.to_nat (q / 8)) ltac:(lia)) as Hk. rewrite Hz, Z2Nat.id in Hk by lia.
  by apply list_elem_of_lookup_2, list_elem_of_In, repeat_spec in Hk.
Qed.
