(* ===== verification/KimiCheckpoint.v ===== *)
(** * Checkpoint and restore of one device region

    What each call of the manager does when it succeeds: the base snapshot, the
    worker's scan and the pages it sends to the log ([region_inv] is kept), and
    the restore of a region from the log. *)
From stdpp Require Import base numbers list strings gmap sorting.
From Stdlib Require Import ZArith Lia.
From S2P Require Import Prelude HostIO Delta Aof RustStr Runtime Device Replay Kimi KimiDevice KimiSpec KimiPages.

Open Scope Z_scope.

(** ** Steps of the manager *)
Lemma stm_iter_Ok_ind {S E A} (f : A -> stm S E unit) (P : list A -> S -> Prop) :
  forall l done s s',
  (forall done a s s', a ∈ l -> P done s -> f a s = (s', Ok tt) -> P (done ++ [a]) s') ->
  P done s -> stm_iter f l s = (s', Ok tt) -> P (done ++ l) s'.
Proof.
  induction l as [|a l IH]; intros done s s' Hf Hs Hrun; simpl in Hrun.
  - injection Hrun as <-. by rewrite app_nil_r.
  - apply stm_bind_Ok_inv in Hrun as (s1 & [] & Ha & Hrun).
    replace (done ++ a :: l) with ((done ++ [a]) ++ l) by (by rewrite <- app_assoc).
    eapply IH; [|by eapply Hf; [left|..]|done]. intros done' b s2 s3 Hb. apply Hf. by right.
Qed.

(** Splits a run that succeeded at its first bind. *)
Ltac first_step H s a Hs := apply stm_bind_Ok_inv in H as (s & a & Hs & H).

Section Manager.
Context {D : Type} `{GpuLaws D} `{ManifestJson} (env : environment).

Lemma on_device_Ok {A} (m : stm D KimiError A) k w d s a :
  on_device m (k, w, d) = (s, Ok a) -> exists d', m d = (d', Ok a) /\ s = (k, w, d').
Proof. unfold on_device. destruct (m d) as [d' r]. intros [= <- ->]. eauto. Qed.

Lemma on_manager_Ok {A} (m : stm kimi_state KimiError A) k w (d : D) s a :
  on_manager m (k, w, d) = (s, Ok a) -> exists k' w', m (k, w) = ((k', w'), Ok a) /\ s = (k', w', d).
Proof. unfold on_manager. destruct (m (k, w)) as [[k' w'] r]. intros [= <- ->]. eauto. Qed.

Lemma dtoh_Ok p n d d' l : raw_device_to_host p n d = (d', Ok l) -> d' = d /\ l = bytes_of d p n.
Proof.
  unfold raw_device_to_host. destruct (isize_max <? n); [done|]. destruct (n =? 0) eqn:Hn.
  - intros [= <- <-]. apply Z.eqb_eq in Hn. by subst.
  - destruct (cuMemcpyDtoH p n d) as [rc bytes] eqn:Hc. destruct (rc =? 0) eqn:Hrc; intros [= <- <-].
    apply Z.eqb_eq in Hrc. subst. split; [done|]. by apply law_dtoh.
Qed.

Lemma htod_Ok p l d d' : raw_host_to_device p l d = (d', Ok tt) -> Forall is_byte l ->
  frame d d' p (Z.of_nat (length l)) /\ bytes_of d' p (Z.of_nat (length l)) = l.
Proof.
  unfold raw_host_to_device. case_bool_decide as Hl; [subst|].
  - intros [= <-] _. by split; [apply frame_refl|].
  - destruct (cuMemcpyHtoD p l d) as [d1 rc] eqn:Hc. destruct (rc =? 0) eqn:Hrc; intros [= <-].
    apply Z.eqb_eq in Hrc. subst. by apply law_htod.
Qed.

Lemma alloc_Ok n d d' p : raw_device_alloc n d = (d', Ok p) ->
  frame d d' 0 0 /\ live d' p n /\ forall q m, live d q m -> apart_ranges q m p n.
Proof.
  unfold raw_device_alloc. destruct (cuMemAlloc n d) as [d1 [rc p1]] eqn:Hc. destruct (rc =? 0) eqn:Hrc; intros [= <- <-].
  apply Z.eqb_eq in Hrc. subst. by apply law_alloc.
Qed.

Lemma memset_Ok p n d d' : raw_memset p 0 n d = (d', Ok tt) -> 0 <= n ->
  frame d d' p n /\ bytes_of d' p n = repeat 0 (Z.to_nat n).
Proof.
  unfold raw_memset. destruct (n =? 0) eqn:Hn; [apply Z.eqb_eq in Hn; subst|].
  - intros [= <-] _. by split; [apply frame_refl|].
  - destruct (cuMemsetD8 p 0 n d) as [d1 rc] eqn:Hc. destruct (rc =? 0) eqn:Hrc; intros [= <-] _.
    apply Z.eqb_eq in Hrc. subst. by apply (law_memset p 0).
Qed.

Lemma host_alloc_Ok n d d' h p : raw_host_mapped_alloc n d = (d', Ok (h, p)) -> 1 <= n ->
  h <> 0 /\ frame d d' 0 0 /\ live d' p n /\ mapped d' h p n /\ forall q m, live d q m -> apart_ranges q m p n.
Proof.
  unfold raw_host_mapped_alloc. intros Hrun Hn. rewrite Z.max_l in Hrun by lia.
  destruct (cuMemAllocHost n d) as [d1 [rc h1]] eqn:Ha. destruct (negb (rc =? 0) || (h1 =? 0)) eqn:Hg; [done|].
  apply orb_false_iff in Hg as [Hrc Hh]. apply negb_false_iff, Z.eqb_eq in Hrc. apply Z.eqb_neq in Hh. subst rc.
  destruct (cuMemHostGetDevicePointer h1 d1) as [rc p1] eqn:Hp. destruct (rc =? 0) eqn:Hrc; [|done].
  apply Z.eqb_eq in Hrc. subst rc. injection Hrun as <- <- <-. split; [done|]. by apply law_host_alloc.
Qed.

Lemma host_copy_Ok h p n l d d' : raw_host_mapped_copy_from_slice h l d = (d', Ok tt) ->
  mapped d h p n -> Z.of_nat (length l) <= n -> Forall is_byte l ->
  frame d d' p (Z.of_nat (length l)) /\ bytes_of d' p (Z.of_nat (length l)) = l.
Proof.
  unfold raw_host_mapped_copy_from_slice. destruct (_ && _); [done|]. intros [= <-] Hm Hl Hb.
  case_bool_decide; [subst; by split; [apply frame_refl|]|]. by eapply law_host_write.
Qed.

Lemma bump_epoch_range k : 0 <= km_next_epoch k <= u64_max -> 0 <= km_next_epoch (km_bump_epoch k) <= u64_max.
Proof. unfold km_bump_epoch, saturating_add, u64_max. simpl. lia. Qed.

(** The allocations and settings of two managers agree. *)
Definition same_tracking (k k' : KimiConcordiaManager) : Prop :=
  km_allocations k' = km_allocations k /\ km_config k' = km_config k /\
  km_restore_manifest k' = km_restore_manifest k.

#[local] Instance same_tracking_refl : Reflexive same_tracking.
Proof. intros k. by split_and!. Qed.
#[local] Instance same_tracking_trans : Transitive same_tracking.
Proof. intros k1 k2 k3 (A1 & A2 & A3) (B1 & B2 & B3). split_and!; congruence. Qed.

Lemma same_tracking_region k k' p r : same_tracking k k' -> km_allocations k !! p = Some r ->
  km_allocations k' !! p = Some r.
Proof. by intros (-> & _). Qed.

Lemma ensure_worker_Ok k w d s h : ensure_worker (k, w, d) = (s, Ok h) ->
  exists k' d', s = (k', w, d') /\ same_tracking k k' /\ km_aof k' = km_aof k /\
    km_next_epoch k' = km_next_epoch k /\ frame d d' 0 0.
Proof.
  unfold ensure_worker. destruct (km_worker_handle k) as [h0|].
  - destruct (0 <=? h0); [intros [= <- <-]; exists k, d; split_and!; try done; apply frame_refl|].
    destruct (gpu_init d) as [d1 h1] eqn:Hi. destruct (h1 <? 0); [done|]. intros [= <- <-].
    do 2 eexists. split; [done|]. split_and!; try done. by eapply law_init.
  - destruct (gpu_init d) as [d1 h1] eqn:Hi. destruct (h1 <? 0); [done|]. intros [= <- <-].
    do 2 eexists. split; [done|]. split_and!; try done. by eapply law_init.
Qed.

Lemma shutdown_worker_Ok k w d s : shutdown_worker (k, w, d) = (s, Ok tt) ->
  exists k' d', s = (k', w, d') /\ same_tracking k k' /\ km_aof k' = km_aof k /\
    km_next_epoch k' = km_next_epoch k /\ frame d d' 0 0.
Proof.
  unfold shutdown_worker. destruct (km_worker_handle k) as [h0|]; intros [= <-]; do 2 eexists; (split; [done|]);
    split_and!; try done; first [apply law_shutdown|apply frame_refl].
Qed.

(** ** The log *)
Record log_ready (path : string) (recs : list AofRecord) (k : KimiConcordiaManager) (w : world) : Prop := mkLogReady {
  lr_open : path ∉ denied w;
  lr_dir : forall dir, parent path = Some dir -> dir ∉ denied w;
  lr_read : read_fault w = None;
  lr_faults : write_faults w = [];
  lr_bytes : file_bytes path w = encode_records recs;
  lr_wf : Forall wf_record recs;
  lr_payloads : Forall (fun r => Forall is_byte (ar_payload r)) recs;
  lr_handle : match km_aof k with
              | Some log => log_path log = path /\ is_Some (files w !! path)
              | None => mpi_scoped_aof_path env (kc_aof_path (km_config k)) = path
              end;
}.

Lemma open_aof_ready path recs k w s log :
  log_ready path recs k w -> open_aof env (k, w) = (s, Ok log) ->
  exists k' w', s = (k', w') /\ same_tracking k k' /\ log_ready path recs k' w' /\ km_aof k' = Some log /\
    km_next_epoch k' = km_next_epoch k.
Proof.
  intros [Ho Hd Hr Hf Hb Hw Hpl Hh] Hrun. unfold open_aof in Hrun. destruct (km_aof k) as [log0|] eqn:Haof.
  - injection Hrun as <- <-. exists k, w. split_and!; try done. split; try done. by rewrite Haof.
  - rewrite Hh in Hrun.
    assert (Hpar : ensure_parent CreateAofDir path w = (w, Ok tt)).
    { unfold ensure_parent. destruct (parent path) as [dir|] eqn:Hdir; [|done].
      destruct (String.eqb dir ""); [done|]. unfold stm_map_err, create_dir_all.
      rewrite decide_True by (right; by apply Hd). done. }
    rewrite (stm_bind_Ok _ _ _ _ _ Hpar) in Hrun.
    unfold stm_map_err, open_append, open_for_append, mbind, stm_bind in Hrun. rewrite decide_False in Hrun by done.
    injection Hrun as <- <-. do 2 eexists. split; [done|]. split_and!; try done.
    split; simpl; try done; [by rewrite file_bytes_set_file|]. split; [done|]. rewrite lookup_insert_eq. eauto.
Qed.

(** What a reader of the log finds *)
Record log_holds (path : string) (recs : list AofRecord) (w : world) : Prop := mkLogHolds {
  lh_open : path ∉ denied w;
  lh_read : read_fault w = None;
  lh_bytes : file_bytes path w = encode_records recs;
  lh_wf : Forall wf_record recs;
  lh_payloads : Forall (fun r => Forall is_byte (ar_payload r)) recs;
}.

Lemma log_ready_holds path recs k w : log_ready path recs k w -> log_holds path recs w.
Proof. by intros []. Qed.

(** The log depends on the handle and the settings of the manager alone. *)
Lemma log_ready_manager path recs k k' w :
  km_aof k' = km_aof k -> km_config k' = km_config k -> log_ready path recs k w -> log_ready path recs k' w.
Proof. intros Ha Hc [Ho Hd Hr Hf Hb Hw Hpl Hh]. split; try done. by rewrite Ha, Hc. Qed.

Lemma append_ready path recs k w (d : D) epoch rid offset payload s :
  log_ready path recs k w -> wf_record (mkAofRecord epoch rid offset payload) -> Forall is_byte payload ->
  on_manager (kimi_append_record env epoch rid offset payload) (k, w, d) = (s, Ok tt) ->
  exists k' w', s = (k', w', d) /\ same_tracking k k' /\ km_next_epoch k' = km_next_epoch k /\
    log_ready path (recs ++ [mkAofRecord epoch rid offset payload]) k' w'.
Proof.
  intros Hl Hwf Hby Hrun. apply on_manager_Ok in Hrun as (k2 & w2 & Hrun & ->).
  apply stm_bind_Ok_inv in Hrun as (s1 & log & Hop & Hrun).
  destruct (open_aof_ready _ _ _ _ _ _ Hl Hop) as (k1 & w1 & -> & Hst & Hl1 & Haof & Hep).
  set (record := mkAofRecord epoch rid offset payload) in *.
  pose proof Hl1 as [Ho Hd Hr Hf Hb Hw Hpl Hh]. rewrite Haof in Hh. destruct Hh as [Hpath Hex].
  destruct (writes_nofault _ _ _ w1 (append_record_writes log record) Hf) as (w3 & Hw3 & Hb3 & Hfr).
  rewrite Hw3 in Hrun. injection Hrun as <- <-. exists k1, w3. split; [done|]. split; [done|]. split; [done|].
  rewrite Hpath in *. destruct Hfr as [F1 F2 F3 F4 F5]. split.
  - by rewrite F3.
  - intros dir Hdir. rewrite F3. by apply Hd.
  - congruence.
  - by apply F5.
  - rewrite Hb3, Hb, encode_records_app. simpl. by rewrite app_nil_r.
  - apply Forall_app. split; [done|]. by constructor.
  - apply Forall_app. split; [done|]. by constructor.
  - rewrite Haof. split; [done|by apply F2].
Qed.

(** ** Page loops *)
Lemma elem_of_page_offsets size o : (KIMI_PAGE_SIZE | size) -> 0 <= size ->
  (o ∈ page_offsets size <-> (KIMI_PAGE_SIZE | o) /\ 0 <= o /\ o + KIMI_PAGE_SIZE <= size).
Proof.
  intros [n ->] Hs. unfold page_offsets, KIMI_PAGE_SIZE in *.
  replace ((n * 4096 + 4096 - 1) / 4096) with n by (apply Z.div_unique with 4095; lia).
  rewrite list_elem_of_fmap. split.
  - intros (p & -> & Hp%elem_of_seq). split_and!; [by exists (Z.of_nat p)|lia..].
  - intros ([q ->] & Hlo & Hhi). exists (Z.to_nat q). split; [lia|]. apply elem_of_seq. lia.
Qed.

Lemma page_of_byte size i : (KIMI_PAGE_SIZE | size) -> 0 <= i < size ->
  exists o, o ∈ page_offsets size /\ o <= i < o + KIMI_PAGE_SIZE.
Proof.
  intros Hd Hi. exists (i / KIMI_PAGE_SIZE * KIMI_PAGE_SIZE). rewrite elem_of_page_offsets by (done || lia).
  destruct Hd as [n ->]. unfold KIMI_PAGE_SIZE in *.
  pose proof (Z.div_mod i 4096 ltac:(lia)). pose proof (Z.mod_pos_bound i 4096 ltac:(lia)).
  split_and!; [by exists (i / 4096)|lia|lia|lia|lia].
Qed.

Lemma page_at_byte c o i : 0 <= o -> o <= Z.of_nat i < o + KIMI_PAGE_SIZE ->
  page_at c o !! (i - Z.to_nat o)%nat = c !! i.
Proof.
  intros Hlo Hi. unfold page_at, KIMI_PAGE_SIZE in *. rewrite lookup_take_lt, lookup_drop by lia. f_equal. lia.
Qed.

Lemma region_pages_cover (d : D) p size c : 0 <= size -> (KIMI_PAGE_SIZE | size) -> length c = Z.to_nat size ->
  (forall o, o ∈ page_offsets size -> bytes_of d (p + o) KIMI_PAGE_SIZE = page_at c o) -> bytes_of d p size = c.
Proof.
  intros Hs Hd Hl Hp.
  apply list_eq_same_length with (Z.to_nat size); [done|by rewrite bytes_length|]. intros i x y Hi Hx Hy.
  destruct (page_of_byte size (Z.of_nat i) Hd ltac:(lia)) as (o & Ho & Hio). specialize (Hp o Ho).
  apply elem_of_page_offsets in Ho as (_ & Hlo & Ho); [|done|lia].
  rewrite bytes_lookup in Hx by lia. rewrite <- (page_at_byte c o) in Hy by done. rewrite <- Hp, bytes_lookup in Hy by lia.
  replace (p + o + Z.of_nat (i - Z.to_nat o)) with (p + Z.of_nat i) in Hy by lia. congruence.
Qed.

Lemma page_bytes_of (d : D) p size c o : bytes_of d p size = c -> 0 <= size -> (KIMI_PAGE_SIZE | size) -> o ∈ page_offsets size ->
  bytes_of d (p + o) KIMI_PAGE_SIZE = page_at c o.
Proof.
  intros <- Hs Hd Ho. apply elem_of_page_offsets in Ho as (_ & Hlo & Ho); [|done..]. by rewrite (bytes_split d p size).
Qed.

Lemma page_offset_of (d : D) p size o : 0 <= size -> (KIMI_PAGE_SIZE | size) -> o ∈ page_offsets size ->
  page_offset (bytes_of d p size) o.
Proof.
  intros Hs Hd Ho. apply elem_of_page_offsets in Ho as (Hdv & Hlo & Ho); [|done..].
  split_and!; [done|done|]. rewrite bytes_length; lia.
Qed.

(** ** One region *)
Section Region.
Context (path : string) (ptr size rid : Z).
Hypothesis Hpages : (KIMI_PAGE_SIZE | size).
Hypothesis Hsize : 0 < size.
Hypothesis Hrid : 0 <= rid <= u64_max.

Lemma page_record_wf (d : D) p epoch o : live d p size -> o ∈ page_offsets size -> 0 <= epoch <= u64_max ->
  wf_record (page_record epoch rid (bytes_of d p size) o).
Proof.
  intros Hl%law_live Ho He. pose proof (page_at_length _ _ (page_offset_of d p size o ltac:(lia) Hpages Ho)) as Hpl.
  apply elem_of_page_offsets in Ho as (_ & Hlo & Ho); [|done|lia].
  split; cbn [page_record ar_epoch ar_region_id ar_offset ar_payload]; [done|done| |].
  - unfold u64_max, KIMI_PAGE_SIZE in *. lia.
  - rewrite Hpl. by vm_compute.
Qed.

Lemma base_page_Ok k w d s epoch recs shadow o :
  live d ptr size -> live d shadow size -> o ∈ page_offsets size -> log_ready path recs k w ->
  0 <= epoch <= u64_max -> base_page env ptr shadow epoch rid o (k, w, d) = (s, Ok tt) ->
  let c := bytes_of d ptr size in
  exists k' w' d', s = (k', w', d') /\ same_tracking k k' /\ km_next_epoch k' = km_next_epoch k /\
    log_ready path (recs ++ [page_record epoch rid c o]) k' w' /\
    frame d d' (shadow + o) KIMI_PAGE_SIZE /\ bytes_of d' (shadow + o) KIMI_PAGE_SIZE = page_at c o.
Proof.
  intros Hp Hsh Ho Hlog He Hrun c. unfold base_page in Hrun.
  pose proof (law_live _ _ _ Hp) as Hp'. pose proof (law_live _ _ _ Hsh) as Hsh'.
  pose proof (proj1 (elem_of_page_offsets size o Hpages ltac:(lia)) Ho) as (_ & Hlo & Hhi).
  unfold wrapping_add in Hrun. rewrite !wrap_small in Hrun by (unfold KIMI_PAGE_SIZE in *; lia).
  apply stm_bind_Ok_inv in Hrun as (s1 & payload & Hrun1 & Hrun).
  apply on_device_Ok in Hrun1 as (d1 & [-> ->]%dtoh_Ok & ->).
  rewrite (page_bytes_of d ptr size c) in Hrun by (done || lia).
  apply stm_bind_Ok_inv in Hrun as (s2 & [] & Hrun2 & Hrun).
  apply on_device_Ok in Hrun2 as (d2 & Hcopy & ->).
  assert (Forall is_byte (page_at c o)) as Hby by (apply Forall_take, Forall_drop, bytes_are_bytes).
  apply htod_Ok in Hcopy as [Hfr Hd2]; [|done].
  rewrite (page_at_length c o) in Hfr, Hd2 by (apply page_offset_of; (done || lia)).
  apply (append_ready path recs) in Hrun as (k' & w' & -> & Hst & Hep & Hl); [|done|by apply page_record_wf|done].
  exists k', w', d2. split_and!; done.
Qed.

(** The loop of the base snapshot *)
Lemma base_pages_Ok k w d s epoch recs shadow :
  live d ptr size -> live d shadow size -> apart_ranges ptr size shadow size -> log_ready path recs k w ->
  0 <= epoch <= u64_max ->
  stm_iter (base_page env ptr shadow epoch rid) (page_offsets size) (k, w, d) = (s, Ok tt) ->
  let c := bytes_of d ptr size in
  exists k' w' d', s = (k', w', d') /\ same_tracking k k' /\ km_next_epoch k' = km_next_epoch k /\
    log_ready path (recs ++ (page_record epoch rid c <$> page_offsets size)) k' w' /\
    frame d d' shadow size /\ bytes_of d' shadow size = c.
Proof.
  intros Hp Hsh Hap Hlog He Hrun c.
  apply (stm_iter_Ok_ind _ (fun done s => exists k' w' d', s = (k', w', d') /\ same_tracking k k' /\
    km_next_epoch k' = km_next_epoch k /\ log_ready path (recs ++ (page_record epoch rid c <$> done)) k' w' /\
    frame d d' shadow size /\
    forall o, o ∈ done -> o ∈ page_offsets size /\ bytes_of d' (shadow + o) KIMI_PAGE_SIZE = page_at c o) _ [])
    in Hrun.
  - destruct Hrun as (k' & w' & d' & -> & Hst & Hep & Hl & Hfr & Hall). exists k', w', d'.
    split_and!; try done. apply region_pages_cover; [lia|done|unfold c; rewrite bytes_length; lia|].
    intros o Ho. by apply Hall.
  - clear Hrun. intros done o s1 s2 Ho (k1 & w1 & d1 & -> & Hst1 & Hep1 & Hl1 & Hfr1 & Hall1) Hrun.
    pose proof Hfr1 as (_ & Hlive1 & _).
    assert (bytes_of d1 ptr size = c) as Hc1 by (apply (frame_bytes d d1 shadow size ptr size); [done..|lia|lia|done]).
    destruct (base_page_Ok k1 w1 d1 s2 epoch _ shadow o (Hlive1 _ _ Hp) (Hlive1 _ _ Hsh) Ho Hl1 He Hrun)
      as (k2 & w2 & d2 & -> & Hst2 & Hep2 & Hl2 & Hfr2 & Hb2).
    rewrite Hc1 in Hl2, Hb2. pose proof (proj1 (elem_of_page_offsets size o Hpages ltac:(lia)) Ho) as (Hdo & Hlo & Hhi).
    exists k2, w2, d2. split_and!; [done|by etrans|congruence| | |].
    + by rewrite fmap_app, app_assoc.
    + eapply frame_trans; [done|]. eapply frame_inside; [done|lia|lia].
    + intros o' [Ho'|Ho'%list_elem_of_singleton]%elem_of_app; [|by subst o']. destruct (Hall1 o' Ho') as [Hin Hb].
      split; [done|]. destruct (decide (o' = o)) as [->|Hne]; [done|].
      rewrite <- Hb. pose proof (proj1 (elem_of_page_offsets size o' Hpages ltac:(lia)) Hin) as (Hdo' & Hlo' & Hhi').
      apply (frame_bytes d1 d2 (shadow + o) KIMI_PAGE_SIZE shadow size); [done|by apply Hlive1|lia|lia|]. destruct Hdo as [a ->], Hdo' as [b ->].
      unfold apart_ranges, KIMI_PAGE_SIZE in *. lia.
  - exists k, w, d. split_and!; [done..| |apply frame_refl|]; [by rewrite app_nil_r|]. intros o Ho. by apply elem_of_nil in Ho.
Qed.

(** The shadow, the bitmap and the staging page of a region are allocated and
    lie apart from each other and from the region. *)
Record resources_ok (d : D) (res : DeviceCheckpointResources) : Prop := mkResourcesOk {
  ro_words : dc_bitmap_words res = bitmap_words_of (size / KIMI_PAGE_SIZE);
  ro_bytes : dc_staging_bytes res = KIMI_PAGE_SIZE;
  ro_shadow : live d (dc_shadow res) size;
  ro_bitmap : live d (dc_bitmap res) (dc_bitmap_words res * 8);
  ro_staging : live d (dc_staging_device res) KIMI_PAGE_SIZE;
  ro_mapped : mapped d (dc_staging_host res) (dc_staging_device res) KIMI_PAGE_SIZE;
  ro_ptr_shadow : apart_ranges ptr size (dc_shadow res) size;
  ro_ptr_bitmap : apart_ranges ptr size (dc_bitmap res) (dc_bitmap_words res * 8);
  ro_ptr_staging : apart_ranges ptr size (dc_staging_device res) KIMI_PAGE_SIZE;
  ro_shadow_bitmap : apart_ranges (dc_shadow res) size (dc_bitmap res) (dc_bitmap_words res * 8);
  ro_shadow_staging : apart_ranges (dc_shadow res) size (dc_staging_device res) KIMI_PAGE_SIZE;
  ro_bitmap_staging : apart_ranges (dc_bitmap res) (dc_bitmap_words res * 8) (dc_staging_device res) KIMI_PAGE_SIZE;
}.

(** The log rebuilds the contents [c] of the region from any buffer. *)
Definition rebuilds (recs : list AofRecord) (c : list Z) : Prop :=
  forall buf, length buf = length c -> replay_over rid recs buf = c.

(** Between the calls of the manager: the region is tracked without allocator
    metadata, and once it is initialised the log rebuilds its shadow. *)
Record region_inv (r : KimiTrackedRegion) (recs : list AofRecord) (k : KimiConcordiaManager) (w : world) (d : D)
    : Prop := mkRegionInv {
  rv_region : km_allocations k !! ptr = Some r;
  rv_id : kr_region_id r = rid;
  rv_size : kr_tracked_size r = size;
  rv_allocator : kr_allocator r = None;
  rv_live : live d ptr size;
  rv_epoch : 0 <= km_next_epoch k <= u64_max;
  rv_log : log_ready path recs k w;
  rv_resources : kr_initialized r = true -> exists res, kr_device r = Some res /\ resources_ok d res /\
    rebuilds recs (bytes_of d (dc_shadow res) size);
}.

(** Records of this region only were appended. *)
Definition appended (recs recs' : list AofRecord) : Prop :=
  exists new, recs' = recs ++ new /\ Forall (fun r => ar_region_id r = rid) new.

Lemma page_records_own epoch c offsets : Forall (fun r => ar_region_id r = rid) (page_record epoch rid c <$> offsets).
Proof. apply Forall_fmap, Forall_true. done. Qed.

Lemma base_rebuilds recs epoch c : length c = Z.to_nat size ->
  rebuilds (recs ++ (page_record epoch rid c <$> page_offsets size)) c.
Proof.
  intros Hl buf Hb. rewrite replay_over_app. apply replay_pages.
  - apply Forall_forall. intros o (Hd & Hlo & Hhi)%elem_of_page_offsets; [|done|lia]. split_and!; [done|done|lia].
  - by rewrite replay_over_length.
  - intros i Hi. left. destruct (page_of_byte size (Z.of_nat i) Hpages ltac:(lia)) as (o & Ho & Hio).
    apply Exists_exists. eauto.
Qed.

Lemma region_at_Ok k w (d : D) s r : region_at ptr (k, w, d) = (s, Ok r) -> s = (k, w, d) /\ km_allocations k !! ptr = Some r.
Proof.
  unfold region_at, manager, mbind, stm_bind, stm_lift. simpl. destruct (km_allocations k !! ptr); simpl; [|done].
  by intros [= <- <-].
Qed.

Lemma staging_Ok shadow bitmap d d' h p : staging_or_free shadow bitmap d = (d', Ok (h, p)) ->
  frame d d' 0 0 /\ live d' p KIMI_PAGE_SIZE /\ mapped d' h p KIMI_PAGE_SIZE /\
  forall q m, live d q m -> apart_ranges q m p KIMI_PAGE_SIZE.
Proof.
  unfold staging_or_free. destruct (raw_host_mapped_alloc KIMI_PAGE_SIZE d) as [d1 r] eqn:Ha.
  destruct r as [[h1 p1]|e|].
  - intros [= <- <- <-]. apply host_alloc_Ok in Ha as (_ & Ha); [done|]. unfold KIMI_PAGE_SIZE. lia.
  - destruct (raw_device_free _ _) as [d2 ?]. by destruct (raw_device_free _ _).
  - destruct (raw_device_free _ _) as [d2 ?]. by destruct (raw_device_free _ _).
Qed.

(** The resources of a fresh region *)
Lemma fresh_resources d d1 d2 d3 d4 shadow bitmap h p words :
  words = bitmap_words_of (size / KIMI_PAGE_SIZE) -> live d ptr size ->
  raw_device_alloc size d = (d1, Ok shadow) -> raw_device_alloc (words * 8) d1 = (d2, Ok bitmap) ->
  raw_memset bitmap 0 (words * 8) d2 = (d3, Ok tt) -> staging_or_free shadow bitmap d3 = (d4, Ok (h, p)) ->
  resources_ok d4 (mkDeviceResources shadow bitmap words h p KIMI_PAGE_SIZE) /\ live d4 ptr size /\
  bytes_of d4 ptr size = bytes_of d ptr size.
Proof.
  intros Hw Hl Ha Hb Hm Hs. assert (0 <= words) by (subst; unfold bitmap_words_of; lia).
  apply alloc_Ok in Ha as (Fa & La & Aa). apply alloc_Ok in Hb as (Fb & Lb & Ab).
  apply memset_Ok in Hm as [Fm _]; [|lia]. apply staging_Ok in Hs as (Fs & Ls & Ms & As).
  pose proof Fa as (_ & Ka & _). pose proof Fb as (_ & Kb & _). pose proof Fm as (_ & Km & _). pose proof Fs as (_ & Ks & _).
  pose proof (Aa _ _ Hl) as A1. pose proof (Ab _ _ (Ka _ _ Hl)) as A2. pose proof (Ab _ _ La) as A3.
  assert (forall q m, live d2 q m -> live d4 q m /\ apart_ranges q m p KIMI_PAGE_SIZE) as Hk by (intros q m Hq; split; auto).
  split; [|split].
  - split; cbn [dc_bitmap_words dc_staging_bytes dc_shadow dc_bitmap dc_staging_device dc_staging_host]; try done;
      apply Hk; auto.
  - apply Hk; auto.
  - rewrite (frame_bytes_kept d3 d4 ptr size) by (done || lia || auto).
    rewrite (frame_bytes d2 d3 bitmap (words * 8) ptr size) by (done || lia || auto).
    rewrite (frame_bytes_kept d1 d2 ptr size) by (done || lia || auto).
    apply (frame_bytes_kept d d1 ptr size); (done || lia).
Qed.

Lemma frame_resources d d' lo n res : frame d d' lo n -> resources_ok d res -> resources_ok d' res.
Proof. intros (_ & Fl & Fm) []. split; auto. Qed.

Lemma initialize_Ok r recs k w d s : region_inv r recs k w d ->
  initialize_device_region env ptr (k, w, d) = (s, Ok tt) ->
  exists r' recs' k' w' d', s = (k', w', d') /\ region_inv r' recs' k' w' d' /\ kr_initialized r' = true /\
    appended recs recs' /\ bytes_of d' ptr size = bytes_of d ptr size.
Proof.
  intros [Hr Hid Hsz Hal Hl He Hlog _] Hrun. unfold initialize_device_region in Hrun.
  first_step Hrun s0 r0 Hs. apply region_at_Ok in Hs as [-> Hr0]. rewrite Hr in Hr0. injection Hr0 as <-.
  rewrite Hid, Hsz in Hrun. set (words := bitmap_words_of _) in Hrun.
  first_step Hrun s1 u Hs. destruct u. apply shutdown_worker_Ok in Hs as (k1 & d1 & -> & St1 & Ha1 & He1 & F1).
  first_step Hrun s2 shadow Hs. apply on_device_Ok in Hs as (d2 & Hsh & ->).
  first_step Hrun s3 bitmap Hs. apply on_device_Ok in Hs as (d3 & Hbm & ->).
  first_step Hrun s4 u Hs. destruct u. apply on_device_Ok in Hs as (d4 & Hms & ->).
  first_step Hrun s5 st Hs. destruct st as [h p]. apply on_device_Ok in Hs as (d5 & Hst & ->).
  pose proof F1 as (_ & K1 & _).
  destruct (fresh_resources d1 d2 d3 d4 d5 shadow bitmap h p words eq_refl (K1 _ _ Hl) Hsh Hbm Hms Hst) as (Hres & Hl5 & Hc5).
  rewrite (frame_bytes_kept d d1 ptr size) in Hc5 by (done || lia).
  first_step Hrun s6 epoch Hs. injection Hs as <- <-. rewrite He1 in Hrun.
  first_step Hrun s7 u Hs. destruct u. pose proof St1 as (Sa & Sc & Sm).
  apply (base_pages_Ok _ _ _ _ _ recs) in Hs as (k7 & w7 & d7 & -> & St7 & He7 & Hlog7 & F7 & Hc7);
    [|done|by apply Hres|by apply (ro_ptr_shadow _ _ Hres)|by eapply log_ready_manager; [..|done]|done].
  rewrite Hc5 in Hlog7, Hc7. pose proof St7 as (Sa7 & Sc7 & Sm7). simpl in Sa7.
  first_step Hrun s8 r8 Hs. apply region_at_Ok in Hs as [-> Hr8]. injection Hrun as <-.
  do 5 eexists. split; [done|]. split; [split|].
  - simpl. by rewrite lookup_alter_eq, Hr8.
  - simpl. rewrite Sa7, Sa in Hr8. congruence.
  - simpl. rewrite Sa7, Sa in Hr8. congruence.
  - simpl. rewrite Sa7, Sa in Hr8. congruence.
  - destruct F7 as (_ & K7 & _). by apply K7.
  - simpl. rewrite He7. apply bump_epoch_range. by rewrite He1.
  - by eapply log_ready_manager; [..|done].
  - intros _. eexists. split; [done|]. split; [by eapply frame_resources|]. cbn [dc_shadow]. rewrite Hc7.
    apply base_rebuilds. rewrite bytes_length; lia.
  - split; [done|]. split; [eexists; split; [done|apply page_records_own]|].
    rewrite <- Hc5. apply (frame_bytes d5 d7 shadow size ptr size); [done|done|lia|lia|apply (ro_ptr_shadow _ _ Hres)].
Qed.

(** ** The worker's scan *)
Local Abbreviation pages := (size / KIMI_PAGE_SIZE).
Local Abbreviation task res := (scan_task ptr (dc_shadow res) (dc_bitmap res) pages).

Lemma size_pages : size = KIMI_PAGE_SIZE * pages.
Proof. apply Z.div_exact; [done|]. by apply Z.mod_divide. Qed.

Lemma bitmap_fits : bitmap_len pages <= bitmap_words_of pages * 8.
Proof. unfold bitmap_len, bitmap_words_of. lia. Qed.

Lemma task_layout d res : resources_ok d res -> scan_layout (task res).
Proof.
  intros [Hw _ _ _ _ _ Hps Hpb _ Hsb _ _]. pose proof size_pages as Hs. pose proof bitmap_fits as Hf.
  unfold scan_layout, scan_task, apart_ranges in *. simpl. change page_bytes with KIMI_PAGE_SIZE. rewrite <- Hs. rewrite Hw in *.
  split_and!; [apply Z.div_pos; unfold KIMI_PAGE_SIZE in *; lia|lia..].
Qed.

Definition scan_result (d d' : D) (res : DeviceCheckpointResources) : Prop :=
  exists order m', order ≡ₚ seqZ 0 pages /\ scanned (task res) (dmem d) order m' /\
    (forall p m x, live d p m -> p <= x < p + m -> load8 (dmem d') x = load8 m' x) /\
    (forall p m, live d p m -> live d' p m) /\ (forall h p m, mapped d h p m -> mapped d' h p m).

Lemma scan_contents d d' res : resources_ok d res -> live d ptr size -> scan_result d d' res ->
  bytes_of d' ptr size = bytes_of d ptr size /\ bytes_of d' (dc_shadow res) size = bytes_of d ptr size.
Proof.
  intros Hres Hl (order & m' & Hord & [Hfr Hsh _] & Hm & _). pose proof size_pages as Hs. pose proof bitmap_fits as Hf.
  destruct Hres as [Hw _ Hlsh _ _ _ Hps Hpb _ _ _ _]. rewrite Hw in *. unfold apart_ranges in *.
  split; unfold bytes_of; apply load_bytes_ext; intros i Hi.
  - rewrite (Hm ptr size) by (done || lia). simpl in Hfr. change page_bytes with KIMI_PAGE_SIZE in Hfr.
    rewrite <- Hs in Hfr. apply Hfr; lia.
  - rewrite (Hm (dc_shadow res) size) by (done || lia). rewrite Z2Nat.id in Hi by lia.
    pose proof (Z.div_mod i page_bytes ltac:(done)) as Hdm. pose proof (Z.mod_pos_bound i page_bytes ltac:(done)) as Hmb.
    assert (0 <= i / page_bytes < pages) as Hq.
    { split; [apply Z.div_pos; [lia|done]|]. apply Z.div_lt_upper_bound; [done|]. change page_bytes with KIMI_PAGE_SIZE. lia. }
    specialize (Hsh (i / page_bytes) (i mod page_bytes) Hq Hmb). unfold page_of_shadow, page_of_current in Hsh.
    rewrite bool_decide_true in Hsh by (rewrite Hord; apply elem_of_seqZ; lia). simpl in Hsh.
    replace (dc_shadow res + i / page_bytes * page_bytes + i mod page_bytes) with (dc_shadow res + i) in Hsh by lia.
    rewrite Hsh. f_equal. lia.
Qed.

Lemma scan_bitmap d d' res page : resources_ok d res -> scan_result d d' res ->
  bytes_of d (dc_bitmap res) (dc_bitmap_words res * 8) = repeat 0 (Z.to_nat (dc_bitmap_words res * 8)) ->
  Z.of_nat page < pages ->
  byte_bit (bytes_of d' (dc_bitmap res) (dc_bitmap_words res * 8)) page =
  page_differs (dmem d) (ptr + Z.of_nat page * page_bytes) (dc_shadow res + Z.of_nat page * page_bytes).
Proof.
  intros Hres (order & m' & Hord & [_ _ Hbits] & Hm & _) Hz Hp. pose proof bitmap_fits as Hf.
  destruct Hres as [Hw _ _ Hlb _ _ _ _ _ _ _ _]. set (n := dc_bitmap_words res * 8) in *. rewrite <- Hw in Hf. fold n in Hf.
  assert (Z.of_nat page < 8 * bitmap_len pages) as Hpl.
  { unfold bitmap_len. pose proof (Z.div_mod (pages + 63) 64 ltac:(lia)). pose proof (Z.mod_pos_bound (pages + 63) 64 ltac:(lia)). lia. }
  assert (Z.of_nat (page / 8) < n) as Hpn.
  { rewrite Nat2Z.inj_div. apply Z.div_lt_upper_bound; lia. }
  unfold bytes_of. rewrite byte_bit_mem by lia. unfold mem_bit.
  assert (0 <= Z.of_nat page / 8) by (apply Z.div_pos; lia). rewrite Nat2Z.inj_div in Hpn.
  rewrite (Hm (dc_bitmap res) n) by (done || lia). fold (mem_bit m' (dc_bitmap res) (Z.of_nat page)).
  specialize (Hbits (Z.of_nat page)). simpl in Hbits. rewrite Hbits by lia.
  rewrite (mem_bit_zero _ _ (Z.to_nat n)) by (done || lia).
  rewrite bool_decide_true by (rewrite Hord; apply elem_of_seqZ; lia). done.
Qed.

(** A page without its bit is the same in the region and in the shadow. *)
Lemma clean_page (d : D) p q o : 0 <= o -> o + KIMI_PAGE_SIZE <= size -> page_differs (dmem d) (p + o) (q + o) = false ->
  page_at (bytes_of d p size) o = page_at (bytes_of d q size) o.
Proof.
  intros Hlo Hhi Hd. unfold page_at. rewrite <- !(bytes_split d _ size) by (done || lia).
  unfold bytes_of. apply load_bytes_ext. intros i Hi.
  destruct (decide (load8 (dmem d) (p + o + i) = load8 (dmem d) (q + o + i))) as [|Hne]; [done|].
  apply not_true_iff_false in Hd. exfalso. apply Hd, page_differs_spec. exists i. split; [|done].
  unfold page_bytes, KIMI_PAGE_SIZE in *. lia.
Qed.

(** What is live and mapped stays so. *)
Definition keeps (d d' : D) : Prop :=
  (forall p m, live d p m -> live d' p m) /\ (forall h p m, mapped d h p m -> mapped d' h p m).

Lemma frame_keeps (d d' : D) lo n : frame d d' lo n -> keeps d d'.
Proof. by intros (_ & ? & ?). Qed.

Lemma keeps_trans (d1 d2 d3 : D) : keeps d1 d2 -> keeps d2 d3 -> keeps d1 d3.
Proof. intros [A1 A2] [B1 B2]. split; auto. Qed.

Lemma keeps_resources d d' res : keeps d d' -> resources_ok d res -> resources_ok d' res.
Proof. intros [Fl Fm] []. split; auto. Qed.

Lemma dirty_offsets_Ok k w d s r res offsets refresh :
  kr_allocator r = None -> kr_tracked_size r = size -> live d ptr size -> resources_ok d res ->
  dirty_offsets ptr r res (k, w, d) = (s, Ok (offsets, refresh)) ->
  let c := bytes_of d ptr size in
  exists k' d', s = (k', w, d') /\ same_tracking k k' /\ km_aof k' = km_aof k /\ km_next_epoch k' = km_next_epoch k /\
    refresh = false /\ keeps d d' /\ bytes_of d' ptr size = c /\ bytes_of d' (dc_shadow res) size = c /\
    (forall o, o ∈ offsets -> o ∈ page_offsets size) /\
    (forall o, o ∈ page_offsets size -> o ∉ offsets -> page_at c o = page_at (bytes_of d (dc_shadow res) size) o).
Proof.
  intros Hal Hsz Hl Hres Hrun c. unfold dirty_offsets in Hrun. rewrite Hal, Hsz in Hrun.
  assert (0 <= dc_bitmap_words res) as Hwords by (rewrite (ro_words _ _ Hres); unfold bitmap_words_of; lia).
  first_step Hrun s1 u Hs. destruct u. apply on_device_Ok in Hs as (d1 & Hms & ->). apply memset_Ok in Hms as [F1 Hz]; [|lia].
  first_step Hrun s2 h Hs. apply ensure_worker_Ok in Hs as (k2 & d2 & -> & St & Ha & He & F2).
  first_step Hrun s3 sq Hs. apply on_device_Ok in Hs as (d3 & Hscan & ->).
  destruct (gpu_scan h ptr (dc_shadow res) (dc_bitmap res) pages d2) as [d3' sq'] eqn:Hsc. injection Hscan as <- <-.
  destruct (Z.ltb_spec sq' 0); [done|].
  first_step Hrun s4 u Hs. destruct u. injection Hs as <-.
  first_step Hrun s5 bytes Hs. apply on_device_Ok in Hs as (d5 & [-> ->]%dtoh_Ok & ->). injection Hrun as <- <- <-.
  assert (keeps d d2) as K2 by (by eapply keeps_trans; eapply frame_keeps).
  pose proof (keeps_resources _ _ _ K2 Hres) as Hres2. destruct K2 as [L2 M2].
  assert (bytes_of d2 ptr size = c) as C2.
  { rewrite (frame_bytes_kept d1 d2 ptr size); [|done|by apply F1|lia|lia].
    apply (frame_bytes d d1 (dc_bitmap res) (dc_bitmap_words res * 8) ptr size); [done..|lia|lia|apply Hres]. }
  assert (bytes_of d2 (dc_shadow res) size = bytes_of d (dc_shadow res) size) as S2.
  { rewrite (frame_bytes_kept d1 d2 (dc_shadow res) size); [|done|apply F1, Hres|lia|lia].
    apply (frame_bytes d d1 (dc_bitmap res) (dc_bitmap_words res * 8) (dc_shadow res) size); [done|apply Hres|lia|lia|apply Hres]. }
  rewrite <- (frame_bytes_kept d1 d2 (dc_bitmap res) (dc_bitmap_words res * 8)) in Hz; [|done|apply F1, Hres|lia|lia].
  assert (scan_result d2 (gpu_sync h d3') res) as Hr by (eapply law_scan; [done|done|by eapply task_layout]).
  pose proof (scan_contents _ _ _ Hres2 (L2 _ _ Hl) Hr) as [C3 S3]. rewrite C2 in C3, S3.
  pose proof (fun page => scan_bitmap _ _ _ page Hres2 Hr Hz) as Hbit. pose proof Hr as (_ & _ & _ & _ & _ & L3 & M3).
  pose proof size_pages as Hsp.
  exists k2, (gpu_sync h d3'). split_and!; try done; [split; auto|..].
  - intros o. rewrite (offsets_of_bytes _ (dc_bitmap_words res)) by (done || apply bytes_are_bytes || (rewrite bytes_length; lia)).
    intros (page & -> & Hp & _)%offsets_where_spec. apply elem_of_page_offsets; [done|lia|].
    unfold KIMI_PAGE_SIZE in *. split_and!; [by exists (Z.of_nat page)|lia|lia].
  - intros o Ho Hno. apply elem_of_page_offsets in Ho as ([q ->] & Hlo & Hhi); [|done|lia].
    rewrite (offsets_of_bytes _ (dc_bitmap_words res)) in Hno by (done || apply bytes_are_bytes || (rewrite bytes_length; lia)).
    rewrite <- C2, <- S2. apply clean_page; [done|done|]. assert (0 <= q < pages) by (unfold KIMI_PAGE_SIZE in *; lia).
    destruct (page_differs _ _ _) eqn:Hd; [|done]. exfalso. apply Hno, offsets_where_spec. exists (Z.to_nat q).
    split_and!; [by rewrite Z2Nat.id by lia|lia|]. rewrite Hbit by lia. by rewrite Z2Nat.id by lia.
Qed.

(** ** Pages to the log *)
Lemma stage_Ok k w d s r res handle o payload :
  km_allocations k !! ptr = Some r -> kr_device r = Some res -> resources_ok d res -> o ∈ page_offsets size ->
  stage_aof_payload_via_worker handle ptr (ptr + o) KIMI_PAGE_SIZE (k, w, d) = (s, Ok payload) ->
  exists d', s = (k, w, d') /\ frame d d' (dc_staging_device res) KIMI_PAGE_SIZE /\
    payload = bytes_of d (ptr + o) KIMI_PAGE_SIZE.
Proof.
  intros Hr Hdev Hres Ho Hrun. unfold stage_aof_payload_via_worker in Hrun.
  apply elem_of_page_offsets in Ho as (_ & Hlo & Hhi); [|done|lia].
  first_step Hrun s0 r0 Hs. apply region_at_Ok in Hs as [-> Hr0]. rewrite Hr in Hr0. injection Hr0 as <-.
  first_step Hrun s1 res1 Hs. unfold resources_of, stm_lift in Hs. rewrite Hdev in Hs. injection Hs as <- <-.
  rewrite (ro_bytes _ _ Hres), Z.ltb_irrefl in Hrun.
  first_step Hrun s2 sq Hs. apply on_device_Ok in Hs as (d2 & Hst & ->).
  destruct (gpu_stage _ _ _ _ d) as [d2' sq'] eqn:Hg. injection Hst as <- <-.
  destruct (Z.ltb_spec sq' 0); [done|].
  first_step Hrun s3 u Hs. destruct u. injection Hs as <-. apply on_device_Ok in Hrun as (d4 & Hvec & ->).
  assert (apart_ranges (ptr + o) KIMI_PAGE_SIZE (dc_staging_device res) KIMI_PAGE_SIZE) as Hap.
  { pose proof (ro_ptr_staging _ _ Hres). unfold apart_ranges in *. lia. }
  destruct (law_stage _ _ _ _ _ _ _ Hg ltac:(done) Hap) as [Hfr Hb].
  unfold raw_host_mapped_to_vec in Hvec. destruct (_ && _); [discriminate|]. destruct (isize_max <? _); [discriminate|].
  injection Hvec as <- <-. exists (gpu_sync handle d2'). split_and!; [done|done|].
  rewrite <- Hb. change (KIMI_PAGE_SIZE =? 0) with false. apply (law_host_read _ _ KIMI_PAGE_SIZE); [|done].
  apply Hfr, Hres.
Qed.

Lemma scan_page_Ok k w d s r res recs handle epoch o :
  km_allocations k !! ptr = Some r -> kr_device r = Some res -> resources_ok d res -> live d ptr size ->
  o ∈ page_offsets size -> log_ready path recs k w -> 0 <= epoch <= u64_max ->
  scan_page_out env handle ptr (dc_shadow res) epoch rid false o (k, w, d) = (s, Ok tt) ->
  exists k' w' d', s = (k', w', d') /\ same_tracking k k' /\ km_next_epoch k' = km_next_epoch k /\
    log_ready path (recs ++ [page_record epoch rid (bytes_of d ptr size) o]) k' w' /\
    frame d d' (dc_staging_device res) KIMI_PAGE_SIZE.
Proof.
  intros Hr Hdev Hres Hl Ho Hlog He Hrun. unfold scan_page_out in Hrun.
  pose proof (law_live _ _ _ Hl) as Hp. pose proof (proj1 (elem_of_page_offsets size o Hpages ltac:(lia)) Ho) as (_ & Hlo & Hhi).
  unfold wrapping_add in Hrun. rewrite wrap_small in Hrun by (unfold KIMI_PAGE_SIZE in *; lia).
  first_step Hrun s1 payload Hs. apply (stage_Ok _ _ _ _ r res) in Hs as (d1 & -> & Hfr & ->); [|done..].
  first_step Hrun s2 u Hs. injection Hs as <- <-. rewrite (page_bytes_of d ptr size _ o eq_refl) in Hrun by (done || lia).
  apply (append_ready path recs) in Hrun as (k' & w' & -> & Hst & Hep & Hlog'); [|done|by apply page_record_wf|].
  - exists k', w', d1. split_and!; done.
  - apply Forall_take, Forall_drop, bytes_are_bytes.
Qed.

Lemma scan_pages_Ok k w d s r res recs handle epoch offsets :
  km_allocations k !! ptr = Some r -> kr_device r = Some res -> resources_ok d res -> live d ptr size ->
  Forall (fun o => o ∈ page_offsets size) offsets -> log_ready path recs k w -> 0 <= epoch <= u64_max ->
  stm_iter (scan_page_out env handle ptr (dc_shadow res) epoch rid false) offsets (k, w, d) = (s, Ok tt) ->
  exists k' w' d', s = (k', w', d') /\ same_tracking k k' /\ km_next_epoch k' = km_next_epoch k /\
    log_ready path (recs ++ (page_record epoch rid (bytes_of d ptr size) <$> offsets)) k' w' /\
    frame d d' (dc_staging_device res) KIMI_PAGE_SIZE.
Proof.
  intros Hr Hdev Hres Hl Hos Hlog He Hrun. set (c := bytes_of d ptr size).
  apply (stm_iter_Ok_ind _ (fun done s => exists k' w' d', s = (k', w', d') /\ same_tracking k k' /\
    km_next_epoch k' = km_next_epoch k /\ log_ready path (recs ++ (page_record epoch rid c <$> done)) k' w' /\
    frame d d' (dc_staging_device res) KIMI_PAGE_SIZE) _ []) in Hrun; [done|..].
  - clear Hrun. intros done o s1 s2 Ho (k1 & w1 & d1 & -> & Hst1 & Hep1 & Hl1 & Hfr1) Hrun.
    pose proof Hfr1 as (_ & L1 & _). rewrite Forall_forall in Hos.
    assert (bytes_of d1 ptr size = c) as Hc1.
    { apply (frame_bytes d d1 (dc_staging_device res) KIMI_PAGE_SIZE ptr size); [done..|lia|lia|apply Hres]. }
    destruct (scan_page_Ok k1 w1 d1 s2 r res _ handle epoch o (same_tracking_region _ _ _ _ Hst1 Hr) Hdev
      (frame_resources _ _ _ _ _ Hfr1 Hres) (L1 _ _ Hl) (Hos o Ho) Hl1 He Hrun) as (k2 & w2 & d2 & -> & Hst2 & Hep2 & Hl2 & Hfr2).
    rewrite Hc1 in Hl2. exists k2, w2, d2. split_and!; [done|by etrans|congruence| |by eapply frame_trans].
    by rewrite fmap_app, app_assoc.
  - exists k, w, d. split_and!; [done..| |apply frame_refl]. by rewrite app_nil_r.
Qed.

Lemma rescan_rebuilds recs epoch c sh offsets :
  rebuilds recs sh -> length c = Z.to_nat size -> length sh = Z.to_nat size ->
  (forall o, o ∈ offsets -> o ∈ page_offsets size) ->
  (forall o, o ∈ page_offsets size -> o ∉ offsets -> page_at c o = page_at sh o) ->
  rebuilds (recs ++ (page_record epoch rid c <$> offsets)) c.
Proof.
  intros Hsh Hc Hl Hin Hclean buf Hb. rewrite replay_over_app, Hsh by lia. apply replay_pages.
  - apply Forall_forall. intros o Ho%Hin. apply elem_of_page_offsets in Ho as (Hd & Hlo & Hhi); [|done|lia].
    split_and!; [done|done|lia].
  - lia.
  - intros i Hi. destruct (page_of_byte size (Z.of_nat i) Hpages ltac:(lia)) as (o & Ho & Hio).
    destruct (decide (o ∈ offsets)) as [Hof|Hof]; [left; apply Exists_exists; eauto|right].
    pose proof (proj1 (elem_of_page_offsets size o Hpages ltac:(lia)) Ho) as (_ & Hlo & _).
    rewrite <- (page_at_byte c o i), <- (page_at_byte sh o i) by done. by rewrite Hclean.
Qed.

Lemma scan_Ok r recs k w d s : region_inv r recs k w d -> kr_initialized r = true ->
  scan_device_region env ptr (k, w, d) = (s, Ok tt) ->
  exists recs' k' w' d', s = (k', w', d') /\ region_inv r recs' k' w' d' /\ appended recs recs' /\
    bytes_of d' ptr size = bytes_of d ptr size /\ rebuilds recs' (bytes_of d ptr size).
Proof.
  intros [Hr Hid Hsz Hal Hl He Hlog Hini] Hi Hrun. destruct (Hini Hi) as (res & Hdev & Hres & Hsh).
  unfold scan_device_region in Hrun. pose proof size_pages as Hsp.
  first_step Hrun s0 r0 Hs. apply region_at_Ok in Hs as [-> Hr0]. rewrite Hr in Hr0. injection Hr0 as <-.
  first_step Hrun s1 res1 Hs. unfold resources_of, stm_lift in Hs. rewrite Hdev in Hs. injection Hs as <- <-.
  rewrite Hsz in Hrun. destruct (Z.eqb_spec (size / KIMI_PAGE_SIZE) 0); [unfold KIMI_PAGE_SIZE in *; lia|].
  first_step Hrun s2 ofs Hs. destruct ofs as [offsets refresh].
  apply dirty_offsets_Ok in Hs as (k2 & d2 & -> & St2 & Ha2 & He2 & -> & K2 & C2 & S2 & Hin & Hclean); [|done..].
  pose proof St2 as (Sa2 & Sc2 & Sm2).
  assert (forall epoch, rebuilds (recs ++ (page_record epoch rid (bytes_of d ptr size) <$> offsets)) (bytes_of d ptr size)) as Hreb.
  { intros epoch. eapply rescan_rebuilds; [done|rewrite bytes_length; lia..|done|done]. }
  assert (log_ready path recs k2 w) as Hlog2 by (by eapply log_ready_manager; [..|done]).
  case_bool_decide as Hof.
  { injection Hrun as <-. subst offsets. specialize (Hreb 0). simpl in Hreb. rewrite app_nil_r in Hreb.
    exists recs, k2, w, d2. split; [done|]. split; [split; try done|].
    - congruence.
    - by apply K2.
    - congruence.
    - intros _. exists res. split; [done|]. split; [by eapply keeps_resources|]. by rewrite S2.
    - split_and!; [|done..]. exists []. by rewrite app_nil_r. }
  first_step Hrun s3 epoch Hs. injection Hs as <- <-. rewrite He2 in Hrun.
  first_step Hrun s4 h Hs. apply ensure_worker_Ok in Hs as (k4 & d4 & -> & St4 & Ha4 & He4 & F4).
  pose proof St4 as (Sa4 & Sc4 & Sm4). simpl in Sa4, Sc4, Sm4, Ha4. rewrite Hid in Hrun.
  pose proof (frame_keeps _ _ _ _ F4) as K4. pose proof (keeps_trans _ _ _ K2 K4) as K24.
  assert (bytes_of d4 ptr size = bytes_of d ptr size) as C4.
  { rewrite (frame_bytes_kept d2 d4 ptr size); [done..|by apply K2|lia|lia]. }
  apply (scan_pages_Ok _ _ _ _ r res recs) in Hrun as (k5 & w5 & d5 & -> & St5 & He5 & Hlog5 & F5);
    [|congruence|done|by eapply keeps_resources|by apply K24|by apply Forall_forall| |done].
  2: { eapply log_ready_manager; [..|exact Hlog2]; congruence. }
  rewrite C4 in Hlog5. pose proof St5 as (Sa5 & Sc5 & Sm5). pose proof (keeps_trans _ _ _ K24 (frame_keeps _ _ _ _ F5)) as K5.
  eexists _, k5, w5, d5. split; [done|]. split; [split; try done|].
  - congruence.
  - by apply K5.
  - rewrite He5, He4. apply bump_epoch_range. by rewrite He2.
  - intros _. exists res. split; [done|]. split; [by eapply keeps_resources|].
    rewrite (frame_bytes d4 d5 (dc_staging_device res) KIMI_PAGE_SIZE (dc_shadow res) size);
      [|done|apply K24, Hres|lia|lia|apply Hres].
    rewrite (frame_bytes_kept d2 d4 (dc_shadow res) size); [|done|apply K2, Hres|lia|lia]. rewrite S2. apply Hreb.
  - split; [eexists; split; [done|apply page_records_own]|]. split; [|apply Hreb].
    rewrite (frame_bytes d4 d5 (dc_staging_device res) KIMI_PAGE_SIZE ptr size); [done|done|by apply K24|lia|lia|apply Hres].
Qed.

Lemma checkpoint_Ok r recs k w d s : region_inv r recs k w d -> checkpoint_one env ptr (k, w, d) = (s, Ok tt) ->
  exists r' recs' k' w' d', s = (k', w', d') /\ region_inv r' recs' k' w' d' /\ appended recs recs' /\
    bytes_of d' ptr size = bytes_of d ptr size /\ rebuilds recs' (bytes_of d ptr size).
Proof.
  intros Hinv Hrun. unfold checkpoint_one in Hrun. first_step Hrun s0 k0 Hs. injection Hs as <- <-.
  simpl in Hrun. rewrite (rv_region _ _ _ _ _ Hinv) in Hrun. first_step Hrun s1 u Hs. destruct u.
  destruct (kr_initialized r) eqn:Hi.
  - injection Hs as <-. eapply scan_Ok in Hrun as (recs' & k' & w' & d' & Hr); [|done|done]. eauto 10.
  - eapply initialize_Ok in Hs as (r1 & recs1 & k1 & w1 & d1 & -> & Hinv1 & Hi1 & (new1 & -> & Hn1) & Hc1); [|done].
    eapply scan_Ok in Hrun as (recs2 & k2 & w2 & d2 & -> & Hinv2 & (new2 & -> & Hn2) & Hc2 & Hb2); [|done|done].
    rewrite Hc1 in Hc2, Hb2. do 5 eexists. split; [done|]. split; [done|]. split; [|done].
    exists (new1 ++ new2). split; [by rewrite app_assoc|]. by apply Forall_app.
Qed.

(** ** Restore *)
Lemma bytes_inserts (d d' : D) p n o l : 0 <= o -> o + Z.of_nat (length l) <= n -> live d p n ->
  frame d d' (p + o) (Z.of_nat (length l)) -> bytes_of d' (p + o) (Z.of_nat (length l)) = l ->
  bytes_of d' p n = list_inserts (Z.to_nat o) l (bytes_of d p n).
Proof.
  intros Hlo Hhi Hl (Hfr & _) Hb. apply list_eq. intros i. destruct (decide (Z.of_nat i < n)) as [Hi|Hi].
  2: { rewrite !lookup_ge_None_2; [done|rewrite length_inserts|]; rewrite bytes_length; lia. }
  rewrite bytes_lookup by done. destruct (decide (o <= Z.of_nat i < o + Z.of_nat (length l))) as [Hin|Hout].
  - rewrite lookup_inserts_in by (rewrite ?bytes_length; lia). rewrite <- Hb at 1. rewrite bytes_lookup by lia.
    f_equal. f_equal. lia.
  - rewrite lookup_inserts_out by lia. rewrite bytes_lookup by done. f_equal. apply (Hfr p n); [done|lia|lia].
Qed.

(** The staging buffer of a restore *)
Definition staging_ok (d : D) (h p n : Z) : Prop :=
  live d p n /\ mapped d h p n /\ apart_ranges ptr size p n.

Lemma keeps_staging d d' h p n : keeps d d' -> staging_ok d h p n -> staging_ok d' h p n.
Proof. intros [L M] (? & ? & ?). split_and!; auto. Qed.

Lemma restore_record_Ok k w d s old h p n record : live d ptr size -> staging_ok d h p n ->
  Z.of_nat (length (ar_payload record)) <= n -> 0 <= ar_offset record -> Forall is_byte (ar_payload record) ->
  restore_record ptr rid size old None (Some (h, p)) record (k, w, d) = (s, Ok tt) ->
  exists k' d', s = (k', w, d') /\ keeps d d' /\ km_allocations k' = km_allocations k /\
    bytes_of d' ptr size = list_inserts (Z.to_nat (ar_offset record)) (ar_payload record) (bytes_of d ptr size).
Proof.
  intros Hl (Hlp & Hmp & Hap) Hn Ho Hby Hrun. unfold restore_record in Hrun. pose proof (law_live _ _ _ Hl) as Hp.
  first_step Hrun s0 o Hs. unfold stm_lift, restore_offset in Hs.
  replace (match old with Some _ | _ => _ end) with (@Ok KimiError Z (ar_offset record)) in Hs by (by destruct old).
  injection Hs as <- <-. first_step Hrun s1 e Hs. unfold stm_lift, checked_add64 in Hs.
  destruct (is_u 64 _); [|done]. injection Hs as <- <-. set (len := Z.of_nat (length (ar_payload record))) in *.
  destruct (Z.ltb_spec size (ar_offset record + len)); [done|].
  first_step Hrun s2 st Hs. injection Hs as <- <-.
  first_step Hrun s3 u Hs. destruct u. apply on_device_Ok in Hs as (d3 & Hcp & ->).
  destruct (host_copy_Ok _ _ _ _ _ _ Hcp Hmp Hn Hby) as [F3 B3]. pose proof (frame_keeps _ _ _ _ F3) as K3.
  first_step Hrun s4 handle Hs. apply ensure_worker_Ok in Hs as (k4 & d4 & -> & (Sa & _) & _ & _ & F4).
  pose proof (keeps_trans _ _ _ K3 (frame_keeps _ _ _ _ F4)) as K4.
  first_step Hrun s5 sq Hs. apply on_device_Ok in Hs as (d5 & Hre & ->).
  unfold wrapping_add in Hre. rewrite wrap_small in Hre by lia.
  destruct (gpu_restore _ _ _ _ d4) as [d5' sq'] eqn:Hg. injection Hre as <- <-.
  destruct (Z.ltb_spec sq' 0); [done|]. injection Hrun as <-.
  assert (apart_ranges p len (ptr + ar_offset record) len) as Hap' by (unfold apart_ranges in *; lia).
  destruct (law_restore _ _ _ _ _ _ _ Hg ltac:(done) Hap') as [F5 B5].
  exists k4, (gpu_sync handle d5'). split_and!; [done|by eapply keeps_trans, frame_keeps|done|].
  assert (bytes_of d4 ptr size = bytes_of d ptr size) as <-.
  { rewrite (frame_bytes_kept d3 d4 ptr size); [|done|by apply K3|lia|lia].
    apply (frame_bytes d d3 p len ptr size); [done|done|lia|lia|unfold apart_ranges in *; lia]. }
  apply bytes_inserts; [done|done|by apply K4|done|].
  fold len. rewrite B5, (frame_bytes_kept d3 d4 p n); [done|done|by apply K3|lia|lia].
Qed.

Lemma restore_records_Ok records : forall k w d s old h p n, live d ptr size -> staging_ok d h p n ->
  Forall (fun r => Z.of_nat (length (ar_payload r)) <= n /\ 0 <= ar_offset r /\ Forall is_byte (ar_payload r)) records ->
  stm_iter (restore_record ptr rid size old None (Some (h, p))) records (k, w, d) = (s, Ok tt) ->
  exists k' d', s = (k', w, d') /\ keeps d d' /\ km_allocations k' = km_allocations k /\
    bytes_of d' ptr size =
      foldl (fun buf r => list_inserts (Z.to_nat (ar_offset r)) (ar_payload r) buf) (bytes_of d ptr size) records.
Proof.
  induction records as [|record records IH]; intros k w d s old h p n Hl Hst Hall Hrun.
  - injection Hrun as <-. exists k, d. by split_and!.
  - apply Forall_cons in Hall as [(Hn & Ho & Hby) Hall]. cbn [stm_iter] in Hrun. first_step Hrun s1 u Hs. destruct u.
    apply (restore_record_Ok k w d s1 old h p n) in Hs as (k1 & d1 & -> & K1 & Sa1 & B1); [|done..].
    apply (IH k1 w d1 s old h p n) in Hrun as (k2 & d2 & -> & K2 & Sa2 & B2);
      [|by apply K1|by eapply keeps_staging|done].
    exists k2, d2. split_and!; [done|by eapply keeps_trans|congruence|]. by rewrite B2, B1.
Qed.

Lemma max_payload_ge records r : r ∈ records -> Z.of_nat (length (ar_payload r)) <= max_payload records.
Proof.
  unfold max_payload. intros Hr. assert (forall l a, a <= foldl Z.max a l /\ forall x, x ∈ l -> x <= foldl Z.max a l) as Hmax.
  { induction l as [|y l IH]; intros a; simpl; [split; [done|]; by intros x Hx%elem_of_nil|].
    destruct (IH (Z.max a y)) as [Ha Hx]. split; [lia|]. intros x [->|Hin]%elem_of_cons; [lia|by apply Hx]. }
  apply Hmax, list_elem_of_fmap. eauto.
Qed.

(** A region of a later process: its id and size are those of the region that
    was saved, and it reads the log at [path]. *)
Record restorable (r : KimiTrackedRegion) (k : KimiConcordiaManager) (d : D) : Prop := mkRestorable {
  rs_region : km_allocations k !! ptr = Some r;
  rs_id : kr_region_id r = rid;
  rs_size : kr_tracked_size r = size;
  rs_allocator : kr_allocator r = None;
  rs_live : live d ptr size;
  rs_path : mpi_scoped_aof_path env (kc_restore_aof_path (km_config k)) = path;
}.

Lemma read_log_Ok recs k w (d : D) s records : log_holds path recs w ->
  on_manager (fun s => (s, map_err (ReadRestoreAof path) (read_committed path (snd s)))) (k, w, d) = (s, Ok records) ->
  s = (k, w, d) /\ records = recs.
Proof.
  intros [Ho Hr Hb Hw _] Hrun. apply on_manager_Ok in Hrun as (k' & w' & Hrun & ->). injection Hrun as <- <- Hrun.
  split; [done|]. simpl in Hrun. destruct (files w !! path) as [bytes|] eqn:Hf.
  - rewrite read_committed_healthy in Hrun by (by split). rewrite Hb, read_bytes_encoded in Hrun by done. by injection Hrun.
  - unfold read_committed, open_read in Hrun. rewrite decide_False, Hf in Hrun by done. done.
Qed.

(** The cleanup after the loop keeps the region. *)
Lemma restore_cleanup_Ok k w d s records old h p n : live d ptr size -> staging_ok d h p n ->
  Forall (fun r => Z.of_nat (length (ar_payload r)) <= n /\ 0 <= ar_offset r /\ Forall is_byte (ar_payload r)) records ->
  restore_records ptr rid size old None (Some (h, p)) records (k, w, d) = (s, Ok tt) ->
  exists k' d', s = (k', w, d') /\ km_allocations k' = km_allocations k /\ live d' ptr size /\
    bytes_of d' ptr size =
      foldl (fun buf r => list_inserts (Z.to_nat (ar_offset r)) (ar_payload r) buf) (bytes_of d ptr size) records.
Proof.
  intros Hl Hst Hall Hrun. unfold restore_records in Hrun.
  destruct (stm_iter (restore_record ptr rid size old None (Some (h, p))) records (k, w, d)) as [s1 o1] eqn:Hit.
  destruct ((shutdown_worker ≫= _) s1) as [s2 o2] eqn:Hcl.
  injection Hrun as <- ->. destruct (restore_records_Ok records k w d s1 old h p n Hl Hst Hall Hit)
    as (k1 & d1 & -> & K1 & Sa1 & B1). pose proof (keeps_staging _ _ _ _ _ K1 Hst) as (Hlp & Hmp & Hap).
  destruct (shutdown_worker (k1, w, d1)) as [s3 o3] eqn:Hsd.
  assert (o3 = Ok tt) as -> by (unfold shutdown_worker in Hsd; destruct (km_worker_handle k1); by injection Hsd).
  rewrite (stm_bind_Ok _ _ _ _ _ Hsd) in Hcl. apply shutdown_worker_Ok in Hsd as (k3 & d3 & -> & (Sa3 & _) & _ & _ & F3).
  pose proof (frame_keeps _ _ _ _ F3) as [L3 M3]. unfold on_device, ignore in Hcl. injection Hcl as <- _.
  assert (live d3 ptr size) as Hl3 by (by apply L3, K1).
  assert (bytes_of d3 ptr size = bytes_of d1 ptr size) as C3 by (apply (frame_bytes_kept d1 d3 ptr size); [done|by apply K1|lia|lia]).
  assert (exists d4, fst (raw_host_mapped_free h d3) = d4 /\ live d4 ptr size /\ bytes_of d4 ptr size = bytes_of d1 ptr size)
    as (d4 & -> & Hl4 & C4).
  { unfold raw_host_mapped_free. destruct (h =? 0); [by exists d3|].
    destruct (law_host_free h p n d3 ptr size (M3 _ _ _ Hmp) Hl3 Hap) as [Hl4 C4].
    destruct (cuMemFreeHost h d3) as [d4 rc]. exists d4. split_and!; [done|done|]. simpl in C4. congruence. }
  exists k3, d4. split_and!; [done|congruence|done|]. by rewrite C4, B1.
Qed.

Lemma restore_Ok r recs k w d s n : restorable r k d -> log_holds path recs w ->
  restore_device_region env ptr (k, w, d) = (s, Ok n) ->
  exists k' d', s = (k', w, d') /\ live d' ptr size /\
    bytes_of d' ptr size = replay_over rid recs (bytes_of d ptr size).
Proof.
  intros [Hr Hid Hsz Hal Hl Hpath] Hlog Hrun. unfold restore_device_region in Hrun.
  first_step Hrun s0 k1 Hs. injection Hs as <- <-.
  first_step Hrun s1 r1 Hs. apply region_at_Ok in Hs as [-> Hr1]. simpl in Hr1. rewrite Hr in Hr1. injection Hr1 as <-.
  rewrite Hal in Hrun. first_step Hrun s2 md Hs. injection Hs as <- <-. simpl fst in Hrun. rewrite Hpath, Hid, Hsz in Hrun.
  first_step Hrun s3 records Hs. apply (read_log_Ok recs) in Hs as [-> ->]; [|done].
  set (own := filter _ recs) in *. unfold replay_over. fold own.
  assert (Forall (fun r => Z.of_nat (length (ar_payload r)) <= max_payload own /\ 0 <= ar_offset r /\
    Forall is_byte (ar_payload r)) own) as Hown.
  { apply Forall_forall. intros x Hx. split; [by apply max_payload_ge|]. apply list_elem_of_filter in Hx as [_ Hx]. split.
    - pose proof (lh_wf _ _ _ Hlog) as Hw. rewrite Forall_forall in Hw. apply (wf_offset _ (Hw x Hx)).
    - pose proof (lh_payloads _ _ _ Hlog) as Hw. rewrite Forall_forall in Hw. by apply Hw. }
  first_step Hrun s4 st Hs. first_step Hrun s5 u Hs5. destruct u. destruct (Z.ltb_spec 0 (max_payload own)) as [Hmax|Hmax].
  - first_step Hs s6 hp Hs6. destruct hp as [h p]. apply on_device_Ok in Hs6 as (d6 & Ha & ->). injection Hs as <- <-.
    apply host_alloc_Ok in Ha as (_ & F6 & Lp & Mp & Ap); [|lia]. pose proof (frame_keeps _ _ _ _ F6) as [L6 _].
    apply (restore_cleanup_Ok _ _ _ _ own _ h p (max_payload own)) in Hs5 as (k7 & d7 & -> & _ & Hl7 & B7);
      [|by apply L6|by split_and!; auto|done].
    injection Hrun as <- _. exists (km_set_allocations (alter (set_restored (bool_decide (own <> []))) ptr (km_allocations k7)) k7), d7.
    split_and!; [done|done|]. rewrite B7. f_equal. apply (frame_bytes_kept d d6 ptr size); (done || lia).
  - injection Hs as <- <-. unfold restore_records in Hs5.
    assert (forall l, Forall (fun r => Z.of_nat (length (ar_payload r)) <= 0) l -> forall s s',
      stm_iter (restore_record ptr rid size (saved_allocator rid k) None None) l s = (s', Ok tt) -> s' = s /\ l = []) as Hnone.
    { intros [|x l] _ s6 s7 Hit; [by injection Hit|]. exfalso. cbn [stm_iter] in Hit. first_step Hit s8 u Hs8. destruct u.
      unfold restore_record in Hs8. first_step Hs8 s9 o Hs9. first_step Hs8 s10 e Hs10.
      destruct (size <? e); [done|]. first_step Hs8 s11 q Hs11. done. }
    destruct (stm_iter (restore_record ptr rid size (saved_allocator rid k) None None) own (k, w, d)) as [s6 o6] eqn:Hit. injection Hs5 as -> ->.
    apply Hnone in Hit as [-> Hnil]; [|by eapply Forall_impl; [exact Hown|]; cbv beta; intros x (? & _); lia].
    injection Hrun as <- _. do 2 eexists. split_and!; [done|done|]. by rewrite Hnil.
Qed.
End Region.
End Manager.
