(* ===== verification/KimiRestore.v ===== *)
(** * Checkpoints of device regions can be restored

    [FlatGpu] is a device that keeps the contract of [KimiPages], with the
    worker's page scan as [Device] defines it; on it the round trip of a region
    is run. *)
From stdpp Require Import base numbers list strings gmap sorting.
From Stdlib Require Import ZArith Lia.
From S2P Require Import Prelude HostIO Delta Aof RustStr Runtime Device Replay Kimi KimiDevice KimiSpec KimiPages KimiCheckpoint.

Open Scope Z_scope.

(** ** A device that keeps the contract *)

(** Memory, the next free address, and the allocated ranges.  A host buffer has
    the address of its device range; memory is not given back. *)
Record FlatGpu : Type := mkFlatGpu {
  fg_mem : mem;
  fg_next : Z;
  fg_ranges : list (Z * Z);
}.

Definition fg_set (m : mem) (d : FlatGpu) : FlatGpu := mkFlatGpu m (fg_next d) (fg_ranges d).
Definition fg_store (p : Z) (l : list Z) (d : FlatGpu) : FlatGpu := fg_set (store_bytes p l (fg_mem d)) d.
Definition fg_copy (src dst n : Z) (d : FlatGpu) : FlatGpu := fg_store dst (load_bytes (fg_mem d) src (Z.to_nat n)) d.

Definition fg_alloc (n : Z) (d : FlatGpu) : FlatGpu * (Z * Z) :=
  if (0 <? n) && (0 <? fg_next d) && (fg_next d + n <? 2 ^ 48)
  then (mkFlatGpu (fg_mem d) (fg_next d + n) ((fg_next d, n) :: fg_ranges d), (0, fg_next d))
  else (d, (2, 0)).

Definition fg_scan (region shadow bitmap pages : Z) (d : FlatGpu) : FlatGpu :=
  fg_set (foldl (fun m p => do_dirty_scan (scan_task region shadow bitmap pages) p m) (fg_mem d) (seqZ 0 pages)) d.

#[export] Instance flat_gpu : Gpu FlatGpu := {|
  cuMemAlloc := fg_alloc;
  cuMemFree _ d := (d, 0);
  cuMemcpyDtoH p n d := (0, load_bytes (fg_mem d) p (Z.to_nat n));
  cuMemcpyHtoD p l d := (fg_store p l d, 0);
  cuMemsetD8 p v n d := (fg_store p (repeat v (Z.to_nat n)) d, 0);
  cuMemAllocHost := fg_alloc;
  cuMemHostGetDevicePointer h _ := (0, h);
  cuMemFreeHost _ d := (d, 0);
  host_read h n d := load_bytes (fg_mem d) h (Z.to_nat n);
  host_write h l d := fg_store h l d;
  cuStreamSynchronize _ d := (d, 0);
  gpu_init d := (d, 1);
  gpu_scan _ region shadow bitmap pages d := (fg_scan region shadow bitmap pages d, 1);
  gpu_stage _ src dst n d := (fg_copy src dst n d, 1);
  gpu_restore _ src dst n d := (fg_copy src dst n d, 1);
  gpu_sync _ d := d;
  gpu_shutdown _ d := d;
|}.

Definition fg_live (d : FlatGpu) (p n : Z) : Prop := (p, n) ∈ fg_ranges d /\ 0 <= p /\ p + n <= fg_next d < 2 ^ 64.

#[export] Instance flat_view : GpuView FlatGpu := {|
  dmem := fg_mem;
  live := fg_live;
  mapped d h p n := h = p /\ fg_live d p n;
|}.

Lemma flat_store p l d : Forall is_byte l ->
  frame d (fg_store p l d) p (Z.of_nat (length l)) /\ bytes_of (fg_store p l d) p (Z.of_nat (length l)) = l.
Proof.
  intros Hb. split; [split_and!; try done|].
  - intros q m x _ _ Hx. cbn. by rewrite load8_store_bytes, decide_False.
  - apply list_eq_same_length with (length l); [done|rewrite bytes_length; lia|]. intros i x y Hi Hx Hy.
    rewrite bytes_lookup in Hx by lia. cbn in Hx. rewrite load8_store_bytes, decide_True in Hx by (done || lia).
    replace (Z.to_nat (p + Z.of_nat i - p)) with i in Hx by lia. rewrite Hy in Hx. by injection Hx.
Qed.

Lemma flat_alloc n d d' p : fg_alloc n d = (d', (0, p)) ->
  frame d d' 0 0 /\ fg_live d' p n /\ forall q m, fg_live d q m -> apart_ranges q m p n.
Proof.
  unfold fg_alloc. destruct (_ && _) eqn:Hc; [|done]. intros [= <- <-].
  apply andb_true_iff in Hc as [[Hn%Z.ltb_lt Hp%Z.ltb_lt]%andb_true_iff Hm%Z.ltb_lt]. split_and!.
  - split_and!; [done|..]; cbn; unfold fg_live; cbn; intros; rewrite elem_of_cons; intuition lia.
  - unfold fg_live. cbn. rewrite elem_of_cons. split_and!; [by left|lia..].
  - intros q m (_ & _ & Hq). unfold apart_ranges. lia.
Qed.

Lemma flat_copy src dst n d : frame d (fg_copy src dst n d) dst n /\ bytes_of (fg_copy src dst n d) dst n = bytes_of d src n.
Proof.
  unfold fg_copy. destruct (flat_store dst (load_bytes (fg_mem d) src (Z.to_nat n)) d) as [Hf Hb]; [apply load_bytes_bytes|].
  change (load_bytes (fg_mem d) src (Z.to_nat n)) with (bytes_of d src n) in *.
  destruct (decide (0 <= n)); [by rewrite bytes_length, Z2Nat.id in Hf, Hb|].
  unfold bytes_of. replace (Z.to_nat n) with 0%nat by lia. done.
Qed.

#[export] Instance flat_laws : GpuLaws FlatGpu.
Proof.
  split.
  - intros d p n (_ & Hp & Hn). lia.
  - apply flat_alloc.
  - by intros p n d l [= <-].
  - intros p l d d' [= <-] Hl. by apply flat_store.
  - intros p v n d d' [= <-] Hv. destruct (flat_store p (repeat v (Z.to_nat n)) d) as [Hf Hb].
    { apply Forall_forall. intros x Hx%list_elem_of_In%repeat_spec. by subst. }
    rewrite repeat_length in Hf, Hb. unfold bytes_of in *. rewrite Nat2Z.id in Hb.
    split; [|done]. destruct (decide (0 <= n)); [by rewrite Z2Nat.id in Hf|].
    by replace (Z.to_nat n) with 0%nat by lia.
  - intros n d d' h p Ha [= <-]. apply flat_alloc in Ha as (Hf & Hl & Hap). split_and!; done.
  - done.
  - by intros h p n k d [-> _] _.
  - intros h p n l d [-> _] _ Hl. by apply flat_store.
  - intros d d' h [= <- <-]. apply frame_refl.
  - intros h d. apply frame_refl.
  - intros h region shadow bitmap pages d d1 s [= <- <-] _ Hlay. exists (seqZ 0 pages).
    eexists. split; [done|]. split; [|by split_and!].
    apply (scanned_all _ _ Hlay [] (seqZ 0 pages)); [by apply scanned_start|apply NoDup_seqZ|].
    apply Forall_seqZ. simpl. lia.
  - intros h src dst n d d1 s [= <- <-] _ _. apply flat_copy.
  - intros h src dst n d d1 s [= <- <-] _ _. apply flat_copy.
Qed.

(** ** The round trip *)

(** [C18] A checkpoint of a device region can be restored by a later process: when
    the base snapshot, the worker's scan and the writes to the log succeed, the
    region keeps its contents and the invariant of the next checkpoint, and a
    restore that succeeds, of the region with the same id and size of any other
    device, leaves there, byte for byte, what the region held at the checkpoint. *)
Theorem checkpoint_then_restore `{GpuLaws D} `{ManifestJson} env env' path size rid ptr r recs k w d k1 w1 d1
    ptr2 r2 k2 d2 k3 w3 d3 n :
  (KIMI_PAGE_SIZE | size) -> 0 < size -> 0 <= rid <= u64_max ->
  region_inv env path ptr size rid r recs k w d ->
  checkpoint_one env ptr (k, w, d) = ((k1, w1, d1), Ok tt) ->
  restorable env' path ptr2 size rid r2 k2 d2 ->
  restore_device_region env' ptr2 (k2, w1, d2) = ((k3, w3, d3), Ok n) ->
  (exists r1 recs1, region_inv env path ptr size rid r1 recs1 k1 w1 d1) /\
  bytes_of d1 ptr size = bytes_of d ptr size /\
  bytes_of d3 ptr2 size = bytes_of d ptr size.
Proof.
  intros Hp Hs Hr Hinv Hchk Hre Hrun.
  eapply checkpoint_Ok in Hchk as (r1 & recs1 & k1' & w1' & d1' & [= -> -> ->] & Hinv1 & _ & Hc & Hb); [|done..].
  split; [by exists r1, recs1|]. split; [done|].
  eapply (restore_Ok env' path ptr2 size rid) in Hrun as (k3' & d3' & [= -> -> ->] & _ & ->);
    [|done..|by eapply log_ready_holds, rv_log].
  apply Hb. unfold bytes_of, load_bytes. by rewrite !length_fmap, !length_seqZ.
Qed.

(** Two processes: the first has a page at 8192, the second a page at 65536. *)
Definition restore_env : environment := fun _ => None.
Definition empty_world : world := mkWorld ∅ ∅ [] None.

Definition sample_manager (p : Z) : KimiConcordiaManager :=
  fst (snd (@note_allocation_inner sample_manifest_json p 4096
    (@manager_new sample_manifest_json sample_config empty_world, empty_world))).

Definition first_gpu : FlatGpu := mkFlatGpu {[ 8200 := 77; 9000 := 5 ]} 12288 [(8192, 4096)].
Definition second_gpu : FlatGpu := mkFlatGpu ∅ 69632 [(65536, 4096)].
Definition sample_path : string := mpi_scoped_aof_path restore_env (kc_aof_path sample_config).

Definition first_run :=
  checkpoint_one (H := flat_gpu) (H0 := sample_manifest_json) restore_env 8192 (sample_manager 8192, empty_world, first_gpu).
Definition restored_after (r : kdev (D := FlatGpu) * outcome KimiError unit) :=
  restore_device_region (H := flat_gpu) (H0 := sample_manifest_json) restore_env 65536
    (sample_manager 65536, snd (fst (fst r)), second_gpu).

Definition sample_region (p : Z) : KimiTrackedRegion :=
  mkKimiRegion p 4096 4096 1 1 KimiOpaqueMutable (stable_key_text KimiOpaqueMutable 1 4096) None false false None None.

Lemma sample_live p next m : 0 <= p -> p + 4096 <= next < 2 ^ 64 -> live (mkFlatGpu m next [(p, 4096)]) p 4096.
Proof. intros Hp Hn. split; [left|by split]. Qed.

Lemma first_region : region_inv restore_env sample_path 8192 4096 1 (sample_region 8192) [] (sample_manager 8192)
  empty_world first_gpu.
Proof.
  split; [vm_compute; reflexivity|reflexivity..|by apply sample_live|by vm_compute| |discriminate].
  split; [apply not_elem_of_empty|intros dir _; apply not_elem_of_empty|reflexivity..|constructor|constructor|].
  vm_compute. reflexivity.
Qed.

Lemma second_region : restorable restore_env sample_path 65536 4096 1 (sample_region 65536) (sample_manager 65536) second_gpu.
Proof. split; [vm_compute; reflexivity|reflexivity..|by apply sample_live|vm_compute; reflexivity]. Qed.

Lemma checkpoint_then_restore_witness :
  bytes_of (snd (fst (restored_after first_run))) 65536 4096 = bytes_of first_gpu 8192 4096 /\
  bytes_of first_gpu 8192 4096 !! 8%nat = Some 77.
Proof.
  split; [|vm_compute; reflexivity].
  assert (let r := first_run in (snd r, snd (restored_after r)) = (Ok tt, Ok 1)) as Hruns by (vm_compute; reflexivity).
  cbv zeta in Hruns. apply pair_eq in Hruns as [Ho1 Ho3]. unfold restored_after in *.
  destruct first_run as [[[k1 w1] d1] o1] eqn:Hfirst. cbn [fst snd] in *. subst o1.
  destruct (restore_device_region _ _ _) as [[[k3 w3] d3] o3] eqn:Hsecond. cbn [fst snd] in *. subst o3.
  apply (checkpoint_then_restore (H2 := sample_manifest_json) restore_env restore_env sample_path 4096 1 8192
    (sample_region 8192) [] (sample_manager 8192) empty_world first_gpu k1 w1 d1 65536 (sample_region 65536)
    (sample_manager 65536) second_gpu k3 w3 d3 1);
    [exists 1; reflexivity|lia|split; [lia|vm_compute; discriminate]|exact first_region|exact Hfirst|exact second_region|exact Hsecond].
Defined.
