(* ===== verification/Ptx.v ===== *)
(** * The intermediate form of the PTX compiler ([ptx/src/pass/mod.rs])

    Identifiers, the tables that hand them out, and the statements, functions
    and directives the passes work on.  An instruction is either one of the four
    the passes look into ([bra], [call], [ret], [mov]) or an opaque operation with
    its properties [D] and its arguments: the parser's own description of an
    instruction ([ptx_parser/src/ast.rs]). *)
From stdpp Require Import base numbers list strings gmap.
From Stdlib Require Import ZArith Lia.
From S2P Require Import Prelude.

Local Open Scope string_scope.
Local Open Scope Z_scope.

(** ** Types and operands of the parser *)
Inductive ScalarType : Type :=
| U8 | U16 | U16x2 | U32 | U64 | S8 | S16 | S16x2 | S32 | S64 | B8 | B16 | B32 | B64 | B128
| F16 | F16x2 | F32 | F64 | BF16 | BF16x2 | E4m3x2 | E5m2x2 | PredType.

#[global] Instance ScalarType_eq_dec : EqDecision ScalarType.
Proof. solve_decision. Defined.

Inductive StateSpace : Type :=
| RegSpace | Generic | Const | Global | Local | Shared | SharedCta | SharedCluster | Param | ParamEntry | ParamFunc.

#[global] Instance StateSpace_eq_dec : EqDecision StateSpace.
Proof. solve_decision. Defined.

Inductive PtxType : Type :=
| Scalar (t : ScalarType)
| Vector (n : Z) (t : ScalarType)
| Array (n : option Z) (t : ScalarType) (dims : list Z)
| Pointer (t : ScalarType) (space : StateSpace).

#[global] Instance PtxType_eq_dec : EqDecision PtxType.
Proof. solve_decision. Defined.

(** Floating-point immediates are kept as their bits. *)
Inductive ImmediateValue : Type := ImmU64 (n : Z) | ImmS64 (n : Z) | ImmF32 (bits : Z) | ImmF64 (bits : Z).

Inductive RegOrImmediate (Id : Type) : Type := RIReg (id : Id) | RIImm (imm : ImmediateValue) | Discard.
Arguments RIReg {Id} id.
Arguments RIImm {Id} imm.
Arguments Discard {Id}.

Inductive ParsedOperand (Id : Type) : Type :=
| OpReg (id : Id)
| OpRegOffset (id : Id) (offset : Z)
| OpImm (imm : ImmediateValue)
| OpVecMember (id : Id) (index : Z)
| OpVecPack (elements : list (RegOrImmediate Id)).
Arguments OpReg {Id} id.
Arguments OpRegOffset {Id} id offset.
Arguments OpImm {Id} imm.
Arguments OpVecMember {Id} id index.
Arguments OpVecPack {Id} elements.

Record VariableInfo (Id : Type) : Type := mkInfo {
  v_align : option Z;
  v_type : PtxType;
  v_space : StateSpace;
  v_init : list (RegOrImmediate Id);
}.
Arguments mkInfo {Id} _ _ _ _.
Arguments v_align {Id} _.
Arguments v_type {Id} _.
Arguments v_space {Id} _.
Arguments v_init {Id} _.

Record PtxVariable (Id : Type) : Type := mkVar { v_info : VariableInfo Id; v_name : Id }.
Arguments mkVar {Id} _ _.
Arguments v_info {Id} _.
Arguments v_name {Id} _.

Inductive MultiVariable (Id : Type) : Type :=
| Parameterized (info : VariableInfo Id) (name : Id) (count : nat)
| Names (info : VariableInfo Id) (names : list Id).
Arguments Parameterized {Id} info name count.
Arguments Names {Id} info names.

Record PredAt (Id : Type) : Type := mkPredAt { p_not : bool; p_label : Id }.
Arguments mkPredAt {Id} _ _.
Arguments p_not {Id} _.
Arguments p_label {Id} _.

Record CallDetails : Type := mkCallDetails {
  call_uniform : bool;
  ret_types : list (PtxType * StateSpace);
  arg_types : list (PtxType * StateSpace);
}.

Record CallArgs (Id O : Type) : Type := mkCallArgs { call_returns : list Id; call_func : Id; call_inputs : list O }.
Arguments mkCallArgs {Id O} _ _ _.
Arguments call_returns {Id O} _.
Arguments call_func {Id O} _.
Arguments call_inputs {Id O} _.

Inductive RoundingMode : Type := NearestEven | RoundZero | NegativeInf | PositiveInf.
Inductive TuningDirective : Type := MaxNReg (n : Z) | MaxNtid (x y z : Z) | ReqNtid (x y z : Z) | MinNCtaPerSm (n : Z).

(** The bits of [LinkingDirective]. *)
Abbreviation LinkingDirective := Z (only parsing).
Definition LINK_NONE : LinkingDirective := 0.
Definition LINK_EXTERN : LinkingDirective := 1.

(** An instruction with identifiers [Id] and operands [O]; [Other] carries each
    argument with whether it is written. *)
Inductive Instruction (D Id O : Type) : Type :=
| Bra (src : Id)
| Call (data : CallDetails) (arguments : CallArgs Id O)
| Ret (uniform : bool)
| Mov (typ : PtxType) (dst src : O)
| Other (details : D) (arguments : list (bool * O)).
Arguments Bra {D Id O} src.
Arguments Call {D Id O} data arguments.
Arguments Ret {D Id O} uniform.
Arguments Mov {D Id O} typ dst src.
Arguments Other {D Id O} details arguments.

(** ** Identifiers *)
Definition SpirvWord : Type := Z.

(** With debug assertions off, [error_unreachable()] is [Unreachable] and
    [error_todo()] a [Todo] with an empty message. *)
Inductive TranslateError : Type :=
| UnknownSymbol (symbol : string)
| UntypedSymbol
| MismatchedType
| Unreachable
| Todo (msg : string)
| UnexpectedError (msg : string).

Record IdentEntry : Type := mkEntry { ie_name : option string; ie_type_space : option (PtxType * StateSpace) }.

Record GlobalStringIdentResolver2 : Type := mkResolver {
  current_id : SpirvWord;
  ident_map : gmap SpirvWord IdentEntry;
}.

Definition resolver_new (first : SpirvWord) : GlobalStringIdentResolver2 := mkResolver first ∅.

Abbreviation naming := (stm GlobalStringIdentResolver2 TranslateError).

(** The next identifier; the 32-bit counter wraps. *)
Definition bump (id : SpirvWord) : SpirvWord := wrapping_add 32 id 1.

Definition register (entry : IdentEntry) : naming SpirvWord := fun r =>
  (mkResolver (bump (current_id r)) (<[current_id r := entry]> (ident_map r)), Ok (current_id r)).

Definition register_named (name : string) (type_space : option (PtxType * StateSpace)) : naming SpirvWord :=
  register (mkEntry (Some name) type_space).

Definition register_unnamed (type_space : option (PtxType * StateSpace)) : naming SpirvWord :=
  register (mkEntry None type_space).

Definition get_typed (r : GlobalStringIdentResolver2) (id : SpirvWord)
    : outcome TranslateError (PtxType * StateSpace) :=
  match ident_map r !! id with
  | Some (mkEntry _ (Some ts)) => Ok ts
  | _ => Err (UnknownSymbol "")
  end.

(** ** Statements *)
Record BrachCondition : Type := mkBranch { predicate : SpirvWord; if_true : SpirvWord; if_false : SpirvWord }.

Inductive ConversionKind : Type := ConvDefault | SignExtend | BitToPtr | PtrToPtr | AddressOf.

Record ImplicitConversion : Type := mkConversion {
  conv_src : SpirvWord;
  conv_dst : SpirvWord;
  from_type : PtxType;
  to_type : PtxType;
  from_space : StateSpace;
  to_space : StateSpace;
  conv_kind : ConversionKind;
}.

Record ConstantDefinition : Type := mkConstant { const_dst : SpirvWord; const_typ : ScalarType; const_value : ImmediateValue }.

Record PtrAccess (O : Type) : Type := mkPtrAccess {
  underlying_type : PtxType;
  pa_space : StateSpace;
  pa_dst : SpirvWord;
  ptr_src : SpirvWord;
  offset_src : O;
}.

Record RepackVectorDetails : Type := mkRepack {
  is_extract : bool;
  rv_typ : ScalarType;
  packed_reg : SpirvWord;
  unpacked : list SpirvWord;
  relaxed_type_check : bool;
}.

Record FunctionPointerDetails : Type := mkFunctionPointer { fp_dst : SpirvWord; fp_src : SpirvWord }.

Record VectorRead : Type := mkVectorRead {
  vr_scalar_type : ScalarType;
  vr_width : Z;
  vr_scalar_dst : SpirvWord;
  vr_vector_src : SpirvWord;
  vr_member : Z;
}.

Record VectorWrite : Type := mkVectorWrite {
  vw_scalar_type : ScalarType;
  vw_width : Z;
  vw_vector_dst : SpirvWord;
  vw_vector_src : SpirvWord;
  vw_scalar_src : SpirvWord;
  vw_member : Z;
}.

Inductive ModeRegister : Type := Denormal (f32 f16f64 : bool) | Rounding (f32 f16f64 : RoundingMode).

Inductive Statement (I O : Type) : Type :=
| Label (l : SpirvWord)
| VariableStmt (var : PtxVariable SpirvWord)
| InstructionStmt (i : I)
| Conditional (branch : BrachCondition)
| Conversion (conv : ImplicitConversion)
| Constant (c : ConstantDefinition)
| RetValue (uniform : bool) (values : list (SpirvWord * PtxType))
| PtrAccessStmt (access : PtrAccess O)
| RepackVector (details : RepackVectorDetails)
| FunctionPointer (details : FunctionPointerDetails)
| VectorReadStmt (read : VectorRead)
| VectorWriteStmt (write : VectorWrite)
| SetMode (mode : ModeRegister)
| FpModeRequired (ftz_f32 : option bool) (rnd_f32 : option RoundingMode)
| FpSaturate (dst src : SpirvWord) (typ : ScalarType).
Arguments Label {I O} l.
Arguments VariableStmt {I O} var.
Arguments InstructionStmt {I O} i.
Arguments Conditional {I O} branch.
Arguments Conversion {I O} conv.
Arguments Constant {I O} c.
Arguments RetValue {I O} uniform values.
Arguments PtrAccessStmt {I O} access.
Arguments RepackVector {I O} details.
Arguments FunctionPointer {I O} details.
Arguments VectorReadStmt {I O} read.
Arguments VectorWriteStmt {I O} write.
Arguments SetMode {I O} mode.
Arguments FpModeRequired {I O} ftz_f32 rnd_f32.
Arguments FpSaturate {I O} dst src typ.

Record Function2 (I O : Type) : Type := mkFunction2 {
  f_return_arguments : list (PtxVariable SpirvWord);
  f_name : SpirvWord;
  f_input_arguments : list (PtxVariable SpirvWord);
  f_body : option (list (Statement I O));
  f_is_kernel : bool;
  f_import_as : option string;
  f_tuning : list TuningDirective;
  f_linkage : LinkingDirective;
  f_flush_to_zero_f32 : bool;
  f_flush_to_zero_f16f64 : bool;
  f_rounding_mode_f32 : RoundingMode;
  f_rounding_mode_f16f64 : RoundingMode;
}.
Arguments mkFunction2 {I O} _ _ _ _ _ _ _ _ _ _ _ _.
Arguments f_return_arguments {I O} _.
Arguments f_name {I O} _.
Arguments f_input_arguments {I O} _.
Arguments f_body {I O} _.
Arguments f_is_kernel {I O} _.
Arguments f_import_as {I O} _.
Arguments f_tuning {I O} _.
Arguments f_linkage {I O} _.
Arguments f_flush_to_zero_f32 {I O} _.
Arguments f_flush_to_zero_f16f64 {I O} _.
Arguments f_rounding_mode_f32 {I O} _.
Arguments f_rounding_mode_f16f64 {I O} _.

Inductive Directive2 (I O : Type) : Type :=
| DVariable (linking : LinkingDirective) (var : PtxVariable SpirvWord)
| DMethod (f : Function2 I O).
Arguments DVariable {I O} linking var.
Arguments DMethod {I O} f.

(** A function with another body, [Function2 { body, ..method }]. *)
Definition set_body {I J O P} (body : option (list (Statement J P))) (f : Function2 I O) : Function2 J P :=
  mkFunction2 (f_return_arguments f) (f_name f) (f_input_arguments f) body (f_is_kernel f) (f_import_as f)
    (f_tuning f) (f_linkage f) (f_flush_to_zero_f32 f) (f_flush_to_zero_f16f64 f) (f_rounding_mode_f32 f)
    (f_rounding_mode_f16f64 f).

(** Statements before and after the predicates are turned into branches, and
    after operands are expanded. *)
Abbreviation NormalizedStatement D :=
  (Statement (option (PredAt SpirvWord) * Instruction D SpirvWord (ParsedOperand SpirvWord)) (ParsedOperand SpirvWord)).
Abbreviation UnconditionalStatement D :=
  (Statement (Instruction D SpirvWord (ParsedOperand SpirvWord)) (ParsedOperand SpirvWord)).
Abbreviation ExpandedStatement D := (Statement (Instruction D SpirvWord SpirvWord) SpirvWord).

Lemma register_ok entry r :
  current_id r < 2 ^ 32 - 1 -> 0 <= current_id r ->
  exists r', register entry r = (r', Ok (current_id r)) /\ current_id r' = current_id r + 1.
Proof.
  intros ??. eexists. split; [reflexivity|]. simpl. unfold bump, wrapping_add. apply wrap_small. lia.
Qed.
