(* ===== verification/PtxSem.v ===== *)
(** * Control flow of the intermediate form

    A machine gives the value of predicates and the effect of everything that is
    not control flow; [exec] runs a function body on it, labels, branches, calls
    and returns included.  [Simulation] is the diagram the passes on control flow
    are proved with: one step of the source for one or more of the target. *)
From stdpp Require Import base numbers list gmap.
From Stdlib Require Import ZArith Lia.
From S2P Require Import Prelude Ptx.

Local Open Scope Z_scope.

(** What a statement does next. *)
Inductive action (St O : Type) : Type :=
| Next (s : St)
| Trap
| Goto (l : SpirvWord) (s : St)
| Invoke (c : CallArgs SpirvWord O) (s : St)
| Leave (s : St).
Arguments Next {St O} s.
Arguments Trap {St O}.
Arguments Goto {St O} l s.
Arguments Invoke {St O} c s.
Arguments Leave {St O} s.

Inductive result (St : Type) : Type :=
| Returned (s : St)
| OffEnd (s : St)
| NoLabel (l : SpirvWord)
| Trapped.
Arguments Returned {St} s.
Arguments OffEnd {St} s.
Arguments NoLabel {St} l.
Arguments Trapped {St}.

(** Machine states, predicates and effects.  [effect] is that of a statement
    other than an instruction; no effect ([None]) stops the machine. *)
Class Machine (D O St : Type) := {
  holds : St -> SpirvWord -> bool;
  effect : Statement unit O -> St -> option St;
  effect_inst : Instruction D SpirvWord O -> St -> option St;
  enter : CallArgs SpirvWord O -> St -> St;
  leave : CallArgs SpirvWord O -> St -> St -> St;
  external : CallArgs SpirvWord O -> St -> option St;
}.

Definition continue {St O} (s : option St) : action St O := match s with Some s => Next s | None => Trap end.

(** A statement without its instruction. *)
Definition hollow {I O} (st : Statement I O) : Statement unit O :=
  match st with
  | Label l => Label l
  | VariableStmt v => VariableStmt v
  | InstructionStmt _ => InstructionStmt tt
  | Conditional b => Conditional b
  | Conversion c => Conversion c
  | Constant c => Constant c
  | RetValue u v => RetValue u v
  | PtrAccessStmt a => PtrAccessStmt a
  | RepackVector d => RepackVector d
  | FunctionPointer d => FunctionPointer d
  | VectorReadStmt r => VectorReadStmt r
  | VectorWriteStmt w => VectorWriteStmt w
  | SetMode m => SetMode m
  | FpModeRequired a b => FpModeRequired a b
  | FpSaturate d s t => FpSaturate d s t
  end.

Section Actions.
Context {D O St : Type} {M : Machine D O St}.

Definition inst_action (i : Instruction D SpirvWord O) (s : St) : action St O :=
  match i with
  | Bra l => Goto l s
  | Call _ c => Invoke c s
  | Ret _ => Leave s
  | _ => continue (effect_inst i s)
  end.

(** A predicated instruction is executed when its predicate, or the negation,
    holds. *)
Definition pred_action (pi : option (PredAt SpirvWord) * Instruction D SpirvWord O) (s : St) : action St O :=
  match pi with
  | (None, i) => inst_action i s
  | (Some p, i) => if xorb (holds s (p_label p)) (p_not p) then inst_action i s else Next s
  end.

Definition stmt_action {I} (act : I -> St -> action St O) (st : Statement I O) (s : St) : action St O :=
  match st with
  | Label _ => Next s
  | InstructionStmt i => act i s
  | Conditional b => Goto (if holds s (predicate b) then if_true b else if_false b) s
  | RetValue _ _ => match effect (hollow st) s with Some s => Leave s | None => Trap end
  | _ => continue (effect (hollow st) s)
  end.
End Actions.

Definition label_of {I O} (st : Statement I O) : option SpirvWord :=
  match st with Label l => Some l | _ => None end.

Definition labels {I O} (body : list (Statement I O)) : list SpirvWord := omap label_of body.

(** The body from its label [l] on. *)
Fixpoint suffix_at {I O} (l : SpirvWord) (body : list (Statement I O)) : option (list (Statement I O)) :=
  match body with
  | [] => None
  | st :: rest => if decide (label_of st = Some l) then Some body else suffix_at l rest
  end.

Section Exec.
Context {D O St I : Type} {M : Machine D O St}.
Variable act : I -> St -> action St O.
Variable funs : SpirvWord -> option (list (Statement I O)).

(** A call: the body of a function of the module, or an external one. *)
Definition invoke (run : list (Statement I O) -> St -> option (result St)) (c : CallArgs SpirvWord O) (s : St)
    (k : St -> option (result St)) : option (result St) :=
  match funs (call_func c) with
  | Some callee =>
      match run callee (enter c s) with
      | Some (Returned s') => k (leave c s s')
      | other => other
      end
  | None => match external c s with Some s' => k s' | None => Some Trapped end
  end.

Fixpoint exec (n : nat) (body rest : list (Statement I O)) (s : St) : option (result St) :=
  match n with
  | 0%nat => None
  | S n =>
      match rest with
      | [] => Some (OffEnd s)
      | st :: rest =>
          match stmt_action act st s with
          | Next s => exec n body rest s
          | Trap => Some Trapped
          | Leave s => Some (Returned s)
          | Goto l s => match suffix_at l body with Some r => exec n body r s | None => Some (NoLabel l) end
          | Invoke c s => invoke (fun callee => exec n callee callee) c s (exec n body rest)
          end
      end
  end.

(** What an action leads to, with [n] steps left. *)
Definition perform (n : nat) (body rest : list (Statement I O)) (a : action St O) : option (result St) :=
  match a with
  | Next s => exec n body rest s
  | Trap => Some Trapped
  | Leave s => Some (Returned s)
  | Goto l s => match suffix_at l body with Some r => exec n body r s | None => Some (NoLabel l) end
  | Invoke c s => invoke (fun callee => exec n callee callee) c s (exec n body rest)
  end.

Lemma exec_S n body st rest s : exec (S n) body (st :: rest) s = perform n body rest (stmt_action act st s).
Proof. done. Qed.

(** A run of a whole body to its result. *)
Definition evaluates (body : list (Statement I O)) (s : St) (res : result St) : Prop :=
  exists n, exec n body body s = Some res.

Lemma exec_mono n m body rest s res : (n <= m)%nat -> exec n body rest s = Some res -> exec m body rest s = Some res.
Proof.
  revert m body rest s res. induction n as [|n IH]; [done|]. intros [|m] body rest s res Hle; [lia|]. simpl.
  assert (Hn : (n <= m)%nat) by lia.
  destruct rest as [|st rest]; [done|]. destruct (stmt_action act st s) as [s'| |l s'|c s'|s']; try done.
  - by apply IH.
  - destruct (suffix_at l body); [by apply IH|done].
  - unfold invoke. destruct (funs _) as [callee|]; [|destruct (external c s'); [by apply IH|done]].
    destruct (exec n callee callee _) as [[]|] eqn:He; intros Hr; simplify_eq.
    1: rewrite (IH _ _ _ _ _ Hn He); by apply IH.
    all: by rewrite (IH _ _ _ _ _ Hn He).
Qed.
End Exec.

(** ** The simulation diagram *)
Section Simulation.
Context {D O St I1 I2 : Type} {M : Machine D O St}.
Variables (act1 : I1 -> St -> action St O) (act2 : I2 -> St -> action St O).
Variable funs1 : SpirvWord -> option (list (Statement I1 O)).
Variable funs2 : SpirvWord -> option (list (Statement I2 O)).

Notation exec1 := (exec act1 funs1).
Notation exec2 := (exec act2 funs2).

(** [Rc] relates two bodies and positions in them. *)
Variable Rc : list (Statement I1 O) -> list (Statement I2 O) -> list (Statement I1 O) -> list (Statement I2 O) -> Prop.

(** A target position from which only silent steps separate the related one. *)
Definition near b1 b2 r1 r2 : Prop :=
  exists k c2, (forall s n, exec2 (k + n) b2 r2 s = exec2 n b2 c2 s) /\ Rc b1 b2 r1 c2.

Definition calls_match (f : SpirvWord) : Prop :=
  match funs1 f, funs2 f with
  | Some b1, Some b2 => near b1 b2 b1 b2
  | None, None => True
  | _, _ => False
  end.

Inductive matched (b1 : list (Statement I1 O)) (b2 : list (Statement I2 O))
    (r1 : list (Statement I1 O)) (r2 : list (Statement I2 O)) (s : St) : Prop :=
| m_end k res :
    (forall n, exec1 (S n) b1 r1 s = Some res) -> (forall n, exec2 (S k + n) b2 r2 s = Some res) ->
    matched b1 b2 r1 r2 s
| m_step k r1' r2' s' :
    (forall n, exec1 (S n) b1 r1 s = exec1 n b1 r1' s') -> (forall n, exec2 (S k + n) b2 r2 s = exec2 n b2 r2' s') ->
    near b1 b2 r1' r2' -> matched b1 b2 r1 r2 s
| m_call k c r1' r2' s' :
    (forall n, exec1 (S n) b1 r1 s = invoke funs1 (fun b => exec1 n b b) c s' (exec1 n b1 r1')) ->
    (forall n, exec2 (S k + n) b2 r2 s = invoke funs2 (fun b => exec2 n b b) c s' (exec2 n b2 r2')) ->
    calls_match (call_func c) -> near b1 b2 r1' r2' -> matched b1 b2 r1 r2 s.

(** Related steps: both sides take the same action, the target after [k] silent
    steps. *)
Definition action_ok b1 b2 rest1 rest2 (a : action St O) : Prop :=
  match a with
  | Next _ => near b1 b2 rest1 rest2
  | Trap | Leave _ => True
  | Goto l _ =>
      match suffix_at l b1, suffix_at l b2 with
      | Some p, Some q => near b1 b2 p q
      | None, None => True
      | _, _ => False
      end
  | Invoke c _ => calls_match (call_func c) /\ near b1 b2 rest1 rest2
  end.

Lemma matched_perform b1 b2 r1 r2 s k a rest1 rest2 :
  (forall n, exec1 (S n) b1 r1 s = perform act1 funs1 n b1 rest1 a) ->
  (forall n, exec2 (S k + n) b2 r2 s = perform act2 funs2 n b2 rest2 a) ->
  action_ok b1 b2 rest1 rest2 a -> matched b1 b2 r1 r2 s.
Proof.
  intros H1 H2 Ha. destruct a as [s'| |l s'|c s'|s']; cbn [perform action_ok] in *.
  - by eapply m_step.
  - by eapply m_end.
  - destruct (suffix_at l b1) as [p|], (suffix_at l b2) as [q|]; try done; [by eapply m_step|by eapply m_end].
  - destruct Ha. by eapply m_call.
  - by eapply m_end.
Qed.

Lemma near_here b1 b2 r1 r2 : Rc b1 b2 r1 r2 -> near b1 b2 r1 r2.
Proof. intros H. by exists 0%nat, r2. Qed.

(** One silent step before a near position. *)
Lemma near_silent b1 b2 r1 st r2 r2' :
  (forall s n, exec2 (S n) b2 (st :: r2) s = exec2 n b2 r2' s) -> near b1 b2 r1 r2' -> near b1 b2 r1 (st :: r2).
Proof. intros Hs (k & c2 & Hk & HR). exists (S k), c2. split; [|done]. intros s n. by rewrite Nat.add_succ_l, Hs. Qed.

Lemma near_label b1 b2 r1 l r2 : near b1 b2 r1 r2 -> near b1 b2 r1 (Label l :: r2).
Proof. by apply near_silent. Qed.

Hypothesis diagram : forall b1 b2 r1 r2 s, Rc b1 b2 r1 r2 -> matched b1 b2 r1 r2 s.

Lemma simulation_forward n b1 b2 r1 r2 s res :
  near b1 b2 r1 r2 -> exec1 n b1 r1 s = Some res -> exists m, exec2 m b2 r2 s = Some res.
Proof.
  revert b1 b2 r1 r2 s res. induction n as [|n IH]; [done|]. intros b1 b2 r1 r2 s res (k0 & c2 & Hk0 & HR) He.
  cut (exists m, exec2 m b2 c2 s = Some res).
  { intros [m Hm]. exists (k0 + m)%nat. by rewrite Hk0. }
  destruct (diagram _ _ _ _ s HR) as [k res' H1 H2|k r1' r2' s' H1 H2 Hn|k c r1' r2' s' H1 H2 Hc Hn].
  - rewrite H1 in He. exists (S k + 0)%nat. by rewrite H2.
  - rewrite H1 in He. destruct (IH _ _ _ _ _ _ Hn He) as [m Hm]. exists (S k + m)%nat. by rewrite H2.
  - rewrite H1 in He. unfold invoke, calls_match in *.
    destruct (funs1 (call_func c)) as [d1|] eqn:Hf1, (funs2 (call_func c)) as [d2|] eqn:Hf2; try done.
    + destruct (exec1 n d1 d1 (enter c s')) as [rc|] eqn:Hd; [|done].
      destruct (IH _ _ _ _ _ _ Hc Hd) as [m Hm]. destruct rc as [sr|?|?|].
      2-4: exists (S k + m)%nat; rewrite H2, Hm; done.
      destruct (IH _ _ _ _ _ _ Hn He) as [m' Hm']. exists (S k + (m + m'))%nat.
      rewrite H2, (exec_mono _ _ m (m + m') _ _ _ _ ltac:(lia) Hm).
      by apply (exec_mono _ _ m'); [lia|].
    + destruct (external c s') as [se|] eqn:Hx.
      * destruct (IH _ _ _ _ _ _ Hn He) as [m Hm]. exists (S k + m)%nat. by rewrite H2.
      * exists (S k + 0)%nat. by rewrite H2.
Qed.

Lemma simulation_backward m b1 b2 r1 r2 s res :
  near b1 b2 r1 r2 -> exec2 m b2 r2 s = Some res -> exists n, exec1 n b1 r1 s = Some res.
Proof.
  revert b1 b2 r1 r2 s res. induction m as [m IH] using lt_wf_ind.
  intros b1 b2 r1 r2 s res (k0 & c2 & Hk0 & HR) He.
  assert (He2 : exec2 m b2 c2 s = Some res).
  { rewrite <- Hk0. by apply (exec_mono _ _ m); [lia|]. }
  clear He Hk0. destruct m as [|m]; [done|].
  destruct (diagram _ _ _ _ s HR) as [k res' H1 H2|k r1' r2' s' H1 H2 Hn|k c r1' r2' s' H1 H2 Hc Hn].
  - exists 1%nat. rewrite H1. rewrite <- (H2 (S m)). apply (exec_mono _ _ (S m)); [lia|done].
  - apply (exec_mono _ _ _ (S k + m)) in He2; [|lia]. rewrite H2 in He2.
    destruct (IH m ltac:(lia) _ _ _ _ _ _ Hn He2) as [n Hm]. exists (S n). by rewrite H1.
  - apply (exec_mono _ _ _ (S k + m)) in He2; [|lia]. rewrite H2 in He2. unfold invoke, calls_match in *.
    destruct (funs1 (call_func c)) as [d1|] eqn:Hf1, (funs2 (call_func c)) as [d2|] eqn:Hf2; try done.
    + destruct (exec2 m d2 d2 (enter c s')) as [rc|] eqn:Hd; [|done].
      destruct (IH m ltac:(lia) _ _ _ _ _ _ Hc Hd) as [n Hm]. destruct rc as [sr|?|?|].
      2-4: exists (S n); rewrite H1, Hm; done.
      destruct (IH m ltac:(lia) _ _ _ _ _ _ Hn He2) as [n' Hm']. exists (S (n + n')).
      rewrite H1, (exec_mono _ _ n (n + n') _ _ _ _ ltac:(lia) Hm).
      by apply (exec_mono _ _ n'); [lia|].
    + destruct (external c s') as [se|] eqn:Hx.
      * destruct (IH m ltac:(lia) _ _ _ _ _ _ Hn He2) as [n Hm]. exists (S n). by rewrite H1.
      * exists 1%nat. by rewrite H1.
Qed.

Theorem simulation b1 b2 s res :
  near b1 b2 b1 b2 -> evaluates act1 funs1 b1 s res <-> evaluates act2 funs2 b2 s res.
Proof. intros Hn. split; intros [n Hx]; [by eapply simulation_forward|by eapply simulation_backward]. Qed.
End Simulation.

(** ** Functions of a module *)

(** The body of the function [f]: its first definition. *)
Fixpoint funs_of {I O} (ds : list (Directive2 I O)) (f : SpirvWord) : option (list (Statement I O)) :=
  match ds with
  | [] => None
  | DMethod m :: ds =>
      if decide (f_name m = f) then match f_body m with Some b => Some b | None => funs_of ds f end
      else funs_of ds f
  | DVariable _ _ :: ds => funs_of ds f
  end.

(** The function [f] has the same results in two modules. *)
Definition same_function {D O St I1 I2} {M : Machine D O St} (act1 : I1 -> St -> action St O)
    (act2 : I2 -> St -> action St O) (ds1 : list (Directive2 I1 O)) (ds2 : list (Directive2 I2 O)) (f : SpirvWord) : Prop :=
  match funs_of ds1 f, funs_of ds2 f with
  | Some b1, Some b2 => forall s res, evaluates act1 (funs_of ds1) b1 s res <-> evaluates act2 (funs_of ds2) b2 s res
  | None, None => True
  | _, _ => False
  end.

(** Every statement of a module satisfies [P]. *)
Definition all_statements {I O} (P : Statement I O -> Prop) (ds : list (Directive2 I O)) : Prop :=
  Forall (fun d => match d with DMethod f => Forall P (default [] (f_body f)) | DVariable _ _ => True end) ds.

(** Directives changed by [body] relation alone, function by function. *)
Definition same_shape {I1 I2 O} (R : bool -> list (Statement I1 O) -> list (Statement I2 O) -> Prop)
    (d1 : Directive2 I1 O) (d2 : Directive2 I2 O) : Prop :=
  match d1, d2 with
  | DVariable l1 v1, DVariable l2 v2 => l1 = l2 /\ v1 = v2
  | DMethod f1, DMethod f2 =>
      f2 = set_body (f_body f2) f1 /\
      match f_body f1, f_body f2 with Some b1, Some b2 => R (f_is_kernel f1) b1 b2 | None, None => True | _, _ => False end
  | _, _ => False
  end.

Lemma same_shape_funs {I1 I2 O} (R : bool -> list (Statement I1 O) -> list (Statement I2 O) -> Prop) ds1 ds2 f :
  Forall2 (same_shape R) ds1 ds2 ->
  match funs_of ds1 f, funs_of ds2 f with
  | Some b1, Some b2 => exists k, R k b1 b2
  | None, None => True
  | _, _ => False
  end.
Proof.
  induction 1 as [|[l1 v1|f1] [l2 v2|f2] ds1 ds2 Hd _ IH]; simpl in *; try done.
  destruct Hd as [Hf Hb].
  assert (f_name f2 = f_name f1) as -> by (by rewrite Hf). case_decide; [|done].
  destruct (f_body f1), (f_body f2); try done. by exists (f_is_kernel f1).
Qed.

Lemma all_statements_funs {I O} (P : Statement I O -> Prop) ds f b :
  all_statements P ds -> funs_of ds f = Some b -> Forall P b.
Proof.
  induction 1 as [|[l v|m] ds Hd _ IH]; simpl in *; [done|done|].
  case_decide; [|done]. destruct (f_body m); [|done]. by intros [= ->].
Qed.

(** ** Labels of a body *)
Lemma suffix_at_app {I O} l (pre rest : list (Statement I O)) :
  l ∉ labels pre -> suffix_at l (pre ++ rest) = suffix_at l rest.
Proof.
  induction pre as [|st pre IH]; [done|]. simpl. intros Hl.
  destruct (decide (label_of st = Some l)) as [He|He].
  - exfalso. apply Hl. unfold labels. simpl. rewrite He. left.
  - apply IH. intros Hin. apply Hl. unfold labels. simpl. destruct (label_of st); [right|]; done.
Qed.

Lemma suffix_at_here {I O} l (rest : list (Statement I O)) : suffix_at l (Label l :: rest) = Some (Label l :: rest).
Proof. simpl. by rewrite decide_True. Qed.

Lemma suffix_at_Some {I O} l (body r : list (Statement I O)) :
  suffix_at l body = Some r -> exists pre rest, body = pre ++ r /\ r = Label l :: rest /\ l ∉ labels pre.
Proof.
  induction body as [|st body IH]; [done|]. simpl. destruct (decide (label_of st = Some l)) as [He|He].
  - intros [= <-]. exists [], body. destruct st; simplify_eq/=. split_and!; [done|done|set_solver].
  - intros H. destruct (IH H) as (pre & rest & -> & -> & Hl). exists (st :: pre), rest.
    split_and!; [done|done|]. unfold labels. simpl. destruct (label_of st) as [l'|] eqn:El; [|done].
    intros [->|]%elem_of_cons; [congruence|by apply Hl].
Qed.

Lemma suffix_at_None {I O} l (body : list (Statement I O)) : suffix_at l body = None <-> l ∉ labels body.
Proof.
  induction body as [|st body IH]; simpl; [split; [set_solver|done]|]. unfold labels in *. simpl.
  destruct (decide (label_of st = Some l)) as [He|He].
  - rewrite He. split; [done|set_solver].
  - rewrite IH. destruct (label_of st) as [l'|] eqn:El; [|done]. rewrite not_elem_of_cons.
    split; [|tauto]. intros ?. split; [congruence|done].
Qed.

Lemma labels_app {I O} (a b : list (Statement I O)) : labels (a ++ b) = labels a ++ labels b.
Proof. apply omap_app. Qed.

Lemma suffix_at_app_full {I O} l (a b : list (Statement I O)) :
  suffix_at l (a ++ b) = match suffix_at l a with Some r => Some (r ++ b) | None => suffix_at l b end.
Proof. induction a as [|st a IH]; [done|]. simpl. by case_decide. Qed.

(** With distinct labels a label names one position. *)
Lemma suffix_at_unique {I O} l (pre rest : list (Statement I O)) :
  NoDup (labels (pre ++ Label l :: rest)) -> suffix_at l (pre ++ Label l :: rest) = Some (Label l :: rest).
Proof.
  rewrite labels_app. intros (_ & Hd & _)%NoDup_app. rewrite suffix_at_app; [apply suffix_at_here|].
  intros Hin. eapply Hd; [exact Hin|]. unfold labels. simpl. left.
Qed.
