(* ===== verification/PtxFlow.v ===== *)
(** * Passes of the PTX compiler on control flow and on functions

    [ptx/src/pass]: predicates become branches ([normalize_predicates2.rs]), every
    basic block gets a label and a terminator ([normalize_basic_blocks.rs]), blocks
    and functions that cannot be reached are removed
    ([remove_unreachable_basic_blocks.rs]); globals are hoisted out of bodies
    ([hoist_globals.rs]), moves of function names become function pointers
    ([resolve_function_pointers.rs]) and known external functions are renamed
    ([replace_known_functions.rs]).  The graph library is a parameter of which the
    breadth-first search is specified. *)
From stdpp Require Import base numbers list strings gmap relations.
From Stdlib Require Import ZArith Lia.
From S2P Require Import Prelude RustStr Ptx.

Local Open Scope string_scope.
Local Open Scope Z_scope.
Local Open Scope list_scope.

Section Passes.
Context {D : Type}.

Abbreviation Normalized := (NormalizedStatement D).
Abbreviation Unconditional := (UnconditionalStatement D).
Abbreviation Expanded := (ExpandedStatement D).
Abbreviation NormalizedInst := (option (PredAt SpirvWord) * Instruction D SpirvWord (ParsedOperand SpirvWord))%type.
Abbreviation UnconditionalInst := (Instruction D SpirvWord (ParsedOperand SpirvWord)).
Abbreviation ExpandedInst := (Instruction D SpirvWord SpirvWord).

(** ** [normalize_predicates2.rs] *)
Definition predicates_run_statement (result : list Unconditional) (statement : Normalized)
    : naming (list Unconditional) :=
  match statement with
  | Label label => mret (result ++ [Label label])
  | VariableStmt var => mret (result ++ [VariableStmt var])
  | InstructionStmt (Some pred, instruction) =>
      if_true ← register_unnamed None;
      if_false ← register_unnamed None;
      let folded_bra := match instruction with Bra src => Some src | _ => None end in
      let taken := default if_true folded_bra in
      let branch := if p_not pred then mkBranch (p_label pred) if_false taken
                    else mkBranch (p_label pred) taken if_false in
      let result := result ++ [Conditional branch] in
      let result := match folded_bra with
                    | None => result ++ [Label if_true; InstructionStmt instruction]
                    | Some _ => result
                    end in
      mret (result ++ [Label if_false])
  | InstructionStmt (None, instruction) => mret (result ++ [InstructionStmt instruction])
  | _ => stm_lift (Err Unreachable)
  end.

Definition predicates_run_method (method : Function2 NormalizedInst (ParsedOperand SpirvWord))
    : naming (Function2 UnconditionalInst (ParsedOperand SpirvWord)) :=
  body ← match f_body method with
         | Some statements => body ← stm_foldM predicates_run_statement [] statements; mret (Some body)
         | None => mret None
         end;
  mret (set_body body method).

Definition predicates_run_directive (directive : Directive2 NormalizedInst (ParsedOperand SpirvWord))
    : naming (Directive2 UnconditionalInst (ParsedOperand SpirvWord)) :=
  match directive with
  | DVariable linking var => mret (DVariable linking var)
  | DMethod method => f ← predicates_run_method method; mret (DMethod f)
  end.

Definition predicates_run (directives : list (Directive2 NormalizedInst (ParsedOperand SpirvWord)))
    : naming (list (Directive2 UnconditionalInst (ParsedOperand SpirvWord))) :=
  stm_collectM predicates_run_directive directives.

(** ** [normalize_basic_blocks.rs] *)
Inductive TerminatorKind : Type := TermNot | TermReal | TermFake.

Definition is_block_terminator (statement : Expanded) : TerminatorKind :=
  match statement with
  | Conditional _ | InstructionStmt (Bra _) | InstructionStmt (Ret _) => TermReal
  | InstructionStmt (Call _ _) => TermFake
  | _ => TermNot
  end.

Definition jump (l : SpirvWord) : Expanded := InstructionStmt (Bra l).

Definition convert_from_multiple_returns_to_single_return (result : list Expanded) (return_statements : list nat)
    : naming (list Expanded) :=
  if (1 <? length return_statements)%nat then
    ret_bb ← register_unnamed None;
    let result := result ++ [Label ret_bb; InstructionStmt (Ret false)] in
    stm_lift (foldM (fun result ret_index =>
                match result !! ret_index with
                | Some _ => Ok (<[ret_index := jump ret_bb]> result)
                | None => Err Unreachable
                end) result return_statements)
  else mret result.

(** The loop body: the emitted statements, the kind of the previous one and the
    positions of the returns. *)
Definition blocks_statement (is_kernel : bool) (acc : list Expanded * TerminatorKind * list nat) (statement : Expanded)
    : naming (list Expanded * TerminatorKind * list nat) :=
  let '(result, previous, return_statements) := acc in
  result ←
    match previous, statement with
    | TermNot, Label label => mret (result ++ [jump label])
    | TermNot, _ => mret result
    | TermReal, Label _ => mret result
    | TermReal, _ => label ← register_unnamed None; mret (result ++ [Label label])
    | TermFake, Label label => mret (result ++ [jump label])
    | TermFake, _ => label ← register_unnamed None; mret (result ++ [jump label; Label label])
    end;
  return_statements ←
    match statement with
    | RetValue _ _ => stm_lift (Err Unreachable)
    | InstructionStmt (Ret _) =>
        mret (if is_kernel then return_statements else return_statements ++ [length result])
    | _ => mret return_statements
    end;
  mret (result ++ [statement], is_block_terminator statement, return_statements).

Definition blocks_first (body : list Expanded) : naming (list Expanded * list Expanded) :=
  match body with
  | Label _ :: rest => mret ([], rest)
  | statement :: rest => label ← register_unnamed None; mret ([Label label; statement], rest)
  | [] => mret ([], [])
  end.

Definition blocks_run_body (is_kernel : bool) (body : list Expanded) : naming (list Expanded) :=
  first ← blocks_first body;
  acc ← stm_foldM (blocks_statement is_kernel) (first.1, TermNot, []) first.2;
  convert_from_multiple_returns_to_single_return acc.1.1 acc.2.

Definition blocks_run_directive (directive : Directive2 ExpandedInst SpirvWord)
    : naming (Directive2 ExpandedInst SpirvWord) :=
  match directive with
  | DMethod f =>
      match f_body f with
      | Some body => body ← blocks_run_body (f_is_kernel f) body; mret (DMethod (set_body (Some body) f))
      | None => mret directive
      end
  | DVariable _ _ => mret directive
  end.

Definition blocks_run (directives : list (Directive2 ExpandedInst SpirvWord))
    : naming (list (Directive2 ExpandedInst SpirvWord)) :=
  stm_collectM blocks_run_directive directives.

(** ** [remove_unreachable_basic_blocks.rs] *)

(** A directed graph of the graph library: node weights by index, and edges. *)
Record Graph : Type := mkGraph { node_weights : list SpirvWord; graph_edges : list (nat * nat) }.

Definition add_node (w : SpirvWord) (g : Graph) : nat * Graph :=
  (length (node_weights g), mkGraph (node_weights g ++ [w]) (graph_edges g)).

Definition add_edge (from to : nat) (g : Graph) : Graph := mkGraph (node_weights g) (graph_edges g ++ [(from, to)]).

Definition edge (g : Graph) (a b : nat) : Prop := (a, b) ∈ graph_edges g.

(** A finished breadth-first search has discovered the nodes reachable from its
    start. *)
Class Bfs := {
  discovered : Graph -> nat -> nat -> bool;
  discovered_spec : forall g start n, discovered g start n = true <-> rtc (edge g) start n;
}.

Record ControlFlowGraph : Type := mkCfg { cfg_graph : Graph; cfg_nodes : gmap SpirvWord nat }.

Definition cfg_new : ControlFlowGraph := mkCfg (mkGraph [] []) ∅.

Definition add_or_get_node (id : SpirvWord) (cfg : ControlFlowGraph) : nat * ControlFlowGraph :=
  match cfg_nodes cfg !! id with
  | Some n => (n, cfg)
  | None => let '(n, g) := add_node id (cfg_graph cfg) in (n, mkCfg g (<[id := n]> (cfg_nodes cfg)))
  end.

Definition add_branch (from : nat) (to : SpirvWord) (cfg : ControlFlowGraph) : ControlFlowGraph :=
  let '(n, cfg) := add_or_get_node to cfg in mkCfg (add_edge from n (cfg_graph cfg)) (cfg_nodes cfg).

Definition scan_statement (acc : ControlFlowGraph * nat * gset SpirvWord) (statement : Expanded)
    : outcome TranslateError (ControlFlowGraph * nat * gset SpirvWord) :=
  let '(cfg, current_bb, reachable_funcs) := acc in
  match statement with
  | Label label => let '(n, cfg) := add_or_get_node label cfg in Ok (cfg, n, reachable_funcs)
  | Conditional branch =>
      Ok (add_branch current_bb (if_false branch) (add_branch current_bb (if_true branch) cfg), current_bb, reachable_funcs)
  | InstructionStmt (Bra src) => Ok (add_branch current_bb src cfg, current_bb, reachable_funcs)
  | FunctionPointer _ => Err (Todo "")
  | InstructionStmt (Call _ arguments) => Ok (cfg, current_bb, {[ call_func arguments ]} ∪ reachable_funcs)
  | _ => Ok (cfg, current_bb, reachable_funcs)
  end.

(** [try_filter_to_vec] with a filter that keeps a state. *)
Definition try_filter_to_vec {T E F} (filter : F -> T -> outcome E (F * bool)) (init : F) (items : list T)
    : outcome E (list T) :=
  acc ← foldM (fun (acc : F * list T) item =>
          '(state, keep) ← filter acc.1 item;
          Ok (state, if (keep : bool) then acc.2 ++ [item] else acc.2)) (init, []) items;
  Ok acc.2.

Context {B : Bfs}.

Definition keep_statement (cfg : ControlFlowGraph) (first_bb : nat) (visited : bool) (statement : Expanded)
    : outcome TranslateError (bool * bool) :=
  match statement with
  | Label label =>
      n ← ok_or Unreachable (cfg_nodes cfg !! label);
      let visited := discovered (cfg_graph cfg) first_bb n in Ok (visited, visited)
  | _ => Ok (visited, visited)
  end.

Definition unreachable_run_body (reachable_funcs : gset SpirvWord) (old_body : list Expanded)
    : outcome TranslateError (list Expanded * gset SpirvWord) :=
  match old_body with
  | Label label :: rest =>
      let '(first_bb, cfg) := add_or_get_node label cfg_new in
      acc ← foldM scan_statement (cfg, first_bb, reachable_funcs) rest;
      body ← try_filter_to_vec (keep_statement acc.1.1 first_bb) true old_body;
      Ok (body, acc.2)
  | _ => Err Unreachable
  end.

Definition unreachable_directive (acc : gset SpirvWord * list (Directive2 ExpandedInst SpirvWord))
    (directive : Directive2 ExpandedInst SpirvWord)
    : outcome TranslateError (gset SpirvWord * list (Directive2 ExpandedInst SpirvWord)) :=
  match directive with
  | DMethod f =>
      match f_body f with
      | Some body =>
          out ← unreachable_run_body acc.1 body;
          Ok (out.2, acc.2 ++ [DMethod (set_body (Some out.1) f)])
      | None => Ok (acc.1, acc.2 ++ [directive])
      end
  | DVariable _ _ => Ok (acc.1, acc.2 ++ [directive])
  end.

Definition keeps_directive (reachable_funcs : gset SpirvWord) (directive : Directive2 ExpandedInst SpirvWord) : bool :=
  match directive with
  | DVariable _ _ => true
  | DMethod f => f_is_kernel f || bool_decide (f_name f ∈ reachable_funcs)
  end.

Definition unreachable_run (directives : list (Directive2 ExpandedInst SpirvWord))
    : outcome TranslateError (list (Directive2 ExpandedInst SpirvWord)) :=
  acc ← foldM unreachable_directive (∅, []) directives;
  Ok (List.filter (keeps_directive acc.1) acc.2).

(** ** [hoist_globals.rs] *)
Definition is_hoisted (space : StateSpace) : bool :=
  match space with Global | Const | Shared => true | _ => false end.

Definition hoist_statement (acc : list (Directive2 ExpandedInst SpirvWord) * list Expanded) (statement : Expanded)
    : list (Directive2 ExpandedInst SpirvWord) * list Expanded :=
  match statement with
  | VariableStmt var =>
      if is_hoisted (v_space (v_info var)) then (acc.1 ++ [DVariable LINK_NONE var], acc.2)
      else (acc.1, acc.2 ++ [statement])
  | _ => (acc.1, acc.2 ++ [statement])
  end.

Definition hoist_run_directive (result : list (Directive2 ExpandedInst SpirvWord))
    (directive : Directive2 ExpandedInst SpirvWord) : list (Directive2 ExpandedInst SpirvWord) :=
  match directive with
  | DVariable _ _ => result ++ [directive]
  | DMethod f =>
      match f_body f with
      | Some statements =>
          let '(result, body) := foldl hoist_statement (result, []) statements in
          result ++ [DMethod (set_body (Some body) f)]
      | None => result ++ [directive]
      end
  end.

Definition hoist_run (directives : list (Directive2 ExpandedInst SpirvWord)) : list (Directive2 ExpandedInst SpirvWord) :=
  foldl hoist_run_directive [] directives.

(** ** [resolve_function_pointers.rs] *)
Definition pointers_run_statement (functions : gset SpirvWord) (statement : Unconditional)
    : outcome TranslateError Unconditional :=
  match statement with
  | InstructionStmt (Mov typ (OpReg dst_reg) (OpReg src_reg)) =>
      if bool_decide (src_reg ∈ functions) then
        if bool_decide (typ = Scalar U64) then Ok (FunctionPointer (mkFunctionPointer dst_reg src_reg))
        else Err MismatchedType
      else Ok statement
  | _ => Ok statement
  end.

Definition pointers_run_directive (acc : gset SpirvWord * list (Directive2 UnconditionalInst (ParsedOperand SpirvWord)))
    (directive : Directive2 UnconditionalInst (ParsedOperand SpirvWord))
    : outcome TranslateError (gset SpirvWord * list (Directive2 UnconditionalInst (ParsedOperand SpirvWord))) :=
  match directive with
  | DVariable _ _ => Ok (acc.1, acc.2 ++ [directive])
  | DMethod method =>
      let functions := if f_is_kernel method then acc.1 else {[ f_name method ]} ∪ acc.1 in
      body ← match f_body method with
             | Some statements => Some <$> collectM (pointers_run_statement functions) statements
             | None => Ok None
             end;
      Ok (functions, acc.2 ++ [DMethod (set_body body method)])
  end.

Definition pointers_run (directives : list (Directive2 UnconditionalInst (ParsedOperand SpirvWord)))
    : outcome TranslateError (list (Directive2 UnconditionalInst (ParsedOperand SpirvWord))) :=
  snd <$> foldM pointers_run_directive (∅, []) directives.

(** ** [replace_known_functions.rs] *)
Definition ZLUDA_PTX_PREFIX : string := "__zluda_ptx_impl_".

Definition is_passthrough_external_symbol (name : string) : bool :=
  starts_with "ggml_" name || starts_with "micro_kernel_" name.

Definition lower_external_symbol_name (name : string) : string :=
  if is_passthrough_external_symbol name then name else sapp ZLUDA_PTX_PREFIX name.

Definition replace_with_ptx_impl (fn_name : SpirvWord) (r : GlobalStringIdentResolver2) : GlobalStringIdentResolver2 :=
  match ident_map r !! fn_name with
  | Some (mkEntry (Some name) ts) =>
      if existsb (String.eqb name) ["__assertfail"; "vprintf"]
      then mkResolver (current_id r) (<[fn_name := mkEntry (Some (lower_external_symbol_name name)) ts]> (ident_map r))
      else r
  | _ => r
  end.

Definition known_run (r : GlobalStringIdentResolver2)
    (directives : list (Directive2 NormalizedInst (ParsedOperand SpirvWord))) : GlobalStringIdentResolver2 :=
  foldl (fun r directive => match directive with DMethod f => replace_with_ptx_impl (f_name f) r | _ => r end)
    r directives.
End Passes.
