(* ===== verification/PtxPredicates.v ===== *)
(** * Predicates become branches: semantics kept

    [np] is the pass with its identifiers counted without bound; under a counter
    that does not wrap the pass computes it, and [simulation] relates the two
    bodies position by position. *)
From stdpp Require Import base numbers list strings gmap relations.
From Stdlib Require Import ZArith Lia.
From S2P Require Import Prelude RustStr Ptx PtxSem PtxFlow.

Local Open Scope Z_scope.
Local Open Scope list_scope.

Section Predicates.
Context {D : Type}.
Abbreviation POperand := (ParsedOperand SpirvWord).
Abbreviation NInst := (option (PredAt SpirvWord) * Instruction D SpirvWord POperand)%type.
Abbreviation UInst := (Instruction D SpirvWord POperand).

Definition is_normalized {I O} (st : Statement I O) : bool :=
  match st with Label _ | VariableStmt _ | InstructionStmt _ => true | _ => false end.

(** The identifiers a statement needs. *)
Definition np_count (st : Statement NInst POperand) : Z :=
  match st with InstructionStmt (Some _, _) => 2 | _ => 0 end.

Definition np_total (body : list (Statement NInst POperand)) : Z := foldr (fun st n => np_count st + n) 0 body.

Definition np_branch (p : PredAt SpirvWord) (taken skip : SpirvWord) : BrachCondition :=
  if p_not p then mkBranch (p_label p) skip taken else mkBranch (p_label p) taken skip.

Definition np_stmt (id : Z) (st : Statement NInst POperand) : list (Statement UInst POperand) :=
  match st with
  | Label l => [Label l]
  | VariableStmt v => [VariableStmt v]
  | InstructionStmt (Some p, Bra l) => [Conditional (np_branch p l (id + 1)); Label (id + 1)]
  | InstructionStmt (Some p, i) => [Conditional (np_branch p id (id + 1)); Label id; InstructionStmt i; Label (id + 1)]
  | InstructionStmt (None, i) => [InstructionStmt i]
  | _ => []
  end.

Fixpoint np (id : Z) (body : list (Statement NInst POperand)) : list (Statement UInst POperand) :=
  match body with
  | [] => []
  | st :: rest => np_stmt id st ++ np (id + np_count st) rest
  end.

Lemma np_count_nonneg st : 0 <= np_count st.
Proof. by destruct st as [| |[[]]| | | | | | | | | | | |]. Qed.

Lemma np_total_nonneg body : 0 <= np_total body.
Proof. induction body as [|st body IH]; [done|]. simpl. pose proof (np_count_nonneg st). lia. Qed.

Lemma np_app id a b : np id (a ++ b) = np id a ++ np (id + np_total a) b.
Proof.
  revert id. induction a as [|st a IH]; intros id; simpl; [by rewrite Z.add_0_r|].
  by rewrite IH, <- app_assoc, Z.add_assoc.
Qed.

Lemma np_total_app a b : np_total (a ++ b) = np_total a + np_total b.
Proof. induction a as [|st a IH]; [done|]. simpl. lia. Qed.

(** The pass computes [np]. *)
Lemma predicates_fold body acc r :
  forallb is_normalized body = true -> 0 <= current_id r -> current_id r + np_total body < 2 ^ 32 ->
  exists r', stm_foldM predicates_run_statement acc body r = (r', Ok (acc ++ np (current_id r) body)) /\
    current_id r' = current_id r + np_total body.
Proof.
  revert acc r. induction body as [|st body IH]; intros acc r Hn H0 Hr.
  { exists r. simpl. rewrite app_nil_r. split; [done|lia]. }
  simpl in Hn. apply andb_prop in Hn as [Hst Hn]. pose proof (np_total_nonneg body).
  cut (exists r1, predicates_run_statement acc st r = (r1, Ok (acc ++ np_stmt (current_id r) st)) /\
         current_id r1 = current_id r + np_count st).
  { simpl in Hr. intros (r1 & Hs & Hc). simpl. erewrite stm_bind_Ok by exact Hs.
    destruct (IH (acc ++ np_stmt (current_id r) st) r1) as (r' & -> & Hr'); [done|rewrite Hc; pose proof (np_count_nonneg st); lia|lia|].
    exists r'. rewrite Hc, <- app_assoc in *. split; [done|lia]. }
  destruct st as [l|v|[[p|] i]| | | | | | | | | | | |]; try done.
  1,2,4: eexists; split; [reflexivity|simpl; lia].
  simpl in Hr. unfold predicates_run_statement, register_unnamed.
  destruct (register_ok (mkEntry None None) r) as (r1 & H1 & Hc1); [lia|lia|].
  erewrite stm_bind_Ok by exact H1.
  destruct (register_ok (mkEntry None None) r1) as (r2 & H2 & Hc2); [lia|lia|].
  erewrite stm_bind_Ok by exact H2. exists r2. split; [|simpl; lia].
  rewrite Hc1. unfold np_stmt, np_branch. by destruct i, p as [[] pl]; simpl; rewrite <- ?app_assoc.
Qed.

(** ** Labels *)
Definition below (id : Z) (st : Statement NInst POperand) : Prop :=
  match st with
  | Label l => l < id
  | InstructionStmt (_, Bra l) => l < id
  | _ => True
  end.

Lemma np_suffix l id body :
  l < id -> forallb is_normalized body = true ->
  match suffix_at l body with
  | Some r => exists pre, body = pre ++ r /\ suffix_at l (np id body) = Some (np (id + np_total pre) r)
  | None => suffix_at l (np id body) = None
  end.
Proof.
  revert id. induction body as [|st body IH]; intros id Hl Hn; [done|].
  simpl in Hn. apply andb_prop in Hn as [Hst Hn]. simpl.
  pose proof (np_count_nonneg st) as Hc.
  case_decide as He.
  { destruct st; simplify_eq/=. exists []. split; [done|]. simpl. rewrite decide_True by done. by rewrite !Z.add_0_r. }
  assert (Hskip : suffix_at l (np_stmt id st ++ np (id + np_count st) body) = suffix_at l (np (id + np_count st) body)).
  { apply suffix_at_app. destruct st as [?|?|[[p|] i]| | | | | | | | | | | |]; try done; simpl in *.
    - unfold labels. simpl. set_solver.
    - unfold labels. set_solver.
    - unfold labels, np_stmt. destruct i; simpl; rewrite ?not_elem_of_cons; split_and!; try lia; set_solver.
    - unfold labels. set_solver. }
  rewrite Hskip. specialize (IH (id + np_count st) ltac:(lia) Hn).
  destruct (suffix_at l body) as [r|]; [|done].
  destruct IH as (pre & -> & ->). exists (st :: pre). split; [done|]. simpl. do 2 f_equal. lia.
Qed.

Lemma np_labels l id body : Forall (below id) body -> l ∈ labels (np id body) -> l < id + np_total body.
Proof.
  intros Hb. cut (forall id', id <= id' -> l ∈ labels (np id' body) -> l < id' + np_total body); [intros H; by apply H|].
  induction Hb as [|st body Hst Hb IH]; intros id' Hid Hin; [unfold labels in Hin; set_solver|].
  simpl in Hin. rewrite labels_app in Hin. apply elem_of_app in Hin as [Hin|Hin]; simpl.
  - pose proof (np_total_nonneg body). unfold labels in Hin.
    destruct st as [?|?|[[p|] i]| | | | | | | | | | | |]; simpl in *; try set_solver.
    + apply list_elem_of_singleton in Hin. lia.
    + unfold np_stmt in Hin. destruct i; simpl in Hin; rewrite ?elem_of_cons in Hin; set_solver by lia.
  - pose proof (np_count_nonneg st). specialize (IH (id' + np_count st) ltac:(lia) Hin). lia.
Qed.
(** ** The simulation *)
Section Machines.
Context {St : Type} {M : Machine D POperand St}.
Variable ds1 : list (Directive2 NInst POperand).
Variable ds2 : list (Directive2 UInst POperand).

Definition np_related (b1 : list (Statement NInst POperand)) (b2 : list (Statement UInst POperand)) r1 r2 : Prop :=
  exists id0 pre, b1 = pre ++ r1 /\ b2 = np id0 b1 /\ r2 = np (id0 + np_total pre) r1 /\
    Forall (below id0) b1 /\ forallb is_normalized b1 = true.

Abbreviation np_near := (near inst_action (funs_of ds2) np_related).
Abbreviation np_calls := (calls_match inst_action (funs_of ds1) (funs_of ds2) np_related).

Lemma np_goto b1 b2 r1 r2 l :
  np_related b1 b2 r1 r2 -> (forall id0, Forall (below id0) b1 -> l < id0) ->
  match suffix_at l b1, suffix_at l b2 with
  | Some p, Some q => np_near b1 b2 p q
  | None, None => True
  | _, _ => False
  end.
Proof.
  intros (id0 & pre & -> & -> & -> & Hb & Hn) Hl. specialize (Hl _ Hb).
  pose proof (np_suffix l id0 (pre ++ r1) Hl Hn) as Hs.
  destruct (suffix_at l (pre ++ r1)) as [r|]; [|by rewrite Hs].
  destruct Hs as (pre' & He & ->). apply near_here. exists id0, pre'. by split_and!.
Qed.

(** An instruction on both sides, followed by near positions. *)
Lemma np_inst_ok b1 b2 r1 r2 rest1 rest2 i s :
  np_related b1 b2 r1 r2 -> (forall f, np_calls f) ->
  (forall l id0, i = Bra l -> Forall (below id0) b1 -> l < id0) -> np_near b1 b2 rest1 rest2 ->
  action_ok inst_action (funs_of ds1) (funs_of ds2) np_related b1 b2 rest1 rest2 (inst_action i s).
Proof.
  intros HR Hf Hl Hn. destruct i as [l|data args|u|t d src|det args]; simpl.
  - eapply np_goto; [done|]. intros. by eapply Hl.
  - split; [apply Hf|done].
  - done.
  - by destruct (effect_inst _ s).
  - by destruct (effect_inst _ s).
Qed.

(** A position splits into the code of its statement and a near rest; labels
    from [id] on occur nowhere before it. *)
Lemma np_position b1 b2 st rest r2 :
  np_related b1 b2 (st :: rest) r2 ->
  exists id pre2 t2, r2 = np_stmt id st ++ t2 /\ b2 = pre2 ++ r2 /\ is_normalized st = true /\
    (forall l, id <= l -> l ∉ labels pre2) /\ np_near b1 b2 rest t2.
Proof.
  intros (id0 & pre & -> & -> & -> & Hbelow & Hnorm). set (id := id0 + np_total pre).
  exists id, (np id0 pre), (np (id + np_count st) rest). rewrite np_app.
  pose proof Hnorm as Hnorm'. rewrite forallb_app in Hnorm'. simpl in Hnorm'.
  apply andb_prop in Hnorm' as [_ [Hst _]%andb_prop]. split_and!; try done.
  - intros l Hge Hin. apply Forall_app in Hbelow as [Hbelow _]. apply np_labels in Hin; [lia|done].
  - apply near_here. exists id0, (pre ++ [st]). rewrite <- app_assoc, np_app, np_total_app. split_and!; try done.
    f_equal. subst id. simpl. lia.
Qed.

Lemma np_branch_target p a b s :
  (if holds s (predicate (np_branch p a b)) then if_true (np_branch p a b) else if_false (np_branch p a b)) =
  if xorb (holds s (p_label p)) (p_not p) then a else b.
Proof. unfold np_branch. destruct (p_not p), (holds s (p_label p)) eqn:Hh; simpl; by rewrite Hh. Qed.

(** A predicated instruction. *)
Lemma np_diagram_pred b1 b2 p i rest r2 s :
  (forall f, np_calls f) -> np_related b1 b2 (InstructionStmt (Some p, i) :: rest) r2 ->
  matched pred_action inst_action (funs_of ds1) (funs_of ds2) np_related b1 b2 (InstructionStmt (Some p, i) :: rest) r2 s.
Proof.
  intros Hcalls HR. destruct (np_position _ _ _ _ _ HR) as (id & pre2 & t2 & Hr2 & Hb2 & _ & Hnew & Hrest).
  assert (Hok : forall rest2, np_near b1 b2 rest rest2 ->
            action_ok inst_action (funs_of ds1) (funs_of ds2) np_related b1 b2 rest rest2 (inst_action i s)).
  { intros rest2 Hn2. eapply np_inst_ok; [done|done| |done]. intros l id1 -> Hb1'.
    destruct HR as (? & ? & -> & _). apply Forall_app in Hb1' as [_ Hb1']. by inversion Hb1'. }
  assert (Hsrc : forall n, exec pred_action (funs_of ds1) (S n) b1 (InstructionStmt (Some p, i) :: rest) s =
            perform pred_action (funs_of ds1) n b1 rest
              (if xorb (holds s (p_label p)) (p_not p) then inst_action i s else Next s)) by done.
  destruct (xorb (holds s (p_label p)) (p_not p)) eqn:Hp.
  - destruct (match i with Bra _ => true | _ => false end) eqn:Hi.
    + destruct i as [l| | | |]; try done.
      apply (matched_perform _ _ _ _ _ _ _ _ _ _ 0%nat (Goto l s) rest (Label (id + 1) :: t2));
        [done| |by apply (Hok _ (near_label _ _ _ _ _ _ _ _ Hrest))].
      intros n. rewrite Hr2. cbn [app plus np_stmt]. rewrite exec_S. cbn [stmt_action].
      by rewrite np_branch_target, Hp.
    + assert (Hs2 : np_stmt id (InstructionStmt (Some p, i)) =
                [Conditional (np_branch p id (id + 1)); Label id; InstructionStmt i; Label (id + 1)]) by (by destruct i).
      apply (matched_perform _ _ _ _ _ _ _ _ _ _ 2%nat (inst_action i s) rest (Label (id + 1) :: t2));
        [done| |by apply Hok, near_label].
      intros n. rewrite Hr2, Hs2. cbn [app plus]. rewrite exec_S. cbn [stmt_action]. rewrite np_branch_target, Hp.
      cbn [perform]. rewrite Hb2, suffix_at_app, Hr2, Hs2 by (apply Hnew; lia). cbn [app suffix_at label_of].
      rewrite decide_False by done. rewrite decide_True by done. by rewrite !exec_S.
  - apply (matched_perform _ _ _ _ _ _ _ _ _ _ 1%nat (Next s) rest t2); [done| |done].
    intros n. assert (Hs2 : suffix_at (id + 1) b2 = Some (Label (id + 1) :: t2)).
    { rewrite Hb2, suffix_at_app, Hr2 by (apply Hnew; lia). unfold np_stmt.
      destruct i; cbn [app suffix_at label_of]; repeat (rewrite decide_False by (intros ?; simplify_eq; lia));
        by rewrite decide_True by done. }
    transitivity (exec inst_action (funs_of ds2) (S n) b2 (Label (id + 1) :: t2) s); [|done].
    rewrite Hr2. unfold np_stmt. destruct i; cbn [app plus]; rewrite exec_S; cbn [stmt_action];
      rewrite np_branch_target, Hp; cbn [perform]; by rewrite Hs2.
Qed.

Lemma np_diagram b1 b2 r1 r2 s :
  (forall f, np_calls f) -> np_related b1 b2 r1 r2 ->
  matched pred_action inst_action (funs_of ds1) (funs_of ds2) np_related b1 b2 r1 r2 s.
Proof.
  intros Hcalls HR. destruct r1 as [|st rest].
  { destruct HR as (id0 & pre & _ & _ & -> & _). by eapply (m_end _ _ _ _ _ _ _ _ _ _ 0%nat (OffEnd s)). }
  destruct (np_position _ _ _ _ _ HR) as (id & pre2 & t2 & Hr2 & Hb2 & Hst & Hnew & Hrest).
  destruct st as [l|v|[[p|] i]| | | | | | | | | | | |]; try done; [| |by apply np_diagram_pred|].
  - apply (matched_perform _ _ _ _ _ _ _ _ _ _ 0%nat (Next s) rest t2); [done|by rewrite Hr2|done].
  - apply (matched_perform _ _ _ _ _ _ _ _ _ _ 0%nat (continue (effect (VariableStmt v) s)) rest t2);
      [done|by rewrite Hr2|]. by destruct (effect _ s).
  - apply (matched_perform _ _ _ _ _ _ _ _ _ _ 0%nat (inst_action i s) rest t2); [done|by rewrite Hr2|].
    eapply np_inst_ok; [done|done| |done]. intros l id1 -> Hb1'.
    destruct HR as (? & ? & -> & _). apply Forall_app in Hb1' as [_ Hb1']. by inversion Hb1'.
Qed.
End Machines.

(** ** Modules *)
Definition np_needed (ds : list (Directive2 NInst POperand)) : Z :=
  foldr (fun d n => match d with DMethod f => np_total (default [] (f_body f)) + n | DVariable _ _ => n end) 0 ds.

Lemma np_needed_nonneg ds : 0 <= np_needed ds.
Proof.
  induction ds as [|[l v|f] ds IH]; [done|done|]. simpl. pose proof (np_total_nonneg (default [] (f_body f))). lia.
Qed.

Lemma predicates_fold_normalized (body : list (Statement NInst POperand)) acc r r' out :
  stm_foldM predicates_run_statement acc body r = (r', Ok out) -> forallb is_normalized body = true.
Proof.
  revert acc r. induction body as [|st body IH]; intros acc r; [done|]. simpl.
  intros (r1 & a & Hs & Hr)%stm_bind_Ok_inv. rewrite (IH _ _ Hr).
  destruct st as [l|v|[[p|] i]| | | | | | | | | | | |]; done.
Qed.

(** [b2] is [np] of [b1] from some identifier of at least [id]. *)
Definition np_body (id : Z) (k : bool) (b1 : list (Statement NInst POperand)) (b2 : list (Statement UInst POperand)) : Prop :=
  forallb is_normalized b1 = true /\ exists id0, id <= id0 /\ b2 = np id0 b1.

Lemma predicates_method_ok (f : Function2 NInst POperand) r f' r' :
  predicates_run_method f r = (r', Ok f') -> 0 <= current_id r ->
  current_id r + np_total (default [] (f_body f)) < 2 ^ 32 ->
  same_shape (np_body (current_id r)) (DMethod f) (DMethod f') /\
  current_id r' = current_id r + np_total (default [] (f_body f)).
Proof.
  unfold predicates_run_method. intros (r1 & body & Hb & [= <- <-])%stm_bind_Ok_inv H0 Hr.
  destruct (f_body f) as [b|] eqn:Hf; simpl in *.
  - apply stm_bind_Ok_inv in Hb as (r2 & body2 & Hb & [= <- <-]).
    pose proof (predicates_fold_normalized _ _ _ _ _ Hb) as Hn.
    destruct (predicates_fold b [] r Hn H0 Hr) as (r3 & Hf3 & Hc).
    rewrite Hb in Hf3. injection Hf3 as -> ->. split; [|done]. split; [done|]. rewrite Hf. simpl.
    split; [done|]. exists (current_id r). split; [lia|done].
  - injection Hb as -> <-. rewrite Hf. split; [done|lia].
Qed.

Lemma predicates_run_ok (ds : list (Directive2 NInst POperand)) r ds' r' :
  predicates_run ds r = (r', Ok ds') -> 0 <= current_id r -> current_id r + np_needed ds < 2 ^ 32 ->
  Forall2 (same_shape (np_body (current_id r))) ds ds'.
Proof.
  intros Hrun H0 Hr. cut (forall id, id <= current_id r -> Forall2 (same_shape (np_body id)) ds ds'); [intros H; by apply H|].
  revert r ds' Hrun H0 Hr. induction ds as [|d ds IH]; intros r ds'; simpl.
  { intros [= <- <-]. constructor. }
  intros (r1 & d' & Hd & (r2 & ds2 & Hds & [= <- <-])%stm_bind_Ok_inv)%stm_bind_Ok_inv H0 Hr id Hid.
  destruct d as [l v|f].
  - injection Hd as <- <-. constructor; [done|]. by eapply IH.
  - simpl in Hd. apply stm_bind_Ok_inv in Hd as (r3 & f' & Hf & [= <- <-]). simpl in Hr.
    pose proof (np_needed_nonneg ds). pose proof (np_total_nonneg (default [] (f_body f))).
    destruct (predicates_method_ok _ _ _ _ Hf) as [Hs Hc]; [lia|lia|].
    constructor; [|eapply IH; [exact Hds|lia|lia|lia]].
    destruct Hs as [Hs1 Hs2]. split; [done|]. destruct (f_body f), (f_body f'); try done.
    destruct Hs2 as (Hn & id0 & Hid0 & ->). split; [done|]. exists id0. split; [lia|done].
Qed.
End Predicates.

(** Turning predicates into branches keeps the meaning of a module: on every
    machine each function (calls to the others included) returns, traps or loops
    on the same states before and after, and with the same results.  The module's
    labels and branch targets are identifiers given out before, and the
    identifier counter does not overflow. *)
Theorem predicates_semantics {D St} {M : Machine D (ParsedOperand SpirvWord) St} ds r ds' r' f :
  predicates_run ds r = (r', Ok ds') ->
  all_statements (below (current_id r)) ds ->
  0 <= current_id r -> current_id r + np_needed ds < 2 ^ 32 ->
  same_function pred_action inst_action ds ds' f.
Proof.
  intros Hrun Hb H0 Hr. pose proof (predicates_run_ok _ _ _ _ Hrun H0 Hr) as Hs.
  assert (Hcalls : forall f, calls_match inst_action (funs_of ds) (funs_of ds') np_related f).
  { intros g. pose proof (same_shape_funs _ _ _ g Hs) as Hg. unfold calls_match.
    destruct (funs_of ds g) as [b1|] eqn:H1, (funs_of ds' g) as [b2|] eqn:H2; try done.
    destruct Hg as (k & Hn & id0 & Hid & ->). apply near_here. exists id0, []. simpl.
    rewrite Z.add_0_r. split_and!; try done.
    eapply Forall_impl; [by eapply all_statements_funs|]. intros [l|v|[o []]| | | | | | | | | | | |]; simpl; lia. }
  unfold same_function. specialize (Hcalls f) as Hf. unfold calls_match in Hf.
  destruct (funs_of ds f) as [b1|], (funs_of ds' f) as [b2|]; try done.
  intros s res. apply (simulation _ _ _ _ np_related); [|done].
  intros. by apply np_diagram.
Qed.

(** ** A small machine and functions for examples *)
Definition countdown {O : Type} : Machine nat O Z := {|
  holds s _ := 0 <? s;
  effect _ s := Some s;
  effect_inst _ s := Some (s - 1);
  enter _ s := s;
  leave _ _ s := s - 10;
  external _ _ := None;
|}.

Definition sample_function {I O} (name : Z) (is_kernel : bool) (body : list (Statement I O)) : Directive2 I O :=
  DMethod (mkFunction2 [] name [] (Some body) is_kernel None [] LINK_NONE false false NearestEven NearestEven).
