(* ===== verification/PtxNames.v ===== *)
(** * Names to identifiers ([normalize_identifiers.rs] and the scoped resolver)

    Names are resolved scope by scope: labels and variables are declared in the
    innermost scope, uses find the innermost declaration.  Every declaration gets
    an identifier of its own, so that the passes that follow may rely on distinct
    labels below the identifier counter. *)
From stdpp Require Import base numbers list strings gmap pretty.
From Stdlib Require Import ZArith Lia.
From S2P Require Import Prelude RustStr Ptx PtxSem PtxFlow PtxPredicates.

Local Open Scope string_scope.
Local Open Scope Z_scope.
Local Open Scope list_scope.

(** ** [ScopedResolver] *)
Record ScopeMarker : Type := mkScope {
  sm_ident_map : gmap SpirvWord IdentEntry;
  name_to_ident : gmap string SpirvWord;
}.

Definition scope_new : ScopeMarker := mkScope ∅ ∅.

(** [extend]: the entries of the scope replace those of the resolver. *)
Definition scope_flush (scope : ScopeMarker) (r : GlobalStringIdentResolver2) : GlobalStringIdentResolver2 :=
  mkResolver (current_id r) (sm_ident_map scope ∪ ident_map r).

(** The scopes, innermost first. *)
Record ScopedResolver : Type := mkScoped { flat_resolver : GlobalStringIdentResolver2; scopes : list ScopeMarker }.

Abbreviation scoped := (stm ScopedResolver TranslateError).

Definition scoped_new (r : GlobalStringIdentResolver2) : ScopedResolver := mkScoped r [scope_new].

Definition start_scope : scoped unit := fun s => (mkScoped (flat_resolver s) (scope_new :: scopes s), Ok tt).

Definition end_scope : scoped unit := fun s =>
  match scopes s with
  | scope :: outer => (mkScoped (scope_flush scope (flat_resolver s)) outer, Ok tt)
  | [] => (s, Panic)
  end.

Definition next_id (r : GlobalStringIdentResolver2) : GlobalStringIdentResolver2 := mkResolver (bump (current_id r)) (ident_map r).

Definition declare (name : string) (entry : IdentEntry) (id : SpirvWord) (scope : ScopeMarker) : ScopeMarker :=
  mkScope (<[id := entry]> (sm_ident_map scope)) (<[name := id]> (name_to_ident scope)).

Definition add_or_get_in_current_scope_untyped (name : string) : scoped SpirvWord := fun s =>
  match scopes s with
  | [] => (s, Panic)
  | scope :: outer =>
      match name_to_ident scope !! name with
      | Some ident =>
          match sm_ident_map scope !! ident with
          | None => (s, Err Unreachable)
          | Some entry => (s, match ie_type_space entry with Some _ => Err (UnknownSymbol name) | None => Ok ident end)
          end
      | None =>
          let new_id := current_id (flat_resolver s) in
          (mkScoped (next_id (flat_resolver s)) (declare name (mkEntry (Some name) None) new_id scope :: outer), Ok new_id)
      end
  end.

(** A second declaration in the scope is an error, found after the name was
    rebound. *)
Definition scoped_add (name : string) (type_space : option (PtxType * StateSpace)) : scoped SpirvWord := fun s =>
  match scopes s with
  | [] => (s, Panic)
  | scope :: outer =>
      let result := current_id (flat_resolver s) in
      match name_to_ident scope !! name with
      | Some _ =>
          (mkScoped (next_id (flat_resolver s))
             (mkScope (sm_ident_map scope) (<[name := result]> (name_to_ident scope)) :: outer), Err (UnknownSymbol name))
      | None =>
          (mkScoped (next_id (flat_resolver s)) (declare name (mkEntry (Some name) type_space) result scope :: outer), Ok result)
      end
  end.

Fixpoint lookup_name (name : string) (scopes : list ScopeMarker) : option SpirvWord :=
  match scopes with
  | [] => None
  | scope :: outer => match name_to_ident scope !! name with Some id => Some id | None => lookup_name name outer end
  end.

Definition scoped_get (name : string) : scoped SpirvWord := fun s =>
  (s, ok_or (UnknownSymbol name) (lookup_name name (scopes s))).

Definition get_in_current_scope (label : string) : scoped SpirvWord := fun s =>
  match scopes s with
  | [] => (s, Panic)
  | scope :: _ => (s, ok_or Unreachable (name_to_ident scope !! label))
  end.

(** ** The parser's statements *)
#[local] Set Warnings "-register-all".
Inductive AstStatement (D : Type) : Type :=
| ALabel (label : string)
| AVariable (variable : MultiVariable string)
| AInstruction (predicate : option (PredAt string)) (instruction : Instruction D string (ParsedOperand string))
| ABlock (block : list (AstStatement D)).
Arguments ALabel {D} label.
Arguments AVariable {D} variable.
Arguments AInstruction {D} predicate instruction.
Arguments ABlock {D} block.

Inductive MethodName : Type := KernelName (name : string) | FuncName (name : string).

Definition is_kernel_name (n : MethodName) : bool := match n with KernelName _ => true | FuncName _ => false end.
Definition name_text (n : MethodName) : string := match n with KernelName name | FuncName name => name end.

Record MethodDeclaration : Type := mkMethodDecl {
  md_return_arguments : list (PtxVariable string);
  md_name : MethodName;
  md_input_arguments : list (PtxVariable string);
  md_shared_mem : option string;
}.

Record AstFunction (D : Type) : Type := mkAstFunction {
  func_directive : MethodDeclaration;
  af_tuning : list TuningDirective;
  af_body : option (list (AstStatement D));
}.
Arguments func_directive {D} _.
Arguments af_tuning {D} _.
Arguments af_body {D} _.
Arguments mkAstFunction {D} _ _ _.

Inductive AstDirective (D : Type) : Type :=
| ADVariable (linking : LinkingDirective) (var : PtxVariable string)
| ADMethod (linking : LinkingDirective) (method : AstFunction D).
Arguments ADVariable {D} linking var.
Arguments ADMethod {D} linking method.

(** ** [visit_map] with a function on identifiers *)
Section Visit.
Context {D S E : Type}.
Variable f : string -> stm S E SpirvWord.

Definition visit_element (e : RegOrImmediate string) : stm S E (RegOrImmediate SpirvWord) :=
  match e with
  | RIReg name => id ← f name; mret (RIReg id)
  | RIImm imm => mret (RIImm imm)
  | Discard => mret Discard
  end.

Definition visit_operand (op : ParsedOperand string) : stm S E (ParsedOperand SpirvWord) :=
  match op with
  | OpReg name => id ← f name; mret (OpReg id)
  | OpRegOffset name imm => id ← f name; mret (OpRegOffset id imm)
  | OpImm imm => mret (OpImm imm)
  | OpVecMember name index => id ← f name; mret (OpVecMember id index)
  | OpVecPack elements => ids ← stm_collectM visit_element elements; mret (OpVecPack ids)
  end.

(** [CallArgs::map]: arguments beyond the types of the call are dropped. *)
Definition visit_call (details : CallDetails) (args : CallArgs string (ParsedOperand string))
    : stm S E (CallArgs SpirvWord (ParsedOperand SpirvWord)) :=
  returns ← stm_collectM (fun p => f p.1) (zip (call_returns args) (ret_types details));
  func ← f (call_func args);
  inputs ← stm_collectM (fun p => visit_operand p.1) (zip (call_inputs args) (arg_types details));
  mret (mkCallArgs returns func inputs).

Definition visit_map (i : Instruction D string (ParsedOperand string))
    : stm S E (Instruction D SpirvWord (ParsedOperand SpirvWord)) :=
  match i with
  | Bra src => id ← f src; mret (Bra id)
  | Call details args => args ← visit_call details args; mret (Call details args)
  | Ret uniform => mret (Ret uniform)
  | Mov typ dst src => d ← visit_operand dst; s ← visit_operand src; mret (Mov typ d s)
  | Other details args =>
      args ← stm_collectM (fun a => o ← visit_operand a.2; mret (a.1, o)) args; mret (Other details args)
  end.
End Visit.

(** ** [normalize_identifiers.rs] *)
Definition run_array_init (init : list (RegOrImmediate string)) : scoped (list (RegOrImmediate SpirvWord)) :=
  stm_collectM (visit_element scoped_get) init.

Definition run_variable_info (info : VariableInfo string) : scoped (VariableInfo SpirvWord) :=
  init ← run_array_init (v_init info); mret (mkInfo (v_align info) (v_type info) (v_space info) init).

Definition run_variable (variable : PtxVariable string) : scoped (PtxVariable SpirvWord) :=
  info ← run_variable_info (v_info variable);
  name ← scoped_add (v_name variable) (Some (v_type (v_info variable), v_space (v_info variable)));
  mret (mkVar info name).

Section Names.
Context {D : Type}.

(** One name of a multiple declaration. *)
Definition declare_variable (info : VariableInfo string) (name : string) : scoped (NormalizedStatement D) :=
  ident ← scoped_add name (Some (v_type info, v_space info));
  info ← run_variable_info info;
  mret (VariableStmt (mkVar info ident)).

Definition run_multivariable (variable : MultiVariable string) : scoped (list (NormalizedStatement D)) :=
  match variable with
  | Parameterized info name count =>
      stm_collectM (fun i => declare_variable info (sapp name (pretty (N.of_nat i)))) (seq 0 count)
  | Names info names => stm_collectM (declare_variable info) names
  end.

Definition declare_label (statement : AstStatement D) : scoped unit :=
  match statement with
  | ALabel label => scoped_add label None ;; mret tt
  | _ => mret tt
  end.

(** A statement of the second loop; a block is a scope of its own, in which the
    labels are declared first. *)
Fixpoint run_statement (statement : AstStatement D) : scoped (list (NormalizedStatement D)) :=
  match statement with
  | ALabel label => id ← get_in_current_scope label; mret [Label id]
  | AVariable variable => run_multivariable variable
  | AInstruction predicate instruction =>
      predicate ← match predicate with
                  | Some pred => id ← scoped_get (p_label pred); mret (Some (mkPredAt (p_not pred) id))
                  | None => mret None
                  end;
      instruction ← visit_map scoped_get instruction;
      mret [InstructionStmt (predicate, instruction)]
  | ABlock block =>
      start_scope ;;
      stm_iter declare_label block ;;
      result ← (fix go (block : list (AstStatement D)) : scoped (list (NormalizedStatement D)) :=
                  match block with
                  | [] => mret []
                  | st :: block => r ← run_statement st; rs ← go block; mret (r ++ rs)
                  end) block;
      end_scope ;;
      mret result
  end.

Fixpoint run_each (block : list (AstStatement D)) : scoped (list (NormalizedStatement D)) :=
  match block with
  | [] => mret []
  | st :: block => r ← run_statement st; rs ← run_each block; mret (r ++ rs)
  end.

Definition run_statements (block : list (AstStatement D)) : scoped (list (NormalizedStatement D)) :=
  stm_iter declare_label block ;; run_each block.

Definition run_function_decl (decl : MethodDeclaration)
    : scoped (list (PtxVariable SpirvWord) * list (PtxVariable SpirvWord)) :=
  match md_shared_mem decl with
  | Some _ => stm_lift Panic
  | None =>
      returns ← stm_collectM run_variable (md_return_arguments decl);
      inputs ← stm_collectM run_variable (md_input_arguments decl);
      mret (returns, inputs)
  end.

Abbreviation NInst := (option (PredAt SpirvWord) * Instruction D SpirvWord (ParsedOperand SpirvWord))%type.

Definition identifiers_run_method (linkage : LinkingDirective) (method : AstFunction D)
    : scoped (Function2 NInst (ParsedOperand SpirvWord)) :=
  name ← add_or_get_in_current_scope_untyped (name_text (md_name (func_directive method)));
  start_scope ;;
  args ← run_function_decl (func_directive method);
  body ← match af_body method with
         | Some statements => b ← run_statements statements; mret (Some b)
         | None => mret None
         end;
  end_scope ;;
  mret (mkFunction2 args.1 name args.2 body (is_kernel_name (md_name (func_directive method))) None (af_tuning method)
          linkage false false NearestEven NearestEven).

Definition identifiers_run_directive (directive : AstDirective D) : scoped (Directive2 NInst (ParsedOperand SpirvWord)) :=
  match directive with
  | ADVariable linking var => v ← run_variable var; mret (DVariable linking v)
  | ADMethod linking method => f ← identifiers_run_method linking method; mret (DMethod f)
  end.

Definition identifiers_run (directives : list (AstDirective D)) : scoped (list (Directive2 NInst (ParsedOperand SpirvWord))) :=
  start_scope ;;
  result ← stm_collectM identifiers_run_directive directives;
  end_scope ;;
  mret result.
End Names.

(** ** Special registers ([PtxSpecialRegister], [SpecialRegistersMap]) *)
Inductive PtxSpecialRegister : Type :=
| Tid | Ntid | Ctaid | Nctaid | Clock | LanemaskEq | LanemaskLt | LanemaskLe | LanemaskGe | LanemaskGt | Laneid
| Envreg (n : Z).

Definition sreg_iter : list PtxSpecialRegister :=
  [Tid; Ntid; Ctaid; Nctaid; Clock; LanemaskEq; LanemaskLt; LanemaskLe; LanemaskGe; LanemaskGt; Laneid]
  ++ (Envreg <$> seqZ 0 32).

Definition sreg_as_str (sreg : PtxSpecialRegister) : string :=
  match sreg with
  | Tid => "%tid"
  | Ntid => "%ntid"
  | Ctaid => "%ctaid"
  | Nctaid => "%nctaid"
  | Clock => "%clock"
  | LanemaskEq => "%lanemask_eq"
  | LanemaskLt => "%lanemask_lt"
  | LanemaskLe => "%lanemask_le"
  | LanemaskGe => "%lanemask_ge"
  | LanemaskGt => "%lanemask_gt"
  | Laneid => "%laneid"
  | Envreg n => sapp "%envreg" (pretty n)
  end.

Definition get_function_return_type (sreg : PtxSpecialRegister) : ScalarType := U32.

Definition get_function_input_type (sreg : PtxSpecialRegister) : option ScalarType :=
  match sreg with Tid | Ntid | Ctaid | Nctaid => Some U8 | _ => None end.

Definition sreg_get_type (sreg : PtxSpecialRegister) : PtxType :=
  match sreg with
  | Tid | Ntid | Ctaid | Nctaid => Vector 4 (get_function_return_type sreg)
  | _ => Scalar (get_function_return_type sreg)
  end.

(** The registers with their identifiers, in the order they were added. *)
Record SpecialRegistersMap : Type := mkSregs {
  reg_to_id : list (PtxSpecialRegister * SpirvWord);
  id_to_reg : gmap SpirvWord PtxSpecialRegister;
}.

Definition special_registers_new : scoped SpecialRegistersMap :=
  stm_foldM (fun result sreg =>
      id ← scoped_add (sreg_as_str sreg) (Some (sreg_get_type sreg, RegSpace));
      mret (mkSregs (reg_to_id result ++ [(sreg, id)]) (<[id := sreg]> (id_to_reg result))))
    (mkSregs [] ∅) sreg_iter.

(** The first passes of [to_llvm_module]: names, known functions, predicates.
    The result of naming is returned with that of the last pass. *)
Definition frontend {D} (directives : list (AstDirective D))
    : outcome TranslateError
        (list (Directive2 (option (PredAt SpirvWord) * Instruction D SpirvWord (ParsedOperand SpirvWord)) (ParsedOperand SpirvWord)) *
         list (Directive2 (Instruction D SpirvWord (ParsedOperand SpirvWord)) (ParsedOperand SpirvWord))) :=
  let '(s0, sregs) := special_registers_new (scoped_new (resolver_new 1)) in
  _ ← sregs;
  let '(s1, normalized) := identifiers_run directives s0 in
  directives ← normalized;
  let flat := known_run (flat_resolver s1) directives in
  let '(_, unconditional) := predicates_run directives flat in
  u ← unconditional;
  Ok (directives, u).

(** ** What the pass guarantees *)

(** Identifiers in scope are below the counter, one per name. *)
Definition scope_good (c : Z) (scope : ScopeMarker) : Prop :=
  forall n id, name_to_ident scope !! n = Some id ->
  id < c /\ forall n', name_to_ident scope !! n' = Some id -> n' = n.

Definition cur (s : ScopedResolver) : Z := current_id (flat_resolver s).

Definition good (s : ScopedResolver) : Prop := 0 <= cur s /\ Forall (scope_good (cur s)) (scopes s).

(** The current scope may gain names; the outer ones are as they were. *)
Definition extends (s s' : ScopedResolver) : Prop :=
  match scopes s, scopes s' with
  | sc :: outer, sc' :: outer' => name_to_ident sc ⊆ name_to_ident sc' /\ outer = outer'
  | [], [] => True
  | _, _ => False
  end.

(** [m] takes at most [n] identifiers and keeps the scopes good. *)
Definition takes {A} (n : Z) (m : scoped A) (P : ScopedResolver -> ScopedResolver -> A -> Prop) : Prop :=
  forall s s' a, good s -> cur s + n < 2 ^ 32 -> m s = (s', Ok a) ->
  good s' /\ cur s <= cur s' <= cur s + n /\ extends s s' /\ P s s' a.

Abbreviation anything := (fun _ _ _ => True).

Lemma extends_refl s : extends s s.
Proof. unfold extends. by destruct (scopes s). Qed.

Lemma extends_trans s1 s2 s3 : extends s1 s2 -> extends s2 s3 -> extends s1 s3.
Proof.
  unfold extends. destruct (scopes s1), (scopes s2), (scopes s3); try done. intros [? <-] [? <-]. split; [by etrans|done].
Qed.

Lemma takes_ret {A} (a : A) (P : ScopedResolver -> ScopedResolver -> A -> Prop) : (forall s, P s s a) -> takes 0 (mret a) P.
Proof. intros HP s s' x Hg _ [= <- <-]. split_and!; [done|lia|lia|apply extends_refl|apply HP]. Qed.

Lemma takes_bind {A B} n1 n2 (m : scoped A) (k : A -> scoped B) P Q R :
  takes n1 m P -> (forall a, takes n2 (k a) (Q a)) -> 0 <= n2 ->
  (forall s1 s2 s3 a b, good s2 -> extends s1 s2 -> extends s2 s3 -> cur s1 <= cur s2 <= cur s3 -> P s1 s2 a -> Q a s2 s3 b -> R s1 s3 b) ->
  takes (n1 + n2) (m ≫= k) R.
Proof.
  intros Hm Hk Hn HR s1 s3 b Hg Hr (s2 & a & Hma & Hkb)%stm_bind_Ok_inv.
  destruct (Hm _ _ _ Hg ltac:(lia) Hma) as (Hg2 & Hc2 & He2 & HP).
  destruct (Hk a _ _ _ Hg2 ltac:(lia) Hkb) as (Hg3 & Hc3 & He3 & HQ).
  split_and!; [done|lia|lia|by eapply extends_trans|]. apply (HR s1 s2 s3 a b); try done. lia.
Qed.

Lemma takes_weaken {A} n n' (m : scoped A) (P Q : ScopedResolver -> ScopedResolver -> A -> Prop) :
  takes n m P -> n <= n' -> (forall s s' a, P s s' a -> Q s s' a) -> takes n' m Q.
Proof.
  intros Hm Hn HQ s s' a Hg Hr Ha. destruct (Hm _ _ _ Hg ltac:(lia) Ha) as (? & ? & ? & ?).
  split_and!; [done|lia|lia|done|by apply HQ].
Qed.

Lemma takes_map {A B} n (m : scoped A) (g : A -> B) (P : ScopedResolver -> ScopedResolver -> A -> Prop) Q :
  takes n m P -> (forall s s' a, P s s' a -> Q s s' (g a)) -> takes n (a ← m; mret (g a)) Q.
Proof.
  intros Hm HQ s s' b Hg Hr (s2 & a & Ha & [= <- <-])%stm_bind_Ok_inv.
  destruct (Hm _ _ _ Hg Hr Ha) as (? & ? & ? & ?). split_and!; [done|lia|lia|done|by apply HQ].
Qed.

Lemma lookup_name_below name sc c id : Forall (scope_good c) sc -> lookup_name name sc = Some id -> id < c.
Proof.
  induction 1 as [|x sc Hx _ IH]; [done|]. simpl. destruct (name_to_ident x !! name) eqn:Hn; [|done].
  intros [= ->]. by apply Hx in Hn as [? _].
Qed.

Lemma takes_get name : takes 0 (scoped_get name) (fun s _ id => id < cur s).
Proof.
  intros s s' id Hg _ [= <- Hid]. split_and!; [done|lia|lia|apply extends_refl|].
  destruct (lookup_name name (scopes s)) eqn:Hl; simplify_eq/=. destruct Hg as [_ Hg]. by eapply lookup_name_below.
Qed.

Lemma scope_good_mono c c' scope : c <= c' -> scope_good c scope -> scope_good c' scope.
Proof. intros Hc Hg n id Hn. destruct (Hg n id Hn). split; [lia|done]. Qed.

(** A fresh name in the current scope. *)
Lemma scoped_add_inv name ts s s' id :
  good s -> cur s + 1 < 2 ^ 32 -> scoped_add name ts s = (s', Ok id) ->
  exists sc outer, scopes s = sc :: outer /\ name_to_ident sc !! name = None /\ id = cur s /\ cur s' = cur s + 1 /\
    scopes s' = declare name (mkEntry (Some name) ts) (cur s) sc :: outer /\ good s'.
Proof.
  intros [H0 Hg] Hr. unfold scoped_add. destruct (scopes s) as [|sc outer] eqn:Hsc; [done|].
  destruct (name_to_ident sc !! name) eqn:Hn; [done|]. intros [= <- <-]. apply Forall_cons in Hg as [Hg1 Hg2].
  assert (Hc : bump (cur s) = cur s + 1) by (apply wrap_small; lia).
  exists sc, outer. split_and!; try done. unfold good, cur. cbn [flat_resolver scopes next_id current_id]. fold (cur s).
  rewrite Hc. split; [lia|]. constructor.
  - intros n i. cbn [declare name_to_ident]. rewrite lookup_insert_Some. intros [[<- <-]|[Hne Hi]].
    + split; [lia|]. intros n'. rewrite lookup_insert_Some. intros [[<- _]|[_ Hi]]; [done|]. apply Hg1 in Hi as [? _]. lia.
    + destruct (Hg1 _ _ Hi) as [? Hu]. split; [lia|]. intros n'. rewrite lookup_insert_Some. intros [[_ <-]|[_ Hi']]; [lia|by apply Hu].
  - eapply Forall_impl; [exact Hg2|]. intros sc' Hsc'. eapply scope_good_mono; [|exact Hsc']. lia.
Qed.

Lemma takes_add name ts : takes 1 (scoped_add name ts) anything.
Proof.
  intros s s' id Hg Hr Ha. destruct (scoped_add_inv _ _ _ _ _ Hg Hr Ha) as (sc & outer & Hs & Hn & -> & Hc & Hs' & Hg').
  split_and!; [done|lia|lia| |done]. unfold extends. rewrite Hs, Hs'. split; [|done]. by apply insert_subseteq.
Qed.

Lemma takes_collect {A B} (f : A -> scoped B) (n : A -> Z) l :
  (forall a, 0 <= n a) -> (forall a, takes (n a) (f a) anything) ->
  takes (foldr (fun a k => n a + k) 0 l) (stm_collectM f l) anything.
Proof.
  intros Hn Hf. assert (Hpos : forall l, 0 <= foldr (fun a k => n a + k) 0 l).
  { intros l'. induction l' as [|a l' IH]; simpl; [lia|]. specialize (Hn a). lia. }
  induction l as [|a l IH]; simpl; [by apply takes_ret|].
  apply (takes_bind _ _ _ _ anything (fun _ => anything)); [apply Hf| |apply Hpos|done]. intros b. by eapply takes_map.
Qed.

Lemma takes_collect_zero {A B} (f : A -> scoped B) l : (forall a, takes 0 (f a) anything) -> takes 0 (stm_collectM f l) anything.
Proof.
  intros Hf. eapply takes_weaken; [apply (takes_collect f (fun _ => 0)); [done|exact Hf]| |done].
  clear. induction l; simpl; lia.
Qed.

Lemma takes_visit_element e : takes 0 (visit_element scoped_get e) anything.
Proof. destruct e; simpl; [eapply takes_map; [apply takes_get|done]|by apply takes_ret|by apply takes_ret]. Qed.

Lemma takes_visit_operand op : takes 0 (visit_operand scoped_get op) anything.
Proof.
  destruct op; simpl; try (eapply takes_map; [apply takes_get|done]); [by apply takes_ret|].
  eapply takes_map; [apply takes_collect_zero, takes_visit_element|done].
Qed.

Lemma takes_bind_zero {A B} (m : scoped A) (k : A -> scoped B) :
  takes 0 m anything -> (forall a, takes 0 (k a) anything) -> takes 0 (m ≫= k) anything.
Proof. intros Hm Hk. by apply (takes_bind 0 0 m k anything (fun _ => anything)). Qed.

(** A branch target of the result is an identifier in scope. *)
Definition target_below {D} (c : Z) (i : Instruction D SpirvWord (ParsedOperand SpirvWord)) : Prop :=
  match i with Bra l => l < c | _ => True end.

Lemma takes_visit_map {D} (i : Instruction D string (ParsedOperand string)) :
  takes 0 (visit_map scoped_get i) (fun s _ i' => target_below (cur s) i').
Proof.
  destruct i as [src|details args|u|t d src|details args]; simpl.
  - eapply takes_map; [apply takes_get|done].
  - eapply (takes_map _ _ _ anything); [|done]. unfold visit_call.
    apply takes_bind_zero; [by apply takes_collect_zero; intros; eapply takes_weaken; [apply takes_get|..]|]. intros rets.
    apply takes_bind_zero; [by eapply takes_weaken; [apply takes_get|..]|]. intros func.
    eapply takes_map; [apply takes_collect_zero; intros; apply takes_visit_operand|done].
  - by apply takes_ret.
  - apply (takes_bind 0 0 _ _ anything (fun _ _ _ i' => exists d s, i' = Mov t d s)); [apply takes_visit_operand| |done|].
    + intros d'. eapply takes_map; [apply takes_visit_operand|eauto].
    + by intros s1 s2 s3 a b _ _ _ _ _ (? & ? & ->).
  - eapply (takes_map _ _ _ anything); [|done]. apply takes_collect_zero. intros a.
    eapply takes_map; [apply takes_visit_operand|done].
Qed.

Lemma takes_variable_info info : takes 0 (run_variable_info info) anything.
Proof. eapply takes_map; [apply takes_collect_zero, takes_visit_element|done]. Qed.

Lemma takes_variable v : takes 1 (run_variable v) anything.
Proof.
  apply (takes_bind 0 1 _ _ anything (fun _ => anything)); [apply takes_variable_info| |done|done].
  intros info. eapply takes_map; [apply takes_add|done].
Qed.

Section NamesSpec.
Context {D : Type}.

Definition is_var (st : NormalizedStatement D) : bool := match st with VariableStmt _ => true | _ => false end.

Lemma takes_declare_variable info name : takes 1 (declare_variable (D := D) info name) (fun _ _ st => is_var st = true).
Proof.
  apply (takes_bind 1 0 _ _ anything (fun _ _ _ st => is_var st = true)); [apply takes_add| |done|done].
  intros id. eapply takes_map; [apply takes_variable_info|done].
Qed.

Lemma takes_declare_variables info names :
  takes (Z.of_nat (length names)) (stm_collectM (declare_variable (D := D) info) names) (fun _ _ out => forallb is_var out = true).
Proof.
  induction names as [|name names IH]; simpl; [by apply takes_ret|].
  replace (Z.of_nat (S (length names))) with (1 + Z.of_nat (length names)) by lia.
  eapply (takes_bind 1 _ _ _ (fun _ _ st => is_var st = true) (fun st _ _ out => is_var st = true -> forallb is_var out = true));
    [apply takes_declare_variable| |lia|by auto].
  intros st. eapply takes_map; [exact IH|]. intros s s' out Ho Hst. simpl. by rewrite Hst.
Qed.

Definition variable_count (v : MultiVariable string) : nat :=
  match v with Parameterized _ _ count => count | Names _ names => length names end.

Lemma takes_multivariable v :
  takes (Z.of_nat (variable_count v)) (run_multivariable (D := D) v) (fun _ _ out => forallb is_var out = true).
Proof.
  destruct v as [info name count|info names]; [|apply takes_declare_variables]. simpl.
  pose proof (takes_declare_variables info ((fun i => sapp name (pretty (N.of_nat i))) <$> seq 0 count)) as H.
  rewrite length_fmap, length_seq in H.
  assert (He : forall l, stm_collectM (declare_variable (D := D) info) ((fun i => sapp name (pretty (N.of_nat i))) <$> l) =
            stm_collectM (fun i => declare_variable info (sapp name (pretty (N.of_nat i)))) l).
  { induction l as [|i l IHl]; [done|]. rewrite fmap_cons. cbn [stm_collectM]. by rewrite IHl. }
  by rewrite He in H.
Qed.

(** *** Statements *)
Definition ast_labels (block : list (AstStatement D)) : list string :=
  omap (fun st => match st with ALabel l => Some l | _ => None end) block.

(** The identifiers a statement takes, its own labels apart. *)
Fixpoint need (st : AstStatement D) : Z :=
  match st with
  | ALabel _ | AInstruction _ _ => 0
  | AVariable v => Z.of_nat (variable_count v)
  | ABlock block => Z.of_nat (length (ast_labels block)) + foldr (fun st n => need st + n) 0 block
  end.

Definition need_each (block : list (AstStatement D)) : Z := foldr (fun st n => need st + n) 0 block.

Definition name_here (s : ScopedResolver) (name : string) : option SpirvWord :=
  match scopes s with sc :: _ => name_to_ident sc !! name | [] => None end.

(** The labels of the block are declared in the current scope. *)
Definition declared (s : ScopedResolver) (block : list (AstStatement D)) : Prop :=
  NoDup (ast_labels block) /\ forall l, l ∈ ast_labels block -> is_Some (name_here s l).

Definition in_scope (s : ScopedResolver) (block : list (AstStatement D)) (x : SpirvWord) : Prop :=
  exists l, l ∈ ast_labels block /\ name_here s l = Some x.

(** What running the statements of a block guarantees. *)
Definition stmts_ok (block : list (AstStatement D)) (s s' : ScopedResolver) (out : list (NormalizedStatement D)) : Prop :=
  Forall (below (cur s')) out /\ forallb is_normalized out = true /\
  (declared s block -> NoDup (labels out) /\ forall x, x ∈ labels out -> in_scope s block x \/ cur s <= x < cur s').

Lemma need_nonneg st : 0 <= need st.
Proof.
  revert st. fix IH 1. intros [l|v|p i|block]; simpl; try lia.
  assert (0 <= foldr (fun st n => need st + n) 0 block); [|lia].
  induction block as [|st block IHb]; simpl; [lia|]. specialize (IH st). lia.
Qed.

Lemma need_each_nonneg block : 0 <= need_each block.
Proof. unfold need_each. induction block as [|st block IH]; simpl; [lia|]. pose proof (need_nonneg st). lia. Qed.

Lemma name_here_below s name x : good s -> name_here s name = Some x -> x < cur s.
Proof.
  intros [_ Hg]. unfold name_here. destruct (scopes s) as [|sc outer]; [done|]. apply Forall_cons in Hg as [Hg _].
  intros Hx. by apply Hg in Hx as [? _].
Qed.

Lemma name_here_inj s a b x : good s -> name_here s a = Some x -> name_here s b = Some x -> a = b.
Proof.
  intros [_ Hg]. unfold name_here. destruct (scopes s) as [|sc outer]; [done|]. apply Forall_cons in Hg as [Hg _].
  intros Ha Hb. destruct (Hg _ _ Hb) as [_ Hu]. by apply Hu.
Qed.

Lemma name_here_extends s s' name x : extends s s' -> name_here s name = Some x -> name_here s' name = Some x.
Proof.
  unfold extends, name_here. destruct (scopes s), (scopes s'); try done. intros [Hs _] Hx. by eapply lookup_weaken.
Qed.

Lemma below_mono c c' (st : NormalizedStatement D) : c <= c' -> below c st -> below c' st.
Proof. intros Hc. destruct st as [l|v|[o []]| | | | | | | | | | | |]; simpl; try done; lia. Qed.

Lemma stmts_ok_cons st block s1 s2 s3 out1 out2 :
  good s1 -> good s2 -> extends s1 s2 -> cur s1 <= cur s2 <= cur s3 -> stmts_ok [st] s1 s2 out1 -> stmts_ok block s2 s3 out2 ->
  stmts_ok (st :: block) s1 s3 (out1 ++ out2).
Proof.
  intros Hg1 Hg2 He Hc (Hb1 & Hn1 & Hl1) (Hb2 & Hn2 & Hl2). split_and!.
  - apply Forall_app. split; [|done]. eapply Forall_impl; [exact Hb1|]. intros x. apply below_mono. lia.
  - by rewrite forallb_app, Hn1, Hn2.
  - intros [Hnd Hdec].
    assert (Hsplit : ast_labels (st :: block) = ast_labels [st] ++ ast_labels block) by (unfold ast_labels; simpl; by destruct st).
    rewrite Hsplit in Hnd. apply NoDup_app in Hnd as (Hna & Hdisj & Hnb).
    assert (Hd1 : declared s1 [st]) by (split; [done|]; intros; apply Hdec; rewrite Hsplit; set_solver).
    assert (Hd2 : declared s2 block).
    { split; [done|]. intros l Hl. destruct (Hdec l) as [x Hx]; [rewrite Hsplit; set_solver|]. eexists. by eapply name_here_extends. }
    assert (Hback : forall x, in_scope s2 block x -> in_scope s1 block x).
    { intros x (l & Hl & Hx). exists l. split; [done|]. destruct (Hdec l) as [y Hy]; [rewrite Hsplit; set_solver|].
      pose proof (name_here_extends _ _ _ _ He Hy). congruence. }
    destruct (Hl1 Hd1) as [Hnd1 Hin1], (Hl2 Hd2) as [Hnd2 Hin2]. rewrite labels_app. split.
    + apply NoDup_app. split_and!; [done| |done]. intros x Hx1 Hx2.
      destruct (Hin1 _ Hx1) as [(a & Ha & Hxa)|H1], (Hin2 _ Hx2) as [Hs2|H2].
      * destruct (Hback _ Hs2) as (b & Hb & Hxb). rewrite (name_here_inj _ _ _ _ Hg1 Hxa Hxb) in Ha. by eapply Hdisj.
      * apply name_here_below in Hxa; [lia|done].
      * destruct (Hback _ Hs2) as (b & _ & Hxb). apply name_here_below in Hxb; [lia|done].
      * lia.
    + intros x [Hx|Hx]%elem_of_app.
      * destruct (Hin1 _ Hx) as [(a & Ha & Hxa)|?]; [left|right; lia]. exists a. rewrite Hsplit. set_solver.
      * destruct (Hin2 _ Hx) as [(a & Ha & Hxa)%Hback|?]; [left|right; lia]. exists a. rewrite Hsplit. set_solver.
Qed.

Lemma takes_each block :
  Forall (fun st => takes (need st) (run_statement st) (stmts_ok [st])) block ->
  takes (need_each block) (run_each block) (stmts_ok block).
Proof.
  induction 1 as [|st block Hst _ IH]; simpl.
  { apply takes_ret. intros s. split_and!; [constructor|done|]. intros _. unfold labels. split; [constructor|set_solver]. }
  intros s1 s3 out Hg Hr (s2 & o1 & Ho1 & (s3' & o2 & Ho2 & [= <- <-])%stm_bind_Ok_inv)%stm_bind_Ok_inv.
  pose proof (need_each_nonneg block). pose proof (need_nonneg st). unfold need_each in IH. fold (need_each block) in *.
  destruct (Hst _ _ _ Hg ltac:(lia) Ho1) as (Hg2 & Hc2 & He2 & HP2).
  destruct (IH _ _ _ Hg2 ltac:(lia) Ho2) as (Hg3 & Hc3 & He3 & HP3).
  split_and!; [done|lia|lia|by eapply extends_trans|]. eapply stmts_ok_cons; [exact Hg|exact Hg2|done|lia|done|done].
Qed.

(** Declaring the labels of a block: distinct names, fresh identifiers. *)
Lemma takes_declare_labels block :
  takes (Z.of_nat (length (ast_labels block))) (stm_iter (declare_label (D := D)) block)
    (fun s s' _ => NoDup (ast_labels block) /\
       forall l, l ∈ ast_labels block -> name_here s l = None /\ exists x, name_here s' l = Some x /\ cur s <= x).
Proof.
  induction block as [|st block IH].
  { apply takes_ret. intros s. split; [constructor|]. unfold ast_labels. set_solver. }
  destruct (match st with ALabel _ => true | _ => false end) eqn:Hst.
  2:{ assert (declare_label st = mret tt) as Hd by (by destruct st). cbn [stm_iter]. rewrite Hd.
      assert (Hal : ast_labels (st :: block) = ast_labels block) by (by destruct st). rewrite Hal. exact IH. }
  destruct st as [l| | |]; try done. intros s1 s3 [] Hg Hr (s2 & [] & Ho1 & Ho2)%stm_bind_Ok_inv.
  apply stm_bind_Ok_inv in Ho1 as (s2' & id & Hadd & [= <-]). assert (Hal : ast_labels (ALabel l :: block) = l :: ast_labels block) by done.
  rewrite Hal in Hr |- *. cbn [length] in Hr |- *.
  destruct (takes_add _ _ _ _ _ Hg ltac:(lia) Hadd) as (Hg2 & Hc2 & He2 & _).
  destruct (scoped_add_inv _ _ _ _ _ Hg ltac:(lia) Hadd) as (sc & outer & Hs & Hnone & -> & Hcur & Hs' & _).
  destruct (IH _ _ _ Hg2 ltac:(lia) Ho2) as (Hg3 & Hc3 & He3 & Hnd & Hfresh).
  assert (Hl2 : name_here s2' l = Some (cur s1)).
  { unfold name_here. rewrite Hs'. cbn [declare name_to_ident]. apply lookup_insert_eq. }
  split_and!; [done|lia|lia|by eapply extends_trans| |].
  - constructor; [|done]. intros Hin. destruct (Hfresh _ Hin) as [Hn _]. congruence.
  - intros l' [->|Hin]%elem_of_cons.
    + split; [unfold name_here; by rewrite Hs|]. exists (cur s1). split; [by eapply name_here_extends|lia].
    + destruct (Hfresh _ Hin) as (Hn & x & Hx & Hge). split; [|exists x; split; [done|lia]].
      unfold name_here in Hn |- *. rewrite Hs' in Hn. rewrite Hs. cbn [declare name_to_ident] in Hn.
      by apply lookup_insert_None in Hn as [? _].
Qed.

(** A scope around [m]: the outer scopes are as before. *)
Lemma good_start s s0 u : good s -> start_scope s = (s0, Ok u) -> good s0 /\ cur s0 = cur s /\ scopes s0 = scope_new :: scopes s.
Proof. intros [H0 Hg] [= <- _]. split_and!; [|done|done]. split; [done|]. constructor; [|done]. intros n id. unfold scope_new. simpl. by rewrite lookup_empty. Qed.

Lemma good_end s s0 s1 s2 u :
  good s -> good s1 -> cur s <= cur s1 -> scopes s0 = scope_new :: scopes s -> extends s0 s1 -> end_scope s1 = (s2, Ok u) ->
  good s2 /\ cur s2 = cur s1 /\ scopes s2 = scopes s.
Proof.
  intros [H0 Hg] [H1 Hg1] Hc Hs0 He. unfold extends in He. rewrite Hs0 in He. unfold end_scope.
  destruct (scopes s1) as [|sc outer]; [done|]. destruct He as [_ <-]. intros [= <- _].
  apply Forall_cons in Hg1 as [_ Hg1]. by split_and!.
Qed.

Lemma declared_fresh block s s' :
  (NoDup (ast_labels block) /\ forall l, l ∈ ast_labels block -> name_here s l = None /\ exists x, name_here s' l = Some x /\ cur s <= x) ->
  declared s' block /\ forall x, in_scope s' block x -> cur s <= x.
Proof.
  intros [Hnd Hl]. split.
  - split; [done|]. intros l Hin. destruct (Hl _ Hin) as (_ & x & Hx & _). eauto.
  - intros x (l & Hin & Hx). destruct (Hl _ Hin) as (_ & y & Hy & Hge). congruence.
Qed.

(** The statements of a body or block, labels declared first. *)
Definition body_ok (s s' : ScopedResolver) (out : list (NormalizedStatement D)) : Prop :=
  Forall (below (cur s')) out /\ forallb is_normalized out = true /\ NoDup (labels out) /\
  forall x, x ∈ labels out -> cur s <= x < cur s'.

Lemma takes_statements block :
  Forall (fun st => takes (need st) (run_statement st) (stmts_ok [st])) block ->
  takes (need (ABlock block)) (run_statements block) body_ok.
Proof.
  intros Hb s s' out Hg Hr (s1 & [] & Hd & He)%stm_bind_Ok_inv. change (need (ABlock block)) with (Z.of_nat (length (ast_labels block)) + need_each block) in *.
  pose proof (need_each_nonneg block).
  destruct (takes_declare_labels block _ _ _ Hg ltac:(lia) Hd) as (Hg1 & Hc1 & He1 & Hl).
  destruct (takes_each _ Hb _ _ _ Hg1 ltac:(lia) He) as (Hg2 & Hc2 & He2 & HF & Hn & Hlab).
  destruct (declared_fresh _ _ _ Hl) as [Hdec Hfresh]. destruct (Hlab Hdec) as [Hnd Hin].
  split_and!; [done|lia|lia|by eapply extends_trans|]. split_and!; [done|done|done|].
  intros x Hx. destruct (Hin _ Hx) as [Hs|Hs]; [|lia]. split; [by apply Hfresh|].
  destruct Hs as (l & _ & Hs). apply name_here_below in Hs; [lia|done].
Qed.

Lemma takes_statement st : takes (need st) (run_statement st) (stmts_ok [st]).
Proof.
  revert st. fix IH 1. intros [l|v|p i|block].
  - intros s s' out Hg _ (s1 & id & Hid & [= <- <-])%stm_bind_Ok_inv. unfold get_in_current_scope in Hid.
    destruct (scopes s) as [|sc outer] eqn:Hsc; [done|]. injection Hid as <- Hid.
    destruct (name_to_ident sc !! l) as [x|] eqn:Hx; simplify_eq/=.
    assert (Hh : name_here s l = Some id) by (unfold name_here; by rewrite Hsc).
    split_and!; [done|lia|lia|apply extends_refl|]. split_and!; [|done|].
    + constructor; [|constructor]. by eapply name_here_below.
    + intros _. unfold labels. simpl. split; [apply NoDup_singleton|]. intros x ->%list_elem_of_singleton. left.
      exists l. split; [unfold ast_labels; set_solver|done].
  - eapply takes_weaken; [apply takes_multivariable|done|]. intros s s' out Hv.
    assert (Hl : labels out = []).
    { clear -Hv. induction out as [|st out IHo]; [done|]. simpl in Hv. apply andb_prop in Hv as [Hst Hv].
      unfold labels in *. destruct st; try done. simpl. by apply IHo. }
    split_and!.
    + clear -Hv. induction out as [|st out IHo]; constructor; simpl in Hv; apply andb_prop in Hv as [Hst Hv]; [by destruct st|by apply IHo].
    + clear -Hv. induction out as [|st out IHo]; [done|]. simpl in *. apply andb_prop in Hv as [Hst Hv]. rewrite IHo by done. by destruct st.
    + intros _. rewrite Hl. split; [constructor|set_solver].
  - cbn [run_statement]. apply (takes_bind 0 0 _ _ anything (fun _ s s' out => exists o i', out = [InstructionStmt (o, i')] /\ target_below (cur s) i')).
    + destruct p as [p|]; [eapply takes_map; [apply takes_get|done]|by apply takes_ret].
    + intros o. eapply takes_map; [apply takes_visit_map|]. intros s s' i' Hi. eauto.
    + done.
    + intros s1 s2 s3 _ out _ _ _ Hc _ (o & i' & -> & Hi). split_and!; [|done|].
      * constructor; [|constructor]. destruct i'; simpl in *; try done. lia.
      * intros _. split; [constructor|]. unfold labels. set_solver.
  - assert (Hb : Forall (fun st => takes (need st) (run_statement st) (stmts_ok [st])) block).
    { clear -IH. induction block as [|st block IHb]; constructor; [apply IH|apply IHb]. }
    intros s s' out Hg Hr Hrun. change (run_statement (ABlock block)) with
      (start_scope ;; stm_iter declare_label block ;; result ← run_each block; end_scope ;; mret result) in Hrun.
    apply stm_bind_Ok_inv in Hrun as (s0 & u0 & Hst & (s1 & u1 & Hd & (s2 & out' & He & (s3 & u3 & Hend & [= <- <-])%stm_bind_Ok_inv)%stm_bind_Ok_inv)%stm_bind_Ok_inv).
    destruct (good_start _ _ _ Hg Hst) as (Hg0 & Hc0 & Hs0).
    destruct (takes_statements _ Hb s0 s2 out' Hg0 ltac:(lia)) as (Hg2 & Hc2 & He2 & HF & Hn & Hnd & Hin).
    { unfold run_statements. by erewrite stm_bind_Ok by exact Hd. }
    destruct (good_end _ _ _ _ _ Hg Hg2 ltac:(lia) Hs0 He2 Hend) as (Hg3 & Hc3 & Hs3).
    split_and!; [done|lia|lia|unfold extends; rewrite Hs3; by destruct (scopes s)|].
    split_and!; [by rewrite Hc3|done|]. intros _. split; [done|]. intros x Hx. right. specialize (Hin x Hx). lia.
Qed.

(** *** Functions and modules *)
Definition directive_ok (c : Z) (d : Directive2 (option (PredAt SpirvWord) * Instruction D SpirvWord (ParsedOperand SpirvWord)) (ParsedOperand SpirvWord)) : Prop :=
  match d with
  | DMethod f =>
      let b := default [] (f_body f) in Forall (below c) b /\ forallb is_normalized b = true /\ NoDup (labels b)
  | DVariable _ _ => True
  end.

Definition need_directive (d : AstDirective D) : Z :=
  match d with
  | ADVariable _ _ => 1
  | ADMethod _ m =>
      1 + (Z.of_nat (length (md_return_arguments (func_directive m))) + Z.of_nat (length (md_input_arguments (func_directive m))))
      + match af_body m with Some b => need (ABlock b) | None => 0 end
  end.

Definition need_module (ds : list (AstDirective D)) : Z := foldr (fun d n => need_directive d + n) 0 ds.

Lemma need_directive_nonneg d : 0 <= need_directive d.
Proof. destruct d as [|l m]; cbn [need_directive]; [lia|]. destruct (af_body m) as [b|]; [pose proof (need_nonneg (ABlock b))|]; lia. Qed.

Lemma need_module_nonneg ds : 0 <= need_module ds.
Proof. unfold need_module. induction ds as [|d ds IH]; simpl; [lia|]. pose proof (need_directive_nonneg d). lia. Qed.

Lemma takes_add_or_get name : takes 1 (add_or_get_in_current_scope_untyped name) anything.
Proof.
  intros s s' id Hg Hr Ha. unfold add_or_get_in_current_scope_untyped in Ha.
  destruct (scopes s) as [|sc outer] eqn:Hs; [done|]. destruct (name_to_ident sc !! name) as [i|] eqn:Hn.
  - destruct (sm_ident_map sc !! i) as [e|]; [|done]. injection Ha as <- _. split_and!; [done|lia|lia|apply extends_refl|done].
  - eapply (takes_add name None); [done|done|]. unfold scoped_add. rewrite Hs, Hn. exact Ha.
Qed.

Lemma takes_variables vs : takes (Z.of_nat (length vs)) (stm_collectM run_variable vs) anything.
Proof.
  eapply takes_weaken; [apply (takes_collect run_variable (fun _ => 1)); [done|apply takes_variable]| |done].
  clear. induction vs; simpl foldr; cbn [length]; lia.
Qed.

Lemma takes_function_decl decl :
  takes (Z.of_nat (length (md_return_arguments decl)) + Z.of_nat (length (md_input_arguments decl))) (run_function_decl decl) anything.
Proof.
  unfold run_function_decl. destruct (md_shared_mem decl); [intros s1 s2 a _ _ Hx; discriminate|].
  apply (takes_bind _ _ _ _ anything (fun _ => anything)); [apply takes_variables| |lia|done].
  intros rets. eapply takes_map; [apply takes_variables|done].
Qed.

Lemma takes_directive d : takes (need_directive d) (identifiers_run_directive d) (fun _ s' d' => directive_ok (cur s') d').
Proof.
  destruct d as [l v|l m]; cbn [need_directive identifiers_run_directive]; [eapply takes_map; [apply takes_variable|done]|].
  eapply (takes_map _ _ _ (fun _ s' f => directive_ok (cur s') (DMethod f))); [|done].
  intros s s' f Hg Hr Hrun. unfold identifiers_run_method in Hrun.
  apply stm_bind_Ok_inv in Hrun as (s1 & name & Hname & (s2 & u2 & Hstart & (s3 & args & Hargs & (s4 & body & Hbody &
    (s5 & u5 & Hend & [= <- <-])%stm_bind_Ok_inv)%stm_bind_Ok_inv)%stm_bind_Ok_inv)%stm_bind_Ok_inv).
  assert (Hb0 : 0 <= match af_body m with Some b => need (ABlock b) | None => 0 end)
    by (destruct (af_body m); [apply need_nonneg|lia]).
  destruct (takes_add_or_get _ _ _ _ Hg ltac:(lia) Hname) as (Hg1 & Hc1 & He1 & _).
  destruct (good_start _ _ _ Hg1 Hstart) as (Hg2 & Hc2 & Hs2).
  destruct (takes_function_decl (func_directive m) _ _ _ Hg2 ltac:(lia) Hargs) as (Hg3 & Hc3 & He3 & _).
  assert (Hb : good s4 /\ cur s3 <= cur s4 <= cur s3 + match af_body m with Some b => need (ABlock b) | None => 0 end /\
            extends s3 s4 /\ (Forall (below (cur s4)) (default [] body) /\ forallb is_normalized (default [] body) = true /\ NoDup (labels (default [] body)))).
  { destruct (af_body m) as [b|].
    - apply stm_bind_Ok_inv in Hbody as (s4' & b' & Hb & [= <- <-]).
      assert (Hall : Forall (fun st => takes (need st) (run_statement st) (stmts_ok [st])) b)
        by (apply Forall_forall; intros; apply takes_statement).
      destruct (takes_statements b Hall _ _ _ Hg3 ltac:(lia) Hb) as (Hg4 & Hc4 & He4 & HF & Hn & Hnd & _). split_and!; done || lia.
    - injection Hbody as <- <-. split_and!; [done|lia|lia|apply extends_refl|constructor|done|constructor]. }
  destruct Hb as (Hg4 & Hc4 & He4 & Hok).
  destruct (good_end _ _ _ _ _ Hg1 Hg4 ltac:(lia) Hs2 (extends_trans _ _ _ He3 He4) Hend) as (Hg5 & Hc5 & Hs5).
  split_and!; [done|lia|lia| |].
  - unfold extends in He1 |- *. by rewrite Hs5.
  - simpl. by rewrite Hc5.
Qed.

Lemma directive_ok_mono c c' d : c <= c' -> directive_ok c d -> directive_ok c' d.
Proof.
  intros Hc. destruct d as [|f]; [done|]. simpl. intros (? & ? & ?). split_and!; [|done|done].
  eapply Forall_impl; [eassumption|]. intros st. by apply below_mono.
Qed.

Lemma takes_directives ds :
  takes (need_module ds) (stm_collectM identifiers_run_directive ds) (fun _ s' ds' => Forall (directive_ok (cur s')) ds').
Proof.
  induction ds as [|d ds IH]; [apply takes_ret; constructor|].
  change (need_module (d :: ds)) with (need_directive d + need_module ds).
  eapply (takes_bind _ _ _ _ (fun _ s' d' => directive_ok (cur s') d')
            (fun d' s s' out => directive_ok (cur s) d' -> Forall (directive_ok (cur s')) out));
    [apply takes_directive| |apply need_module_nonneg|by auto].
  intros d' s s' out Hg Hr (s2 & ds2 & Hds & [= <- <-])%stm_bind_Ok_inv.
  destruct (IH _ _ _ Hg Hr Hds) as (Hg2 & Hc2 & He2 & HF). split_and!; [done|lia|lia|done|].
  intros Hd. constructor; [|done]. eapply directive_ok_mono; [|exact Hd]. lia.
Qed.
End NamesSpec.

Lemma takes_special_registers : takes 43 special_registers_new anything.
Proof.
  unfold special_registers_new. replace 43 with (Z.of_nat (length sreg_iter)) by done.
  generalize (mkSregs [] ∅). induction sreg_iter as [|sreg l IH]; intros acc; [by apply takes_ret|].
  cbn [stm_foldM length]. replace (Z.of_nat (S (length l))) with (1 + Z.of_nat (length l)) by lia.
  apply (takes_bind _ _ _ _ anything (fun _ => anything)); [|intros; apply IH|lia|done].
  eapply takes_map; [apply takes_add|done].
Qed.

Lemma known_run_id {D} (ds : list (Directive2 (option (PredAt SpirvWord) * Instruction D SpirvWord (ParsedOperand SpirvWord)) (ParsedOperand SpirvWord))) r :
  current_id (known_run r ds) = current_id r.
Proof.
  unfold known_run. revert r. induction ds as [|[l v|f] ds IH]; intros r; [done|apply IH|]. simpl. rewrite IH.
  unfold replace_with_ptx_impl. destruct (ident_map r !! f_name f) as [[[n|] ts]|]; try done. by destruct (existsb _ _).
Qed.

Lemma identifiers_run_ok {D} (ds : list (AstDirective D)) s s' ds' :
  good s -> cur s + need_module ds < 2 ^ 32 -> identifiers_run ds s = (s', Ok ds') ->
  cur s <= cur s' <= cur s + need_module ds /\ Forall (directive_ok (cur s')) ds'.
Proof.
  intros Hg Hr Hrun. unfold identifiers_run in Hrun.
  apply stm_bind_Ok_inv in Hrun as (s0 & u0 & Hst & (s1 & ds1 & Hds & (s2 & u2 & Hend & [= <- <-])%stm_bind_Ok_inv)%stm_bind_Ok_inv).
  destruct (good_start _ _ _ Hg Hst) as (Hg0 & Hc0 & Hs0).
  destruct (takes_directives ds _ _ _ Hg0 ltac:(lia) Hds) as (Hg1 & Hc1 & He1 & HF).
  destruct (good_end _ _ _ _ _ Hg Hg1 ltac:(lia) Hs0 He1 Hend) as (Hg2 & Hc2 & _). rewrite Hc2. split; [lia|done].
Qed.

(** A sample: a label in an inner block that shadows an outer one, a predicated
    branch to each, and a predicated call of a function defined later. *)
Definition sample_ast : list (AstDirective nat) :=
  let func name body := ADMethod LINK_NONE (mkAstFunction (mkMethodDecl [] name [] None) [] (Some body)) in
  let reg := mkInfo None (Scalar PredType) RegSpace [] in
  [ADMethod LINK_NONE (mkAstFunction (mkMethodDecl [] (FuncName "g") [] None) [] None);
   func (KernelName "k")
     [AVariable (Parameterized reg "p" 2);
      ALabel "L"; AInstruction None (Other 0%nat []);
      ABlock [ALabel "L"; AInstruction None (Other 1%nat [(false, OpReg "%tid")]); AInstruction (Some (mkPredAt false "p0")) (Bra "L")];
      AInstruction (Some (mkPredAt false "p0")) (Bra "L");
      AInstruction (Some (mkPredAt true "p1")) (Call (mkCallDetails false [] []) (mkCallArgs [] "g" []));
      AInstruction None (Ret false)];
   func (FuncName "g") [AInstruction None (Ret false)]].

Definition sample_frontend := match frontend sample_ast with Ok r => r | _ => ([], []) end.

(** [C14] The front of the compiler is sound: when names resolve, every body has
    distinct labels, and the module with its predicates turned into branches
    means what the named module means: on every machine each function, calls to
    the others included, has the same results.  The identifier counter starts
    at 1 with 43 special registers and must not overflow. *)
Theorem frontend_preserves_semantics {D St} {M : Machine D (ParsedOperand SpirvWord) St} (ds : list (AstDirective D)) ds1 ds2 :
  frontend ds = Ok (ds1, ds2) -> 44 + need_module ds + np_needed ds1 < 2 ^ 32 ->
  (forall f b, funs_of ds1 f = Some b -> NoDup (labels b)) /\
  forall f, same_function pred_action inst_action ds1 ds2 f.
Proof.
  unfold frontend. destruct (special_registers_new _) as [s0 sregs] eqn:Hs. destruct sregs as [m| |]; [|discriminate|discriminate]. cbn [mbind outcome_bind].
  destruct (identifiers_run ds s0) as [s1 nrm] eqn:Hi. destruct nrm as [ds1'| |]; [|discriminate|discriminate]. cbn [mbind outcome_bind].
  destruct (predicates_run ds1' _) as [r2 unc] eqn:Hp. destruct unc as [ds2'| |]; [|discriminate|discriminate]. cbn [mbind outcome_bind].
  intros [= -> ->] Hr. pose proof (np_needed_nonneg ds1) as Hnn. pose proof (need_module_nonneg ds) as Hmn.
  destruct (takes_special_registers (scoped_new (resolver_new 1)) s0 m) as (Hg0 & Hc0 & _ & _); [|done|exact Hs|].
  { split; [done|]. constructor; [|constructor]. intros n id. simpl. by rewrite lookup_empty. }
  change (cur (scoped_new (resolver_new 1))) with 1 in Hc0.
  destruct (identifiers_run_ok ds s0 s1 ds1 Hg0 ltac:(lia) Hi) as [Hc1 Hok]. split.
  - clear -Hok. intros f b. induction Hok as [|[l v|g] ds1 Hd Hok IH]; [done|done|]. simpl.
    case_decide; [|done]. simpl in Hd. destruct (f_body g); [|done]. intros [= ->]. tauto.
  - intros f. eapply predicates_semantics; [exact Hp| | |]; rewrite ?known_run_id; fold (cur s1); [|lia|lia].
    eapply Forall_impl; [exact Hok|]. intros [l v|g]; [done|]. simpl. tauto.
Qed.

#[local] Existing Instance countdown.

Lemma frontend_preserves_semantics_witness :
  (forall f b, funs_of sample_frontend.1 f = Some b -> NoDup (labels b)) /\
  same_function pred_action inst_action sample_frontend.1 sample_frontend.2 45 /\
  evaluates inst_action (funs_of sample_frontend.2) (default [] (funs_of sample_frontend.2 45)) 3 (Returned (-10)).
Proof.
  assert (H : frontend sample_ast = Ok (sample_frontend.1, sample_frontend.2)) by (vm_compute; reflexivity).
  destruct (frontend_preserves_semantics sample_ast _ _ H) as [Hl Hf]; [vm_compute; reflexivity|].
  split; [exact Hl|]. split; [exact (Hf 45)|]. exists 40%nat. vm_compute. reflexivity.
Defined.
