(* ===== verification/PtxBlocks.v ===== *)
(** * Basic blocks: shape and semantics of the normalized form

    [nb] is the block pass with identifiers counted without bound and returns
    replaced on the way; the pass, which records the positions of the returns and
    overwrites them at the end, computes it.  Its result is a sequence of blocks,
    each a label, plain statements and one terminator, and means what the body
    meant. *)
From stdpp Require Import base numbers list strings gmap relations.
From Stdlib Require Import ZArith Lia.
From S2P Require Import Prelude RustStr Ptx PtxSem PtxFlow PtxPredicates.

Local Open Scope Z_scope.
Local Open Scope list_scope.

Section Blocks.
Context {D : Type}.
Abbreviation EInst := (Instruction D SpirvWord SpirvWord).
Abbreviation Stmt := (Statement EInst SpirvWord).

(** ** The pass without its bookkeeping *)
Definition nb_prefix (id : Z) (prev : TerminatorKind) (st : Stmt) : list Stmt :=
  match prev, st with
  | TermNot, Label l => [jump l]
  | TermNot, _ => []
  | TermReal, Label _ => []
  | TermReal, _ => [Label id]
  | TermFake, Label l => [jump l]
  | TermFake, _ => [jump id; Label id]
  end.

Definition nb_fresh (prev : TerminatorKind) (st : Stmt) : Z :=
  match prev, st with
  | TermNot, _ | _, Label _ => 0
  | _, _ => 1
  end.

Definition is_ret (st : Stmt) : bool := match st with InstructionStmt (Ret _) => true | _ => false end.

(** A return becomes a jump to the common return block, if there is one. *)
Definition nb_stmt (rb : option Z) (st : Stmt) : Stmt :=
  match rb with Some l => if is_ret st then jump l else st | None => st end.

Fixpoint nb (id : Z) (prev : TerminatorKind) (rb : option Z) (rest : list Stmt) : list Stmt :=
  match rest with
  | [] => []
  | st :: rest =>
      nb_prefix id prev st ++ nb_stmt rb st :: nb (id + nb_fresh prev st) (is_block_terminator st) rb rest
  end.

Fixpoint nb_total (prev : TerminatorKind) (rest : list Stmt) : Z :=
  match rest with
  | [] => 0
  | st :: rest => nb_fresh prev st + nb_total (is_block_terminator st) rest
  end.

(** Where the returns are put. *)
Fixpoint marks (base : nat) (prev : TerminatorKind) (rest : list Stmt) : list nat :=
  match rest with
  | [] => []
  | st :: rest =>
      let here := (base + length (nb_prefix 0 prev st))%nat in
      (if is_ret st then [here] else []) ++ marks (S here) (is_block_terminator st) rest
  end.

Definition ret_block (rb : option Z) : list Stmt :=
  match rb with Some l => [Label l; InstructionStmt (Ret false)] | None => [] end.

(** The common return block of a body, if it gets one. *)
Definition nb_returns (is_kernel : bool) (id : Z) (rest : list Stmt) : option Z :=
  if (1 <? length (List.filter is_ret rest))%nat && negb is_kernel then Some (id + 1 + nb_total TermNot rest) else None.

Definition nb_body (is_kernel : bool) (id : Z) (st0 : Stmt) (rest : list Stmt) : list Stmt :=
  let rb := nb_returns is_kernel id rest in
  Label id :: st0 :: nb (id + 1) TermNot rb rest ++ ret_block rb.

Lemma nb_fresh_range prev st : 0 <= nb_fresh prev st <= 1.
Proof. by destruct prev, st. Qed.

Lemma nb_total_nonneg prev rest : 0 <= nb_total prev rest.
Proof.
  revert prev. induction rest as [|st rest IH]; intros prev; simpl; [done|].
  pose proof (nb_fresh_range prev st). specialize (IH (is_block_terminator st)). lia.
Qed.

Lemma length_nb_prefix id id' prev st : length (nb_prefix id prev st) = length (nb_prefix id' prev st).
Proof. by destruct prev, st. Qed.

Lemma length_marks base prev rest : length (marks base prev rest) = length (List.filter is_ret rest).
Proof.
  revert base prev. induction rest as [|st rest IH]; intros base prev; simpl; [done|].
  rewrite length_app, IH. by destruct (is_ret st).
Qed.

(** ** The pass computes it *)
Definition is_ret_value (st : Stmt) : bool := match st with RetValue _ _ => true | _ => false end.

Lemma register_unnamed_ok r :
  0 <= current_id r -> current_id r + 1 < 2 ^ 32 ->
  exists r', register_unnamed None r = (r', Ok (current_id r)) /\ current_id r' = current_id r + 1.
Proof. intros. apply register_ok; lia. Qed.

(** The emitted prefix. *)
Lemma blocks_prefix_ok prev st (result : list Stmt) r :
  0 <= current_id r -> current_id r + nb_fresh prev st < 2 ^ 32 ->
  exists r',
    match prev, st with
    | TermNot, Label label => mret (result ++ [jump label])
    | TermNot, _ => mret result
    | TermReal, Label _ => mret result
    | TermReal, _ => label ← register_unnamed None; mret (result ++ [Label label])
    | TermFake, Label label => mret (result ++ [jump label])
    | TermFake, _ => label ← register_unnamed None; mret (result ++ [jump label; Label label])
    end r = (r', Ok (result ++ nb_prefix (current_id r) prev st)) /\
    current_id r' = current_id r + nb_fresh prev st.
Proof.
  intros H0 Hr. destruct prev; destruct st; simpl in *;
    try (exists r; rewrite ?app_nil_r; split; [done|lia]);
    (destruct (register_unnamed_ok r) as (r' & H1 & Hc); [lia|lia|]; exists r';
     erewrite stm_bind_Ok by exact H1; split; [done|lia]).
Qed.

Lemma blocks_fold k rest acc prev rets r :
  existsb is_ret_value rest = false -> 0 <= current_id r -> current_id r + nb_total prev rest < 2 ^ 32 ->
  exists r' prev',
    stm_foldM (blocks_statement k) (acc, prev, rets) rest r =
      (r', Ok (acc ++ nb (current_id r) prev None rest, prev', rets ++ if k then [] else marks (length acc) prev rest)) /\
    current_id r' = current_id r + nb_total prev rest.
Proof.
  revert acc prev rets r. induction rest as [|st rest IH]; intros acc prev rets r Hn H0 Hr.
  { exists r, prev. simpl. rewrite app_nil_r. destruct k; rewrite app_nil_r; split; try done; lia. }
  simpl in Hn. apply orb_false_elim in Hn as [Hst Hn]. simpl in Hr.
  pose proof (nb_fresh_range prev st) as Hfr. pose proof (nb_total_nonneg (is_block_terminator st) rest) as Hto.
  destruct (blocks_prefix_ok prev st acc r) as (r1 & H1 & Hc1); [lia|lia|].
  set (here := length (acc ++ nb_prefix (current_id r) prev st)).
  assert (Hs : blocks_statement k (acc, prev, rets) st r =
            (r1, Ok ((acc ++ nb_prefix (current_id r) prev st) ++ [st], is_block_terminator st,
                     if is_ret st then if k then rets else rets ++ [here] else rets))).
  { unfold blocks_statement. erewrite stm_bind_Ok by exact H1. by destruct st as [| |[]| | | | | | | | | | | |]. }
  destruct (IH ((acc ++ nb_prefix (current_id r) prev st) ++ [st]) (is_block_terminator st)
              (if is_ret st then if k then rets else rets ++ [here] else rets) r1) as (r' & prev' & Hf & Hc); [done|lia|lia|].
  exists r', prev'. split; [|simpl; lia]. cbn [stm_foldM]. erewrite stm_bind_Ok by exact Hs. rewrite Hf, Hc1.
  simpl. do 3 f_equal; [by rewrite <- !app_assoc|]. rewrite !length_app.
  assert (here = (length acc + length (nb_prefix 0 prev st))%nat) as ->.
  { subst here. rewrite length_app. f_equal. apply length_nb_prefix. }
  rewrite (length_nb_prefix (current_id r) 0). rewrite Nat.add_1_r. destruct k, (is_ret st); simpl; by rewrite <- ?app_assoc.
Qed.

Lemma replace_returns rb acc id prev rest tail :
  foldM (fun result ret_index =>
           match result !! ret_index with
           | Some _ => Ok (<[ret_index := jump rb]> result)
           | None => Err Unreachable
           end) (acc ++ nb id prev None rest ++ tail) (marks (length acc) prev rest)
  = Ok (acc ++ nb id prev (Some rb) rest ++ tail).
Proof.
  revert acc id prev. induction rest as [|st rest IH]; intros acc id prev; [done|]. simpl.
  rewrite (length_nb_prefix 0 id).
  set (pre := acc ++ nb_prefix id prev st). rewrite <- !app_assoc. simpl.
  assert (Hsplit : forall x t, acc ++ nb_prefix id prev st ++ x :: t = pre ++ x :: t) by (intros; apply app_assoc).
  rewrite !Hsplit. rewrite foldM_app. replace (length acc + length (nb_prefix id prev st))%nat with (length pre)
    by (subst pre; apply length_app).
  assert (Hnext : forall x t, pre ++ x :: t = (pre ++ [x]) ++ t) by (intros; by rewrite <- app_assoc).
  assert (Hlen : forall x, S (length pre) = length (pre ++ [x : Stmt])) by (intros; rewrite length_app; simpl; lia).
  destruct (is_ret st) eqn:Hret; simpl.
  - rewrite list_lookup_middle by done. simpl. rewrite insert_app_r_alt, Nat.sub_diag by done. simpl.
    rewrite Hnext, (Hlen (jump rb)), IH. by rewrite <- app_assoc.
  - rewrite Hnext, (Hlen st), IH. by rewrite <- app_assoc.
Qed.
Lemma blocks_body_ok k st0 rest r :
  label_of st0 = None -> existsb is_ret_value rest = false -> 0 <= current_id r ->
  current_id r + 2 + nb_total TermNot rest < 2 ^ 32 ->
  exists r', blocks_run_body k (st0 :: rest) r = (r', Ok (nb_body k (current_id r) st0 rest)) /\
    current_id r <= current_id r' <= current_id r + 2 + nb_total TermNot rest.
Proof.
  intros Hl Hn H0 Hr. pose proof (nb_total_nonneg TermNot rest) as Hto.
  destruct (register_unnamed_ok r) as (r1 & H1 & Hc1); [lia|lia|].
  assert (Hfirst : blocks_first (st0 :: rest) r = (r1, Ok ([Label (current_id r); st0], rest))).
  { unfold blocks_first. destruct st0; try done; by erewrite stm_bind_Ok by exact H1. }
  unfold blocks_run_body. erewrite stm_bind_Ok by exact Hfirst.
  destruct (blocks_fold k rest [Label (current_id r); st0] TermNot [] r1) as (r2 & prev' & H2 & Hc2); [done|lia|lia|].
  erewrite stm_bind_Ok by exact H2. cbn [fst snd]. unfold convert_from_multiple_returns_to_single_return, nb_body, nb_returns.
  rewrite Hc1. destruct k; simpl.
  { rewrite andb_false_r. exists r2. simpl. rewrite app_nil_r. split; [done|lia]. }
  rewrite length_marks, andb_true_r. destruct (1 <? _)%nat eqn:Hm.
  - destruct (register_unnamed_ok r2) as (r3 & H3 & Hc3); [lia|lia|]. erewrite stm_bind_Ok by exact H3.
    exists r3. split; [|lia]. unfold stm_lift. rewrite Hc2, Hc1.
    pose proof (replace_returns (current_id r + 1 + nb_total TermNot rest) [Label (current_id r); st0] (current_id r + 1)
                  TermNot rest (ret_block (Some (current_id r + 1 + nb_total TermNot rest)))) as Hrep.
    simpl in Hrep. simpl. by rewrite Hrep.
  - exists r2. simpl. rewrite app_nil_r. split; [done|lia].
Qed.

(** Success also means that there was no return value to reject. *)
Lemma blocks_fold_no_ret_value k rest acc r r' out :
  stm_foldM (blocks_statement k) acc rest r = (r', Ok out) -> existsb is_ret_value rest = false.
Proof.
  revert acc r. induction rest as [|st rest IH]; intros [[acc prev] rets] r; [done|]. simpl.
  intros (r1 & a & Hs & Hr)%stm_bind_Ok_inv. rewrite (IH _ _ Hr), orb_false_r.
  apply stm_bind_Ok_inv in Hs as (r2 & a2 & _ & (r3 & a3 & Hs & _)%stm_bind_Ok_inv).
  by destruct st as [| |[]| | | | | | | | | | | |].
Qed.

Lemma blocks_body_inv k st0 rest r r' out :
  label_of st0 = None -> 0 <= current_id r -> current_id r + 2 + nb_total TermNot rest < 2 ^ 32 ->
  blocks_run_body k (st0 :: rest) r = (r', Ok out) ->
  out = nb_body k (current_id r) st0 rest /\ existsb is_ret_value rest = false /\
  current_id r <= current_id r' <= current_id r + 2 + nb_total TermNot rest.
Proof.
  intros Hl H0 Hr Hrun.
  assert (Hn : existsb is_ret_value rest = false).
  { apply stm_bind_Ok_inv in Hrun as (r1 & [f1 f2] & Hf & (r2 & a & Hs & _)%stm_bind_Ok_inv).
    assert (f2 = rest) as ->.
    { unfold blocks_first in Hf. destruct st0; try done; by apply stm_bind_Ok_inv in Hf as (? & ? & _ & [= _ _ ->]). }
    by eapply blocks_fold_no_ret_value. }
  destruct (blocks_body_ok k st0 rest r Hl Hn H0 Hr) as (r2 & H2 & Hc). rewrite H2 in Hrun.
  by injection Hrun as -> <-.
Qed.

(** ** Labels of the result *)
Definition stmt_below (id : Z) (st : Stmt) : Prop :=
  match st with
  | Label l => l < id
  | InstructionStmt (Bra l) => l < id
  | Conditional b => if_true b < id /\ if_false b < id
  | _ => True
  end.

Lemma label_of_nb_stmt rb st : label_of (nb_stmt rb st) = label_of st.
Proof. destruct rb; [|done]. simpl. by destruct st as [| |[]| | | | | | | | | | | |]. Qed.

Lemma labels_nb_stmt id prev rb st rest :
  labels (nb_prefix id prev st ++ nb_stmt rb st :: rest) =
  (if decide (nb_fresh prev st = 1) then [id] else []) ++ labels [st] ++ labels rest.
Proof.
  rewrite labels_app. unfold labels at 2. simpl. rewrite label_of_nb_stmt.
  assert (labels (nb_prefix id prev st) = if decide (nb_fresh prev st = 1) then [id] else []) as -> by (by destruct prev, st).
  f_equal. unfold labels. simpl. by destruct (label_of st).
Qed.

(** The labels of the result: those of the source, and fresh ones in a range. *)
Lemma nb_labels l id prev rb rest :
  l ∈ labels (nb id prev rb rest) -> l ∈ labels rest \/ id <= l < id + nb_total prev rest.
Proof.
  revert id prev. induction rest as [|st rest IH]; intros id prev; simpl; [set_solver|].
  rewrite labels_nb_stmt. pose proof (nb_fresh_range prev st). pose proof (nb_total_nonneg (is_block_terminator st) rest).
  rewrite !elem_of_app. intros [Hin|[Hin|Hin]].
  - case_decide; [|set_solver]. apply list_elem_of_singleton in Hin as ->. right. lia.
  - left. unfold labels in *. simpl in *. destruct (label_of st); set_solver.
  - destruct (IH _ _ Hin) as [?|?]; [left|right; lia]. unfold labels in *. simpl. destruct (label_of st); set_solver.
Qed.

Lemma nb_labels_NoDup id prev rb rest :
  Forall (stmt_below id) rest -> NoDup (labels rest) -> NoDup (labels (nb id prev rb rest)).
Proof.
  intros Hb. cut (forall id', id <= id' -> NoDup (labels rest) -> NoDup (labels (nb id' prev rb rest))); [intros H; by apply H|].
  revert prev. induction Hb as [|st rest Hst Hb IH]; intros prev id' Hid Hnd; simpl; [constructor|].
  rewrite labels_nb_stmt. pose proof (nb_fresh_range prev st).
  assert (Hold : forall l, l ∈ labels (st :: rest) -> l < id).
  { assert (Hall : Forall (stmt_below id) (st :: rest)) by (by constructor). revert Hall. generalize (st :: rest).
    intros b Hall l Hin. unfold labels in Hin. apply list_elem_of_omap in Hin as (x & Hx & He).
    rewrite Forall_forall in Hall. specialize (Hall _ Hx). by destruct x; simplify_eq/=. }
  assert (Hsplit : labels (st :: rest) = labels [st] ++ labels rest) by (unfold labels; simpl; by destruct (label_of st)).
  rewrite Hsplit in Hnd, Hold. apply NoDup_app in Hnd as (Hn1 & Hn2 & Hn3).
  assert (IH' := IH (is_block_terminator st) (id' + nb_fresh prev st) ltac:(lia) Hn3).
  rewrite !NoDup_app. split_and!; [case_decide; repeat constructor; set_solver| |done| |done].
  - intros l Hl. case_decide as Hf; [|set_solver]. apply list_elem_of_singleton in Hl as ->.
    rewrite elem_of_app. intros [Hin|Hin]; [specialize (Hold id'); set_solver by lia|].
    apply nb_labels in Hin as [Hin|Hin]; [specialize (Hold id'); set_solver by lia|lia].
  - intros l Hl Hin. apply nb_labels in Hin as [Hin|Hin]; [by eapply Hn2|].
    specialize (Hold l). rewrite elem_of_app in Hold. specialize (Hold (or_introl Hl)). lia.
Qed.
(** ** The simulation *)
Lemma nb_suffix l id prev rb rest :
  l < id ->
  match suffix_at l rest with
  | Some r => exists id' r', r = Label l :: r' /\ suffix_at l (nb id prev rb rest) = Some (Label l :: nb id' TermNot rb r')
  | None => suffix_at l (nb id prev rb rest) = None
  end.
Proof.
  revert id prev. induction rest as [|st rest IH]; intros id prev Hl; [done|]. simpl.
  pose proof (nb_fresh_range prev st).
  assert (Hpre : suffix_at l (nb_prefix id prev st ++ nb_stmt rb st :: nb (id + nb_fresh prev st) (is_block_terminator st) rb rest)
            = suffix_at l (nb_stmt rb st :: nb (id + nb_fresh prev st) (is_block_terminator st) rb rest)).
  { apply suffix_at_app. destruct prev, st; unfold labels; simpl; try set_solver; intros Hin%list_elem_of_singleton; lia. }
  rewrite Hpre. simpl. rewrite label_of_nb_stmt. case_decide as He.
  - destruct st; simplify_eq/=. exists (id + nb_fresh prev (Label l)), rest. split; [done|]. by destruct rb.
  - apply IH. lia.
Qed.

Definition is_real (st : Stmt) : bool := match is_block_terminator st with TermReal => true | _ => false end.
Definition ends (body : list Stmt) : bool := match last body with Some st => is_real st | None => false end.

(** What the pass expects of a body: it does not start with a label, its last
    statement ends a block, and its labels are distinct. *)
Definition blocks_input (body : list Stmt) : bool :=
  match head body with Some st => match label_of st with None => true | Some _ => false end | None => false end
  && ends body && bool_decide (NoDup (labels body)).

Lemma ends_cons st body : ends (st :: body) = true -> is_real st = false -> ends body = true.
Proof. unfold ends. destruct body as [|st' body]; [|done]. simpl. congruence. Qed.

Lemma ends_suffix pre st r : ends (pre ++ st :: r) = true -> ends (st :: r) = true.
Proof. unfold ends. by rewrite last_app_cons. Qed.

Section Machines.
Context {St : Type} {M : Machine D SpirvWord St}.
Variables ds1 ds2 : list (Directive2 EInst SpirvWord).

Definition nb_bodies (k : bool) (id0 : Z) (b1 b2 : list Stmt) : Prop :=
  exists st0 rest0, b1 = st0 :: rest0 /\ b2 = nb_body k id0 st0 rest0 /\ blocks_input b1 = true /\ Forall (stmt_below id0) b1.

Definition nb_position (rb : option Z) (id0 : Z) (b2 r1 r2 : list Stmt) : Prop :=
  exists st rest st' id' prev pre2, r1 = st :: rest /\ r2 = st' :: nb id' prev rb rest ++ ret_block rb /\
    (is_real st = false -> prev <> TermReal) /\ b2 = pre2 ++ r2 /\ (st' = st \/ st' = nb_stmt rb st) /\ ends r1 = true /\ Forall (stmt_below id0) r1.

Definition nb_related (b1 b2 r1 r2 : list Stmt) : Prop :=
  exists k id0, nb_bodies k id0 b1 b2 /\ nb_position (nb_returns k id0 (tail b1)) id0 b2 r1 r2.

Abbreviation nb_near := (near inst_action (funs_of ds2) nb_related).
Abbreviation nb_calls := (calls_match inst_action (funs_of ds1) (funs_of ds2) nb_related).

Lemma nb_body_NoDup k id0 b1 b2 : nb_bodies k id0 b1 b2 -> NoDup (labels b2).
Proof.
  intros (st0 & rest0 & -> & -> & Hin & Hb). unfold blocks_input in Hin.
  apply andb_prop in Hin as [[Hh _]%andb_prop Hnd]. apply bool_decide_eq_true_1 in Hnd. simpl in Hh.
  assert (Hl0 : label_of st0 = None) by (by destruct (label_of st0)).
  unfold labels in Hnd. simpl in Hnd. rewrite Hl0 in Hnd. apply Forall_cons in Hb as [_ Hb].
  pose proof (nb_total_nonneg TermNot rest0) as Hto.
  assert (Hold : forall l, l ∈ labels rest0 -> l < id0).
  { intros l Hin. unfold labels in Hin. apply list_elem_of_omap in Hin as (x & Hx & He).
    rewrite Forall_forall in Hb. specialize (Hb _ Hx). by destruct x; simplify_eq/=. }
  unfold nb_body. set (rb := nb_returns k id0 rest0).
  assert (Hlab : labels (Label id0 :: st0 :: nb (id0 + 1) TermNot rb rest0 ++ ret_block rb) =
            id0 :: labels (nb (id0 + 1) TermNot rb rest0) ++ labels (ret_block rb)).
  { rewrite <- labels_app. unfold labels. simpl. by rewrite Hl0. }
  rewrite Hlab. constructor.
  - rewrite elem_of_app. intros [Hin|Hin].
    + apply nb_labels in Hin as [?%Hold|?]; lia.
    + subst rb. unfold nb_returns in Hin. destruct (_ && _); [|set_solver]. apply list_elem_of_singleton in Hin. lia.
  - rewrite NoDup_app. split_and!.
    + apply nb_labels_NoDup; [|done]. eapply Forall_impl; [exact Hb|].
      intros [|?|[]|[]| | | | | | | | | | |]; simpl; lia.
    + intros l Hin Hr. subst rb. unfold nb_returns in *. destruct (_ && _); [|set_solver].
      apply list_elem_of_singleton in Hr as ->. apply nb_labels in Hin as [?%Hold|?]; lia.
    + destruct rb; unfold labels; simpl; repeat constructor; set_solver.
Qed.

Lemma nb_goto k id0 b1 b2 l :
  nb_bodies k id0 b1 b2 -> l < id0 ->
  match suffix_at l b1, suffix_at l b2 with
  | Some p, Some q => nb_near b1 b2 p q
  | None, None => True
  | _, _ => False
  end.
Proof.
  intros HB Hl. pose proof HB as (st0 & rest0 & Hb1 & Hb2 & Hin & Hb). unfold blocks_input in Hin.
  apply andb_prop in Hin as [[Hh Hends]%andb_prop _]. rewrite Hb1 in Hh. simpl in Hh.
  set (rb := nb_returns k id0 rest0) in *.
  assert (H1 : suffix_at l b1 = suffix_at l rest0).
  { rewrite Hb1. simpl. by destruct (label_of st0). }
  assert (H2 : suffix_at l b2 = match suffix_at l (nb (id0 + 1) TermNot rb rest0) with
                                | Some r => Some (r ++ ret_block rb) | None => None end).
  { rewrite Hb2. unfold nb_body. fold rb. cbn [suffix_at label_of]. rewrite decide_False by (intros ?; simplify_eq; lia).
    rewrite decide_False by (by destruct (label_of st0)). rewrite suffix_at_app_full.
    destruct (suffix_at l (nb _ _ _ _)); [done|]. subst rb. unfold nb_returns. destruct (_ && _); [|done]. simpl.
    pose proof (nb_total_nonneg TermNot rest0). by rewrite decide_False by (intros ?; simplify_eq; lia). }
  pose proof (nb_suffix l (id0 + 1) TermNot rb rest0 ltac:(lia)) as Hs. rewrite H1, H2 in *.
  destruct (suffix_at l rest0) as [r|] eqn:Hr; [|by rewrite Hs].
  destruct Hs as (id' & r' & -> & Hs). rewrite Hs in *. simpl in H2.
  apply suffix_at_Some in H2 as (pre2 & rest2 & Hpre2 & _ & _). apply suffix_at_Some in Hr as (pre1 & rest1 & Hpre1 & _ & _).
  apply near_here. exists k, id0. split; [done|]. rewrite Hb1. simpl. fold rb.
  exists (Label l), r', (Label l), id', TermNot, pre2. split_and!; try done; [by left| |].
  - rewrite Hb1, Hpre1 in Hends. by apply (ends_suffix (st0 :: pre1)).
  - rewrite Hb1, Hpre1 in Hb. apply Forall_cons in Hb as [_ Hb]. by apply Forall_app in Hb as [_ Hb].
Qed.
(** Falling through to the next statement, over the inserted jump and label. *)
Lemma nb_fall k id0 b1 b2 pre2 id' prev rest :
  nb_bodies k id0 b1 b2 -> let rb := nb_returns k id0 (tail b1) in
  b2 = pre2 ++ nb id' prev rb rest ++ ret_block rb -> prev <> TermReal -> ends rest = true ->
  Forall (stmt_below id0) rest -> nb_near b1 b2 rest (nb id' prev rb rest ++ ret_block rb).
Proof.
  intros HB rb Hb2 Hprev Hends Hbel. pose proof (nb_body_NoDup _ _ _ _ HB) as Hnd.
  destruct rest as [|st rest]; [done|]. simpl in Hb2 |- *. set (t := nb _ _ rb rest) in *.
  rewrite <- app_assoc in Hb2 |- *. simpl in Hb2 |- *.
  assert (Hcore : nb_near b1 b2 (st :: rest) (nb_stmt rb st :: t ++ ret_block rb)).
  { apply near_here. exists k, id0. split; [done|]. subst t.
    exists st, rest, (nb_stmt rb st), (id' + nb_fresh prev st), (is_block_terminator st), (pre2 ++ nb_prefix id' prev st).
    split_and!; try done; [by unfold is_real; destruct (is_block_terminator st)|by rewrite <- app_assoc|by right]. }
  destruct (nb_prefix id' prev st) as [|p1 ps] eqn:Hp; [done|].
  assert (Hjump : exists l, p1 = jump l /\ exists ps' u, ps = ps' /\ ps' ++ nb_stmt rb st :: t ++ ret_block rb = Label l :: u /\
            nb_near b1 b2 (st :: rest) (Label l :: u)).
  { destruct prev; [| done |].
    - destruct st; simplify_eq/=. eexists. split; [done|]. exists [], (t ++ ret_block rb). split; [done|].
      assert (nb_stmt rb (Label l) = Label l) as Hl by (by destruct rb). rewrite Hl in *. done.
    - destruct (label_of st) as [l|] eqn:Hl.
      + destruct st; simplify_eq/=. eexists. split; [done|]. exists [], (t ++ ret_block rb). split; [done|].
        assert (nb_stmt rb (Label l) = Label l) as Hl by (by destruct rb). rewrite Hl in *. done.
      + assert (p1 = jump id' /\ ps = [Label id']) as [-> ->] by (by destruct st; simplify_eq/=).
        eexists. split; [done|]. exists [Label id'], (nb_stmt rb st :: t ++ ret_block rb).
        split; [done|]. split; [done|]. by apply near_label. }
  destruct Hjump as (l & -> & ps' & u & <- & Hu & Hn). simpl in Hb2 |- *. rewrite Hu in Hb2 |- *.
  eapply near_silent; [|exact Hn]. intros s n. rewrite exec_S. cbn [stmt_action jump inst_action perform].
  assert (suffix_at l b2 = Some (Label l :: u)) as ->; [|done].
  rewrite Hb2. change (pre2 ++ jump l :: Label l :: u) with (pre2 ++ [jump l] ++ Label l :: u).
  rewrite app_assoc. apply suffix_at_unique. rewrite <- app_assoc. simpl. by rewrite <- Hb2.
Qed.

Lemma nb_diagram b1 b2 r1 r2 s :
  (forall f, nb_calls f) -> nb_related b1 b2 r1 r2 ->
  matched inst_action inst_action (funs_of ds1) (funs_of ds2) nb_related b1 b2 r1 r2 s.
Proof.
  intros Hcalls (k & id0 & HB & st & rest & st' & id' & prev & pre2 & -> & -> & Hprev & Hb2 & Hst & Hends & Hbel).
  set (rb := nb_returns k id0 (tail b1)) in *. apply Forall_cons in Hbel as [Hsb Hbel].
  set (t2 := nb id' prev rb rest ++ ret_block rb) in *.
  assert (Hfall : is_real st = false -> nb_near b1 b2 rest t2).
  { intros Hr. subst t2 rb. eapply (nb_fall k id0 b1 b2 (pre2 ++ [st'])); try done.
    - by rewrite <- app_assoc.
    - by apply Hprev.
    - by eapply ends_cons. }
  assert (Hsame : st' = st -> matched inst_action inst_action (funs_of ds1) (funs_of ds2) nb_related b1 b2 (st :: rest) (st' :: t2) s).
  { intros ->. apply (matched_perform _ _ _ _ _ _ _ _ _ _ 0%nat (stmt_action inst_action st s) rest t2); [done|done|].
    destruct st as [l|v|[l|d c|u|ty d src|det args]|br| | | | | | | | | | |]; cbn [stmt_action inst_action action_ok];
      try (destruct (effect _ s); cbn [continue action_ok]; by auto);
      try (destruct (effect_inst _ s); cbn [continue action_ok]; by auto); try by auto.
    - by eapply nb_goto.
    - eapply nb_goto; [done|]. simpl in Hsb. destruct (holds s _); tauto. }
  destruct Hst as [Heq|Heq]; [by apply Hsame|]. unfold nb_stmt in Heq.
  destruct rb as [l|] eqn:Hrb; [|by apply Hsame]. destruct (is_ret st) eqn:Hret; [|by apply Hsame].
  destruct st as [| |[]| | | | | | | | | | | |]; try done. rewrite Heq in *.
  apply (m_end _ _ _ _ _ _ _ _ _ _ 2%nat (Returned s)); [done|]. intros n. cbn [Nat.add]. rewrite exec_S. cbn [stmt_action jump inst_action perform].
  assert (suffix_at l b2 = Some [Label l; InstructionStmt (Ret false)]) as ->; [|done].
  pose proof (nb_body_NoDup _ _ _ _ HB) as Hnd. subst t2. simpl in Hb2.
  revert Hnd. rewrite Hb2. change (?a ++ ?x :: ?b ++ [?c; ?d]) with (a ++ [x] ++ b ++ c :: [d]).
  rewrite !app_assoc. apply suffix_at_unique.
Qed.
End Machines.

(** ** Modules *)
Definition blocks_needed (ds : list (Directive2 EInst SpirvWord)) : Z :=
  foldr (fun d n => match d with
                    | DMethod f => match f_body f with Some b => 2 + nb_total TermNot (tail b) + n | None => n end
                    | DVariable _ _ => n
                    end) 0 ds.

Definition all_bodies (P : bool -> list Stmt -> Prop) (ds : list (Directive2 EInst SpirvWord)) : Prop :=
  Forall (fun d => match d with
                   | DMethod f => match f_body f with Some b => P (f_is_kernel f) b | None => True end
                   | DVariable _ _ => True
                   end) ds.

Lemma all_bodies_funs (P : bool -> list Stmt -> Prop) ds f b :
  all_bodies P ds -> funs_of ds f = Some b -> exists k, P k b.
Proof.
  induction 1 as [|[l v|m] ds Hd _ IH]; [done|done|]. simpl in *.
  case_decide; [|done]. destruct (f_body m); [|done]. intros [= ->]. eauto.
Qed.

Lemma blocks_needed_nonneg ds : 0 <= blocks_needed ds.
Proof.
  induction ds as [|[l v|f] ds IH]; [done|done|]. simpl. destruct (f_body f) as [b|]; [|done].
  pose proof (nb_total_nonneg TermNot (tail b)). lia.
Qed.

(** [b2] is the normal form of [b1], with identifiers from [id] on. *)
Definition nb_of (id : Z) (k : bool) (b1 b2 : list Stmt) : Prop :=
  exists id0 st0 rest0, id <= id0 /\ b1 = st0 :: rest0 /\ b2 = nb_body k id0 st0 rest0 /\ existsb is_ret_value rest0 = false.

Lemma blocks_run_ok ds r ds' r' :
  blocks_run ds r = (r', Ok ds') -> all_bodies (fun _ b => blocks_input b = true) ds ->
  0 <= current_id r -> current_id r + blocks_needed ds < 2 ^ 32 ->
  Forall2 (same_shape (nb_of (current_id r))) ds ds'.
Proof.
  intros Hrun Hin H0 Hr. cut (forall id, id <= current_id r -> Forall2 (same_shape (nb_of id)) ds ds'); [intros H; by apply H|].
  revert r ds' Hrun H0 Hr. induction Hin as [|d ds Hd Hin IH]; intros r ds'; simpl.
  { intros [= <- <-]. constructor. }
  intros (r1 & d' & Hd' & (r2 & ds2 & Hds & [= <- <-])%stm_bind_Ok_inv)%stm_bind_Ok_inv H0 Hr id Hid.
  unfold blocks_run_directive in Hd'. destruct d as [l v|f].
  { injection Hd' as <- <-. constructor; [done|]. by eapply IH. }
  destruct (f_body f) as [b|] eqn:Hf.
  - apply stm_bind_Ok_inv in Hd' as (r3 & b2 & Hb & [= <- <-]). pose proof (blocks_needed_nonneg ds) as Hnn.
    destruct b as [|st0 rest0]; [done|]. simpl in Hr.
    assert (Hl0 : label_of st0 = None).
    { unfold blocks_input in Hd. simpl in Hd. by destruct (label_of st0). }
    apply blocks_body_inv in Hb as (-> & Hn & Hc); [|done|lia|lia].
    constructor; [|eapply IH; [exact Hds|lia|lia|lia]].
    split; [done|]. rewrite Hf. simpl. exists (current_id r), st0, rest0. by split_and!.
  - injection Hd' as <- <-. constructor; [split; [by destruct f; simplify_eq/=|by rewrite Hf]|]. by eapply IH.
Qed.

(** ** The shape of the result *)

(** After a statement of kind [prev]: a label opens a block, a terminator closes
    it, and a call is followed by a jump. *)
Fixpoint block_shape (prev : TerminatorKind) (body : list Stmt) : bool :=
  match body with
  | [] => match prev with TermReal => true | _ => false end
  | st :: rest =>
      match prev, st with
      | TermReal, Label _ => block_shape TermNot rest
      | TermReal, _ => false
      | TermFake, InstructionStmt (Bra _) => block_shape TermReal rest
      | TermFake, _ => false
      | TermNot, Label _ => false
      | TermNot, _ => block_shape (is_block_terminator st) rest
      end
  end.

Lemma block_shape_plain st rest : label_of st = None -> block_shape TermNot (st :: rest) = block_shape (is_block_terminator st) rest.
Proof. by destruct st. Qed.

Lemma nb_stmt_kind rb st : is_block_terminator (nb_stmt rb st) = is_block_terminator st.
Proof. destruct rb; [|done]. by destruct st as [| |[]| | | | | | | | | | | |]. Qed.

Lemma nb_shape id prev rb rest :
  match rest with [] => prev = TermReal | _ => ends rest = true end ->
  block_shape prev (nb id prev rb rest ++ ret_block rb) = true.
Proof.
  revert id prev. induction rest as [|st rest IH]; intros id prev Hends; [subst; by destruct rb|].
  assert (Hnext : forall id', block_shape (is_block_terminator st) (nb id' (is_block_terminator st) rb rest ++ ret_block rb) = true).
  { intros id'. apply IH. destruct rest; [|by rewrite <- Hends].
    unfold ends, is_real in Hends. simpl in Hends. by destruct (is_block_terminator st). }
  simpl. rewrite <- app_assoc. destruct (label_of st) as [l|] eqn:Hl.
  - destruct st; simplify_eq/=. assert (nb_stmt rb (Label l) = Label l) as -> by (by destruct rb).
    destruct prev; simpl; apply Hnext.
  - assert (Hs : forall t, block_shape TermNot (nb_stmt rb st :: t) = block_shape (is_block_terminator st) t).
    { intros t. rewrite block_shape_plain by (by rewrite label_of_nb_stmt). by rewrite nb_stmt_kind. }
    destruct prev.
    + assert (nb_prefix id TermNot st = []) as -> by (by destruct st). simpl app. rewrite Hs. apply Hnext.
    + assert (nb_prefix id TermReal st = [Label id]) as -> by (by destruct st). simpl app.
      change (block_shape TermReal (Label id :: ?t)) with (block_shape TermNot t). rewrite Hs. apply Hnext.
    + assert (nb_prefix id TermFake st = [jump id; Label id]) as -> by (by destruct st). simpl app.
      change (block_shape TermFake (jump id :: Label id :: ?t)) with (block_shape TermNot t). rewrite Hs. apply Hnext.
Qed.

Definition count_ret (body : list Stmt) : nat := length (List.filter is_ret body).

Lemma nb_count_ret id prev rb rest :
  count_ret (nb id prev rb rest) = match rb with Some _ => 0%nat | None => count_ret rest end.
Proof.
  unfold count_ret. revert id prev. induction rest as [|st rest IH]; intros id prev; simpl; [by destruct rb|].
  rewrite List.filter_app, length_app. assert (List.filter is_ret (nb_prefix id prev st) = []) as -> by (by destruct prev, st).
  simpl. specialize (IH (id + nb_fresh prev st) (is_block_terminator st)).
  destruct rb as [l|]; simpl; destruct (is_ret st) eqn:Hr; simpl; rewrite ?Hr; simpl; by rewrite IH.
Qed.
End Blocks.

(** ** A sample with a loop, a call and two returns *)
Definition sample_expanded : list (Directive2 (Instruction nat SpirvWord SpirvWord) SpirvWord) :=
  [sample_function 1 false
     [InstructionStmt (Other 0%nat []); Label 2; InstructionStmt (Other 1%nat []);
      Conditional (mkBranch 3 2 5); Label 5;
      InstructionStmt (Call (mkCallDetails false [] []) (mkCallArgs [] 4 []));
      InstructionStmt (Other 2%nat []); Conditional (mkBranch 3 6 7);
      Label 6; InstructionStmt (Ret false); Label 7; InstructionStmt (Ret true)];
   sample_function 4 false [InstructionStmt (Other 0%nat []); InstructionStmt (Ret false)]].

Definition sample_blocks :=
  match blocks_run sample_expanded (resolver_new 8) with (_, Ok ds) => ds | _ => [] end.

(** [C26] Normalization of basic blocks gives well-formed bodies, if every body it
    is given starts with an ordinary statement (neither a label nor a branch,
    conditional, return or call), ends in a branch, conditional or return, and
    has distinct labels; labels and targets are below the identifier counter, and
    the counter does not run out.  Then each body is a sequence of blocks, each
    opened by a label and closed by its only branch, conditional or return, a call
    is always followed by a jump, no label occurs twice, and a function that is
    not a kernel has at most one return.  A body that starts with a call, or with
    a branch or return followed by other statements, is not normalized this way:
    its first statement is never examined. *)
Theorem blocks_well_formed {D} (ds : list (Directive2 (Instruction D SpirvWord SpirvWord) SpirvWord)) r ds' r' :
  blocks_run ds r = (r', Ok ds') ->
  all_bodies (fun _ b => blocks_input b = true /\ Forall (stmt_below (current_id r)) b /\
                match head b with Some st => is_block_terminator st = TermNot | None => True end) ds ->
  0 <= current_id r -> current_id r + blocks_needed ds < 2 ^ 32 ->
  all_bodies (fun is_kernel b => block_shape TermReal b = true /\ NoDup (labels b) /\
                (is_kernel = false -> (count_ret b <= 1)%nat)) ds'.
Proof.
  intros Hrun Hin H0 Hr.
  assert (Hin' : all_bodies (fun _ b => blocks_input b = true) ds).
  { eapply Forall_impl; [exact Hin|]. intros [|f]; [done|]. destruct (f_body f); tauto. }
  pose proof (blocks_run_ok _ _ _ _ Hrun Hin' H0 Hr) as Hs. clear Hin' Hrun Hr. unfold all_bodies.
  induction Hs as [|[l v|f] [l' v'|f'] ds ds' Hd Hs IH]; [constructor|..]; try done;
    inversion_clear Hin as [|? ? Hb Hin'].
  { constructor; [done|by apply IH]. }
  constructor; [|by apply IH]. destruct Hd as [Hf Hd].
  assert (f_is_kernel f' = f_is_kernel f) as -> by (by rewrite Hf).
  destruct (f_body f) as [b|], (f_body f') as [b'|]; try done.
  destruct Hd as (id0 & st0 & rest0 & Hid & -> & -> & _). destruct Hb as (Hb & Hbel & Hplain). simpl in Hplain.
  assert (HB : nb_bodies (f_is_kernel f) id0 (st0 :: rest0) (nb_body (f_is_kernel f) id0 st0 rest0)).
  { exists st0, rest0. split_and!; try done. eapply Forall_impl; [exact Hbel|].
    intros [|?|[]|[]| | | | | | | | | | |]; simpl; lia. }
  split_and!; [|by eapply nb_body_NoDup|].
  - unfold blocks_input in Hb. apply andb_prop in Hb as [[Hh He]%andb_prop _]. simpl in Hh.
    assert (Hl0 : label_of st0 = None) by (by destruct (label_of st0)).
    unfold nb_body. change (block_shape TermReal (Label id0 :: ?t)) with (block_shape TermNot t).
    rewrite block_shape_plain by done. rewrite Hplain. apply nb_shape.
    destruct rest0; [|done]. unfold ends, is_real in He. simpl in He. by rewrite Hplain in He.
  - intros Hk. assert (Hr0 : is_ret st0 = false) by (by destruct st0 as [| |[]| | | | | | | | | | | |]).
    unfold nb_body, count_ret. simpl. rewrite Hr0, List.filter_app, length_app.
    pose proof (nb_count_ret (id0 + 1) TermNot (nb_returns (f_is_kernel f) id0 rest0) rest0) as Hc. unfold count_ret in Hc. rewrite Hc.
    unfold nb_returns. rewrite Hk. simpl. rewrite andb_true_r. destruct (1 <? _)%nat eqn:Hm; simpl; [lia|].
    apply Nat.ltb_ge in Hm. lia.
Qed.

Lemma blocks_well_formed_witness :
  all_bodies (fun is_kernel b => block_shape TermReal b = true /\ NoDup (labels b) /\
                (is_kernel = false -> (count_ret b <= 1)%nat)) sample_blocks.
Proof.
  eapply (blocks_well_formed sample_expanded (resolver_new 8)).
  - vm_compute. reflexivity.
  - repeat constructor.
  - done.
  - done.
Defined.

(** [C15] Normalization of basic blocks keeps the meaning of a module: every function
    has the same results on every machine, also after its returns are merged.
    Bodies do not start with a label, end in a terminator and have distinct
    labels below the identifier counter. *)
Theorem blocks_preserve_semantics {D St} {M : Machine D SpirvWord St} ds r ds' r' f :
  blocks_run ds r = (r', Ok ds') ->
  all_bodies (fun _ b => blocks_input b = true) ds -> all_statements (stmt_below (current_id r)) ds ->
  0 <= current_id r -> current_id r + blocks_needed ds < 2 ^ 32 ->
  same_function inst_action inst_action ds ds' f.
Proof.
  intros Hrun Hin Hb H0 Hr. pose proof (blocks_run_ok _ _ _ _ Hrun Hin H0 Hr) as Hs.
  assert (Hcalls : forall f, calls_match inst_action (funs_of ds) (funs_of ds') nb_related f).
  { intros g. pose proof (same_shape_funs _ _ _ g Hs) as Hg. unfold calls_match.
    destruct (funs_of ds g) as [b1|] eqn:H1, (funs_of ds' g) as [b2|] eqn:H2; try done.
    destruct Hg as (k & id0 & st0 & rest0 & Hid & -> & -> & _).
    assert (Hinb : blocks_input (st0 :: rest0) = true).
    { by destruct (all_bodies_funs _ _ _ _ Hin H1). }
    assert (Hbel : Forall (stmt_below id0) (st0 :: rest0)).
    { eapply Forall_impl; [by eapply all_statements_funs|]. intros [|?|[]|[]| | | | | | | | | | |]; simpl; lia. }
    unfold nb_body. apply near_label, near_here. exists k, id0. split; [by exists st0, rest0|]. simpl.
    set (rb := nb_returns k id0 rest0).
    apply andb_prop in Hinb as [[Hh He]%andb_prop _]. simpl in Hh.
    exists st0, rest0, st0, (id0 + 1), TermNot, [Label id0]. split_and!; try done. by left. }
  unfold same_function. specialize (Hcalls f) as Hf. unfold calls_match in Hf.
  destruct (funs_of ds f) as [b1|], (funs_of ds' f) as [b2|]; try done.
  intros s res. apply (simulation _ _ _ _ nb_related); [|done].
  intros. by apply nb_diagram.
Qed.

#[local] Existing Instance countdown.

Lemma blocks_preserve_semantics_witness :
  same_function inst_action inst_action sample_expanded sample_blocks 1 /\
  evaluates inst_action (funs_of sample_expanded) (default [] (funs_of sample_expanded 1)) 3 (Returned (-12)).
Proof.
  split; [|by exists 30%nat; vm_compute].
  eapply (blocks_preserve_semantics sample_expanded (resolver_new 8)).
  - vm_compute. reflexivity.
  - repeat constructor.
  - repeat constructor.
  - done.
  - done.
Defined.
