(* ===== verification/PtxReach.v ===== *)
(** * Removal of unreachable blocks and functions

    The control-flow graph the pass builds is the graph of branches between
    labels; a block is kept exactly when its label can be reached from the entry,
    a function exactly when it is a kernel or called somewhere, and what is kept
    means what it meant. *)
From stdpp Require Import base numbers list strings gmap relations.
From Stdlib Require Import ZArith Lia.
From S2P Require Import Prelude RustStr Ptx PtxSem PtxFlow PtxPredicates PtxBlocks.

Local Open Scope Z_scope.
Local Open Scope list_scope.

Section Reach.
Context {D : Type}.
Abbreviation EInst := (Instruction D SpirvWord SpirvWord).
Abbreviation Stmt := (Statement EInst SpirvWord).

(** ** Branches between labels *)
Definition targets (st : Stmt) : list SpirvWord :=
  match st with
  | Conditional b => [if_true b; if_false b]
  | InstructionStmt (Bra l) => [l]
  | _ => []
  end.

Fixpoint flow_edges (cur : SpirvWord) (body : list Stmt) : list (SpirvWord * SpirvWord) :=
  match body with
  | [] => []
  | st :: rest => (pair cur <$> targets st) ++ flow_edges (default cur (label_of st)) rest
  end.

Definition flows (E : list (SpirvWord * SpirvWord)) (a b : SpirvWord) : Prop := (a, b) ∈ E.

(** The label [l] can be reached from the first one of the body. *)
Definition reaches (body : list Stmt) (l : SpirvWord) : Prop :=
  match body with
  | Label e :: rest => rtc (flows (flow_edges e rest)) e l
  | _ => False
  end.

Definition current_label (cur : SpirvWord) (body : list Stmt) : SpirvWord :=
  foldl (fun cur st => default cur (label_of st)) cur body.

Lemma flow_edges_app cur a b : flow_edges cur (a ++ b) = flow_edges cur a ++ flow_edges (current_label cur a) b.
Proof. revert cur. induction a as [|st a IH]; intros cur; [done|]. simpl. by rewrite IH, <- app_assoc. Qed.

(** ** The graph of the pass *)
Record cfg_repr (E : list (SpirvWord * SpirvWord)) (cfg : ControlFlowGraph) : Prop := mk_cfg_repr {
  repr_inj : forall a b n, cfg_nodes cfg !! a = Some n -> cfg_nodes cfg !! b = Some n -> a = b;
  repr_bound : forall a n, cfg_nodes cfg !! a = Some n -> (n < length (node_weights (cfg_graph cfg)))%nat;
  repr_edges : forall p q, edge (cfg_graph cfg) p q <->
    exists a b, (a, b) ∈ E /\ cfg_nodes cfg !! a = Some p /\ cfg_nodes cfg !! b = Some q;
  repr_ends : forall a b, (a, b) ∈ E -> is_Some (cfg_nodes cfg !! a) /\ is_Some (cfg_nodes cfg !! b);
}.

Lemma cfg_new_repr : cfg_repr [] cfg_new.
Proof. split; simpl; intros; set_solver. Qed.

Lemma add_or_get_node_repr E cfg id n cfg' :
  cfg_repr E cfg -> add_or_get_node id cfg = (n, cfg') ->
  cfg_repr E cfg' /\ cfg_nodes cfg' !! id = Some n /\ cfg_nodes cfg ⊆ cfg_nodes cfg'.
Proof.
  intros HR. unfold add_or_get_node. destruct (cfg_nodes cfg !! id) as [m|] eqn:Hid; [by intros [= <- <-]|].
  simpl. intros [= <- <-]. simpl. assert (Hsub : cfg_nodes cfg ⊆ <[id:=length (node_weights (cfg_graph cfg))]> (cfg_nodes cfg))
    by (by apply insert_subseteq).
  split_and!; [|by rewrite lookup_insert_eq|done]. destruct HR as [Hinj Hbd Hed Hen]. split; simpl.
  - intros a b k. rewrite !lookup_insert_Some. intros [[<- <-]|[? Ha]] [[<- ?]|[? Hb]]; simplify_eq; try done.
    + apply Hbd in Hb. lia.
    + apply Hbd in Ha. lia.
    + by eapply Hinj.
  - intros a k. rewrite lookup_insert_Some, length_app. intros [[_ <-]|[_ Ha]]; [simpl; lia|]. apply Hbd in Ha. lia.
  - intros p q. unfold edge in *. simpl. rewrite Hed. split; intros (a & b & Hin & Ha & Hb); exists a, b.
    + split_and!; [done|by eapply lookup_weaken|by eapply lookup_weaken].
    + destruct (Hen _ _ Hin) as [[na Hna] [nb Hnb]].
      rewrite (lookup_weaken _ _ _ _ Hna Hsub) in Ha. rewrite (lookup_weaken _ _ _ _ Hnb Hsub) in Hb. by simplify_eq.
  - intros a b Hin. destruct (Hen _ _ Hin) as [[na Hna] [nb Hnb]]. split; eexists; by eapply lookup_weaken.
Qed.

Lemma add_branch_repr E cfg a na b :
  cfg_repr E cfg -> cfg_nodes cfg !! a = Some na ->
  cfg_repr (E ++ [(a, b)]) (add_branch na b cfg) /\ cfg_nodes cfg ⊆ cfg_nodes (add_branch na b cfg).
Proof.
  intros HR Ha. unfold add_branch. destruct (add_or_get_node b cfg) as [nb cfg'] eqn:Hb.
  destruct (add_or_get_node_repr _ _ _ _ _ HR Hb) as ([Hinj Hbd Hed Hen] & Hnb & Hsub). split; [|done].
  assert (Ha' : cfg_nodes cfg' !! a = Some na) by (by eapply lookup_weaken).
  split; simpl; [done|done| |].
  - intros p q. unfold edge in *. simpl. rewrite elem_of_app, Hed, list_elem_of_singleton. split.
    + intros [(x & y & Hin & ?)|[= -> ->]]; [exists x, y; set_solver|exists a, b; set_solver].
    + intros (x & y & Hin & Hx & Hy). apply elem_of_app in Hin as [Hin|Hin]; [left; eauto|].
      apply list_elem_of_singleton in Hin. simplify_eq. by right.
  - intros x y [Hin|Hin]%elem_of_app; [by apply Hen|]. apply list_elem_of_singleton in Hin. simplify_eq. eauto.
Qed.

(** Reachable nodes are reachable labels. *)
Lemma cfg_reach E cfg e ne l nl :
  cfg_repr E cfg -> cfg_nodes cfg !! e = Some ne -> cfg_nodes cfg !! l = Some nl ->
  rtc (edge (cfg_graph cfg)) ne nl <-> rtc (flows E) e l.
Proof.
  intros HR He Hl. split.
  - intros Hr. revert e He. induction Hr as [n|n m k Hnm Hr IH]; intros e He.
    + by rewrite (repr_inj _ _ HR _ _ _ He Hl).
    + apply (repr_edges _ _ HR) in Hnm as (a & b & Hin & Ha & Hb).
      rewrite (repr_inj _ _ HR _ _ _ He Ha). eapply rtc_l; [exact Hin|]. by apply IH.
  - intros Hr. revert ne He. induction Hr as [a|a b c Hab Hr IH]; intros na Ha; [by simplify_eq|].
    destruct (repr_ends _ _ HR _ _ Hab) as [_ [nb Hb]]. eapply rtc_l; [|by apply IH].
    apply (repr_edges _ _ HR). eauto.
Qed.

(** ** The scan *)
Definition callee_of (st : Stmt) : option SpirvWord :=
  match st with InstructionStmt (Call _ c) => Some (call_func c) | _ => None end.

Definition callees (body : list Stmt) : list SpirvWord := omap callee_of body.

Lemma elem_of_callees_cons f st body : f ∈ callees (st :: body) <-> callee_of st = Some f \/ f ∈ callees body.
Proof. unfold callees. rewrite !list_elem_of_omap. setoid_rewrite elem_of_cons. naive_solver. Qed.

Lemma no_callee (fs : gset SpirvWord) f : f ∈ fs <-> f ∈ fs \/ None = Some f.
Proof. naive_solver. Qed.

Lemma scan_repr body cfg cur n fs E out :
  cfg_repr E cfg -> cfg_nodes cfg !! cur = Some n -> foldM scan_statement (cfg, n, fs) body = Ok out ->
  cfg_repr (E ++ flow_edges cur body) out.1.1 /\ cfg_nodes cfg ⊆ cfg_nodes out.1.1 /\
  (forall l, l ∈ labels body -> is_Some (cfg_nodes out.1.1 !! l)) /\
  (forall f, f ∈ out.2 <-> f ∈ fs \/ f ∈ callees body).
Proof.
  revert cfg cur n fs E. induction body as [|st body IH]; intros cfg cur n fs E HR Hn.
  { intros [= <-]. simpl. rewrite app_nil_r. unfold labels, callees. set_solver. }
  cbn [foldM].
  assert (Hgen : forall cfg' cur' n' fs', cfg_repr (E ++ (pair cur <$> targets st)) cfg' -> cfg_nodes cfg' !! cur' = Some n' ->
            cur' = default cur (label_of st) -> cfg_nodes cfg ⊆ cfg_nodes cfg' ->
            (forall f, f ∈ fs' <-> f ∈ fs \/ callee_of st = Some f) ->
            foldM scan_statement (cfg', n', fs') body = Ok out ->
            cfg_repr (E ++ flow_edges cur (st :: body)) out.1.1 /\ cfg_nodes cfg ⊆ cfg_nodes out.1.1 /\
            (forall l, l ∈ labels (st :: body) -> is_Some (cfg_nodes out.1.1 !! l)) /\
            (forall f, f ∈ out.2 <-> f ∈ fs \/ f ∈ callees (st :: body))).
  { intros cfg' cur' n' fs' HR' Hn' -> Hsub Hfs Hf. destruct (IH _ _ _ _ _ HR' Hn' Hf) as (H1 & H2 & H3 & H4).
    cbn [flow_edges]. rewrite app_assoc. split_and!; [done|by etrans| |].
    - intros l Hl. unfold labels in Hl. simpl in Hl. destruct (label_of st) as [l'|] eqn:Hls; [|by apply H3].
      apply elem_of_cons in Hl as [->|Hl]; [|by apply H3]. eexists. by eapply lookup_weaken.
    - intros f. rewrite H4, Hfs, elem_of_callees_cons. tauto. }
  destruct st as [l|v|[l|d c|u|ty d src|det args]|br| | | | | | | | | | |]; cbn [scan_statement];
    try (apply (Hgen cfg cur n fs); [by rewrite app_nil_r|done|done|done|apply no_callee]); try done.
  - destruct (add_or_get_node l cfg) as [m cfg'] eqn:Hl. destruct (add_or_get_node_repr _ _ _ _ _ HR Hl) as (H1 & H2 & H3).
    apply (Hgen cfg' l m fs); [by rewrite app_nil_r|done|done|done|apply no_callee].
  - destruct (add_branch_repr _ _ _ _ l HR Hn) as [H1 H2].
    apply (Hgen (add_branch n l cfg) cur n fs); [done|by eapply lookup_weaken|done|done|apply no_callee].
  - apply (Hgen cfg cur n ({[call_func c]} ∪ fs)); [by rewrite app_nil_r|done|done|done|].
    intros f. simpl. rewrite elem_of_union, elem_of_singleton. naive_solver.
  - destruct (add_branch_repr _ _ _ _ (if_true br) HR Hn) as [H1 H2].
    destruct (add_branch_repr _ _ cur n (if_false br) H1) as [H3 H4]; [by eapply lookup_weaken|].
    rewrite <- app_assoc in H3. eapply (Hgen _ cur n fs); [exact H3|by eapply lookup_weaken, H4; eapply lookup_weaken|done|by etrans|apply no_callee].
Qed.
(** ** The kept statements *)
Fixpoint keep (vis : SpirvWord -> bool) (v : bool) (body : list Stmt) : list Stmt :=
  match body with
  | [] => []
  | st :: rest =>
      let v := match label_of st with Some l => vis l | None => v end in
      if v then st :: keep vis v rest else keep vis v rest
  end.

Definition node_visible `{Bfs} (cfg : ControlFlowGraph) (first : nat) (l : SpirvWord) : bool :=
  match cfg_nodes cfg !! l with Some n => discovered (cfg_graph cfg) first n | None => false end.

Lemma filter_keep `{Bfs} cfg first body :
  (forall l, l ∈ labels body -> is_Some (cfg_nodes cfg !! l)) ->
  try_filter_to_vec (keep_statement cfg first) true body = Ok (keep (node_visible cfg first) true body).
Proof.
  intros Hl. unfold try_filter_to_vec.
  cut (forall v acc, exists v', foldM (fun (acc : bool * list Stmt) item =>
          '(state, keep) ← keep_statement cfg first acc.1 item; Ok (state, if (keep : bool) then acc.2 ++ [item] else acc.2))
         (v, acc) body = Ok (v', acc ++ keep (node_visible cfg first) v body)).
  { intros H1. destruct (H1 true []) as [v' Hv]. by rewrite Hv. }
  induction body as [|st body IH]; intros v acc; [exists v; simpl; by rewrite app_nil_r|].
  assert (Hb : forall l, l ∈ labels body -> is_Some (cfg_nodes cfg !! l)).
  { intros l Hin. apply Hl. unfold labels in *. simpl. destruct (label_of st); set_solver. }
  destruct (label_of st) as [l|] eqn:Hst.
  - destruct st; simplify_eq/=. destruct (Hl l) as [n Hn]; [unfold labels; simpl; set_solver|].
    assert (Hnv : node_visible cfg first l = discovered (cfg_graph cfg) first n) by (unfold node_visible; by rewrite Hn).
    rewrite Hn, Hnv. simpl. destruct (IH Hb (discovered (cfg_graph cfg) first n)
                (if discovered (cfg_graph cfg) first n then acc ++ [Label l] else acc)) as [v' Hv].
    exists v'. rewrite Hv. destruct (discovered _ _ _) eqn:Hd; [by rewrite <- app_assoc|done].
  - assert (keep_statement cfg first v st = Ok (v, v)) as Hk by (by destruct st). simpl. rewrite Hk, Hst. simpl.
    destruct (IH Hb v (if v then acc ++ [st] else acc)) as [v' Hv]. exists v'. rewrite Hv.
    destruct v; [by rewrite <- app_assoc|done].
Qed.

(** [b2] is [b1] without the blocks that cannot be reached. *)
Definition trimmed (b1 b2 : list Stmt) : Prop :=
  exists vis, b2 = keep vis true b1 /\ (exists e rest, b1 = Label e :: rest) /\ (forall l, vis l = true <-> reaches b1 l).

Lemma unreachable_body_ok `{Bfs} fs body out :
  unreachable_run_body fs body = Ok out ->
  trimmed body out.1 /\ (forall f, f ∈ out.2 <-> f ∈ fs \/ f ∈ callees body).
Proof.
  unfold unreachable_run_body. destruct body as [|[e| | | | | | | | | | | | | |] rest]; try done.
  destruct (add_or_get_node e cfg_new) as [first cfg0] eqn:H0.
  destruct (add_or_get_node_repr _ _ _ _ _ cfg_new_repr H0) as (HR0 & He0 & _).
  destruct (foldM scan_statement (cfg0, first, fs) rest) as [acc| |] eqn:Hs; simpl; try done.
  destruct (scan_repr _ _ _ _ _ _ _ HR0 He0 Hs) as (HR & Hsub & Hlab & Hfs). simpl in HR.
  assert (He : cfg_nodes acc.1.1 !! e = Some first) by (by eapply lookup_weaken).
  rewrite filter_keep.
  2:{ intros l. unfold labels. simpl. rewrite elem_of_cons. intros [-> | Hin]; [by eexists|by apply Hlab]. }
  simpl. intros [= <-]. split; [|done]. eexists. split; [reflexivity|]. split; [eauto|].
  intros l. unfold node_visible, reaches. destruct (cfg_nodes acc.1.1 !! l) as [nl|] eqn:Hl.
  - rewrite discovered_spec. by apply cfg_reach.
  - split; [done|]. intros Hr. exfalso. apply rtc_inv_r in Hr as [<-|(x & _ & Hx)]; [congruence|].
    destruct (repr_ends _ _ HR _ _ Hx) as [_ [n Hn]]. congruence.
Qed.

(** ** The simulation *)
Lemma keep_suffix vis l v body :
  vis l = true -> suffix_at l (keep vis v body) = keep vis true <$> suffix_at l body.
Proof.
  intros Hl. revert v. induction body as [|st body IH]; intros v; [done|]. simpl. case_decide as He.
  - destruct st; simplify_eq/=. rewrite !Hl. simpl. by rewrite decide_True by done.
  - destruct (if label_of st then _ else _) eqn:Hv; [|apply IH]. simpl. rewrite decide_False by done. apply IH.
Qed.

Section Machines.
Context {St : Type} {M : Machine D SpirvWord St}.
Variables ds1 ds2 : list (Directive2 EInst SpirvWord).

(** The functions kept whole modulo unreachable blocks. *)
Variable reach : gset SpirvWord.

Definition calls_known (body : list Stmt) : Prop := forall f, f ∈ callees body -> f ∈ reach.

Definition known (f : SpirvWord) : Prop :=
  match funs_of ds1 f, funs_of ds2 f with
  | Some b1, Some b2 => trimmed b1 b2 /\ block_shape TermReal b1 = true /\ calls_known b1
  | None, None => True
  | _, _ => False
  end.

(** A position inside a reached block, or at its label. *)
Definition kept_at (vis : SpirvWord -> bool) (b1 r1 : list Stmt) : Prop :=
  exists pre prev, b1 = pre ++ r1 /\ block_shape prev r1 = true /\
    match r1 with
    | Label l :: _ => vis l = true
    | _ => prev <> TermReal /\ exists e pre', pre = Label e :: pre' /\ vis (current_label e pre') = true
    end.

Definition trim_related (b1 b2 r1 r2 : list Stmt) : Prop :=
  exists vis, b2 = keep vis true b1 /\ (forall l, vis l = true <-> reaches b1 l) /\ block_shape TermReal b1 = true /\
    calls_known b1 /\ r2 = keep vis true r1 /\ kept_at vis b1 r1.

Abbreviation trim_near := (near inst_action (funs_of ds2) trim_related).

Lemma current_label_snoc e pre st : current_label e (pre ++ [st]) = default (current_label e pre) (label_of st).
Proof. unfold current_label. by rewrite foldl_app. Qed.

(** The step to the next statement of the block. *)
Lemma kept_next vis b1 st rest :
  block_shape TermReal b1 = true -> kept_at vis b1 (st :: rest) -> is_real st = false -> kept_at vis b1 rest.
Proof.
  intros Hshape (pre & prev & Hb1 & Hs & Hk) Hr. exists (pre ++ [st]), (is_block_terminator st).
  assert (Hs' : block_shape (is_block_terminator st) rest = true /\
            (exists e pre', pre ++ [st] = Label e :: pre' /\ vis (current_label e pre') = true)).
  { destruct (label_of st) as [l|] eqn:Hl.
    - destruct st; simplify_eq/=. split; [by destruct prev|]. destruct pre as [|[e| | | | | | | | | | | | | |] pre]; simplify_eq/=; try done.
      + by exists l, [].
      + exists e, (pre ++ [Label l]). by rewrite current_label_snoc.
    - assert (Hk' : prev <> TermReal /\ exists e pre', pre = Label e :: pre' /\ vis (current_label e pre') = true) by (by destruct st).
      destruct Hk' as (Hp & e & pre' & -> & Hv). split.
      + destruct prev; [by rewrite block_shape_plain in Hs|done|]. by destruct st as [| |[]| | | | | | | | | | | |].
      + exists e, (pre' ++ [st]). rewrite current_label_snoc, Hl. done. }
  destruct Hs' as [Hs' Hpos]. split_and!; [by rewrite <- app_assoc|done|].
  assert (Hp : is_block_terminator st <> TermReal) by (unfold is_real in Hr; by destruct (is_block_terminator st)).
  destruct rest as [|[] rest]; try done. simpl in Hs'. by destruct (is_block_terminator st).
Qed.

Lemma reaches_branch vis b1 st rest l :
  (forall l, vis l = true <-> reaches b1 l) -> kept_at vis b1 (st :: rest) -> l ∈ targets st -> vis l = true.
Proof.
  intros Hvis (pre & prev & Hb1 & _ & Hk) Hl.
  assert (exists e pre', pre = Label e :: pre' /\ vis (current_label e pre') = true) as (e & pre' & -> & Hv).
  { destruct st; try (by destruct Hk); unfold targets in Hl; set_solver. }
  rewrite Hvis in Hv |- *. subst b1. simpl in *. eapply rtc_r; [exact Hv|]. unfold flows. rewrite flow_edges_app.
  apply elem_of_app. right. simpl. apply elem_of_app. left. by apply list_elem_of_fmap_2.
Qed.

Lemma block_shape_suffix prev (pre r : list Stmt) : block_shape prev (pre ++ r) = true -> exists prev', block_shape prev' r = true.
Proof.
  revert prev. induction pre as [|st pre IH]; intros prev; [by exists prev|]. simpl.
  destruct prev; destruct st as [| |[]| | | | | | | | | | | |]; try done; apply IH.
Qed.

Lemma trim_entry b1 b2 :
  trimmed b1 b2 -> block_shape TermReal b1 = true -> calls_known b1 -> trim_near b1 b2 b1 b2.
Proof.
  intros (vis & -> & (e & rest & ->) & Hvis) Hs Hc. apply near_here. exists vis. split_and!; try done.
  exists [], TermReal. split_and!; try done. apply Hvis. constructor.
Qed.

Lemma trim_diagram b1 b2 r1 r2 s :
  (forall f, f ∈ reach -> known f) -> trim_related b1 b2 r1 r2 ->
  matched inst_action inst_action (funs_of ds1) (funs_of ds2) trim_related b1 b2 r1 r2 s.
Proof.
  intros Hknown (vis & -> & Hvis & Hshape & Hcalls & -> & Hk). destruct r1 as [|st rest].
  { destruct Hk as (pre & prev & _ & Hs & Hp & _). by destruct prev. }
  assert (Hkeep : keep vis true (st :: rest) = st :: keep vis true rest).
  { destruct (label_of st) as [l|] eqn:Hl; [|simpl; by rewrite Hl]. destruct st; simplify_eq/=.
    destruct Hk as (? & ? & _ & _ & ->). done. }
  rewrite Hkeep.
  assert (Hnear : forall r, kept_at vis b1 r -> trim_near b1 (keep vis true b1) r (keep vis true r)).
  { intros r Hr. apply near_here. exists vis. by split_and!. }
  assert (Hnext : is_real st = false -> trim_near b1 (keep vis true b1) rest (keep vis true rest)).
  { intros. by eapply Hnear, kept_next. }
  assert (Hgoto : forall l, l ∈ targets st ->
            match suffix_at l b1, suffix_at l (keep vis true b1) with
            | Some p, Some q => trim_near b1 (keep vis true b1) p q
            | None, None => True
            | _, _ => False
            end).
  { intros l Hl. assert (Hv : vis l = true) by (by eapply reaches_branch). rewrite keep_suffix by done.
    destruct (suffix_at l b1) as [r|] eqn:Hr; [|done]. simpl. apply Hnear.
    apply suffix_at_Some in Hr as (pre & r' & Hb1 & -> & _).
    rewrite Hb1 in Hshape. apply block_shape_suffix in Hshape as [prev' Hs']. by exists pre, prev'. }
  apply (matched_perform _ _ _ _ _ _ _ _ _ _ 0%nat (stmt_action inst_action st s) rest (keep vis true rest)); [done|done|].
  destruct st as [l|v|[l|d c|u|ty d src|det args]|br| | | | | | | | | | |]; cbn [stmt_action inst_action action_ok];
    try (destruct (effect _ s); cbn [continue action_ok]; by auto);
    try (destruct (effect_inst _ s); cbn [continue action_ok]; by auto); try by auto.
  - apply Hgoto. set_solver.
  - split; [|by apply Hnext]. specialize (Hknown (call_func c)). unfold known, calls_match in *.
    assert (Hin : call_func c ∈ reach).
    { apply Hcalls. destruct Hk as (pre & ? & -> & _). unfold callees. rewrite omap_app. set_solver. }
    specialize (Hknown Hin). destruct (funs_of ds1 _), (funs_of ds2 _); try done.
    destruct Hknown as (? & ? & ?). by apply trim_entry.
  - apply Hgoto. destruct (holds s _); set_solver.
Qed.
End Machines.

(** ** Modules *)
Definition called (ds : list (Directive2 EInst SpirvWord)) : list SpirvWord :=
  mbind (fun d => match d with DMethod f => callees (default [] (f_body f)) | DVariable _ _ => [] end) ds.

(** Every method of that name is a kernel. *)
Definition kernel_name (ds : list (Directive2 EInst SpirvWord)) (f : SpirvWord) : Prop :=
  Forall (fun d => match d with DMethod m => f_name m = f -> f_is_kernel m = true | DVariable _ _ => True end) ds.

Lemma unreachable_fold `{Bfs} ds fs acc out :
  foldM unreachable_directive (fs, acc) ds = Ok out ->
  exists ds2, out.2 = acc ++ ds2 /\ Forall2 (same_shape (fun _ => trimmed)) ds ds2 /\
    (forall f, f ∈ out.1 <-> f ∈ fs \/ f ∈ called ds).
Proof.
  revert fs acc. induction ds as [|d ds IH]; intros fs acc.
  { intros [= <-]. exists []. simpl. rewrite app_nil_r. split_and!; [done|constructor|set_solver]. }
  cbn [foldM].
  assert (Hgen : forall fs' d', same_shape (fun _ => trimmed) d d' -> (forall f, f ∈ fs' <-> f ∈ fs \/ f ∈ called [d]) ->
            foldM unreachable_directive (fs', acc ++ [d']) ds = Ok out ->
            exists ds2, out.2 = acc ++ ds2 /\ Forall2 (same_shape (fun _ => trimmed)) (d :: ds) ds2 /\
              (forall f, f ∈ out.1 <-> f ∈ fs \/ f ∈ called (d :: ds))).
  { intros fs' d' Hd Hfs Hf. apply IH in Hf as (ds2 & -> & Hs & Hc). exists (d' :: ds2).
    rewrite <- app_assoc. split_and!; [done|by constructor|]. intros f. rewrite Hc, Hfs. unfold called. simpl. set_solver. }
  destruct d as [l v|f].
  { apply Hgen; [done|]. unfold called. simpl. set_solver. }
  unfold unreachable_directive at 2. destruct (f_body f) as [b|] eqn:Hf.
  - destruct (unreachable_run_body fs b) as [o| |] eqn:Hb; cbn [fst snd]; unfold mbind, outcome_bind; rewrite ?Hb; try done.
    apply unreachable_body_ok in Hb as [Ht Hfs]. apply Hgen; [split; [done|by rewrite Hf]|].
    intros g. rewrite Hfs. unfold called. simpl. rewrite Hf. simpl. set_solver.
  - apply Hgen; [split; [by destruct f; simplify_eq/=|by rewrite Hf]|]. unfold called. simpl. rewrite Hf. set_solver.
Qed.

Lemma funs_of_filter (P : Directive2 EInst SpirvWord -> bool) ds f :
  Forall (fun d => match d with DMethod m => f_name m = f -> P d = true | DVariable _ _ => True end) ds ->
  funs_of (List.filter P ds) f = funs_of ds f.
Proof.
  induction 1 as [|[l v|m] ds Hd _ IH]; [done|simpl; destruct (P _); by rewrite ?IH|]. simpl.
  destruct (P (DMethod m)) eqn:HP; simpl; rewrite IH; [done|]. case_decide; [|done]. by specialize (Hd ltac:(done)).
Qed.

Lemma funs_of_called ds f b h : funs_of ds f = Some b -> h ∈ callees b -> h ∈ called ds.
Proof.
  unfold called. induction ds as [|[l v|m] ds IH]; [done|done|]. cbn [funs_of mbind list_bind].
  rewrite elem_of_app. case_decide; [|intros; right; by apply IH].
  destruct (f_body m); [|intros; right; by apply IH]. intros [= ->] Hh. by left.
Qed.

Lemma unreachable_run_ok `{Bfs} ds ds' :
  unreachable_run ds = Ok ds' ->
  exists fs ds2, Forall2 (same_shape (fun _ => trimmed)) ds ds2 /\ ds' = List.filter (keeps_directive fs) ds2 /\
    (forall f, f ∈ fs <-> f ∈ called ds).
Proof.
  unfold unreachable_run. destruct (foldM _ _ ds) as [out| |] eqn:Hf; simpl; try done. intros [= <-].
  apply unreachable_fold in Hf as (ds2 & -> & Hs & Hc). exists out.1, ds2. split_and!; [done|done|]. set_solver.
Qed.
End Reach.

(** ** A breadth-first search *)
Definition bfs_step (E : list (nat * nat)) (seen : gset nat) : gset nat :=
  seen ∪ list_to_set (snd <$> filter (fun e => e.1 ∈ seen) E).

Fixpoint bfs_iter (n : nat) (E : list (nat * nat)) (seen : gset nat) : gset nat :=
  match n with 0%nat => seen | S n => bfs_iter n E (bfs_step E seen) end.

Lemma elem_of_bfs_step E seen x : x ∈ bfs_step E seen <-> x ∈ seen \/ exists y, (y, x) ∈ E /\ y ∈ seen.
Proof.
  unfold bfs_step. rewrite elem_of_union, elem_of_list_to_set, list_elem_of_fmap. split.
  - intros [?|([y z] & -> & [? ?]%list_elem_of_filter)]; [by left|right; eauto].
  - intros [?|(y & ? & ?)]; [by left|]. right. exists (y, x). split; [done|]. by apply list_elem_of_filter.
Qed.

Lemma bfs_sound n E seen x : x ∈ bfs_iter n E seen -> exists y, y ∈ seen /\ rtc (fun a b => (a, b) ∈ E) y x.
Proof.
  revert seen. induction n as [|n IH]; intros seen; simpl; [intros; exists x; split; [done|constructor]|].
  intros (y & Hy & Hr)%IH. apply elem_of_bfs_step in Hy as [Hy|(z & Hz & Hs)]; [eauto|].
  exists z. split; [done|]. by eapply rtc_l.
Qed.

Lemma bfs_iter_stable n E seen : bfs_step E seen = seen -> bfs_iter n E seen = seen.
Proof. intros Hs. induction n as [|n IH]; [done|]. simpl. by rewrite Hs. Qed.

Lemma size_list_to_set_le (l : list nat) : (size (list_to_set l : gset nat) <= length l)%nat.
Proof.
  induction l as [|x l IH]; cbn [list_to_set length]; [by rewrite size_empty|].
  pose proof (size_union_alt ({[x]} : gset nat) (list_to_set l)) as Hu. rewrite size_singleton in Hu.
  assert (size (list_to_set l ∖ {[x]} : gset nat) <= size (list_to_set l : gset nat))%nat by (apply subseteq_size; set_solver).
  lia.
Qed.

Lemma bfs_step_within E (U seen : gset nat) :
  seen ⊆ U -> list_to_set (snd <$> E) ⊆ U -> bfs_step E seen ⊆ U.
Proof.
  intros HU HE x [?|(y & Hy & _)]%elem_of_bfs_step; [set_solver|].
  apply HE, elem_of_list_to_set, list_elem_of_fmap. by exists (y, x).
Qed.

(** Each round that changes something adds a target of an edge. *)
Lemma bfs_closed n E (U seen : gset nat) :
  seen ⊆ U -> list_to_set (snd <$> E) ⊆ U -> (size U - size seen <= n)%nat ->
  bfs_step E (bfs_iter n E seen) = bfs_iter n E seen.
Proof.
  intros HU HE. revert seen HU. induction n as [|n IH]; intros seen HU Hn; simpl.
  - pose proof (bfs_step_within _ _ _ HU HE) as Hstep.
    assert (seen = U) as <- by (apply set_subseteq_size_eq; [done|lia]).
    apply set_eq_subseteq. split; [done|]. unfold bfs_step. set_solver.
  - pose proof (bfs_step_within _ _ _ HU HE) as Hstep.
    assert (Hge : seen ⊆ bfs_step E seen) by (unfold bfs_step; set_solver).
    destruct (decide (bfs_step E seen = seen)) as [Hs|Hs].
    { by rewrite Hs, bfs_iter_stable. }
    apply IH; [done|]. assert (size seen < size (bfs_step E seen))%nat; [|lia].
    apply subset_size. split; [done|]. intros Hle. apply Hs. by apply set_eq_subseteq.
Qed.

(** The nodes discovered from [start]. *)
Definition bfs_discovered (g : Graph) (start n : nat) : bool :=
  bool_decide (n ∈ bfs_iter (length (graph_edges g)) (graph_edges g) {[ start ]}).

Lemma bfs_discovered_spec g start n : bfs_discovered g start n = true <-> rtc (edge g) start n.
Proof.
  unfold bfs_discovered. rewrite bool_decide_eq_true. set (E := graph_edges g).
  set (R := bfs_iter (length E) E {[start]}). split.
  - intros (y & Hy & Hr)%bfs_sound. apply elem_of_singleton in Hy as ->. exact Hr.
  - assert (Hstart : start ∈ R).
    { subst R. generalize (length E). intros k. assert (start ∈ ({[start]} : gset nat)) as Hin by set_solver. revert Hin.
      generalize ({[start]} : gset nat). induction k as [|k IH]; intros seen Hin; simpl; [done|].
      apply IH, elem_of_bfs_step. by left. }
    assert (Hclosed : bfs_step E R = R).
    { apply (bfs_closed _ _ ({[start]} ∪ list_to_set (snd <$> E))); [set_solver|set_solver|].
      rewrite size_singleton. pose proof (size_union_alt ({[start]} : gset nat) (list_to_set (snd <$> E))) as Hu.
      rewrite size_singleton in Hu.
      assert (size (list_to_set (snd <$> E) ∖ {[start]} : gset nat) <= length E)%nat; [|lia].
      etrans; [apply subseteq_size with (Y := list_to_set (snd <$> E)); set_solver|].
      etrans; [apply size_list_to_set_le|]. by rewrite length_fmap. }
    clearbody R. intros Hr. induction Hr as [|a b c Hab Hr IH]; [done|].
    apply IH. rewrite <- Hclosed. apply elem_of_bfs_step. right. eauto.
Qed.

Definition bfs_search : Bfs := {| discovered := bfs_discovered; discovered_spec := bfs_discovered_spec |}.

(** ** A sample: a block, a function and a label nobody jumps to *)
Definition sample_reach : list (Directive2 (Instruction nat SpirvWord SpirvWord) SpirvWord) :=
  [sample_function 9 false [Label 10; InstructionStmt (Ret false)];
   sample_function 4 false [Label 11; InstructionStmt (Other 0%nat []); InstructionStmt (Ret false)];
   sample_function 1 true
     [Label 2; InstructionStmt (Other 1%nat []); Conditional (mkBranch 3 2 5);
      Label 6; InstructionStmt (Other 2%nat []); InstructionStmt (Bra 5);
      Label 5; InstructionStmt (Call (mkCallDetails false [] []) (mkCallArgs [] 4 [])); InstructionStmt (Bra 7);
      Label 7; InstructionStmt (Ret false)]].

Definition sample_kept `{Bfs} := match unreachable_run sample_reach with Ok ds => ds | _ => [] end.

(** Removal is exact: of every body exactly the blocks are kept whose label can
    be reached from the entry over branches, in order and unchanged, and of the
    functions exactly the kernels and those called somewhere in the module. *)
Theorem unreachable_removes_exactly {D} {B : Bfs} (ds ds' : list (Directive2 (Instruction D SpirvWord SpirvWord) SpirvWord)) :
  unreachable_run ds = Ok ds' ->
  exists ds2,
    Forall2 (same_shape (fun _ b1 b2 => exists vis, b2 = keep vis true b1 /\ forall l, vis l = true <-> reaches b1 l)) ds ds2 /\
    ds' = List.filter (fun d => match d with
                                | DVariable _ _ => true
                                | DMethod f => f_is_kernel f || bool_decide (f_name f ∈ called ds)
                                end) ds2.
Proof.
  intros (fs & ds2 & Hs & -> & Hc)%unreachable_run_ok. exists ds2. split.
  - eapply Forall2_impl; [exact Hs|]. intros [l v|f] [l' v'|f']; simpl; try done.
    intros [Hf Hb]. split; [done|]. destruct (f_body f), (f_body f'); try done.
    destruct Hb as (vis & -> & _ & Hv). eauto.
  - apply filter_ext. intros [l v|f]; [done|]. simpl. f_equal. apply bool_decide_ext, Hc.
Qed.

Lemma unreachable_removes_exactly_witness :
  exists ds2,
    Forall2 (same_shape (fun _ b1 b2 => exists vis, b2 = keep vis true b1 /\ forall l, vis l = true <-> reaches b1 l)) sample_reach ds2 /\
    @sample_kept bfs_search = List.filter (fun d => match d with
                                | DVariable _ _ => true
                                | DMethod f => f_is_kernel f || bool_decide (f_name f ∈ called sample_reach)
                                end) ds2.
Proof.
  apply (@unreachable_removes_exactly nat bfs_search sample_reach (@sample_kept bfs_search)).
  vm_compute. reflexivity.
Defined.

(** [C16] Removal keeps the meaning of a module of well-formed blocks: every kernel
    and every function that is called has the same results as before. *)
Theorem unreachable_preserves_semantics {D St} {M : Machine D SpirvWord St} {B : Bfs} ds ds' f :
  unreachable_run ds = Ok ds' ->
  all_bodies (fun _ b => block_shape TermReal b = true) ds ->
  f ∈ called ds \/ kernel_name ds f ->
  same_function inst_action inst_action ds ds' f.
Proof.
  intros (fs & ds2 & Hs & -> & Hc)%unreachable_run_ok Hshape Hf.
  set (ds' := List.filter (keeps_directive fs) ds2).
  assert (Hfuns : forall g, g ∈ called ds \/ kernel_name ds g -> funs_of ds' g = funs_of ds2 g).
  { intros g Hg. apply funs_of_filter. destruct Hg as [Hg|Hg].
    - apply Forall_forall. intros [|m] _; [done|]. intros <-. simpl. apply orb_true_intro. right.
      by apply bool_decide_eq_true_2, Hc.
    - clear -Hg Hs. unfold kernel_name in Hg.
      induction Hs as [|[l v|m] [l' v'|m'] ds ds2 Hd Hs IH]; [constructor|..]; try done; inversion_clear Hg; constructor; auto.
      destruct Hd as [Hm _]. intros Hn. simpl. apply orb_true_intro. left. rewrite Hm. simpl.
      match goal with H : _ -> f_is_kernel m = true |- _ => apply H end. by rewrite <- Hn, Hm. }
  assert (Hknown : forall g, g ∈ called ds \/ kernel_name ds g -> known ds ds' fs g).
  { intros g Hg. unfold known. rewrite (Hfuns g Hg). pose proof (same_shape_funs _ _ _ g Hs) as Hsh.
    destruct (funs_of ds g) as [b1|] eqn:H1, (funs_of ds2 g) as [b2|] eqn:H2; try done.
    destruct Hsh as (_ & Ht). split_and!; [done|by destruct (all_bodies_funs _ _ _ _ Hshape H1)|].
    intros h Hh. by eapply Hc, funs_of_called. }
  pose proof (Hknown f Hf) as Hkf. unfold same_function, known in *.
  destruct (funs_of ds f) as [b1|], (funs_of ds' f) as [b2|]; try done.
  intros s res. apply (simulation _ _ _ _ (trim_related fs)).
  - intros. apply trim_diagram; [|done]. intros g Hg. apply Hknown. left. by apply Hc.
  - destruct Hkf as (? & ? & ?). by apply trim_entry.
Qed.

#[local] Existing Instance countdown.

Lemma unreachable_preserves_semantics_witness :
  same_function inst_action inst_action sample_reach (@sample_kept bfs_search) 1 /\
  evaluates inst_action (funs_of sample_reach) (default [] (funs_of sample_reach 1)) 3 (Returned (-11)).
Proof.
  split; [|by exists 30%nat; vm_compute].
  apply (@unreachable_preserves_semantics _ _ countdown bfs_search sample_reach).
  - vm_compute. reflexivity.
  - repeat constructor.
  - right. repeat constructor; intros ?; done.
Defined.

(** ** Bodies that start with a label *)
Definition plain_head {I O} (body : list (Statement I O)) : Prop :=
  match body with st :: _ => label_of st = None | [] => False end.

Lemma blocks_fold_prefix {D} k (rest : list (Statement (Instruction D SpirvWord SpirvWord) SpirvWord)) acc r r' out :
  stm_foldM (blocks_statement k) acc rest r = (r', Ok out) -> exists more, out.1.1 = acc.1.1 ++ more.
Proof.
  revert acc r. induction rest as [|st rest IH]; intros [[acc prev] rets] r.
  { intros [= _ <-]. exists []. by rewrite app_nil_r. }
  cbn [stm_foldM]. intros (r1 & a & Hs & Hf)%stm_bind_Ok_inv. apply IH in Hf as [more Hm].
  apply stm_bind_Ok_inv in Hs as (r2 & a2 & Ha & (r3 & a3 & _ & [= _ <-])%stm_bind_Ok_inv).
  assert (exists p, a2 = acc ++ p) as [p ->].
  { destruct prev, st; try (injection Ha as _ <-; eauto; exists []; by rewrite app_nil_r);
      apply stm_bind_Ok_inv in Ha as (? & ? & _ & [= _ <-]); eauto. }
  exists (p ++ [st] ++ more). simpl in *. by rewrite Hm, <- !app_assoc.
Qed.

Lemma convert_plain_head {D} (res : list (Statement (Instruction D SpirvWord SpirvWord) SpirvWord)) rets r r' out :
  plain_head res -> convert_from_multiple_returns_to_single_return res rets r = (r', Ok out) -> plain_head out.
Proof.
  intros Hp. unfold convert_from_multiple_returns_to_single_return. destruct (1 <? _)%nat; [|by intros [= _ <-]].
  intros (r1 & l & _ & [= _ Hf])%stm_bind_Ok_inv.
  apply (foldM_Ok_ind _ (fun _ b => plain_head b)) in Hf; [done|by destruct res|].
  intros _ b i b' Hb _. destruct (b !! i); [|done]. intros [= <-]. destruct b as [|x b]; [done|]. by destruct i.
Qed.

(** A body that starts with a label is not handled: block normalization drops
    that label, the removal of unreachable blocks then finds no label at the
    start and reports an internal error, so the module is not compiled. *)
Theorem entry_label_dropped {D} {B : Bfs} k l (st : Statement (Instruction D SpirvWord SpirvWord) SpirvWord) rest fs r r' out :
  label_of st = None -> blocks_run_body k (Label l :: st :: rest) r = (r', Ok out) ->
  unreachable_run_body fs out = Err Unreachable.
Proof.
  intros Hst Hrun. cut (plain_head out); [by destruct out as [|[] ?]|].
  apply stm_bind_Ok_inv in Hrun as (r1 & first & [= <- <-] & (r2 & acc & Hfold & Hconv)%stm_bind_Ok_inv).
  eapply convert_plain_head; [|exact Hconv]. cbn [stm_foldM fst snd] in Hfold.
  apply stm_bind_Ok_inv in Hfold as (r3 & a & Hs & Hfold). apply blocks_fold_prefix in Hfold as [more ->].
  apply stm_bind_Ok_inv in Hs as (r4 & a4 & Ha & (r5 & a5 & _ & [= _ <-])%stm_bind_Ok_inv).
  assert (a4 = []) as -> by (destruct st; try done; by injection Ha as _ <-). done.
Qed.

Lemma entry_label_dropped_witness :
  @unreachable_run_body nat bfs_search ∅
    [InstructionStmt (Other 0%nat []); InstructionStmt (Bra 2); Label 8; InstructionStmt (Ret false)] = Err Unreachable.
Proof.
  eapply (@entry_label_dropped nat bfs_search true 2 (InstructionStmt (Other 0%nat []))
            [InstructionStmt (Bra 2); InstructionStmt (Ret false)] ∅ (resolver_new 8)); vm_compute; reflexivity.
Defined.

(** ** Hoisting *)
Section Hoist.
Context {D : Type}.
Abbreviation Stmt := (Statement (Instruction D SpirvWord SpirvWord) SpirvWord).

Definition hoisted_variable (st : Stmt) : option (PtxVariable SpirvWord) :=
  match st with VariableStmt var => if is_hoisted (v_space (v_info var)) then Some var else None | _ => None end.

(** A function is preceded by the globals of its body, in order, and keeps the
    rest of it. *)
Definition hoisted (d : Directive2 (Instruction D SpirvWord SpirvWord) SpirvWord)
    : list (Directive2 (Instruction D SpirvWord SpirvWord) SpirvWord) :=
  match d with
  | DMethod f =>
      match f_body f with
      | Some b =>
          (DVariable LINK_NONE <$> omap hoisted_variable b)
          ++ [DMethod (set_body (Some (filter (fun st => hoisted_variable st = None) b)) f)]
      | None => [d]
      end
  | DVariable _ _ => [d]
  end.

Lemma hoist_fold (b : list Stmt) res acc :
  foldl hoist_statement (res, acc) b =
  (res ++ (DVariable LINK_NONE <$> omap hoisted_variable b), acc ++ filter (fun st => hoisted_variable st = None) b).
Proof.
  revert res acc. induction b as [|st b IH]; intros res acc; simpl; [by rewrite !app_nil_r|].
  assert (Hs : hoist_statement (res, acc) st =
            match hoisted_variable st with Some v => (res ++ [DVariable LINK_NONE v], acc) | None => (res, acc ++ [st]) end).
  { destruct st; try done. simpl. by destruct (is_hoisted _). }
  rewrite Hs. rewrite filter_cons. destruct (hoisted_variable st) as [v|]; rewrite IH; simpl; by rewrite <- app_assoc.
Qed.

Theorem hoist_run_exact (ds : list (Directive2 (Instruction D SpirvWord SpirvWord) SpirvWord)) :
  hoist_run ds = mbind hoisted ds.
Proof.
  unfold hoist_run. change (mbind hoisted ds) with ([] ++ mbind hoisted ds). generalize (@nil (Directive2 (Instruction D SpirvWord SpirvWord) SpirvWord)).
  induction ds as [|d ds IH]; intros res; simpl; [by rewrite app_nil_r|]. rewrite IH, app_assoc. f_equal.
  unfold hoist_run_directive, hoisted. destruct d as [l v|f]; [done|]. destruct (f_body f) as [b|]; [|done].
  by rewrite hoist_fold, app_assoc.
Qed.
End Hoist.
