(* ===== verification/Sass.v ===== *)
(** * SASS instructions and instruction selection
    ([nvidia_sass/src/types.rs], [isel/mod.rs], [isel/patterns.rs])

    The data the assembler works on, with the source's constructors, and the
    selectors that build one instruction each. *)
From stdpp Require Import base numbers list strings.
From Stdlib Require Import ZArith Lia.
From S2P Require Import Prelude.

Local Open Scope Z_scope.

(** Register numbers, modifiers indices and the like are [u8]s as [Z]. *)
Inductive OpcodeClass : Type :=
| Alu3 | Alu2 | Fma | ClassLoad | ClassStore | Branch | Comparison | Sync | Special | ClassNop.

Record Opcode : Type := mkOpcode {
  mnemonic : string;
  op_class : OpcodeClass;
}.

Inductive Reg : Type :=
| R (n : Z)
| RZ
| P (n : Z)
| PT
| UR (n : Z)
| UP (n : Z).

Inductive SpecialReg : Type :=
| TidX | TidY | TidZ | CtaidX | CtaidY | CtaidZ | NctaidX | NctaidY | NctaidZ
| NtidX | NtidY | NtidZ | LaneId | WarpId | SmId | ClockLo | ClockHi
| GlobalTimerLo | GlobalTimerHi.

Inductive Operand : Type :=
| OReg (r : Reg)
| Imm20 (v : Z)
| Imm32 (v : Z)
| ConstBank (bank offset : Z)
| Memory (base : Reg) (offset : Z)
| BranchTarget (target : Z)
| SReg (sr : SpecialReg).

Record Predicate : Type := mkPredicate {
  p_reg : Reg;
  negated : bool;
}.

Inductive DataType : Type :=
| U8 | U16 | U32 | U64 | U128 | S8 | S16 | S32 | S64 | F16 | F32 | F64 | BF16 | TF32
| FP8E4M3 | FP8E5M2.

Inductive MemScope : Type := ScopeE | Strong | Cta | Gpu | Sys.
Inductive CacheOp : Type := Ef | El | Lu | Eu | Na.
Inductive CmpOp : Type := CmpLt | CmpEq | CmpLe | CmpGt | CmpNe | CmpGe | Ltu | Equ | Leu | Gtu | Neu | Geu.
Inductive MufuOp : Type := Rcp | Rsq | Sin | Cos | Ex2 | Lg2 | Rcp64h | Rsq64h.

Inductive Modifier : Type :=
| MDataType (t : DataType)
| MMemScope (s : MemScope)
| MCacheOp (c : CacheOp)
| MCmpOp (c : CmpOp)
| MBoolOp (n : Z)
| MMufuOp (m : MufuOp)
| MNeg (n : Z)
| MAbs (n : Z)
| MWide
| MHi.

Record ControlCodes : Type := mkControlCodes {
  stall : Z;
  yield_flag : bool;
  write_barrier : Z;
  read_barrier : Z;
  wait_mask : Z;
  reuse : Z;
}.

Definition default_control : ControlCodes := mkControlCodes 15 false 7 7 0 0.

Record SassInst : Type := mkSassInst {
  opcode : Opcode;
  dst : option Reg;
  srcs : list Operand;
  pred : option Predicate;
  modifiers : list Modifier;
  control : ControlCodes;
}.

Record SassKernel : Type := mkSassKernel {
  k_name : string;
  instructions : list SassInst;
  num_registers : Z;
  shared_mem_bytes : Z;
  const_mem_bytes : Z;
  local_mem_bytes : Z;
  max_threads : Z;
  k_params : list (string * Z * Z);
}.

Record SassModule : Type := mkSassModule {
  kernels : list SassKernel;
  sm_version : Z;
  global_constants : list Z;
}.

#[global] Instance OpcodeClass_eq_dec : EqDecision OpcodeClass.
Proof. solve_decision. Defined.
#[global] Instance Opcode_eq_dec : EqDecision Opcode.
Proof. solve_decision. Defined.
#[global] Instance Reg_eq_dec : EqDecision Reg.
Proof. solve_decision. Defined.
#[global] Instance SpecialReg_eq_dec : EqDecision SpecialReg.
Proof. solve_decision. Defined.
#[global] Instance Operand_eq_dec : EqDecision Operand.
Proof. solve_decision. Defined.
#[global] Instance Predicate_eq_dec : EqDecision Predicate.
Proof. solve_decision. Defined.
#[global] Instance ControlCodes_eq_dec : EqDecision ControlCodes.
Proof. solve_decision. Defined.

(** What a failed encoding reports; the code formats these as text. *)
Inductive encoding_msg : Type :=
| UnknownMnemonic
| ControlMismatch (encoded decoded : ControlCodes)
| OpcodeMismatch (got expected : Z)
| DstMismatch (got expected : Z)
| PredMismatch
| ExpectedPT (got : Z).

Inductive NvSassError : Type :=
| UnsupportedSmVersion (v : Z)
| EncodingError (opcode : string) (msg : encoding_msg)
| RegAllocError (msg : string)
| ISelError (msg : string)
| CubinError (msg : string)
| ElfError (msg : string).

(** [encode_gpr] and [encode_pred] panic on the wrong kind of register. *)
Definition encode_gpr (r : Reg) : outcome NvSassError Z :=
  match r with
  | R n => Ok n
  | RZ => Ok 255
  | _ => Panic
  end.

Definition encode_pred (r : Reg) : outcome NvSassError Z :=
  match r with
  | P n => Ok n
  | PT => Ok 7
  | _ => Panic
  end.

Definition encode_sreg (sr : SpecialReg) : Z :=
  match sr with
  | LaneId => 0x00
  | WarpId => 0x02
  | SmId => 0x06
  | TidX => 0x21
  | TidY => 0x22
  | TidZ => 0x23
  | CtaidX => 0x25
  | CtaidY => 0x26
  | CtaidZ => 0x27
  | NtidX => 0x29
  | NtidY => 0x2a
  | NtidZ => 0x2b
  | NctaidX => 0x2d
  | NctaidY => 0x2e
  | NctaidZ => 0x2f
  | ClockLo => 0x50
  | ClockHi => 0x51
  | GlobalTimerLo => 0x58
  | GlobalTimerHi => 0x59
  end.

(** ** Instruction selection *)

(** An unpredicated instruction with default control codes. *)
Definition plain (name : string) (class : OpcodeClass) (d : option Reg) (operands : list Operand)
    (mods : list Modifier) : SassInst :=
  mkSassInst (mkOpcode name class) d operands None mods default_control.

Definition select_add_i32 (d src1 src2 : Z) : SassInst :=
  plain "IADD3" Alu3 (Some (R d)) [OReg (R src1); OReg (R src2)] [].

Definition select_fma_f32 (d src1 src2 src3 : Z) : SassInst :=
  plain "FFMA" Fma (Some (R d)) [OReg (R src1); OReg (R src2); OReg (R src3)] [].

Definition select_add_f32 (d src1 src2 : Z) : SassInst :=
  plain "FADD" Alu3 (Some (R d)) [OReg (R src1); OReg (R src2)] [].

Definition select_mul_f32 (d src1 src2 : Z) : SassInst :=
  plain "FMUL" Alu3 (Some (R d)) [OReg (R src1); OReg (R src2)] [].

Definition select_load_global (d addr offset : Z) : SassInst :=
  plain "LDG" ClassLoad (Some (R d)) [Memory (R addr) offset] [MDataType U32].

Definition select_store_global (addr offset data : Z) : SassInst :=
  plain "STG" ClassStore None [Memory (R addr) offset; OReg (R data)] [MDataType U32].

Definition select_mov (d src : Z) : SassInst :=
  plain "MOV" Alu2 (Some (R d)) [OReg (R src)] [].

Definition select_branch (target : Z) : SassInst :=
  plain "BRA" Branch None [BranchTarget target] [].

Definition select_exit : SassInst := plain "EXIT" Branch None [] [].

(** [barrier_id as i32] reinterprets the [u32]. *)
Definition u32_as_i32 (z : Z) : Z := if z <? 2 ^ 31 then z else z - 2 ^ 32.

Definition select_bar_sync (barrier_id : Z) : SassInst :=
  plain "BAR" Sync None [Imm20 (u32_as_i32 barrier_id)] [].

Definition select_special_reg (d : Z) (sreg : SpecialReg) : SassInst :=
  plain "S2R" Special (Some (R d)) [SReg sreg] [].

Definition select_isetp (pred_dst src1 src2 : Z) (cmp : CmpOp) : SassInst :=
  plain "ISETP" Comparison (Some (P pred_dst)) [OReg (R src1); OReg (R src2)] [MCmpOp cmp].

Definition select_nop : SassInst := plain "NOP" ClassNop None [] [].

(** LLVM operations and types named by the pattern tables. *)
Inductive LlvmOp : Type :=
| LAdd | LFAdd | LSub | LFSub | LMul | LFMul | LSDiv | LUDiv | LFDiv | LAnd | LOr | LXor
| LShl | LLShr | LAShr | LICmp | LFCmp | LLoad | LStore | LBr | LRet | LCall | LAlloca
| LGetElementPtr | LBitCast | LTrunc | LZExt | LSExt | LFPToUI | LFPToSI | LUIToFP | LSIToFP
| LFPTrunc | LFPExt | LSelect | LPhi.

Inductive IrType : Type := I1 | I8 | I16 | I32 | I64 | IF16 | IF32 | IF64 | Ptr.
