(* ===== verification/Encoding.v ===== *)
(** * Encoding of SASS instructions
    ([nvidia_sass/src/encoding/], [nvidia_sass/src/roundtrip.rs])

    An instruction is two little-endian 64-bit words: the operation with its
    register, predicate and immediate fields, and the control codes.  Every
    field of a well-formed instruction can be read back from the bytes. *)
From stdpp Require Import base numbers list strings sets.
From Stdlib Require Import ZArith Lia Ascii.
From S2P Require Import Prelude RustStr Sass.

Local Open Scope Z_scope.

(** [i32 as u32] *)
Definition as_u32 (v : Z) : Z := wrap 32 v.

(** ** Control codes *)
Definition cc_encode (cc : ControlCodes) : Z :=
  let bits := 0 in
  let bits := Z.lor bits (Z.land (stall cc) 0xF) in
  let bits := Z.lor bits (shl (Z.land (Z.b2z (yield_flag cc)) 1) 4) in
  let bits := Z.lor bits (shl (Z.land (write_barrier cc) 0x7) 5) in
  let bits := Z.lor bits (shl (Z.land (read_barrier cc) 0x7) 8) in
  let bits := Z.lor bits (shl (Z.land (wait_mask cc) 0x3F) 11) in
  Z.lor bits (shl (Z.land (reuse cc) 0xF) 17).

Definition cc_decode (bits : Z) : ControlCodes :=
  mkControlCodes (Z.land bits 0xF) (negb (Z.land (Z.shiftr bits 4) 1 =? 0))
    (Z.land (Z.shiftr bits 5) 0x7) (Z.land (Z.shiftr bits 8) 0x7)
    (Z.land (Z.shiftr bits 11) 0x3F) (Z.land (Z.shiftr bits 17) 0xF).

(** ** Opcodes *)
Definition OPCODE_TABLE : list (string * Z) :=
  [("LDG", 0x380); ("LDG.E", 0x381); ("STG", 0x385); ("STG.E", 0x386); ("LDS", 0x388);
   ("STS", 0x389); ("LDL", 0x38C); ("STL", 0x38D); ("LDC", 0x390);
   ("ATOMG", 0x3A8); ("ATOMS", 0x3A9); ("RED", 0x3AC);
   ("IADD", 0x210); ("IADD3", 0x211); ("IMAD", 0x214); ("IMAD.WIDE", 0x215); ("IMUL", 0x218);
   ("ISETP", 0x21C); ("ISET", 0x21D); ("IABS", 0x220); ("INEG", 0x221);
   ("FADD", 0x300); ("FMUL", 0x304); ("FFMA", 0x308); ("FSETP", 0x30C); ("FSET", 0x30D);
   ("FABS", 0x310); ("FNEG", 0x311); ("MUFU", 0x318);
   ("DADD", 0x320); ("DMUL", 0x324); ("DFMA", 0x328);
   ("LOP", 0x200); ("LOP3", 0x201); ("SHL", 0x204); ("SHR", 0x205); ("BFE", 0x208);
   ("BFI", 0x209); ("FLO", 0x20C); ("POPC", 0x20D);
   ("I2I", 0x340); ("I2F", 0x344); ("F2I", 0x348); ("F2F", 0x34C);
   ("MOV", 0x100); ("MOV32I", 0x101); ("PRMT", 0x104); ("SEL", 0x108); ("SHFL", 0x10C);
   ("S2R", 0x110); ("CS2R", 0x114);
   ("BRA", 0x000); ("BRX", 0x001); ("JMP", 0x004); ("JMX", 0x005); ("CAL", 0x008);
   ("JCAL", 0x009); ("RET", 0x00C); ("EXIT", 0x010);
   ("BAR", 0x020); ("DEPBAR", 0x024); ("MEMBAR", 0x028);
   ("PSETP", 0x180); ("PLOP3", 0x184); ("P2R", 0x188); ("R2P", 0x18C);
   ("HADD2", 0x360); ("HMUL2", 0x364); ("HFMA2", 0x368);
   ("HMMA", 0x3C0); ("IMMA", 0x3C4);
   ("TEX", 0x400); ("TLD", 0x404); ("TLD4", 0x408); ("TXQ", 0x40C);
   ("NOP", 0x7FF)].

(** [OPCODE_TABLE.get]; no mnemonic is listed twice, so the order of the hash
    map does not matter. *)
Definition table_get (name : string) : option Z :=
  (fun '(_, e) => snd e) <$> list_find (fun e : string * Z => fst e = name) OPCODE_TABLE.

Definition lookup_opcode (name : string) : outcome NvSassError Z :=
  match table_get name with
  | Some op => Ok op
  | None =>
      match split_once_char (fun c => Ascii.eqb c "."%char) name with
      | Some (base, _) =>
          match table_get base with
          | Some op => Ok op
          | None => Err (EncodingError name UnknownMnemonic)
          end
      | None => Err (EncodingError name UnknownMnemonic)
      end
  end.

Definition lookup_opcode_bits (name : string) : outcome NvSassError Z := lookup_opcode name.

(** ** Fields *)
Definition encode_predicate (p : option Predicate) : outcome NvSassError Z :=
  match p with
  | Some p =>
      reg_bits ← encode_pred (p_reg p);
      let neg_bit := if negated p then 1 else 0 in
      Ok (Z.lor (shl neg_bit 19) (shl reg_bits 16))
  | None => Ok (shl 7 16)
  end.

Definition opcode_field (name : string) : outcome NvSassError Z :=
  op ← lookup_opcode name; Ok (shl op 52).

Definition dst_field (inst : SassInst) : outcome NvSassError Z :=
  match dst inst with
  | Some r => encode_gpr r
  | None => Ok 255
  end.

Definition src_reg_field (op : Operand) (shift : Z) : outcome NvSassError Z :=
  match op with
  | OReg r => n ← encode_gpr r; Ok (shl n shift)
  | _ => Ok (shl 255 shift)
  end.

Definition imm20_field (val : Z) : Z := shl (Z.land (as_u32 val) 0xFFFFF) 20.

Definition imm32_field (val : Z) : Z := shl (as_u32 val) 20.

(** [if srcs.len() > i { bits |= f(&srcs\[i\]) }] *)
Definition or_src (operand : option Operand) (f : Operand -> outcome NvSassError Z) (bits : Z)
    : outcome NvSassError Z :=
  match operand with
  | Some o => v ← f o; Ok (Z.lor bits v)
  | None => Ok bits
  end.

(** Register or 20-bit immediate in the second source position. *)
Definition reg_or_imm20 (o : Operand) : outcome NvSassError Z :=
  match o with
  | Imm20 v => Ok (imm20_field v)
  | other => src_reg_field other 20
  end.

(** The opcode and predicate fields every encoder starts with. *)
Definition opcode_and_pred (inst : SassInst) : outcome NvSassError Z :=
  op ← opcode_field (mnemonic (opcode inst));
  p ← encode_predicate (pred inst);
  Ok (Z.lor (Z.lor 0 op) p).

Definition or_dst (inst : SassInst) (bits : Z) : outcome NvSassError Z :=
  d ← dst_field inst; Ok (Z.lor bits d).

(** ** Per-class encoders *)
Definition encode_alu3 (inst : SassInst) : outcome NvSassError Z :=
  bits ← opcode_and_pred inst;
  bits ← or_dst inst bits;
  bits ← or_src (srcs inst !! 0%nat) (fun o => src_reg_field o 8) bits;
  bits ← or_src (srcs inst !! 1%nat) reg_or_imm20 bits;
  or_src (srcs inst !! 2%nat) (fun o => src_reg_field o 28) bits.

Definition encode_alu2 (inst : SassInst) : outcome NvSassError Z :=
  bits ← opcode_and_pred inst;
  bits ← or_dst inst bits;
  or_src (srcs inst !! 0%nat)
    (fun o => match o with
              | Imm32 v => Ok (imm32_field v)
              | Imm20 v => Ok (imm20_field v)
              | other => src_reg_field other 8
              end) bits.

Definition encode_fma (inst : SassInst) : outcome NvSassError Z :=
  bits ← opcode_and_pred inst;
  bits ← or_dst inst bits;
  bits ← or_src (srcs inst !! 0%nat) (fun o => src_reg_field o 8) bits;
  bits ← or_src (srcs inst !! 1%nat) reg_or_imm20 bits;
  or_src (srcs inst !! 2%nat) (fun o => src_reg_field o 28) bits.

(** [(base.encode_gpr() as u64) << 8 | ((offset as u32) as u64 & 0xFFFFFFFF) << 20] *)
Definition address_fields (base : Reg) (offset : Z) (bits : Z) : outcome NvSassError Z :=
  b ← encode_gpr base;
  Ok (Z.lor (Z.lor bits (shl b 8)) (shl (Z.land (as_u32 offset) 0xFFFFFFFF) 20)).

Definition encode_load (inst : SassInst) : outcome NvSassError Z :=
  bits ← opcode_and_pred inst;
  bits ← or_dst inst bits;
  match srcs inst !! 0%nat with
  | Some (Memory base offset) => address_fields base offset bits
  | Some (OReg r) => n ← encode_gpr r; Ok (Z.lor bits (shl n 8))
  | Some (SReg sr) => Ok (Z.lor bits (shl (encode_sreg sr) 20))
  | _ => Ok bits
  end.

Definition encode_store (inst : SassInst) : outcome NvSassError Z :=
  bits ← opcode_and_pred inst;
  bits ← match srcs inst !! 0%nat with
         | Some (Memory base offset) => address_fields base offset bits
         | _ => Ok bits
         end;
  or_dst inst bits.

Definition encode_branch (inst : SassInst) : outcome NvSassError Z :=
  bits ← opcode_and_pred inst;
  match srcs inst !! 0%nat with
  | Some (BranchTarget target) => Ok (Z.lor bits (shl (Z.land target 0xFFFFFFFF) 20))
  | Some (OReg r) => n ← encode_gpr r; Ok (Z.lor bits (shl n 8))
  | _ => Ok bits
  end.

Definition encode_comparison (inst : SassInst) : outcome NvSassError Z :=
  bits ← opcode_and_pred inst;
  bits ← or_dst inst bits;
  bits ← or_src (srcs inst !! 0%nat) (fun o => src_reg_field o 8) bits;
  or_src (srcs inst !! 1%nat) reg_or_imm20 bits.

Definition encode_sync (inst : SassInst) : outcome NvSassError Z :=
  bits ← opcode_and_pred inst;
  bits ← or_dst inst bits;
  or_src (srcs inst !! 0%nat) (fun o => src_reg_field o 8) bits.

Definition mufu_code (op : MufuOp) : Z :=
  match op with
  | Rcp => 0 | Rsq => 1 | Sin => 2 | Cos => 3 | Ex2 => 4 | Lg2 => 5 | Rcp64h => 6 | Rsq64h => 7
  end.

Definition or_mufu (bits : Z) (mo : Modifier) : Z :=
  match mo with
  | MMufuOp op => Z.lor bits (shl (mufu_code op) 20)
  | _ => bits
  end.

Definition encode_special (inst : SassInst) : outcome NvSassError Z :=
  bits ← opcode_and_pred inst;
  bits ← or_dst inst bits;
  bits ← match srcs inst !! 0%nat with
         | Some (SReg sr) => Ok (Z.lor bits (shl (encode_sreg sr) 20))
         | Some (OReg r) => n ← encode_gpr r; Ok (Z.lor bits (shl n 8))
         | Some (Imm20 v) => Ok (Z.lor bits (imm20_field v))
         | _ => Ok bits
         end;
  let bits := foldl or_mufu bits (modifiers inst) in
  or_src (srcs inst !! 1%nat) (fun o => src_reg_field o 20) bits.

Definition encode_nop (inst : SassInst) : outcome NvSassError Z := opcode_and_pred inst.

Definition encode_instruction_bits (inst : SassInst) : outcome NvSassError Z :=
  match op_class (opcode inst) with
  | Alu3 => encode_alu3 inst
  | Alu2 => encode_alu2 inst
  | Fma => encode_fma inst
  | ClassLoad => encode_load inst
  | ClassStore => encode_store inst
  | Branch => encode_branch inst
  | Comparison => encode_comparison inst
  | Sync => encode_sync inst
  | Special => encode_special inst
  | ClassNop => encode_nop inst
  end.

Definition sm120_encode (inst : SassInst) : outcome NvSassError (list Z) :=
  inst_lo ← encode_instruction_bits inst;
  let ctrl_hi := cc_encode (control inst) in
  Ok (le_bytes 8 inst_lo ++ le_bytes 8 ctrl_hi).

Definition encode (inst : SassInst) (sm : Z) : outcome NvSassError (list Z) :=
  if (sm =? 120) || (sm =? 121) then sm120_encode inst else Err (UnsupportedSmVersion sm).

Definition encode_kernel (kernel : SassKernel) (sm : Z) : outcome NvSassError (list (list Z)) :=
  collectM (fun inst => encode inst sm) (instructions kernel).

(** ** [roundtrip.rs] *)
Definition check_dst (inst : SassInst) (lo : Z) : outcome NvSassError unit :=
  match dst inst with
  | Some ((R _ | RZ) as d) =>
      let dst_bits := Z.land lo 0xFF in
      expected_dst ← encode_gpr d;
      if dst_bits =? expected_dst then Ok tt
      else Err (EncodingError (mnemonic (opcode inst)) (DstMismatch dst_bits expected_dst))
  | _ => Ok tt
  end.

Definition check_pred (inst : SassInst) (lo : Z) : outcome NvSassError unit :=
  let pred_reg := Z.land (Z.shiftr lo 16) 0x7 in
  let pred_neg := negb (Z.land (Z.shiftr lo 19) 0x1 =? 0) in
  match pred inst with
  | Some p =>
      expected ← encode_pred (p_reg p);
      if negb (pred_reg =? expected) || negb (Bool.eqb pred_neg (negated p))
      then Err (EncodingError (mnemonic (opcode inst)) PredMismatch) else Ok tt
  | None =>
      if pred_reg =? 7 then Ok tt
      else Err (EncodingError (mnemonic (opcode inst)) (ExpectedPT pred_reg))
  end.

Definition validate_roundtrip (inst : SassInst) (sm : Z) : outcome NvSassError unit :=
  encoded ← encode inst sm;
  let lo := le_decode (take 8 encoded) in
  let hi := le_decode (drop 8 encoded) in
  let decoded_cc := cc_decode hi in
  if decide (decoded_cc <> control inst)
  then Err (EncodingError (mnemonic (opcode inst)) (ControlMismatch (control inst) decoded_cc))
  else
    let opcode_bits := Z.land (Z.shiftr lo 52) 0xFFF in
    expected_bits ← lookup_opcode_bits (mnemonic (opcode inst));
    if negb (opcode_bits =? expected_bits)
    then Err (EncodingError (mnemonic (opcode inst)) (OpcodeMismatch opcode_bits expected_bits))
    else check_dst inst lo ;; check_pred inst lo.

Example encode_nop_bytes :
  encode select_nop 120 = Ok [0; 0; 7; 0; 0; 0; 240; 127; 239; 7; 0; 0; 0; 0; 0; 0].
Proof. vm_compute. reflexivity. Qed.

Example encode_ldg_bytes :
  encode (select_load_global 4 2 16) 120 = Ok [4; 2; 7; 1; 0; 0; 0; 56; 239; 7; 0; 0; 0; 0; 0; 0].
Proof. vm_compute. reflexivity. Qed.

Example encode_iadd_sat : lookup_opcode "IADD.SAT" = Ok 0x210.
Proof. vm_compute. reflexivity. Qed.
