(* ===== verification/EncodingSpec.v ===== *)
(** * What the encoders preserve

    The word an encoder builds is the packing of the fields [inst_fields] lists;
    the fields of a well-formed instruction do not share bits, so all of them
    read back. *)
From stdpp Require Import base numbers list strings sets.
From Stdlib Require Import ZArith Lia Ascii.
From S2P Require Import Prelude RustStr Sass Encoding.

Local Open Scope Z_scope.

(** ** Well-formed instructions *)
Definition gpr_code (r : Reg) : Z := match r with R n => n | RZ => 255 | _ => 0 end.
Definition pred_code (r : Reg) : Z := match r with P n => n | PT => 7 | _ => 0 end.

Definition wf_gpr (r : Reg) : bool := match r with R n => is_u 8 n | RZ => true | _ => false end.
Definition wf_predreg (r : Reg) : bool := match r with P n => is_u 3 n | PT => true | _ => false end.

Definition wf_control (cc : ControlCodes) : bool :=
  is_u 4 (stall cc) && is_u 3 (write_barrier cc) && is_u 3 (read_barrier cc) &&
  is_u 6 (wait_mask cc) && is_u 4 (reuse cc).

(** Registers in operands are general-purpose ones. *)
Definition wf_operand (o : Operand) : bool :=
  match o with
  | OReg r => wf_gpr r
  | Memory base _ => wf_gpr base
  | BranchTarget t => is_u 32 t
  | _ => true
  end.

Definition is_mufu (mo : Modifier) : bool := match mo with MMufuOp _ => true | _ => false end.
Definition is_imm20 (o : option Operand) : bool := match o with Some (Imm20 _) => true | _ => false end.

(** Combinations whose fields would share bits. *)
Definition no_overlap (inst : SassInst) : bool :=
  match op_class (opcode inst) with
  | Alu3 | Fma => negb (is_imm20 (srcs inst !! 1%nat) && bool_decide (2 < length (srcs inst))%nat)
  | Special =>
      bool_decide (length (srcs inst) < 2)%nat &&
      match srcs inst !! 0%nat with
      | Some (OReg _) => bool_decide (length (filter (fun mo => is_mufu mo = true) (modifiers inst)) < 2)%nat
      | _ => bool_decide (filter (fun mo => is_mufu mo = true) (modifiers inst) = [])
      end
  | _ => true
  end.

Definition known_mnemonic (name : string) : bool :=
  match lookup_opcode name with Ok _ => true | _ => false end.

Definition wf_inst (inst : SassInst) : bool :=
  known_mnemonic (mnemonic (opcode inst)) &&
  (match dst inst with Some r => wf_gpr r | None => true end) &&
  forallb wf_operand (srcs inst) &&
  (match pred inst with Some p => wf_predreg (p_reg p) | None => true end) &&
  wf_control (control inst) && no_overlap inst.

(** ** The fields the encoders write

    The positions are those of the code.  The comment on [imm20_field]
    (sm120.rs:213) puts a 20-bit immediate in bits 27 to 8, the code in bits 39
    to 20.  A store has no field for a second source and a barrier none for an
    immediate, so the data register of a selected store and the id of a selected
    barrier are not fields ([selected_operands_lost]). *)
Definition opcode_code (name : string) : Z := match lookup_opcode name with Ok op => op | _ => 0 end.

Definition head_fields (inst : SassInst) : list bitfield :=
  [(52, 12, opcode_code (mnemonic (opcode inst)));
   (19, 1, match pred inst with Some p => Z.b2z (negated p) | None => 0 end);
   (16, 3, match pred inst with Some p => pred_code (p_reg p) | None => 7 end)].

Definition dst_bits (inst : SassInst) : list bitfield :=
  [(0, 8, match dst inst with Some r => gpr_code r | None => 255 end)].

Definition reg8 (k : Z) (o : option Operand) : list bitfield :=
  match o with
  | Some (OReg r) => [(k, 8, gpr_code r)]
  | Some _ => [(k, 8, 255)]
  | None => []
  end.

Definition reg8_or_imm20 (o : option Operand) : list bitfield :=
  match o with Some (Imm20 v) => [(20, 20, wrap 20 v)] | o => reg8 20 o end.

Definition addr_fields (base : Reg) (offset : Z) : list bitfield :=
  [(8, 8, gpr_code base); (20, 32, wrap 32 offset)].

Definition mufu_fields (mods : list Modifier) : list bitfield :=
  omap (fun mo => match mo with MMufuOp op => Some (20, 8, mufu_code op) | _ => None end) mods.

Definition inst_fields (inst : SassInst) : list bitfield :=
  head_fields inst ++
  match op_class (opcode inst) with
  | Alu3 | Fma =>
      dst_bits inst ++ reg8 8 (srcs inst !! 0%nat) ++ reg8_or_imm20 (srcs inst !! 1%nat) ++
      reg8 28 (srcs inst !! 2%nat)
  | Alu2 =>
      dst_bits inst ++
      match srcs inst !! 0%nat with
      | Some (Imm32 v) => [(20, 32, wrap 32 v)]
      | Some (Imm20 v) => [(20, 20, wrap 20 v)]
      | o => reg8 8 o
      end
  | ClassLoad =>
      dst_bits inst ++
      match srcs inst !! 0%nat with
      | Some (Memory base offset) => addr_fields base offset
      | Some (OReg r) => [(8, 8, gpr_code r)]
      | Some (SReg sr) => [(20, 8, encode_sreg sr)]
      | _ => []
      end
  | ClassStore =>
      match srcs inst !! 0%nat with
      | Some (Memory base offset) => addr_fields base offset
      | _ => []
      end ++ dst_bits inst
  | Branch =>
      match srcs inst !! 0%nat with
      | Some (BranchTarget target) => [(20, 32, target)]
      | Some (OReg r) => [(8, 8, gpr_code r)]
      | _ => []
      end
  | Comparison =>
      dst_bits inst ++ reg8 8 (srcs inst !! 0%nat) ++ reg8_or_imm20 (srcs inst !! 1%nat)
  | Sync => dst_bits inst ++ reg8 8 (srcs inst !! 0%nat)
  | Special =>
      dst_bits inst ++
      match srcs inst !! 0%nat with
      | Some (SReg sr) => [(20, 8, encode_sreg sr)]
      | Some (OReg r) => [(8, 8, gpr_code r)]
      | Some (Imm20 v) => [(20, 20, wrap 20 v)]
      | _ => []
      end ++ mufu_fields (modifiers inst) ++ reg8 20 (srcs inst !! 1%nat)
  | ClassNop => []
  end.

Lemma table_range : forallb (fun e : string * Z => is_u 12 (snd e)) OPCODE_TABLE = true.
Proof. reflexivity. Qed.

Lemma table_get_range name op : table_get name = Some op -> 0 <= op < 2 ^ 12.
Proof.
  unfold table_get. destruct (list_find _ _) as [[i e]|] eqn:Hf; [|done]. intros [= <-].
  apply list_find_Some in Hf as (Hi & _). apply is_u_spec.
  pose proof table_range as Ht. rewrite forallb_forall in Ht.
  apply Ht. apply list_elem_of_In. by eapply list_elem_of_lookup_2.
Qed.

Lemma lookup_opcode_range name op : lookup_opcode name = Ok op -> 0 <= op < 2 ^ 12.
Proof.
  unfold lookup_opcode. destruct (table_get name) as [o|] eqn:H; [intros [= ->]; by eapply table_get_range|].
  destruct (split_once_char _ _) as [[b ?]|]; [|done].
  destruct (table_get b) as [o|] eqn:H2; [|done]. intros [= ->]. by eapply table_get_range.
Qed.

Lemma encode_gpr_wf r : wf_gpr r = true -> encode_gpr r = Ok (gpr_code r) /\ 0 <= gpr_code r < 2 ^ 8.
Proof. destruct r; simpl; intros H; try done; split; try done; by apply is_u_spec. Qed.

Lemma encode_pred_wf r : wf_predreg r = true -> encode_pred r = Ok (pred_code r) /\ 0 <= pred_code r < 2 ^ 3.
Proof. destruct r; simpl; intros H; try done; split; try done; by apply is_u_spec. Qed.

Lemma land_ones_wrap v w : 0 <= w -> Z.land v (Z.ones w) = wrap w v.
Proof. intros. by apply Z.land_ones. Qed.

Lemma wrap_wrap w1 w2 v : 0 <= w2 <= w1 -> wrap w2 (wrap w1 v) = wrap w2 v.
Proof.
  intros H. unfold wrap. symmetry. apply Znumtheory.Zmod_div_mod; [lia|lia|].
  exists (2 ^ (w1 - w2)). rewrite <- Z.pow_add_r by lia. f_equal. lia.
Qed.

Lemma imm20_field_wrap v : imm20_field v = shl (wrap 20 v) 20.
Proof.
  unfold imm20_field, as_u32. change 0xFFFFF with (Z.ones 20).
  by rewrite land_ones_wrap, wrap_wrap by lia.
Qed.

Lemma land_u32 v : 0 <= v < 2 ^ 32 -> Z.land v 0xFFFFFFFF = v.
Proof.
  intros. change 0xFFFFFFFF with (Z.ones 32). rewrite land_ones_wrap by lia. by apply wrap_small.
Qed.

Lemma pack_app bits f1 f2 : pack bits (f1 ++ f2) = pack (pack bits f1) f2.
Proof. apply foldl_app. Qed.

(** ** The encoders compute the packed fields *)
Section Encoders.
Context (inst : SassInst).
Hypothesis Hop : known_mnemonic (mnemonic (opcode inst)) = true.
Hypothesis Hdst : match dst inst with Some r => wf_gpr r | None => true end = true.
Hypothesis Hsrcs : forallb wf_operand (srcs inst) = true.
Hypothesis Hpred : match pred inst with Some p => wf_predreg (p_reg p) | None => true end = true.

Lemma opcode_and_pred_pack : opcode_and_pred inst = Ok (pack 0 (head_fields inst)).
Proof.
  unfold opcode_and_pred, opcode_field, head_fields, opcode_code, known_mnemonic in *.
  destruct (lookup_opcode _) as [op| |]; try done. simpl.
  unfold encode_predicate. destruct (pred inst) as [[r n]|]; simpl in *.
  - destruct (encode_pred_wf r Hpred) as [-> _]. simpl. f_equal. rewrite Z.lor_assoc.
    by destruct n.
  - f_equal. change (shl 0 19) with 0. by rewrite Z.lor_0_r.
Qed.

Lemma or_dst_pack bits : or_dst inst bits = Ok (pack bits (dst_bits inst)).
Proof.
  unfold or_dst, dst_field, dst_bits. destruct (dst inst) as [r|]; simpl.
  - destruct (encode_gpr_wf r Hdst) as [-> Hr]. simpl. rewrite shl_0; [done|]. lia.
  - done.
Qed.

Lemma operand_wf i o : srcs inst !! i = Some o -> wf_operand o = true.
Proof.
  intros Hi. rewrite forallb_forall in Hsrcs. apply Hsrcs.
  apply list_elem_of_In. by eapply list_elem_of_lookup_2.
Qed.

Lemma or_reg8_pack i k bits :
  or_src (srcs inst !! i) (fun o => src_reg_field o k) bits = Ok (pack bits (reg8 k (srcs inst !! i))).
Proof.
  destruct (srcs inst !! i) as [o|] eqn:Ho; [|done]. apply operand_wf in Ho.
  destruct o; simpl in *; try done. destruct (encode_gpr_wf r Ho) as [-> _]. done.
Qed.

Lemma or_imm20_pack i bits :
  or_src (srcs inst !! i) reg_or_imm20 bits = Ok (pack bits (reg8_or_imm20 (srcs inst !! i))).
Proof.
  pose proof (or_reg8_pack i 20 bits) as H. destruct (srcs inst !! i) as [o|]; [|done].
  destruct o; try done. simpl. by rewrite imm20_field_wrap.
Qed.

Lemma address_fields_pack base offset bits :
  wf_gpr base = true -> address_fields base offset bits = Ok (pack bits (addr_fields base offset)).
Proof.
  intros Hb. unfold address_fields. destruct (encode_gpr_wf base Hb) as [-> _]. simpl.
  rewrite land_u32; [done|]. by apply wrap_range.
Qed.

Lemma mufu_pack bits mods : foldl or_mufu bits mods = pack bits (mufu_fields mods).
Proof.
  revert bits. induction mods as [|mo mods IH]; intros bits; [done|].
  unfold mufu_fields; csimpl; fold (mufu_fields mods). destruct mo; simpl; by rewrite IH.
Qed.

Lemma encode_bits_pack : encode_instruction_bits inst = Ok (pack 0 (inst_fields inst)).
Proof.
  unfold encode_instruction_bits, inst_fields. rewrite pack_app.
  destruct (op_class (opcode inst));
    unfold encode_alu3, encode_alu2, encode_fma, encode_load, encode_store, encode_branch,
      encode_comparison, encode_sync, encode_special, encode_nop;
    rewrite opcode_and_pred_pack; cbn [mbind outcome_bind];
    rewrite ?or_dst_pack; cbn [mbind outcome_bind]; rewrite ?pack_app.
  - by rewrite or_reg8_pack; cbn [mbind outcome_bind]; rewrite or_imm20_pack; cbn [mbind outcome_bind];
      rewrite or_reg8_pack.
  - pose proof (or_reg8_pack 0 8 (pack (pack 0 (head_fields inst)) (dst_bits inst))) as H.
    destruct (srcs inst !! 0%nat) as [o|]; [|done]. destruct o; try done.
    simpl. by rewrite imm20_field_wrap.
  - by rewrite or_reg8_pack; cbn [mbind outcome_bind]; rewrite or_imm20_pack; cbn [mbind outcome_bind];
      rewrite or_reg8_pack.
  - destruct (srcs inst !! 0%nat) as [o|] eqn:Ho; [|done]. apply operand_wf in Ho.
    destruct o; try done; simpl in Ho.
    + by destruct (encode_gpr_wf _ Ho) as [-> _].
    + by apply address_fields_pack.
  - destruct (srcs inst !! 0%nat) as [o|] eqn:Ho; [|by simpl; rewrite or_dst_pack].
    apply operand_wf in Ho. destruct o; simpl in Ho; try (by simpl; rewrite or_dst_pack).
    rewrite address_fields_pack by done. simpl. by rewrite or_dst_pack.
  - destruct (srcs inst !! 0%nat) as [o|] eqn:Ho; [|done]. apply operand_wf in Ho.
    destruct o; try done; simpl in Ho.
    + by destruct (encode_gpr_wf _ Ho) as [-> _].
    + rewrite land_u32; [done|]. by apply is_u_spec.
  - by rewrite or_reg8_pack; cbn [mbind outcome_bind]; rewrite or_imm20_pack.
  - by rewrite or_reg8_pack.
  - rewrite <- mufu_pack.
    destruct (srcs inst !! 0%nat) as [o|] eqn:Ho; [|by simpl; rewrite or_reg8_pack].
    apply operand_wf in Ho. destruct o; simpl in Ho; try (by simpl; rewrite or_reg8_pack).
    + destruct (encode_gpr_wf _ Ho) as [-> _]. simpl. by rewrite or_reg8_pack.
    + simpl. by rewrite imm20_field_wrap, or_reg8_pack.
  - done.
Qed.
End Encoders.

(** ** The fields of a well-formed instruction are disjoint *)

(** Fields that fit and do not share bits. *)
Definition good_fields (fs : list bitfield) : Prop := Forall wf_field fs /\ pairwise_apart fs.

Lemma reg8_cases k o :
  match o with Some o => wf_operand o = true | None => True end ->
  reg8 k o = [] \/ exists v, reg8 k o = [(k, 8, v)] /\ 0 <= v < 2 ^ 8.
Proof.
  destruct o as [o|]; simpl; intros Hwf; [right|by left].
  destruct o; try (exists 255; split; [done|lia]).
  simpl in Hwf. exists (gpr_code r). split; [done|]. by apply encode_gpr_wf.
Qed.

Lemma reg8_or_imm20_cases o :
  match o with Some o => wf_operand o = true | None => True end ->
  (is_imm20 o = false /\ reg8_or_imm20 o = []) \/
  (is_imm20 o = false /\ exists v, reg8_or_imm20 o = [(20, 8, v)] /\ 0 <= v < 2 ^ 8) \/
  (is_imm20 o = true /\ exists v, reg8_or_imm20 o = [(20, 20, v)] /\ 0 <= v < 2 ^ 20).
Proof.
  intros Hwf. pose proof (reg8_cases 20 o Hwf) as H. destruct o as [o|]; [|by left].
  destruct o; simpl in *; try (destruct H as [H|H]; [by left|by right; left]).
  right; right. split; [done|]. eexists. split; [done|]. by apply wrap_range.
Qed.

Lemma mufu_code_range op : 0 <= mufu_code op < 2 ^ 8.
Proof. destruct op; simpl; lia. Qed.

Lemma mufu_fields_filter mods :
  mufu_fields mods = mufu_fields (filter (fun mo => is_mufu mo = true) mods).
Proof.
  induction mods as [|mo mods IH]; [done|]. rewrite filter_cons.
  unfold mufu_fields; csimpl; fold (mufu_fields mods). rewrite IH. by destruct mo.
Qed.

Lemma mufu_fields_cases mods :
  (length (filter (fun mo => is_mufu mo = true) mods) < 2)%nat ->
  mufu_fields mods = [] \/ exists v, mufu_fields mods = [(20, 8, v)] /\ 0 <= v < 2 ^ 8.
Proof.
  rewrite mufu_fields_filter.
  destruct (filter _ mods) as [|mo [|mo' ms]]; simpl; [by left| |lia].
  destruct mo; simpl; try by left. intros _. right. eexists. split; [done|]. apply mufu_code_range.
Qed.

(** Positions and widths are concrete, so their disjointness computes. *)
Fixpoint ranges_ok (fs : list bitfield) : bool :=
  match fs with
  | [] => true
  | (k, w, _) :: fs =>
      (0 <=? k) && (0 <=? w) && (k + w <=? 64) &&
      forallb (fun '(k', w', _) => (k + w <=? k') || (k' + w' <=? k)) fs && ranges_ok fs
  end.

Definition in_width (f : bitfield) : Prop := let '(_, w, v) := f in 0 <= v < 2 ^ w.

Lemma ranges_ok_good fs : ranges_ok fs = true -> Forall in_width fs -> good_fields fs.
Proof.
  intros Hr Hv. unfold good_fields. induction Hv as [|[[k w] v] fs Hf Hv IH]; [by split; constructor|].
  simpl in Hr. rewrite !andb_true_iff, !Z.leb_le in Hr. destruct Hr as ((((Hk & Hw) & H64) & Hap) & Hr).
  destruct (IH Hr) as [IH1 IH2]. split; [constructor; [|done]|simpl; split; [|done]].
  - simpl. by repeat split; try apply Hf.
  - rewrite forallb_forall in Hap. apply Forall_forall. intros [[k' w'] v'] Hin%list_elem_of_In.
    specialize (Hap _ Hin). simpl in *. rewrite orb_true_iff, !Z.leb_le in Hap. done.
Qed.

Ltac good_fields :=
  apply ranges_ok_good; [reflexivity|];
  repeat first [apply Forall_nil_2 | apply Forall_cons_2];
  first [assumption | apply wrap_range; discriminate | split; [discriminate|reflexivity]].

Section Disjoint.
Context (inst : SassInst) (Hwf : wf_inst inst = true).

Lemma wf_inst_parts :
  known_mnemonic (mnemonic (opcode inst)) = true /\
  match dst inst with Some r => wf_gpr r | None => true end = true /\
  forallb wf_operand (srcs inst) = true /\
  match pred inst with Some p => wf_predreg (p_reg p) | None => true end = true /\
  wf_control (control inst) = true /\ no_overlap inst = true.
Proof. unfold wf_inst in Hwf. rewrite !andb_true_iff in Hwf. tauto. Qed.

Lemma operand_wf_at i :
  match srcs inst !! i with Some o => wf_operand o = true | None => True end.
Proof.
  destruct wf_inst_parts as (_ & _ & Hs & _). destruct (srcs inst !! i) as [o|] eqn:Ho; [|done].
  by eapply operand_wf.
Qed.

Lemma head_bounds :
  exists op n p, head_fields inst = [(52, 12, op); (19, 1, n); (16, 3, p)] /\
    0 <= op < 2 ^ 12 /\ 0 <= n < 2 ^ 1 /\ 0 <= p < 2 ^ 3.
Proof.
  destruct wf_inst_parts as (Hk & _ & _ & Hp & _). eexists _, _, _. split; [done|].
  unfold known_mnemonic, opcode_code in *. destruct (lookup_opcode _) as [op| |] eqn:Hop; try done.
  split; [by eapply lookup_opcode_range|]. destruct (pred inst) as [[r n]|]; simpl in *.
  - split; [destruct n; simpl; lia|]. by apply encode_pred_wf.
  - lia.
Qed.

Lemma dst_bounds : exists d, dst_bits inst = [(0, 8, d)] /\ 0 <= d < 2 ^ 8.
Proof.
  destruct wf_inst_parts as (_ & Hd & _). eexists. split; [done|].
  destruct (dst inst); [by apply encode_gpr_wf|lia].
Qed.

Lemma inst_fields_good : good_fields (inst_fields inst).
Proof.
  destruct head_bounds as (op & n & p & Hh & Hop & Hn & Hp). destruct dst_bounds as (d & Hd & Hdr).
  destruct wf_inst_parts as (_ & _ & _ & _ & _ & Hov).
  pose proof (operand_wf_at 0) as H0. pose proof (operand_wf_at 1) as H1. pose proof (operand_wf_at 2) as H2.
  unfold inst_fields, no_overlap in *. rewrite Hh, Hd.
  destruct (op_class (opcode inst)).
  1,3: assert (is_imm20 (srcs inst !! 1%nat) = true -> reg8 28 (srcs inst !! 2%nat) = []) as Hno by
      (intros Hi; rewrite Hi in Hov; simpl in Hov; apply negb_true_iff, bool_decide_eq_false in Hov;
       by rewrite lookup_ge_None_2 by lia);
    destruct (reg8_or_imm20_cases _ H1) as [(_ & ->)|[(_ & v1 & -> & ?)|(Hi & v1 & -> & ?)]];
    [| |rewrite (Hno Hi)];
    destruct (reg8_cases 8 _ H0) as [->|(v0 & -> & ?)];
    try destruct (reg8_cases 28 _ H2) as [->|(v2 & -> & ?)]; good_fields.
  - destruct (reg8_cases 8 _ H0) as [Hr|(v0 & Hr & ?)];
      destruct (srcs inst !! 0%nat) as [[]|]; try rewrite Hr; good_fields.
  - destruct (srcs inst !! 0%nat) as [[r| | | |base off| |sr]|]; simpl in H0; try good_fields.
    + apply encode_gpr_wf in H0 as [_ H0]. good_fields.
    + apply encode_gpr_wf in H0 as [_ H0]. good_fields.
    + assert (0 <= encode_sreg sr < 2 ^ 8) by (destruct sr; simpl; lia). good_fields.
  - destruct (srcs inst !! 0%nat) as [[r| | | |base off| |sr]|]; simpl in H0; try good_fields.
    apply encode_gpr_wf in H0 as [_ H0]. good_fields.
  - destruct (srcs inst !! 0%nat) as [[r| | | |base off|t|sr]|]; simpl in H0; try good_fields.
    + apply encode_gpr_wf in H0 as [_ H0]. good_fields.
    + apply is_u_spec in H0. good_fields.
  - destruct (reg8_or_imm20_cases _ H1) as [(_ & ->)|[(_ & v1 & -> & ?)|(_ & v1 & -> & ?)]];
      destruct (reg8_cases 8 _ H0) as [->|(v0 & -> & ?)]; good_fields.
  - destruct (reg8_cases 8 _ H0) as [->|(v0 & -> & ?)]; good_fields.
  - apply andb_true_iff in Hov as [Hlen Hov]. apply bool_decide_eq_true in Hlen.
    rewrite (lookup_ge_None_2 _ 1) by lia. simpl.
    destruct (srcs inst !! 0%nat) as [[r| | | |base off|t|sr]|] eqn:Hs; simpl in H0;
      apply bool_decide_eq_true in Hov.
    1: apply encode_gpr_wf in H0 as [_ H0];
       destruct (mufu_fields_cases _ Hov) as [->|(v & -> & ?)]; good_fields.
    all: rewrite mufu_fields_filter, Hov; try good_fields.
    assert (0 <= encode_sreg sr < 2 ^ 8) by (destruct sr; simpl; lia). good_fields.
  - good_fields.
Qed.
End Disjoint.

(** ** Control codes *)
Definition cc_fields (cc : ControlCodes) : list bitfield :=
  [(0, 4, wrap 4 (stall cc)); (4, 1, Z.b2z (yield_flag cc)); (5, 3, wrap 3 (write_barrier cc));
   (8, 3, wrap 3 (read_barrier cc)); (11, 6, wrap 6 (wait_mask cc)); (17, 4, wrap 4 (reuse cc))].

Lemma cc_encode_pack cc : cc_encode cc = pack 0 (cc_fields cc).
Proof.
  unfold cc_encode, cc_fields, pack. cbn [foldl].
  change 0xF with (Z.ones 4). change 0x7 with (Z.ones 3). change 0x3F with (Z.ones 6).
  rewrite !land_ones_wrap by lia.
  rewrite (shl_0 (wrap 4 _)) by (pose proof (wrap_range 4 (stall cc)); lia).
  by destruct (yield_flag cc).
Qed.

Lemma cc_fields_good cc : good_fields (cc_fields cc).
Proof.
  apply ranges_ok_good; [reflexivity|]. unfold cc_fields.
  repeat first [apply Forall_nil_2 | apply Forall_cons_2]; try (apply wrap_range; discriminate).
  destruct (yield_flag cc); simpl; lia.
Qed.

Lemma cc_decode_fields bits :
  cc_decode bits = mkControlCodes (field 0 4 bits) (negb (field 4 1 bits =? 0)) (field 5 3 bits)
    (field 8 3 bits) (field 11 6 bits) (field 17 4 bits).
Proof. unfold cc_decode, field. by rewrite Z.shiftr_0_r. Qed.

(** Decoding an encoding keeps the low bits of every field. *)
Lemma cc_decode_encode cc :
  cc_decode (cc_encode cc) =
  mkControlCodes (wrap 4 (stall cc)) (yield_flag cc) (wrap 3 (write_barrier cc))
    (wrap 3 (read_barrier cc)) (wrap 6 (wait_mask cc)) (wrap 4 (reuse cc)).
Proof.
  destruct (cc_fields_good cc) as [Hwf Hap]. rewrite cc_decode_fields, cc_encode_pack.
  assert (forall k w v, (k, w, v) ∈ cc_fields cc -> field k w (pack 0 (cc_fields cc)) = v) as H
    by (intros; by apply pack_reads_back).
  unfold cc_fields in *.
  rewrite (H 0 4 (wrap 4 (stall cc))), (H 4 1 (Z.b2z (yield_flag cc))), (H 5 3 (wrap 3 (write_barrier cc))),
    (H 8 3 (wrap 3 (read_barrier cc))), (H 11 6 (wrap 6 (wait_mask cc))), (H 17 4 (wrap 4 (reuse cc)))
    by set_solver.
  by destruct (yield_flag cc).
Qed.

Lemma wf_control_decode cc : wf_control cc = true -> cc_decode (cc_encode cc) = cc.
Proof.
  unfold wf_control. rewrite !andb_true_iff, !is_u_spec. intros ((((? & ?) & ?) & ?) & ?).
  rewrite cc_decode_encode, !wrap_small by done. by destruct cc.
Qed.

(** ** Reading an encoded instruction *)
Definition lo_word (bytes : list Z) : Z := le_decode (take 8 bytes).
Definition hi_word (bytes : list Z) : Z := le_decode (drop 8 bytes).

Lemma words_of_bytes lo hi :
  0 <= lo < 2 ^ 64 -> 0 <= hi < 2 ^ 64 ->
  lo_word (le_bytes 8 lo ++ le_bytes 8 hi) = lo /\ hi_word (le_bytes 8 lo ++ le_bytes 8 hi) = hi.
Proof.
  intros Hlo Hhi. unfold lo_word, hi_word.
  rewrite take_app_le, take_ge, drop_app_ge by (rewrite length_le_bytes; lia).
  rewrite length_le_bytes. change (drop (8 - 8) (le_bytes 8 hi)) with (le_bytes 8 hi).
  by rewrite !le_decode_le_bytes_small.
Qed.

Lemma encode_wf inst sm :
  wf_inst inst = true -> sm = 120 \/ sm = 121 ->
  encode inst sm = Ok (le_bytes 8 (pack 0 (inst_fields inst)) ++ le_bytes 8 (cc_encode (control inst))).
Proof.
  intros Hwf Hsm. destruct (wf_inst_parts inst Hwf) as (Hk & Hd & Hs & Hp & _).
  unfold encode. destruct Hsm as [-> | ->]; simpl; unfold sm120_encode;
    by rewrite encode_bits_pack.
Qed.

Lemma encoded_words inst :
  wf_inst inst = true ->
  let bytes := le_bytes 8 (pack 0 (inst_fields inst)) ++ le_bytes 8 (cc_encode (control inst)) in
  lo_word bytes = pack 0 (inst_fields inst) /\ cc_decode (hi_word bytes) = control inst /\
  forall k w v, (k, w, v) ∈ inst_fields inst -> field k w (lo_word bytes) = v.
Proof.
  intros Hwf bytes. destruct (wf_inst_parts inst Hwf) as (_ & _ & _ & _ & Hc & _).
  destruct (words_of_bytes (pack 0 (inst_fields inst)) (cc_encode (control inst))) as [Hlo Hhi].
  { by apply pack_u64. }
  { rewrite cc_encode_pack. by apply pack_u64. }
  unfold bytes. rewrite Hlo, Hhi. split_and!; [done|by apply wf_control_decode|].
  destruct (inst_fields_good inst Hwf) as [H1 H2]. intros k w v. by apply pack_reads_back.
Qed.

Lemma head_field_values inst lo :
  (forall k w v, (k, w, v) ∈ inst_fields inst -> field k w lo = v) ->
  field 52 12 lo = opcode_code (mnemonic (opcode inst)) /\
  field 19 1 lo = match pred inst with Some p => Z.b2z (negated p) | None => 0 end /\
  field 16 3 lo = match pred inst with Some p => pred_code (p_reg p) | None => 7 end.
Proof. intros H. split_and!; apply H; unfold inst_fields, head_fields; set_solver. Qed.

Lemma dst_field_value inst lo r :
  (forall k w v, (k, w, v) ∈ inst_fields inst -> field k w lo = v) -> dst inst = Some r ->
  match op_class (opcode inst) with Branch | ClassNop => False | _ => True end ->
  field 0 8 lo = gpr_code r.
Proof.
  intros H Hd Hc. apply H. unfold inst_fields, dst_bits. rewrite Hd.
  destruct (op_class (opcode inst)); set_solver.
Qed.

(** Equal encodings have equal values in every field both have. *)
Lemma encode_same_field i1 i2 sm k w v1 v2 :
  sm = 120 \/ sm = 121 -> wf_inst i1 = true -> wf_inst i2 = true ->
  encode i1 sm = encode i2 sm -> (k, w, v1) ∈ inst_fields i1 -> (k, w, v2) ∈ inst_fields i2 -> v1 = v2.
Proof.
  intros Hsm H1 H2 Heq Hin1 Hin2. rewrite !encode_wf in Heq by done.
  apply (f_equal (fun r => match r with Ok bytes => lo_word bytes | _ => 0 end)) in Heq.
  cbv beta iota in Heq.
  destruct (encoded_words i1 H1) as (_ & _ & Hf1). destruct (encoded_words i2 H2) as (_ & _ & Hf2).
  rewrite <- (Hf1 _ _ _ Hin1), <- (Hf2 _ _ _ Hin2). by rewrite Heq.
Qed.

Lemma validate_wf inst sm :
  wf_inst inst = true -> sm = 120 \/ sm = 121 ->
  (match op_class (opcode inst) with Branch | ClassNop => dst inst = None | _ => True end) ->
  validate_roundtrip inst sm = Ok tt.
Proof.
  intros Hwf Hsm Hclass. destruct (encoded_words inst Hwf) as (_ & Hcc & Hf).
  destruct (wf_inst_parts inst Hwf) as (Hk & Hd & _ & Hp & _).
  unfold validate_roundtrip. rewrite encode_wf by done. cbn [mbind outcome_bind].
  set (bytes := le_bytes 8 (pack 0 (inst_fields inst)) ++ _) in *.
  fold (lo_word bytes). fold (hi_word bytes). set (lo := lo_word bytes) in *.
  rewrite decide_False by (rewrite Hcc; tauto).
  destruct (head_field_values inst lo Hf) as (Hop & Hneg & Hpr).
  change (Z.land (Z.shiftr lo 52) 0xFFF) with (field 52 12 lo). rewrite Hop.
  unfold lookup_opcode_bits, known_mnemonic, opcode_code in *.
  destruct (lookup_opcode _) as [op| |]; try done. cbn [mbind outcome_bind].
  rewrite Z.eqb_refl. simpl.
  assert (check_dst inst lo = Ok tt) as ->.
  { unfold check_dst. destruct (dst inst) as [r|] eqn:Hdst; [|done].
    destruct (encode_gpr_wf r Hd) as [Hg _]. rewrite Hg.
    assert (Z.land lo 0xFF = gpr_code r) as ->.
    { rewrite <- (dst_field_value inst lo r Hf Hdst); [unfold field; by rewrite Z.shiftr_0_r|].
      by destruct (op_class (opcode inst)). }
    simpl. rewrite Z.eqb_refl. by destruct r. }
  unfold check_pred.
  change (Z.land (Z.shiftr lo 16) 0x7) with (field 16 3 lo).
  change (Z.land (Z.shiftr lo 19) 0x1) with (field 19 1 lo). rewrite Hneg, Hpr.
  destruct (pred inst) as [[r n]|]; [|done]. simpl in *.
  destruct (encode_pred_wf r Hp) as [-> _]. simpl. rewrite Z.eqb_refl. by destruct n.
Qed.

(** ** Theorems *)

(** A well-formed instruction encodes, to 16 bytes: its control codes decode
    from the upper word and every field of [inst_fields] reads back from the
    lower one. *)
Theorem encode_reads_back inst sm :
  wf_inst inst = true -> sm = 120 \/ sm = 121 ->
  exists bytes, encode inst sm = Ok bytes /\ length bytes = 16%nat /\ Forall is_byte bytes /\
    cc_decode (hi_word bytes) = control inst /\
    forall k w v, (k, w, v) ∈ inst_fields inst -> field k w (lo_word bytes) = v.
Proof.
  intros Hwf Hsm. eexists. split; [by apply encode_wf|]. split_and!.
  - by rewrite length_app, !length_le_bytes.
  - apply Forall_app; split; apply le_bytes_bytes.
  - by apply encoded_words.
  - by apply encoded_words.
Qed.

Definition sample_inst : SassInst :=
  mkSassInst (mkOpcode "IADD3.X" Alu3) (Some (R 4)) [OReg (R 2); OReg (R 3); OReg RZ]
    (Some (mkPredicate (P 1) true)) [] (mkControlCodes 5 true 3 2 42 12).

Lemma encode_reads_back_witness :
  exists bytes, encode sample_inst 121 = Ok bytes /\ length bytes = 16%nat /\
    field 28 8 (lo_word bytes) = 255.
Proof.
  destruct (encode_reads_back sample_inst 121) as (bytes & H1 & H2 & _ & _ & H3).
  - vm_compute. reflexivity.
  - right. reflexivity.
  - exists bytes. split; [exact H1|]. split; [exact H2|]. apply H3.
    vm_compute. repeat constructor.
Defined.

(** The encoder's own check accepts every well-formed instruction whose
    class writes its destination field. *)
Theorem validate_roundtrip_ok inst sm :
  wf_inst inst = true -> sm = 120 \/ sm = 121 ->
  (match op_class (opcode inst) with Branch | ClassNop => dst inst = None | _ => True end) ->
  validate_roundtrip inst sm = Ok tt.
Proof. apply validate_wf. Qed.

Lemma validate_roundtrip_ok_witness : validate_roundtrip sample_inst 120 = Ok tt.
Proof.
  apply (validate_roundtrip_ok sample_inst 120).
  - vm_compute. reflexivity.
  - left. reflexivity.
  - exact I.
Defined.

(** Control codes of any value decode to their low bits, so the round trip
    is exact precisely on the values that fit the fields. *)
Theorem control_codes_round_trip cc :
  cc_decode (cc_encode cc) = cc <->
  0 <= stall cc < 2 ^ 4 /\ 0 <= write_barrier cc < 2 ^ 3 /\ 0 <= read_barrier cc < 2 ^ 3 /\
  0 <= wait_mask cc < 2 ^ 6 /\ 0 <= reuse cc < 2 ^ 4.
Proof.
  rewrite cc_decode_encode. split.
  - destruct cc as [a b c d e f]; simpl. intros H. injection H as H1 H2 H3 H4 H5.
    rewrite <- H1, <- H2, <- H3, <- H4, <- H5. split_and!; by apply wrap_range.
  - intros (? & ? & ? & ? & ?). rewrite !wrap_small by done. by destruct cc.
Qed.

(** Membership of a field by its position in the layout. *)
Ltac nth_field n := apply (list_elem_of_lookup_2 _ n); reflexivity.

(** Register numbers and offsets chosen by instruction selection survive
    encoding: equal bytes of a selected addition, move or load mean equal
    operands. *)
Theorem selected_operands_kept d1 a1 b1 d2 a2 b2 sm :
  is_u 8 d1 && is_u 8 a1 && is_u 8 b1 && is_u 8 d2 && is_u 8 a2 && is_u 8 b2 = true ->
  sm = 120 \/ sm = 121 ->
  (encode (select_add_i32 d1 a1 b1) sm = encode (select_add_i32 d2 a2 b2) sm ->
     d1 = d2 /\ a1 = a2 /\ b1 = b2) /\
  (encode (select_mov d1 a1) sm = encode (select_mov d2 a2) sm -> d1 = d2 /\ a1 = a2) /\
  (forall o1 o2, 0 <= o1 < 2 ^ 31 -> 0 <= o2 < 2 ^ 31 ->
     encode (select_load_global d1 a1 o1) sm = encode (select_load_global d2 a2 o2) sm ->
     d1 = d2 /\ a1 = a2 /\ o1 = o2).
Proof.
  rewrite !andb_true_iff. intros (((((Hd1 & Ha1) & Hb1) & Hd2) & Ha2) & Hb2) Hsm.
  assert (forall i1 i2 k w v1 v2, wf_inst i1 = true -> wf_inst i2 = true ->
    encode i1 sm = encode i2 sm -> (k, w, v1) ∈ inst_fields i1 -> (k, w, v2) ∈ inst_fields i2 ->
    v1 = v2) as Hinj by (intros i1 i2 k w v1 v2 ? ? ? ? ?; by apply (encode_same_field i1 i2 sm k w)).
  assert (forall x y z, is_u 8 x = true -> is_u 8 y = true -> is_u 8 z = true ->
    wf_inst (select_add_i32 x y z) = true) as W1.
  { intros x y z Hx Hy Hz. unfold wf_inst; simpl. by rewrite Hx, Hy, Hz. }
  assert (forall x y, is_u 8 x = true -> is_u 8 y = true -> wf_inst (select_mov x y) = true) as W2.
  { intros x y Hx Hy. unfold wf_inst; simpl. by rewrite Hx, Hy. }
  assert (forall x y o, is_u 8 x = true -> is_u 8 y = true -> wf_inst (select_load_global x y o) = true) as W3.
  { intros x y o Hx Hy. unfold wf_inst; simpl. by rewrite Hx, Hy. }
  split_and!.
  - intros Heq. split_and!.
    + apply (Hinj _ _ 0 8 _ _ (W1 _ _ _ Hd1 Ha1 Hb1) (W1 _ _ _ Hd2 Ha2 Hb2) Heq); nth_field 3%nat.
    + apply (Hinj _ _ 8 8 _ _ (W1 _ _ _ Hd1 Ha1 Hb1) (W1 _ _ _ Hd2 Ha2 Hb2) Heq); nth_field 4%nat.
    + apply (Hinj _ _ 20 8 _ _ (W1 _ _ _ Hd1 Ha1 Hb1) (W1 _ _ _ Hd2 Ha2 Hb2) Heq); nth_field 5%nat.
  - intros Heq. split_and!.
    + apply (Hinj _ _ 0 8 _ _ (W2 _ _ Hd1 Ha1) (W2 _ _ Hd2 Ha2) Heq); nth_field 3%nat.
    + apply (Hinj _ _ 8 8 _ _ (W2 _ _ Hd1 Ha1) (W2 _ _ Hd2 Ha2) Heq); nth_field 4%nat.
  - intros o1 o2 Ho1 Ho2 Heq. split_and!.
    + apply (Hinj _ _ 0 8 _ _ (W3 _ _ o1 Hd1 Ha1) (W3 _ _ o2 Hd2 Ha2) Heq); nth_field 3%nat.
    + apply (Hinj _ _ 8 8 _ _ (W3 _ _ o1 Hd1 Ha1) (W3 _ _ o2 Hd2 Ha2) Heq); nth_field 4%nat.
    + rewrite <- (wrap_small 32 o1), <- (wrap_small 32 o2) by lia.
      apply (Hinj _ _ 20 32 _ _ (W3 _ _ o1 Hd1 Ha1) (W3 _ _ o2 Hd2 Ha2) Heq); nth_field 5%nat.
Qed.

Lemma selected_operands_kept_witness :
  ~ (encode (select_mov 3 9) 120 = encode (select_mov 3 8) 120).
Proof.
  destruct (selected_operands_kept 3 9 0 3 8 0 120) as (_ & H & _);
    [reflexivity|left; reflexivity|]. intros Heq. destruct (H Heq) as [_ Hn]. discriminate Hn.
Defined.

(** Operands that encoding drops: a selected store encodes the same bytes
    whatever its data register is, and a selected barrier whatever its id is;
    a selected integer comparison is never encoded, since its predicate
    destination panics in the general-register field. *)
Theorem selected_operands_lost addr offset data1 data2 id1 id2 p a b cmp sm :
  encode (select_store_global addr offset data1) sm = encode (select_store_global addr offset data2) sm /\
  encode (select_bar_sync id1) sm = encode (select_bar_sync id2) sm /\
  (sm = 120 \/ sm = 121 -> encode (select_isetp p a b cmp) sm = Panic).
Proof.
  split_and!; [done|done|]. intros [-> | ->]; reflexivity.
Qed.

Lemma selected_operands_lost_witness :
  encode (select_isetp 0 1 2 CmpLt) 120 = Panic.
Proof.
  destruct (selected_operands_lost 0 0 0 0 0 0 0 1 2 CmpLt 120) as (_ & _ & H).
  exact (H (or_introl eq_refl)).
Defined.
