(* ===== verification/Disassembly.v ===== *)
(** * A disassembler for the encoded instructions

    [disassemble] reads the 16 bytes of an instruction knowing only where the
    encoders of [nvidia_sass/src/encoding/sm120.rs] write each field: the opcode
    in bits 63 to 52, the predicate in bits 19 to 16, the destination (for a
    store, the data register) in bits 7 to 0, the first source or the base
    address in bits 15 to 8, the second source in bits 27 to 20 and the third in
    bits 35 to 28, a 32-bit offset or branch target in bits 51 to 20, the control
    codes in the upper word.  It does not use the encoders, so that it returns
    the instruction that was encoded is a statement about them.

    The bytes have no place for the modifiers (the two memory operations are
    read with the 32-bit type that selection gives them), for the number of
    sources ([IADD3] is read with the two that selection gives it), for the data
    register of a selected store and for the id of a selected barrier. *)
From stdpp Require Import base numbers list strings sets.
From Stdlib Require Import ZArith Lia.
From S2P Require Import Prelude RustStr Sass Encoding EncodingSpec.

Local Open Scope Z_scope.

(** ** Reading the fields *)
Definition read_gpr (code : Z) : Reg := if code =? 255 then RZ else R code.

(** Every instruction has a predicate field; [PT], not negated, is no predicate. *)
Definition read_pred (neg code : Z) : option Predicate :=
  if code =? 7 then (if neg =? 0 then None else Some (mkPredicate PT true))
  else Some (mkPredicate (P code) (negb (neg =? 0))).

Definition read_sreg (code : Z) : option SpecialReg :=
  match code with
  | 0x00 => Some LaneId | 0x02 => Some WarpId | 0x06 => Some SmId
  | 0x21 => Some TidX | 0x22 => Some TidY | 0x23 => Some TidZ
  | 0x25 => Some CtaidX | 0x26 => Some CtaidY | 0x27 => Some CtaidZ
  | 0x29 => Some NtidX | 0x2a => Some NtidY | 0x2b => Some NtidZ
  | 0x2d => Some NctaidX | 0x2e => Some NctaidY | 0x2f => Some NctaidZ
  | 0x50 => Some ClockLo | 0x51 => Some ClockHi
  | 0x58 => Some GlobalTimerLo | 0x59 => Some GlobalTimerHi
  | _ => None
  end.

(** The operation an opcode stands for, with its operands read from the word. *)
Definition read_operation (lo : Z) : option (Opcode * option Reg * list Operand * list Modifier) :=
  let reg k := read_gpr (field k 8 lo) in
  let address := Memory (reg 8) (to_signed 32 (field 20 32 lo)) in
  match field 52 12 lo with
  | 0x211 => Some (mkOpcode "IADD3" Alu3, Some (reg 0), [OReg (reg 8); OReg (reg 20)], [])
  | 0x300 => Some (mkOpcode "FADD" Alu3, Some (reg 0), [OReg (reg 8); OReg (reg 20)], [])
  | 0x304 => Some (mkOpcode "FMUL" Alu3, Some (reg 0), [OReg (reg 8); OReg (reg 20)], [])
  | 0x308 => Some (mkOpcode "FFMA" Fma, Some (reg 0), [OReg (reg 8); OReg (reg 20); OReg (reg 28)], [])
  | 0x100 => Some (mkOpcode "MOV" Alu2, Some (reg 0), [OReg (reg 8)], [])
  | 0x110 => (fun sr => (mkOpcode "S2R" Special, Some (reg 0), [SReg sr], [])) <$> read_sreg (field 20 8 lo)
  | 0x380 => Some (mkOpcode "LDG" ClassLoad, Some (reg 0), [address], [MDataType U32])
  | 0x385 => Some (mkOpcode "STG" ClassStore, Some (reg 0), [address], [MDataType U32])
  | 0x000 => Some (mkOpcode "BRA" Branch, None, [BranchTarget (field 20 32 lo)], [])
  | 0x010 => Some (mkOpcode "EXIT" Branch, None, [], [])
  | 0x020 => Some (mkOpcode "BAR" Sync, None, [OReg (reg 8)], [])
  | 0x7FF => Some (mkOpcode "NOP" ClassNop, None, [], [])
  | _ => None
  end%string.

Definition disassemble (bytes : list Z) : option SassInst :=
  if decide (length bytes = 16%nat) then
    let lo := lo_word bytes in
    '(op, d, operands, mods) ← read_operation lo;
    Some (mkSassInst op d operands (read_pred (field 19 1 lo) (field 16 3 lo)) mods (cc_decode (hi_word bytes)))
  else None.

(** ** The instructions that can be read back *)

(** 255 is the code of [RZ]. *)
Definition gpr_ok (r : Reg) : bool :=
  match r with R n => (0 <=? n) && (n <? 255) | RZ => true | _ => false end.

Definition pred_ok (p : option Predicate) : bool :=
  match p with
  | Some (mkPredicate (P n) _) => (0 <=? n) && (n <? 7)
  | Some (mkPredicate PT neg) => neg
  | Some _ => false
  | None => true
  end.

(** Opcode, destination, sources and modifiers as selection builds them; a
    store has its data register where the encoder looks for it. *)
Inductive operation : Opcode -> option Reg -> list Operand -> list Modifier -> Prop :=
| op_alu name d a b :
    name ∈ ["IADD3"; "FADD"; "FMUL"]%string -> gpr_ok d = true -> gpr_ok a = true -> gpr_ok b = true ->
    operation (mkOpcode name Alu3) (Some d) [OReg a; OReg b] []
| op_fma d a b c :
    gpr_ok d = true -> gpr_ok a = true -> gpr_ok b = true -> gpr_ok c = true ->
    operation (mkOpcode "FFMA" Fma) (Some d) [OReg a; OReg b; OReg c] []
| op_mov d a :
    gpr_ok d = true -> gpr_ok a = true -> operation (mkOpcode "MOV" Alu2) (Some d) [OReg a] []
| op_sreg d sr :
    gpr_ok d = true -> operation (mkOpcode "S2R" Special) (Some d) [SReg sr] []
| op_load d base offset :
    gpr_ok d = true -> gpr_ok base = true -> is_s 32 offset = true ->
    operation (mkOpcode "LDG" ClassLoad) (Some d) [Memory base offset] [MDataType U32]
| op_store data base offset :
    gpr_ok data = true -> gpr_ok base = true -> is_s 32 offset = true ->
    operation (mkOpcode "STG" ClassStore) (Some data) [Memory base offset] [MDataType U32]
| op_branch target :
    is_u 32 target = true -> operation (mkOpcode "BRA" Branch) None [BranchTarget target] []
| op_exit : operation (mkOpcode "EXIT" Branch) None [] []
| op_bar r : gpr_ok r = true -> operation (mkOpcode "BAR" Sync) None [OReg r] []
| op_nop : operation (mkOpcode "NOP" ClassNop) None [] [].

Record readable (inst : SassInst) : Prop := mk_readable {
  rd_operation : operation (opcode inst) (dst inst) (srcs inst) (modifiers inst);
  rd_pred : pred_ok (pred inst) = true;
  rd_control : wf_control (control inst) = true;
}.

(** ** Codes and what they are read as *)
Lemma gpr_ok_wf r : gpr_ok r = true -> wf_gpr r = true.
Proof. destruct r; simpl; try done. rewrite andb_true_iff, is_u_spec, Z.leb_le, Z.ltb_lt. lia. Qed.

Lemma read_gpr_code r : gpr_ok r = true -> read_gpr (gpr_code r) = r.
Proof.
  destruct r as [n| | | | |]; simpl; try done. rewrite andb_true_iff, Z.leb_le, Z.ltb_lt. intros Hn.
  unfold read_gpr. by rewrite (proj2 (Z.eqb_neq n 255)) by lia.
Qed.

Lemma pred_ok_wf p : pred_ok p = true -> match p with Some p => wf_predreg (p_reg p) | None => true end = true.
Proof.
  destruct p as [[r n]|]; [|done]. destruct r; simpl; try done.
  rewrite andb_true_iff, is_u_spec, Z.leb_le, Z.ltb_lt. lia.
Qed.

Lemma read_pred_code p :
  pred_ok p = true ->
  read_pred (match p with Some p => Z.b2z (negated p) | None => 0 end)
            (match p with Some p => pred_code (p_reg p) | None => 7 end) = p.
Proof.
  destruct p as [[r n]|]; [|done]. destruct r as [| |i| | |]; simpl; try done; [|by intros ->].
  rewrite andb_true_iff, Z.leb_le, Z.ltb_lt. intros Hi. unfold read_pred.
  rewrite (proj2 (Z.eqb_neq i 7)) by lia. by destruct n.
Qed.

Lemma read_sreg_code sr : read_sreg (encode_sreg sr) = Some sr.
Proof. by destruct sr. Qed.

Lemma to_signed_wrap_i32 v : is_s 32 v = true -> to_signed 32 (wrap 32 v) = v.
Proof.
  intros Hv. rewrite <- (to_signed_small 32 v) at 2 by (done || lia).
  unfold to_signed. by rewrite wrap_wrap by lia.
Qed.

Lemma readable_wf inst : readable inst -> wf_inst inst = true.
Proof.
  intros [Hop Hp Hc]. destruct inst as [op d ss p mods cc]; cbn [opcode dst srcs pred modifiers control] in *.
  unfold wf_inst. cbn [opcode dst srcs pred modifiers control].
  rewrite (pred_ok_wf _ Hp), Hc, !andb_true_r. clear Hp Hc.
  destruct Hop as [name d a b Hn| | | | | | | | |];
    repeat match goal with H : gpr_ok _ = true |- _ => apply gpr_ok_wf in H end; simpl;
    repeat match goal with H : _ = true |- _ => rewrite H; clear H end; try reflexivity.
  repeat (apply elem_of_cons in Hn as [->|Hn]; [reflexivity|]). by apply elem_of_nil in Hn.
Qed.

(** ** Reading what was encoded *)

(** Evaluate a field the instruction has by its place in the list of fields. *)
Ltac read_field n k w :=
  match goal with Hf : forall k w v, (k, w, v) ∈ ?fs -> field k w ?lo = v |- context [field k w ?lo] =>
    rewrite (Hf k w _ (list_elem_of_lookup_2 fs n _ eq_refl)) end.

Lemma read_operation_fields op d ss p mods cc lo :
  operation op d ss mods ->
  (forall k w v, (k, w, v) ∈ inst_fields (mkSassInst op d ss p mods cc) -> field k w lo = v) ->
  read_operation lo = Some (op, d, ss, mods).
Proof.
  intros Hop Hf. unfold read_operation. read_field 0%nat 52 12.
  destruct Hop as [name d a b Hn Hd Ha Hb|d a b c Hd Ha Hb Hc|d a Hd Ha|d sr Hd|d base off Hd Hb Ho
                  |d base off Hd Hb Ho|t Ht| |r Hr|].
  - repeat (apply elem_of_cons in Hn as [->|Hn]; [cbn -[field read_gpr];
      read_field 3%nat 0 8; read_field 4%nat 8 8; read_field 5%nat 20 8; by rewrite !read_gpr_code|]).
    by apply elem_of_nil in Hn.
  - cbn -[field read_gpr]. read_field 3%nat 0 8. read_field 4%nat 8 8. read_field 5%nat 20 8.
    read_field 6%nat 28 8. by rewrite !read_gpr_code.
  - cbn -[field read_gpr]. read_field 3%nat 0 8. read_field 4%nat 8 8. by rewrite !read_gpr_code.
  - cbn -[field read_gpr read_sreg]. read_field 3%nat 0 8. read_field 4%nat 20 8.
    by rewrite read_gpr_code, read_sreg_code.
  - cbn -[field read_gpr to_signed]. read_field 3%nat 0 8. read_field 4%nat 8 8. read_field 5%nat 20 32.
    by rewrite !read_gpr_code, to_signed_wrap_i32.
  - cbn -[field read_gpr to_signed]. read_field 5%nat 0 8. read_field 3%nat 8 8. read_field 4%nat 20 32.
    by rewrite !read_gpr_code, to_signed_wrap_i32.
  - cbn -[field]. by read_field 3%nat 20 32.
  - reflexivity.
  - cbn -[field read_gpr]. read_field 4%nat 8 8. by rewrite read_gpr_code.
  - reflexivity.
Qed.

Lemma encoded_disassembles inst sm :
  readable inst -> sm = 120 \/ sm = 121 ->
  exists bytes, encode inst sm = Ok bytes /\ length bytes = 16%nat /\ Forall is_byte bytes /\
    disassemble bytes = Some inst.
Proof.
  intros Hr Hsm. pose proof (readable_wf inst Hr) as Hwf. destruct (encoded_words inst Hwf) as (_ & Hcc & Hf).
  eexists. split; [by apply encode_wf|]. set (bytes := le_bytes 8 (pack 0 (inst_fields inst)) ++ _) in *.
  assert (length bytes = 16%nat) as Hl by (unfold bytes; by rewrite length_app, !length_le_bytes).
  split; [done|]. split; [apply Forall_app; split; apply le_bytes_bytes|].
  destruct (head_field_values inst (lo_word bytes) Hf) as (_ & Hneg & Hpr).
  unfold disassemble. rewrite decide_True, Hneg, Hpr, Hcc, read_pred_code by (done || apply Hr).
  destruct inst as [op d ss p mods cc]. rewrite (read_operation_fields op d ss p mods cc) by (done || apply Hr).
  done.
Qed.

(** ** Theorems *)

(** [C8] Encoding can be undone.  Take an addition, multiplication, fused
    multiply-add, move, special-register read, load, branch, exit or no-op as
    instruction selection builds it, or a store or barrier whose register is
    where the encoder looks for it, on registers 0 to 254 or [RZ], with any 32-bit
    offset or target; under no predicate, a predicate register or its negation
    (an explicit, not negated [PT] has the code of no predicate); with control
    codes that fit their fields.  For architectures 120 and 121 it is encoded
    into 16 bytes from which the disassembler recovers exactly that instruction.
    Not covered, because the encoder does not write them: the data register of
    the stores and the id of the barriers that selection builds, and its integer
    comparisons, on which the encoder panics. *)
Theorem disassemble_encode inst sm :
  readable inst -> sm = 120 \/ sm = 121 ->
  exists bytes, encode inst sm = Ok bytes /\ length bytes = 16%nat /\ Forall is_byte bytes /\
    disassemble bytes = Some inst.
Proof. apply encoded_disassembles. Qed.

(** [@!P3 STG [RZ - 8], R254] with control codes of its own *)
Definition sample_store : SassInst :=
  mkSassInst (mkOpcode "STG" ClassStore) (Some (R 254)) [Memory RZ (-8)] (Some (mkPredicate (P 3) true))
    [MDataType U32] (mkControlCodes 5 true 3 2 42 12).

Lemma disassemble_encode_witness :
  exists bytes, encode sample_store 121 = Ok bytes /\ disassemble bytes = Some sample_store /\
    disassemble (<[2%nat := 131]> bytes) = Some (mkSassInst (mkOpcode "STG" ClassStore) (Some (R 254))
      [Memory RZ (-8)] (Some (mkPredicate (P 3) false)) [MDataType U32] (mkControlCodes 5 true 3 2 42 12)).
Proof.
  destruct (disassemble_encode sample_store 121) as (bytes & H1 & _ & _ & H2).
  - constructor; [apply op_store|..]; reflexivity.
  - right. reflexivity.
  - exists bytes. split; [exact H1|]. split; [exact H2|]. vm_compute in H1. injection H1 as <-.
    vm_compute. reflexivity.
Defined.
