(* ===== verification/Regalloc.v ===== *)
(** * Register allocation ([nvidia_sass/src/regalloc/])

    Linear scan over live ranges: virtual registers (R128 and above) are mapped
    to physical ones, and a program of virtual registers behaves the same after
    the mapping. *)
From stdpp Require Import base numbers list strings gmap sorting.
From Stdlib Require Import ZArith Lia Sorted.
From S2P Require Import Prelude Sass.

Local Open Scope nat_scope.

(** ** Live ranges *)
Definition extract_regs (op : Operand) : list Reg :=
  match op with
  | OReg r => [r]
  | Memory base _ => [base]
  | _ => []
  end.

Abbreviation ranges_map := (gmap Z (nat * nat)).

(** [ranges.entry(n).or_insert((idx, idx)).1 = idx] *)
Definition touch_dst (idx : nat) (ranges : ranges_map) (r : option Reg) : ranges_map :=
  match r with
  | Some (R n) => <[n := (fst (default (idx, idx) (ranges !! n)), idx)]> ranges
  | _ => ranges
  end.

Definition touch_src (idx : nat) (ranges : ranges_map) (r : Reg) : ranges_map :=
  match r with
  | R n =>
      let entry := default (idx, idx) (ranges !! n) in
      <[n := (if decide (idx < fst entry) then idx else fst entry,
              if decide (snd entry < idx) then idx else snd entry)]> ranges
  | _ => ranges
  end.

Fixpoint live_from (idx : nat) (ranges : ranges_map) (insts : list SassInst) : ranges_map :=
  match insts with
  | [] => ranges
  | inst :: insts =>
      let ranges := touch_dst idx ranges (dst inst) in
      let ranges := foldl (touch_src idx) ranges (srcs inst ≫= extract_regs) in
      live_from (S idx) ranges insts
  end.

Definition compute_live_ranges (insts : list SassInst) : ranges_map := live_from 0 ∅ insts.

(** ** Linear scan *)
Definition interval : Type := Z * nat * nat.
Definition iv_reg (iv : interval) : Z := fst (fst iv).
Definition iv_start (iv : interval) : nat := snd (fst iv).
Definition iv_end (iv : interval) : nat := snd iv.

(** [.map(|(&vreg, &(start, end))| (vreg, start, end))] *)
Definition to_interval (entry : Z * (nat * nat)) : interval :=
  let '(vreg, (start, endp)) := entry in (vreg, start, endp).

(** [sort_by_key] with the start as key: a stable sort. *)
Fixpoint insert_by_start (x : interval) (l : list interval) : list interval :=
  match l with
  | [] => [x]
  | y :: l' => if decide (iv_start x < iv_start y) then x :: l else y :: insert_by_start x l'
  end.

Definition sort_by_start (l : list interval) : list interval :=
  foldl (fun sorted x => insert_by_start x sorted) [] l.

Definition active_entry : Type := Z * Z * nat.

(** [(0..=254u8).find(|r| !used.contains(r))] *)
Definition find_free (used : list Z) : option Z :=
  snd <$> list_find (fun r => r ∉ used) (seqZ 0 255).

Definition scan_step (acc : gmap Z Z * list active_entry) (iv : interval)
    : outcome NvSassError (gmap Z Z * list active_entry) :=
  let '(mapping, active) := acc in
  let '(vreg, start, endp) := iv in
  if (vreg <? 128)%Z then Ok (<[vreg := vreg]> mapping, active)
  else
    let active := filter (fun a : active_entry => start <= snd a) active in
    let used := (fun a : active_entry => snd (fst a)) <$> active in
    phys ← ok_or (RegAllocError "out of registers"%string) (find_free used);
    Ok (<[vreg := phys]> mapping, active ++ [(vreg, phys, endp)]).

(** A hash map is visited in an order the code does not control: any order of
    its entries. *)
Class HashOrder := {
  hash_iter : ranges_map -> list (Z * (nat * nat));
  hash_iter_perm : forall m, hash_iter m ≡ₚ map_to_list m;
}.

Section Allocate.
Context `{HashOrder}.

Definition linear_scan (live_ranges : ranges_map) : outcome NvSassError (gmap Z Z) :=
  let ranges := to_interval <$> hash_iter live_ranges in
  '(mapping, _) ← foldM scan_step (∅, []) (sort_by_start ranges);
  Ok mapping.

Definition remap_reg (mapping : gmap Z Z) (reg : Reg) : Reg :=
  match reg with
  | R n => match mapping !! n with Some phys => R phys | None => reg end
  | other => other
  end.

Definition remap_operand (mapping : gmap Z Z) (op : Operand) : Operand :=
  match op with
  | OReg r => OReg (remap_reg mapping r)
  | Memory base offset => Memory (remap_reg mapping base) offset
  | other => other
  end.

Definition remap_inst (mapping : gmap Z Z) (inst : SassInst) : SassInst :=
  mkSassInst (opcode inst) (remap_reg mapping <$> dst inst) (remap_operand mapping <$> srcs inst)
    (pred inst) (modifiers inst) (control inst).

(** [mapping.values().copied().max().unwrap_or(0)] *)
Definition max_value (mapping : gmap Z Z) : Z := foldr Z.max 0%Z (snd <$> map_to_list mapping).

Definition allocate (insts : list SassInst) : outcome NvSassError (list SassInst * Z) :=
  let live_ranges := compute_live_ranges insts in
  mapping ← linear_scan live_ranges;
  let num_regs := (max_value mapping + 1)%Z in
  Ok (remap_inst mapping <$> insts, Z.max num_regs 8).

End Allocate.

(** ** Occurrences and live ranges *)
Definition occurs (n : Z) (inst : SassInst) : Prop :=
  dst inst = Some (R n) \/ R n ∈ (srcs inst ≫= extract_regs).

(** The range of [n] contains position [i]. *)
Definition covers (ranges : ranges_map) (n : Z) (i : nat) : Prop :=
  exists s e, ranges !! n = Some (s, e) /\ s <= i <= e.

Lemma touch_dst_covers idx ranges r n i :
  (forall m s e, ranges !! m = Some (s, e) -> s <= e <= idx) ->
  covers ranges n i -> covers (touch_dst idx ranges r) n i.
Proof.
  intros Hb (s & e & Hn & Hi). pose proof (Hb _ _ _ Hn).
  destruct r as [[m| | | | |]|]; simpl; try (by exists s, e).
  destruct (decide (m = n)) as [->|Hne].
  - rewrite Hn. simpl. exists s, idx. rewrite lookup_insert_eq. split; [done|lia].
  - exists s, e. by rewrite lookup_insert_ne.
Qed.

Lemma touch_src_covers idx ranges r n i :
  covers ranges n i -> covers (touch_src idx ranges r) n i.
Proof.
  intros (s & e & Hn & Hi). destruct r as [m| | | | |]; simpl; try (by exists s, e).
  destruct (decide (m = n)) as [->|Hne].
  - rewrite Hn. unfold covers. rewrite lookup_insert_eq. simpl.
    do 2 eexists. split; [done|]. repeat case_decide; lia.
  - exists s, e. by rewrite lookup_insert_ne.
Qed.

Lemma touch_dst_bounds idx ranges r :
  (forall m s e, ranges !! m = Some (s, e) -> s <= e <= idx) ->
  forall m s e, touch_dst idx ranges r !! m = Some (s, e) -> s <= e <= idx.
Proof.
  intros Hb m s e. destruct r as [[k| | | | |]|]; simpl; try apply Hb.
  destruct (decide (k = m)) as [->|Hne]; [|rewrite lookup_insert_ne by done; apply Hb].
  rewrite lookup_insert_eq. intros [= <- <-]. destruct (ranges !! m) as [[s' e']|] eqn:Hm; simpl; [|lia].
  pose proof (Hb _ _ _ Hm). lia.
Qed.

Lemma touch_src_bounds idx ranges r :
  (forall m s e, ranges !! m = Some (s, e) -> s <= e <= idx) ->
  forall m s e, touch_src idx ranges r !! m = Some (s, e) -> s <= e <= idx.
Proof.
  intros Hb m s e. destruct r as [k| | | | |]; simpl; try apply Hb.
  destruct (decide (k = m)) as [->|Hne]; [|rewrite lookup_insert_ne by done; apply Hb].
  rewrite lookup_insert_eq. intros [= <- <-].
  destruct (ranges !! m) as [[s' e']|] eqn:Hm; simpl; [pose proof (Hb _ _ _ Hm)|];
    repeat case_decide; lia.
Qed.

Lemma touch_dst_here idx ranges n :
  (forall m s e, ranges !! m = Some (s, e) -> s <= e <= idx) ->
  covers (touch_dst idx ranges (Some (R n))) n idx.
Proof.
  intros Hb. simpl. unfold covers. rewrite lookup_insert_eq. do 2 eexists. split; [done|].
  destruct (ranges !! n) as [[s e]|] eqn:Hn; simpl; [pose proof (Hb _ _ _ Hn)|]; lia.
Qed.

Lemma touch_src_here idx ranges n : covers (touch_src idx ranges (R n)) n idx.
Proof.
  simpl. unfold covers. rewrite lookup_insert_eq. do 2 eexists. split; [done|]. repeat case_decide; lia.
Qed.

Lemma touch_srcs_spec idx rs ranges :
  (forall m s e, ranges !! m = Some (s, e) -> s <= e <= idx) ->
  let ranges' := foldl (touch_src idx) ranges rs in
  (forall m s e, ranges' !! m = Some (s, e) -> s <= e <= idx) /\
  (forall n i, covers ranges n i -> covers ranges' n i) /\
  (forall n, R n ∈ rs -> covers ranges' n idx).
Proof.
  revert ranges. induction rs as [|r rs IH]; intros ranges Hb; simpl.
  { split_and!; [done|done|]. intros n Hn. by apply not_elem_of_nil in Hn. }
  destruct (IH (touch_src idx ranges r) (touch_src_bounds idx ranges r Hb)) as (H1 & H2 & H3).
  split_and!; [done| |].
  - intros n i Hc. by apply H2, touch_src_covers.
  - intros n [<-|Hn]%elem_of_cons; [|by apply H3]. apply H2, touch_src_here.
Qed.

Lemma live_from_spec insts idx ranges :
  (forall m s e, ranges !! m = Some (s, e) -> s <= e < idx) ->
  let ranges' := live_from idx ranges insts in
  (forall n i, covers ranges n i -> covers ranges' n i) /\
  (forall n k inst, insts !! k = Some inst -> occurs n inst -> covers ranges' n (idx + k)).
Proof.
  revert idx ranges. induction insts as [|inst insts IH]; intros idx ranges Hb; simpl.
  { split; [done|]. intros n k inst Hk. by rewrite lookup_nil in Hk. }
  assert (forall m s e, ranges !! m = Some (s, e) -> s <= e <= idx) as Hb'
    by (intros m s e Hm; specialize (Hb _ _ _ Hm); lia).
  set (r1 := touch_dst idx ranges (dst inst)).
  destruct (touch_srcs_spec idx (srcs inst ≫= extract_regs) r1
    (touch_dst_bounds idx ranges (dst inst) Hb')) as (B2 & C2 & O2).
  set (r2 := foldl _ r1 _) in *.
  destruct (IH (S idx) r2) as (C3 & O3); [intros m s e Hm; specialize (B2 _ _ _ Hm); lia|].
  split.
  - intros n i Hc. apply C3, C2. by apply touch_dst_covers.
  - intros n [|k] inst' Hk Hocc; simpl in Hk.
    + injection Hk as <-. rewrite Nat.add_0_r. apply C3. destruct Hocc as [Hd|Hs]; [|by apply O2].
      apply C2. unfold r1. rewrite Hd. by apply touch_dst_here.
    + replace (idx + S k) with (S idx + k) by lia. by eapply O3.
Qed.

(** Every occurrence of a register lies in its live range. *)
Lemma live_range_covers insts n k inst :
  insts !! k = Some inst -> occurs n inst -> covers (compute_live_ranges insts) n k.
Proof.
  intros Hk Hocc. destruct (live_from_spec insts 0 ∅) as [_ H].
  { intros m s e Hm. by rewrite lookup_empty in Hm. }
  by apply (H n k inst).
Qed.

(** ** The sorted intervals *)
Definition starts_le (x y : interval) : Prop := iv_start x <= iv_start y.

Lemma insert_by_start_perm x l : insert_by_start x l ≡ₚ x :: l.
Proof.
  induction l as [|y l IH]; simpl; [done|]. case_decide; [done|]. rewrite IH. by apply Permutation_swap.
Qed.

Lemma insert_by_start_sorted x l :
  StronglySorted starts_le l -> StronglySorted starts_le (insert_by_start x l).
Proof.
  induction 1 as [|y l Hs IH Hy]; simpl; [by repeat constructor|]. case_decide as Hlt.
  - constructor; [by constructor|]. constructor; [unfold starts_le; lia|].
    eapply Forall_impl; [exact Hy|]. unfold starts_le. lia.
  - constructor; [done|]. rewrite insert_by_start_perm. constructor; [unfold starts_le; lia|done].
Qed.

Lemma sort_by_start_spec l : sort_by_start l ≡ₚ l /\ StronglySorted starts_le (sort_by_start l).
Proof.
  unfold sort_by_start. assert (forall acc, StronglySorted starts_le acc ->
    foldl (fun sorted x => insert_by_start x sorted) acc l ≡ₚ acc ++ l /\
    StronglySorted starts_le (foldl (fun sorted x => insert_by_start x sorted) acc l)) as H.
  { induction l as [|x l IH]; intros acc Hacc; simpl; [by rewrite app_nil_r|].
    destruct (IH (insert_by_start x acc) (insert_by_start_sorted x acc Hacc)) as [Hp Hs].
    split; [|done]. rewrite Hp, insert_by_start_perm. simpl. by rewrite Permutation_middle. }
  apply (H []). constructor.
Qed.

(** ** Free registers *)
Lemma NoDup_seqZ_bound l lo n :
  NoDup l -> (forall x, x ∈ l -> lo <= x < lo + Z.of_nat n)%Z -> length l <= n.
Proof.
  intros Hnd Hin. replace n with (length (seqZ lo (Z.of_nat n))) by (rewrite length_seqZ; lia).
  apply submseteq_length, NoDup_submseteq; [done|]. intros x Hx. apply elem_of_seqZ. by apply Hin.
Qed.

Lemma find_free_Some used :
  length used < 255 -> exists r, find_free used = Some r /\ (0 <= r < 255)%Z /\ r ∉ used.
Proof.
  intros Hlen. unfold find_free. destruct (list_find _ _) as [[i r]|] eqn:Hf.
  - apply list_find_Some in Hf as (Hi & Hr & _). exists r. split_and!; try done.
    + apply list_elem_of_lookup_2, elem_of_seqZ in Hi. lia.
    + apply list_elem_of_lookup_2, elem_of_seqZ in Hi. lia.
  - exfalso. apply list_find_None in Hf. rewrite Forall_forall in Hf.
    assert (seqZ 0 255 ⊆+ used) as Hsub.
    { apply NoDup_submseteq; [apply NoDup_seqZ|]. intros x Hx. apply dec_stable, Hf, Hx. }
    apply submseteq_length in Hsub. rewrite length_seqZ in Hsub. lia.
Qed.

(** ** The scan *)
Definition virtual (iv : interval) : Prop := (128 <= iv_reg iv)%Z.
Definition overlap (x y : interval) : Prop := iv_start x <= iv_end y /\ iv_start y <= iv_end x.

(** What the scan knows after the intervals [done]. *)
Record scan_inv (done : list interval) (acc : gmap Z Z * list active_entry) : Prop := mk_scan_inv {
  si_low : forall iv, iv ∈ done -> ~ virtual iv -> fst acc !! iv_reg iv = Some (iv_reg iv);
  si_virtual : forall iv, iv ∈ done -> virtual iv ->
    exists phys, fst acc !! iv_reg iv = Some phys /\ (0 <= phys < 255)%Z;
  si_keys : forall v phys, fst acc !! v = Some phys -> exists iv, iv ∈ done /\ iv_reg iv = v;
  si_active : forall iv phys, iv ∈ done -> virtual iv -> fst acc !! iv_reg iv = Some phys ->
    (iv_reg iv, phys, iv_end iv) ∈ snd acc \/ exists iv', iv' ∈ done /\ iv_end iv < iv_start iv';
  si_regs : NoDup ((fun a : active_entry => fst (fst a)) <$> snd acc);
  si_range : forall v phys e, (v, phys, e) ∈ snd acc -> exists iv, iv ∈ done /\ virtual iv /\ iv_reg iv = v;
  si_disjoint : forall x y p, x ∈ done -> y ∈ done -> virtual x -> virtual y ->
    fst acc !! iv_reg x = Some p -> fst acc !! iv_reg y = Some p -> overlap x y -> iv_reg x = iv_reg y;
}.

(** Intervals of distinct [u8] registers, in order of their starts. *)
Record wf_intervals (l : list interval) : Prop := mk_wf_intervals {
  wi_sorted : StronglySorted starts_le l;
  wi_nodup : NoDup (iv_reg <$> l);
  wi_u8 : forall iv, iv ∈ l -> (0 <= iv_reg iv < 256)%Z;
}.

Lemma wf_intervals_fresh l done iv rest x :
  wf_intervals l -> l = done ++ iv :: rest -> x ∈ done -> iv_reg x <> iv_reg iv.
Proof.
  intros [_ Hnd _] -> Hx Heq. rewrite fmap_app, fmap_cons in Hnd.
  apply NoDup_app in Hnd as (_ & Hnd & _). apply (Hnd (iv_reg x)).
  - by apply list_elem_of_fmap_2.
  - rewrite Heq. by left.
Qed.

Lemma wf_intervals_start l done iv rest x :
  wf_intervals l -> l = done ++ iv :: rest -> x ∈ done -> iv_start x <= iv_start iv.
Proof.
  intros [Hs _ _] -> Hx. apply StronglySorted_app in Hs as (Hs & _ & _).
  apply (Hs x iv Hx). by left.
Qed.

(** An interval of a low register maps to itself. *)
Lemma scan_low l done iv rest acc :
  wf_intervals l -> l = done ++ iv :: rest -> scan_inv done acc -> ~ virtual iv ->
  exists acc', scan_step acc iv = Ok acc' /\ scan_inv (done ++ [iv]) acc'.
Proof.
  intros Hl Heq [H1 H2 H3 H4 H5 H6 H7] Hlow. destruct acc as [mapping active]; simpl in *.
  assert (forall x, x ∈ done -> iv_reg x <> iv_reg iv) as Hne by (intros; by eapply wf_intervals_fresh).
  destruct iv as [[v s] e]. unfold virtual, iv_reg in Hlow, Hne; simpl in *.
  exists (<[v := v]> mapping, active). split.
  { simpl. by rewrite (proj2 (Z.ltb_lt v 128)) by lia. }
  constructor; simpl; [| | | | done | |].
  - intros iv [Hi| ->%list_elem_of_singleton]%elem_of_app Hv; [|by rewrite lookup_insert_eq].
    rewrite lookup_insert_ne by (apply not_eq_sym, Hne, Hi). by apply H1.
  - intros iv [Hi| ->%list_elem_of_singleton]%elem_of_app Hv; [|by unfold virtual, iv_reg in Hv; simpl in Hv; lia].
    rewrite lookup_insert_ne by (apply not_eq_sym, Hne, Hi). by apply H2.
  - intros v' phys. destruct (decide (v = v')) as [->|Hv].
    + intros _. exists (v', s, e). split; [set_solver|done].
    + rewrite lookup_insert_ne by done. intros Hp. destruct (H3 _ _ Hp) as (iv & ? & ?). exists iv. set_solver.
  - intros iv phys [Hi| ->%list_elem_of_singleton]%elem_of_app Hv; [|by unfold virtual, iv_reg in Hv; simpl in Hv; lia].
    rewrite lookup_insert_ne by (apply not_eq_sym, Hne, Hi). intros Hp.
    destruct (H4 _ _ Hi Hv Hp) as [?|(iv' & ? & ?)]; [by left|right; exists iv'; set_solver].
  - intros v' p e' Ha. destruct (H6 _ _ _ Ha) as (iv & ? & ? & ?). exists iv. set_solver.
  - intros x y p [Hx| ->%list_elem_of_singleton]%elem_of_app [Hy| ->%list_elem_of_singleton]%elem_of_app Vx Vy;
      try (unfold virtual, iv_reg in Vx, Vy; simpl in Vx, Vy; lia).
    rewrite !lookup_insert_ne by (apply not_eq_sym, Hne; assumption). by apply H7.
Qed.

(** The active entries of registers that are still live. *)
Lemma scan_active_length l done iv rest acc start :
  wf_intervals l -> l = done ++ iv :: rest -> scan_inv done acc ->
  length (filter (fun a : active_entry => start <= snd a) (snd acc)) < 255.
Proof.
  intros Hl Heq [_ _ _ _ H5 H6 _]. eapply Nat.le_lt_trans; [apply length_filter|].
  rewrite <- (length_fmap (fun a : active_entry => fst (fst a))).
  eapply Nat.le_lt_trans; [apply (NoDup_seqZ_bound _ 128 128 H5)|lia].
  intros x (a & -> & Ha)%list_elem_of_fmap. destruct a as [[v p] e]. simpl.
  destruct (H6 _ _ _ Ha) as (iv' & Hin & Hv & <-). unfold virtual in Hv.
  assert (iv' ∈ l) as Hin' by (rewrite Heq; set_solver).
  pose proof (wi_u8 _ Hl _ Hin'). lia.
Qed.

Lemma scan_virtual l done iv rest acc :
  wf_intervals l -> l = done ++ iv :: rest -> scan_inv done acc -> virtual iv ->
  exists acc', scan_step acc iv = Ok acc' /\ scan_inv (done ++ [iv]) acc'.
Proof.
  intros Hl Heq Hinv Hvirt.
  pose proof (scan_active_length l done iv rest acc (iv_start iv) Hl Heq Hinv) as Hlen.
  assert (forall x, x ∈ done -> iv_reg x <> iv_reg iv) as Hne by (intros; by eapply wf_intervals_fresh).
  assert (forall x, x ∈ done -> iv_start x <= iv_start iv) as Hstart
    by (intros; by eapply wf_intervals_start).
  destruct Hinv as [H1 H2 H3 H4 H5 H6 H7]. destruct acc as [mapping active]; simpl in *.
  set (live := filter (fun a : active_entry => iv_start iv <= snd a) active) in *.
  destruct (find_free_Some ((fun a : active_entry => snd (fst a)) <$> live)) as (phys & Hfree & Hrange & Hnot);
    [by rewrite length_fmap|].
  exists (<[iv_reg iv := phys]> mapping, live ++ [(iv_reg iv, phys, iv_end iv)]). split.
  { destruct iv as [[v s] e]. unfold virtual, iv_reg in Hvirt. simpl in *.
    rewrite (proj2 (Z.ltb_ge v 128)) by lia. fold live. unfold iv_start in live; simpl in live.
    fold live. by rewrite Hfree. }
  assert (forall x, x ∈ done -> <[iv_reg iv := phys]> mapping !! iv_reg x = mapping !! iv_reg x) as Hlk.
  { intros x Hx. apply lookup_insert_ne. by apply not_eq_sym, Hne. }
  assert (forall x p, x ∈ done -> virtual x -> mapping !! iv_reg x = Some p -> overlap x iv -> p <> phys) as Hfresh.
  { intros x p Hx Hv Hp [_ Hov] ->. apply Hnot.
    destruct (H4 _ _ Hx Hv Hp) as [Ha|(iv' & Hi' & Hlt)].
    - apply list_elem_of_fmap. exists (iv_reg x, phys, iv_end x). split; [done|].
      apply list_elem_of_filter. by split.
    - specialize (Hstart _ Hi'). lia. }
  constructor; simpl.
  - intros x [Hi| ->%list_elem_of_singleton]%elem_of_app Hv; [rewrite Hlk by done; by apply H1|done].
  - intros x [Hi| ->%list_elem_of_singleton]%elem_of_app Hv; [rewrite Hlk by done; by apply H2|].
    exists phys. by rewrite lookup_insert_eq.
  - intros v p. destruct (decide (iv_reg iv = v)) as [Hv|Hv].
    + intros _. exists iv. set_solver.
    + rewrite lookup_insert_ne by done. intros Hp. destruct (H3 _ _ Hp) as (x & ? & ?). exists x. set_solver.
  - intros x p [Hi| ->%list_elem_of_singleton]%elem_of_app Hv.
    + rewrite Hlk by done. intros Hp.
      destruct (H4 _ _ Hi Hv Hp) as [Ha|(iv' & ? & ?)]; [|right; exists iv'; set_solver].
      destruct (decide (iv_start iv <= iv_end x)) as [Hle|Hgt].
      * left. apply elem_of_app. left. apply list_elem_of_filter. by split.
      * right. exists iv. split; [set_solver|lia].
    + rewrite lookup_insert_eq. intros [= <-]. left. apply elem_of_app. right. by left.
  - rewrite fmap_app. apply NoDup_app. split_and!; [|intros v Hv|apply NoDup_singleton].
    + eapply sublist_NoDup; [exact H5|]. apply fmap_sublist, sublist_filter.
    + apply list_elem_of_fmap in Hv as ([[v' p] e] & -> & [_ Ha]%list_elem_of_filter). simpl.
      destruct (H6 _ _ _ Ha) as (x & Hx & _ & <-). rewrite list_elem_of_singleton. by apply Hne.
  - intros v p e [Ha|Ha%list_elem_of_singleton]%elem_of_app.
    + apply list_elem_of_filter in Ha as [_ Ha]. destruct (H6 _ _ _ Ha) as (x & ? & ? & ?). exists x. set_solver.
    + simplify_eq. exists iv. set_solver.
  - intros x y p [Hx| ->%list_elem_of_singleton]%elem_of_app [Hy| ->%list_elem_of_singleton]%elem_of_app Vx Vy.
    + rewrite !Hlk by done. by apply H7.
    + rewrite (Hlk x Hx), lookup_insert_eq. intros Hp [= <-] Hov. by destruct (Hfresh _ _ Hx Vx Hp Hov).
    + rewrite (Hlk y Hy), lookup_insert_eq. intros [= <-] Hp [Ho1 Ho2].
      destruct (Hfresh _ _ Hy Vy Hp); [by split|done].
    + done.
Qed.

Lemma scan_all l :
  wf_intervals l -> exists acc, foldM scan_step (∅, []) l = Ok acc /\ scan_inv l acc.
Proof.
  intros Hl. apply foldM_inv.
  - constructor; simpl; try (intros; exfalso; eapply not_elem_of_nil; eassumption).
    + intros v p Hp. by rewrite lookup_empty in Hp.
    + constructor.
  - intros done iv rest acc Heq Hinv. destruct (decide (128 <= iv_reg iv)%Z).
    + by eapply scan_virtual.
    + by eapply scan_low.
Qed.

(** ** The mapping of a program *)

(** Register numbers are [u8]s. *)
Definition regs_u8 (insts : list SassInst) : Prop :=
  forall inst n, inst ∈ insts -> occurs n inst -> (0 <= n < 256)%Z.

Lemma touch_src_key idx ranges r n v :
  touch_src idx ranges r !! n = Some v -> is_Some (ranges !! n) \/ r = R n.
Proof.
  destruct r as [m| | | | |]; simpl; try (intros H; left; by eexists).
  destruct (decide (m = n)) as [->|Hne]; [by right|].
  rewrite lookup_insert_ne by done. intros H. left. by eexists.
Qed.

Lemma touch_srcs_key idx rs ranges n v :
  foldl (touch_src idx) ranges rs !! n = Some v -> is_Some (ranges !! n) \/ R n ∈ rs.
Proof.
  revert ranges. induction rs as [|r rs IH]; intros ranges H; simpl in *; [left; by eexists|].
  destruct (IH _ H) as [[v' Hv]|?]; [|right; set_solver].
  destruct (touch_src_key _ _ _ _ _ Hv) as [?|<-]; [by left|right; set_solver].
Qed.

Lemma live_from_key insts idx ranges n v :
  live_from idx ranges insts !! n = Some v ->
  is_Some (ranges !! n) \/ exists inst, inst ∈ insts /\ occurs n inst.
Proof.
  revert idx ranges. induction insts as [|inst insts IH]; intros idx ranges H; simpl in *; [left; by eexists|].
  destruct (IH _ _ H) as [[v' Hv]|(i & ? & ?)]; [|right; exists i; set_solver].
  destruct (touch_srcs_key _ _ _ _ _ Hv) as [[v'' Hv']|?].
  - destruct (dst inst) as [[m| | | | |]|] eqn:Hd; simpl in Hv'; try (left; by eexists).
    destruct (decide (m = n)) as [->|Hne].
    + right. exists inst. split; [set_solver|]. by left.
    + rewrite lookup_insert_ne in Hv' by done. left. by eexists.
  - right. exists inst. split; [set_solver|]. by right.
Qed.

Section Mapping.
Context `{HashOrder}.

Lemma intervals_elem m v s e :
  (v, s, e) ∈ (to_interval <$> hash_iter m) <->
  m !! v = Some (s, e).
Proof.
  rewrite list_elem_of_fmap, <- elem_of_map_to_list. split.
  - intros ([v' [s' e']] & Heq & Hin). injection Heq as -> -> ->. by rewrite <- (hash_iter_perm m).
  - intros Hin. exists (v, (s, e)). split; [done|].
    by rewrite (hash_iter_perm m).
Qed.

Lemma intervals_wf m :
  (forall n v, m !! n = Some v -> (0 <= n < 256)%Z) ->
  wf_intervals (sort_by_start (to_interval <$> hash_iter m)).
Proof.
  intros Hu8. destruct (sort_by_start_spec (to_interval <$> hash_iter m))
    as [Hp Hs]. constructor; [done| |].
  - rewrite Hp, <- list_fmap_compose.
    rewrite (list_fmap_ext (iv_reg ∘ to_interval) fst) by (by intros i [v [s e]] _).
    rewrite hash_iter_perm. apply NoDup_fst_map_to_list.
  - intros [[v s] e]. rewrite Hp. intros Hin%intervals_elem. by eapply Hu8.
Qed.

(** What the allocation of a map of live ranges guarantees. *)
Record good_mapping (m : ranges_map) (mapping : gmap Z Z) : Prop := mk_good_mapping {
  gm_low : forall n s e, m !! n = Some (s, e) -> (n < 128)%Z -> mapping !! n = Some n;
  gm_virtual : forall n s e, m !! n = Some (s, e) -> (128 <= n)%Z ->
    exists phys, mapping !! n = Some phys /\ (0 <= phys < 255)%Z;
  gm_keys : forall n phys, mapping !! n = Some phys -> is_Some (m !! n);
  gm_disjoint : forall n1 n2 s1 e1 s2 e2 phys,
    m !! n1 = Some (s1, e1) -> m !! n2 = Some (s2, e2) -> (128 <= n1)%Z -> (128 <= n2)%Z ->
    mapping !! n1 = Some phys -> mapping !! n2 = Some phys -> s1 <= e2 -> s2 <= e1 -> n1 = n2;
}.

Lemma linear_scan_good m :
  (forall n v, m !! n = Some v -> (0 <= n < 256)%Z) ->
  exists mapping, linear_scan m = Ok mapping /\ good_mapping m mapping.
Proof.
  intros Hu8. pose proof (intervals_wf m Hu8) as Hwf. unfold linear_scan.
  destruct (sort_by_start_spec (to_interval <$> hash_iter m)) as [Hp _].
  set (l := sort_by_start _) in *. destruct (scan_all l Hwf) as ([mapping active] & -> & Hinv).
  assert (forall v s e, (v, s, e) ∈ l <-> m !! v = Some (s, e)) as Hl
    by (intros v s e; rewrite Hp; apply intervals_elem).
  destruct Hinv as [H1 H2 H3 _ _ _ H7]; simpl in *.
  exists mapping. split; [done|]. constructor.
  - intros n s e Hn Hlow. apply (H1 (n, s, e)); [by apply Hl|]. unfold virtual, iv_reg; simpl. lia.
  - intros n s e Hn Hv. apply (H2 (n, s, e)); [by apply Hl|done].
  - intros n phys Hn. destruct (H3 _ _ Hn) as ([[v s] e] & Hin & <-). apply Hl in Hin. by eexists.
  - intros n1 n2 s1 e1 s2 e2 phys Hn1 Hn2 V1 V2 Hp1 Hp2 Ho1 Ho2.
    apply (H7 (n1, s1, e1) (n2, s2, e2) phys); try done; by apply Hl.
Qed.

Lemma program_mapping insts :
  regs_u8 insts -> exists mapping,
    linear_scan (compute_live_ranges insts) = Ok mapping /\
    good_mapping (compute_live_ranges insts) mapping.
Proof.
  intros Hu8. apply linear_scan_good. intros n v Hn.
  destruct (live_from_key insts 0 ∅ n v Hn) as [[? H0]|(inst & Hin & Hocc)].
  - by rewrite lookup_empty in H0.
  - by eapply Hu8.
Qed.

End Mapping.

(** ** What a program computes

    A register file, and the rest of the machine (memory, predicates, barriers)
    as a type [M].  [exec] is what an instruction does, given its shape with the
    general registers erased, the values of its operands, the old value of its
    destination when the instruction is predicated, and the rest of the
    machine. *)
Definition erase_reg (r : Reg) : Reg := match r with R _ => R 0 | r => r end.

Definition erase_operand (o : Operand) : Operand :=
  match o with
  | OReg r => OReg (erase_reg r)
  | Memory base offset => Memory (erase_reg base) offset
  | o => o
  end.

Definition erase (inst : SassInst) : SassInst :=
  mkSassInst (opcode inst) (erase_reg <$> dst inst) (erase_operand <$> srcs inst)
    (pred inst) (modifiers inst) (control inst).

Definition read_reg (rf : Z -> Z) (r : Reg) : Z := match r with R n => rf n | _ => 0%Z end.

Definition operand_value (rf : Z -> Z) (o : Operand) : Z :=
  match o with
  | OReg r => read_reg rf r
  | Memory base _ => read_reg rf base
  | _ => 0%Z
  end.

Definition old_value (rf : Z -> Z) (inst : SassInst) : Z :=
  match pred inst, dst inst with
  | Some _, Some r => read_reg rf r
  | _, _ => 0%Z
  end.

Section Semantics.
Context {M : Type} (exec : SassInst -> list Z -> Z -> M -> Z * M).

Definition write_reg (rf : Z -> Z) (d : option Reg) (z : Z) : Z -> Z :=
  match d with
  | Some (R n) => fun k => if decide (k = n) then z else rf k
  | _ => rf
  end.

Definition run1 (s : (Z -> Z) * M) (inst : SassInst) : (Z -> Z) * M :=
  let '(rf, m) := s in
  let '(z, m') := exec (erase inst) (operand_value rf <$> srcs inst) (old_value rf inst) m in
  (write_reg rf (dst inst) z, m').

Definition run_insts (s : (Z -> Z) * M) (insts : list SassInst) : (Z -> Z) * M := foldl run1 s insts.

End Semantics.

(** The registers an instruction reads. *)
Definition reads (inst : SassInst) (n : Z) : Prop :=
  R n ∈ (srcs inst ≫= extract_regs) \/ (is_Some (pred inst) /\ dst inst = Some (R n)).

(** Every register is virtual, and written before it is read. *)
Record straight_line (insts : list SassInst) : Prop := mk_straight_line {
  sl_virtual : forall inst n, inst ∈ insts -> occurs n inst -> (128 <= n < 256)%Z;
  sl_defined : forall k inst n, insts !! k = Some inst -> reads inst n ->
    exists j inst', j < k /\ insts !! j = Some inst' /\ dst inst' = Some (R n);
}.

Lemma erase_remap mapping inst : erase (remap_inst mapping inst) = erase inst.
Proof.
  assert (forall r, erase_reg (remap_reg mapping r) = erase_reg r) as Hr.
  { intros [n| | | | |]; simpl; try done. by destruct (mapping !! n). }
  unfold erase, remap_inst; simpl. f_equal.
  - destruct (dst inst); simpl; [by rewrite Hr|done].
  - rewrite <- list_fmap_compose. apply list_fmap_ext. intros i o _.
    destruct o; simpl; by rewrite ?Hr.
Qed.

(** Two register files agree on the registers of an operand list. *)
Lemma operand_values_agree mapping rfp rfv ops :
  (forall n, R n ∈ (ops ≫= extract_regs) ->
     exists phys, mapping !! n = Some phys /\ rfp phys = rfv n) ->
  operand_value rfp <$> (remap_operand mapping <$> ops) = operand_value rfv <$> ops.
Proof.
  intros Hag. rewrite <- list_fmap_compose. apply list_fmap_ext. intros i o Hi.
  assert (forall r, r ∈ extract_regs o -> read_reg rfp (remap_reg mapping r) = read_reg rfv r) as Hr.
  { intros r Hin. destruct r as [n| | | | |]; simpl; try done.
    destruct (Hag n) as (phys & -> & Heq); [|done].
    apply list_elem_of_bind. exists o. split; [done|]. by eapply list_elem_of_lookup_2. }
  destruct o; simpl; try done; apply Hr; by left.
Qed.

Section Preservation.
Context {M : Type} (exec : SassInst -> list Z -> Z -> M -> Z * M).
Context (insts : list SassInst) (mapping : gmap Z Z).
Hypothesis Hsl : straight_line insts.
Hypothesis Hgood : good_mapping (compute_live_ranges insts) mapping.

Definition agree_at (k : nat) (sv sp : (Z -> Z) * M) : Prop :=
  snd sp = snd sv /\
  forall n phys s e, mapping !! n = Some phys -> compute_live_ranges insts !! n = Some (s, e) ->
    k <= e -> (exists j inst, j < k /\ insts !! j = Some inst /\ dst inst = Some (R n)) ->
    fst sp phys = fst sv n.

Lemma mapped n k inst :
  insts !! k = Some inst -> occurs n inst ->
  exists phys s e, mapping !! n = Some phys /\ compute_live_ranges insts !! n = Some (s, e) /\ s <= k <= e.
Proof.
  intros Hk Hocc. destruct (live_range_covers insts n k inst Hk Hocc) as (s & e & Hr & Hi).
  assert (128 <= n < 256)%Z.
  { eapply sl_virtual; [exact Hsl| |exact Hocc]. by eapply list_elem_of_lookup_2. }
  destruct (gm_virtual _ _ Hgood n s e Hr ltac:(lia)) as (phys & Hp & _). eauto 10.
Qed.

Lemma reads_agree k inst sv sp n :
  agree_at k sv sp -> insts !! k = Some inst -> reads inst n ->
  exists phys, mapping !! n = Some phys /\ fst sp phys = fst sv n.
Proof.
  intros [_ Hag] Hk Hr. assert (occurs n inst) as Hocc by (destruct Hr as [?|[_ ?]]; [by right|by left]).
  destruct (mapped n k inst Hk Hocc) as (phys & s & e & Hp & Hrange & Hi).
  exists phys. split; [done|]. eapply Hag; [done|done|lia|].
  destruct (sl_defined _ Hsl k inst n Hk Hr) as (j & inst' & ? & ? & ?). eauto.
Qed.

Lemma run1_agree k inst sv sp :
  agree_at k sv sp -> insts !! k = Some inst ->
  agree_at (S k) (run1 exec sv inst) (run1 exec sp (remap_inst mapping inst)).
Proof.
  intros Hag Hk. destruct sv as [rv mv], sp as [rp mp].
  pose proof Hag as [Hm Hregs]; simpl in Hm. subst mp. unfold run1.
  rewrite erase_remap. cbn [srcs remap_inst].
  assert (forall n, reads inst n -> exists phys, mapping !! n = Some phys /\ rp phys = rv n) as Hread
    by (intros n Hr; exact (reads_agree k inst (rv, mv) (rp, mv) n Hag Hk Hr)).
  rewrite (operand_values_agree mapping rp rv) by (intros n Hn; apply Hread; by left).
  assert (old_value rp (remap_inst mapping inst) = old_value rv inst) as ->.
  { unfold old_value, remap_inst; simpl. destruct (pred inst) as [p|] eqn:Hp; [|done].
    destruct (dst inst) as [[d| | | | |]|] eqn:Hd; simpl; try done.
    destruct (Hread d) as (phys & -> & Hv); [right; rewrite Hp; split; [by eexists|done]|]. done. }
  destruct (exec _ _ _ _) as [z m']. split; [done|]. cbn [fst snd dst remap_inst].
  intros n phys s e Hp Hr Hend (j & inst' & Hj & Hi & Hdst).
  destruct (dst inst) as [[d| | | | |]|] eqn:Hd; simpl;
    try (eapply Hregs; [done|done|lia|]; exists j, inst'; split_and!; try done;
         destruct (decide (j = k)) as [->|]; [congruence|lia]).
  destruct (mapped d k inst Hk ltac:(by left)) as (pd & sd & ed & Hpd & Hrd & Hid). rewrite Hpd. simpl.
  destruct (decide (n = d)) as [->|Hnd].
  - rewrite Hp in Hpd. injection Hpd as ->. by rewrite decide_True.
  - assert (j < k) as Hjk by (destruct (decide (j = k)) as [->|]; [congruence|lia]).
    destruct (mapped n j inst' Hi ltac:(by left)) as (pn & sn & en & Hpn & Hrn & Hin).
    assert (128 <= n < 256)%Z by (eapply sl_virtual; [exact Hsl| |by left]; by eapply list_elem_of_lookup_2).
    assert (128 <= d < 256)%Z by (eapply sl_virtual; [exact Hsl| |by left]; by eapply list_elem_of_lookup_2).
    rewrite decide_False.
    + apply (Hregs n phys s e Hp Hr); [lia|]. by exists j, inst'.
    + intros ->. apply Hnd. assert (sn = s /\ en = e) as [-> ->] by (split; congruence).
      apply (gm_disjoint _ _ Hgood n d s e sd ed pd Hr Hrd); (done || lia).
Qed.

Lemma run_agree k s :
  k <= length insts ->
  agree_at k (run_insts exec s (take k insts)) (run_insts exec s (take k (remap_inst mapping <$> insts))).
Proof.
  intros Hk. induction k as [|k IH].
  - split; [done|]. intros n phys s' e _ _ _ (j & ? & ? & _). lia.
  - destruct (lookup_lt_is_Some_2 insts k ltac:(lia)) as [inst Hi].
    rewrite (take_S_r _ _ _ Hi), (take_S_r (remap_inst mapping <$> insts) k (remap_inst mapping inst))
      by (by rewrite list_lookup_fmap, Hi).
    unfold run_insts. rewrite !foldl_app. apply run1_agree; [|done]. apply IH. lia.
Qed.
End Preservation.

(** ** Theorems *)

(** [C7] Allocation always succeeds, whatever order the hash map yields, and
    two virtual registers that are live at a common position never share a
    physical register. *)
Theorem allocate_interference_free `{HashOrder} insts :
  regs_u8 insts ->
  exists phys_insts nregs mapping,
    allocate insts = Ok (phys_insts, nregs) /\ phys_insts = remap_inst mapping <$> insts /\
    forall n1 n2 i1 i2 j1 j2 k p,
      (128 <= n1)%Z -> (128 <= n2)%Z -> i1 <= k <= j1 -> i2 <= k <= j2 ->
      (exists inst, insts !! i1 = Some inst /\ occurs n1 inst) ->
      (exists inst, insts !! j1 = Some inst /\ occurs n1 inst) ->
      (exists inst, insts !! i2 = Some inst /\ occurs n2 inst) ->
      (exists inst, insts !! j2 = Some inst /\ occurs n2 inst) ->
      mapping !! n1 = Some p -> mapping !! n2 = Some p -> n1 = n2.
Proof.
  intros Hu8. destruct (program_mapping insts Hu8) as (mapping & Hscan & Hgood).
  unfold allocate. rewrite Hscan. simpl. eexists _, _, mapping. split_and!; [done|done|].
  intros n1 n2 i1 i2 j1 j2 k p V1 V2 K1 K2 (a & Ha & Oa) (b & Hb & Ob) (c & Hc & Oc) (d & Hd & Od) P1 P2.
  destruct (live_range_covers insts n1 i1 a Ha Oa) as (s1 & e1 & R1 & ?).
  destruct (live_range_covers insts n1 j1 b Hb Ob) as (s1' & e1' & R1' & ?).
  destruct (live_range_covers insts n2 i2 c Hc Oc) as (s2 & e2 & R2 & ?).
  destruct (live_range_covers insts n2 j2 d Hd Od) as (s2' & e2' & R2' & ?).
  assert (s1' = s1 /\ e1' = e1 /\ s2' = s2 /\ e2' = e2) as (-> & -> & -> & ->)
    by (split_and!; congruence).
  apply (gm_disjoint _ _ Hgood n1 n2 s1 e1 s2 e2 p R1 R2); (done || lia).
Qed.

(** Visiting a map in key order. *)
#[export] Instance key_order : HashOrder := {|
  hash_iter := map_to_list;
  hash_iter_perm := fun m => reflexivity (map_to_list m);
|}.

(** d := a + b on virtual registers, three at a time. *)
Definition sample_program : list SassInst :=
  [select_special_reg 130 TidX; select_special_reg 131 CtaidX; select_add_i32 132 130 131;
   select_mov 133 132; select_store_global 132 0 133].

Lemma sample_program_u8 : regs_u8 sample_program.
Proof.
  intros inst n Hin [Hd|Hs]; apply list_elem_of_In in Hin; simpl in Hin;
    destruct_or? Hin; subst; simpl in *; try done; simplify_eq; try lia.
  all: apply list_elem_of_In in Hs; simpl in Hs; destruct_or? Hs; simplify_eq; try done; lia.
Qed.

Lemma allocate_interference_free_witness :
  exists phys_insts nregs, allocate sample_program = Ok (phys_insts, nregs).
Proof.
  destruct (allocate_interference_free sample_program sample_program_u8) as (p & n & m & H & _).
  exists p, n. exact H.
Defined.

(** [C4] Allocation preserves what a program computes: for a straight-line
    program of virtual registers in which every register is written before it
    is read, the allocated program leaves memory, predicates and every other
    part of the machine as the original does, for any behaviour of the
    individual instructions. *)
Theorem allocate_preserves_semantics `{HashOrder} {M} (exec : SassInst -> list Z -> Z -> M -> Z * M)
    insts phys_insts nregs s :
  straight_line insts -> allocate insts = Ok (phys_insts, nregs) ->
  snd (run_insts exec s phys_insts) = snd (run_insts exec s insts).
Proof.
  intros Hsl Halloc. assert (regs_u8 insts) as Hu8.
  { intros inst n Hin Hocc. pose proof (sl_virtual _ Hsl inst n Hin Hocc). lia. }
  destruct (program_mapping insts Hu8) as (mapping & Hscan & Hgood).
  unfold allocate in Halloc. rewrite Hscan in Halloc. simpl in Halloc. injection Halloc as <- _.
  pose proof (run_agree exec insts mapping Hsl Hgood (length insts) s ltac:(lia)) as [Hm _].
  rewrite take_ge in Hm by (by rewrite length_fmap). by rewrite take_ge in Hm by lia.
Qed.

Lemma sample_program_straight : straight_line sample_program.
Proof.
  constructor.
  - intros inst n Hin [Hd|Hs]; apply list_elem_of_In in Hin; simpl in Hin;
      destruct_or? Hin; subst; simpl in *; try done; simplify_eq; try lia.
    all: apply list_elem_of_In in Hs; simpl in Hs; destruct_or? Hs; simplify_eq; try done; lia.
  - intros k inst n Hk Hr. destruct k as [|[|[|[|[|k]]]]]; simpl in Hk; try done; injection Hk as <-.
    all: destruct Hr as [Hr|[[? Hr] _]]; [|done]; apply list_elem_of_In in Hr; simpl in Hr;
      destruct_or? Hr; simplify_eq; try done.
    + exists 0, (select_special_reg 130 TidX). split_and!; [lia|done|done].
    + exists 1, (select_special_reg 131 CtaidX). split_and!; [lia|done|done].
    + exists 2, (select_add_i32 132 130 131). split_and!; [lia|done|done].
    + exists 2, (select_add_i32 132 130 131). split_and!; [lia|done|done].
    + exists 3, (select_mov 133 132). split_and!; [lia|done|done].
Qed.

(** A machine that adds up what the instructions read. *)
Definition sum_exec (inst : SassInst) (vals : list Z) (old : Z) (m : Z) : Z * Z :=
  (foldr Z.add 7 vals, m + foldr Z.add 0 vals)%Z.

Lemma allocate_preserves_semantics_witness :
  exists phys_insts nregs, allocate sample_program = Ok (phys_insts, nregs) /\
    snd (run_insts sum_exec (fun _ => 0%Z, 0%Z) phys_insts) =
    snd (run_insts sum_exec (fun _ => 0%Z, 0%Z) sample_program).
Proof.
  destruct (allocate sample_program) as [[p n]| |] eqn:Ha; [|vm_compute in Ha; discriminate Ha..].
  exists p, n. split; [reflexivity|].
  exact (allocate_preserves_semantics sum_exec sample_program p n (fun _ => 0%Z, 0%Z)
    sample_program_straight Ha).
Defined.

(** Physical registers a program already uses are not reserved: R128 is
    given R0 while R0 is still live, so the sum R0 + R128 of the source becomes
    R0 + R0. *)
Theorem allocate_clobbers_low_registers :
  let insts := [select_mov 0 5; select_mov 128 6; select_add_i32 7 0 128] in
  exists nregs, allocate insts =
    Ok ([select_mov 0 5; select_mov 0 6; select_add_i32 7 0 0], nregs).
Proof. simpl. eexists. vm_compute. reflexivity. Qed.
