(* ===== verification/Scheduler.v ===== *)
(** * Control codes by scheduling ([nvidia_sass/src/scheduler/mod.rs])

    A pass over the instructions, in order, that gives each one stall counts
    and barriers from the writes that are still in flight. *)
From stdpp Require Import base numbers list strings gmap.
From Stdlib Require Import ZArith Lia.
From S2P Require Import Prelude Sass Encoding EncodingSpec.

Local Open Scope Z_scope.

Definition instruction_latency (class : OpcodeClass) : Z :=
  match class with
  | Alu3 | Alu2 => 4
  | Fma => 4
  | ClassLoad => 200
  | ClassStore => 1
  | Branch => 1
  | Comparison => 4
  | Sync => 1
  | Special => 8
  | ClassNop => 1
  end.

Definition source_registers (inst : SassInst) : list Z :=
  omap (fun src => match src with
                   | OReg (R n) => Some n
                   | Memory (R n) _ => Some n
                   | _ => None
                   end) (srcs inst).

(** The maps the loop carries. *)
Record sched_state : Type := mkSchedState {
  pending_writes : gmap Z (nat * Z);
  next_barrier : Z;
  barrier_map : gmap Z Z;
}.

Definition sched_init : sched_state := mkSchedState ∅ 0 ∅.

(** One source register: the wait mask and the stall it needs. *)
Definition visit_source (st : sched_state) (idx : nat) (acc : Z * Z) (src_reg : Z) : Z * Z :=
  let '(mask, max_stall_needed) := acc in
  let mask :=
    match barrier_map st !! src_reg with
    | Some barrier_id => Z.lor mask (Z.shiftl 1 barrier_id)
    | None => mask
    end in
  let max_stall_needed :=
    match pending_writes st !! src_reg with
    | Some (write_idx, latency) =>
        let distance := wrap 8 (Z.of_nat (idx - write_idx)) in
        if distance <? latency
        then Z.max max_stall_needed (saturating_sub latency distance) else max_stall_needed
    | None => max_stall_needed
    end in
  (mask, max_stall_needed).

(** The control codes of an instruction before its own write is recorded. *)
Definition source_control (st : sched_state) (idx : nat) (inst : SassInst) : Z * Z :=
  let '(mask, max_stall_needed) := foldl (visit_source st idx) (0, 0) (source_registers inst) in
  let stall := Z.max (Z.min max_stall_needed 15) 1 in
  let stall := if negb (mask =? 0) then 1 else stall in
  (stall, mask).

(** Recording the write: the new state, and the write barrier. *)
Definition record_write (st : sched_state) (idx : nat) (inst : SassInst) : sched_state * Z :=
  match dst inst with
  | Some (R n) =>
      let latency := instruction_latency (op_class (opcode inst)) in
      let pending := <[n := (idx, latency)]> (pending_writes st) in
      if 15 <? latency then
        let barrier_id := next_barrier st mod 6 in
        (mkSchedState pending (wrapping_add 8 (next_barrier st) 1) (<[n := barrier_id]> (barrier_map st)),
         barrier_id)
      else (mkSchedState pending (next_barrier st) (barrier_map st), 7)
  | _ => (st, 7)
  end.

Definition set_control (inst : SassInst) (cc : ControlCodes) : SassInst :=
  mkSassInst (opcode inst) (dst inst) (srcs inst) (pred inst) (modifiers inst) cc.

(** One iteration of the loop of [schedule]. *)
Definition schedule_step (idx : nat) (st : sched_state) (inst : SassInst) : sched_state * SassInst :=
  let '(stall, mask) := source_control st idx inst in
  let '(st', barrier) := record_write st idx inst in
  (st', set_control inst (mkControlCodes stall false barrier 7 mask 0)).

Fixpoint schedule_from (idx : nat) (st : sched_state) (insts : list SassInst) : list SassInst :=
  match insts with
  | [] => []
  | inst :: insts =>
      let '(st', inst') := schedule_step idx st inst in
      inst' :: schedule_from (S idx) st' insts
  end.

Definition schedule (insts : list SassInst) : list SassInst := schedule_from 0 sched_init insts.

Example schedule_sample :
  (fun inst => (stall (control inst), write_barrier (control inst), wait_mask (control inst))) <$>
    schedule [select_load_global 4 2 0; select_add_i32 5 4 3; select_add_i32 6 5 5] =
  [(1, 0, 0); (1, 7, 1); (3, 7, 0)].
Proof. vm_compute. reflexivity. Qed.

(** ** The state at each position *)
Fixpoint state_after (idx : nat) (st : sched_state) (insts : list SassInst) : sched_state :=
  match insts with
  | [] => st
  | inst :: insts => state_after (S idx) (fst (schedule_step idx st inst)) insts
  end.

Definition state_at (insts : list SassInst) (k : nat) : sched_state := state_after 0 sched_init (take k insts).

Lemma schedule_from_lookup insts idx st k inst :
  insts !! k = Some inst ->
  schedule_from idx st insts !! k =
  Some (snd (schedule_step (idx + k) (state_after idx st (take k insts)) inst)).
Proof.
  revert idx st k. induction insts as [|i insts IH]; intros idx st k Hk; [by rewrite lookup_nil in Hk|].
  cbn [schedule_from]. destruct (schedule_step idx st i) as [st' i'] eqn:Hs.
  destruct k as [|k]; simpl in Hk |- *.
  - injection Hk as ->. by rewrite Nat.add_0_r, Hs.
  - rewrite (IH (S idx) st' k Hk), Hs. simpl. by rewrite Nat.add_succ_r.
Qed.

Lemma schedule_lookup insts k inst :
  insts !! k = Some inst ->
  schedule insts !! k = Some (snd (schedule_step k (state_at insts k) inst)).
Proof. apply (schedule_from_lookup insts 0). Qed.

Lemma state_after_app idx st l1 l2 :
  state_after idx st (l1 ++ l2) = state_after (idx + length l1) (state_after idx st l1) l2.
Proof.
  revert idx st. induction l1 as [|i l1 IH]; intros idx st; simpl; [by rewrite Nat.add_0_r|].
  rewrite IH. by rewrite Nat.add_succ_r.
Qed.

Lemma state_at_S insts k inst :
  insts !! k = Some inst -> state_at insts (S k) = fst (schedule_step k (state_at insts k) inst).
Proof.
  intros Hk. unfold state_at. rewrite (take_S_r _ _ _ Hk), state_after_app. simpl.
  rewrite length_take. pose proof (lookup_lt_Some _ _ _ Hk). by rewrite Nat.min_l by lia.
Qed.

Lemma length_schedule_from idx st insts : length (schedule_from idx st insts) = length insts.
Proof.
  revert idx st. induction insts as [|i insts IH]; intros idx st; simpl; [done|].
  destruct (schedule_step idx st i). simpl. by rewrite IH.
Qed.

(** ** Barriers *)
Lemma schedule_step_state idx st inst : fst (schedule_step idx st inst) = fst (record_write st idx inst).
Proof. unfold schedule_step. destruct (source_control _ _ _), (record_write _ _ _). done. Qed.

Lemma schedule_step_control idx st inst :
  control (snd (schedule_step idx st inst)) =
  mkControlCodes (fst (source_control st idx inst)) false (snd (record_write st idx inst)) 7
    (snd (source_control st idx inst)) 0.
Proof. unfold schedule_step. by destruct (source_control _ _ _), (record_write _ _ _). Qed.

(** A load into a general register. *)
Definition loads (n : Z) (inst : SassInst) : Prop :=
  dst inst = Some (R n) /\ op_class (opcode inst) = ClassLoad.

Lemma record_write_load st idx inst n :
  loads n inst ->
  snd (record_write st idx inst) = next_barrier st mod 6 /\
  barrier_map (fst (record_write st idx inst)) !! n = Some (next_barrier st mod 6).
Proof.
  intros [Hd Hc]. unfold record_write. rewrite Hd, Hc. simpl. split; [done|]. by rewrite lookup_insert_eq.
Qed.

Lemma record_write_keeps st idx inst n :
  ~ loads n inst -> barrier_map (fst (record_write st idx inst)) !! n = barrier_map st !! n.
Proof.
  intros Hn. unfold record_write. destruct (dst inst) as [[m| | | | |]|] eqn:Hd; try done.
  destruct (op_class (opcode inst)) eqn:Hc; try done. simpl.
  destruct (decide (m = n)) as [->|]; [|by rewrite lookup_insert_ne]. destruct Hn. by split.
Qed.

Lemma barrier_kept insts i j n b :
  (i <= j)%nat -> (j <= length insts)%nat ->
  (forall k inst, (i <= k < j)%nat -> insts !! k = Some inst -> ~ loads n inst) ->
  barrier_map (state_at insts i) !! n = Some b -> barrier_map (state_at insts j) !! n = Some b.
Proof.
  intros Hij Hj Hno Hb. induction j as [|j IH]; [by replace i with 0%nat in Hb by lia|].
  destruct (decide (i = S j)) as [->|Hne]; [done|].
  destruct (lookup_lt_is_Some_2 insts j ltac:(lia)) as [inst Hi].
  rewrite (state_at_S _ _ _ Hi), schedule_step_state, record_write_keeps by (eapply Hno; [|done]; lia).
  apply IH; [lia|lia|]. intros k inst' Hk. apply Hno. lia.
Qed.

(** The wait mask of a source register that has a barrier. *)
Lemma visit_mask_mono st idx regs acc b :
  Z.testbit (fst acc) b = true -> Z.testbit (fst (foldl (visit_source st idx) acc regs)) b = true.
Proof.
  revert acc. induction regs as [|r regs IH]; intros [mask m] Hb; simpl; [done|].
  apply IH. simpl in *. destruct (barrier_map st !! r); [|done]. by rewrite Z.lor_spec, Hb.
Qed.

Lemma visit_mask_sets st idx regs acc n b :
  n ∈ regs -> barrier_map st !! n = Some b -> 0 <= b ->
  Z.testbit (fst (foldl (visit_source st idx) acc regs)) b = true.
Proof.
  intros Hn Hb Hpos. revert acc. induction regs as [|r regs IH]; intros [mask m]; [set_solver|].
  apply elem_of_cons in Hn as [<-|Hn]; [|by apply IH].
  cbn [foldl]. apply visit_mask_mono. simpl. rewrite Hb, Z.lor_spec, Z.shiftl_1_l, Z.pow2_bits_true by lia.
  apply orb_true_r.
Qed.

(** ** Ranges *)
Definition barriers_ok (st : sched_state) : Prop :=
  forall n b, barrier_map st !! n = Some b -> 0 <= b < 6.

Lemma record_write_barriers st idx inst :
  barriers_ok st -> barriers_ok (fst (record_write st idx inst)) /\
  0 <= snd (record_write st idx inst) < 2 ^ 3.
Proof.
  intros Hb. pose proof (Z.mod_pos_bound (next_barrier st) 6 ltac:(lia)) as Hm.
  unfold record_write. destruct (dst inst) as [[m| | | | |]|]; try (split; [done|simpl; lia]).
  destruct (15 <? _); simpl; [|split; [done|lia]]. split; [|lia].
  intros n b. simpl. destruct (decide (m = n)) as [->|]; [rewrite lookup_insert_eq; by intros [= <-]|].
  rewrite lookup_insert_ne by done. apply Hb.
Qed.

Lemma state_at_barriers insts k : barriers_ok (state_at insts k).
Proof.
  unfold state_at. assert (forall l idx st, barriers_ok st -> barriers_ok (state_after idx st l)) as H.
  { intros l. induction l as [|i l IH]; intros idx st Hs; simpl; [done|].
    apply IH. rewrite schedule_step_state. by apply record_write_barriers. }
  apply H. intros n b Hn. simpl in Hn. by rewrite lookup_empty in Hn.
Qed.

Lemma lor_range w a b : 0 <= w -> 0 <= a < 2 ^ w -> 0 <= b < 2 ^ w -> 0 <= Z.lor a b < 2 ^ w.
Proof.
  intros Hw Ha Hb. assert (Z.lor a b = wrap w (Z.lor a b)) as ->; [|by apply wrap_range].
  unfold wrap. apply Z.bits_inj'. intros i Hi. destruct (decide (i < w)).
  - by rewrite Z.mod_pow2_bits_low by lia.
  - rewrite Z.mod_pow2_bits_high, Z.lor_spec by lia.
    by rewrite (testbit_small a w), (testbit_small b w) by lia.
Qed.

Lemma visit_ranges st idx regs acc :
  barriers_ok st -> 0 <= fst acc < 2 ^ 6 -> 0 <= fst (foldl (visit_source st idx) acc regs) < 2 ^ 6.
Proof.
  intros Hb. revert acc. induction regs as [|r regs IH]; intros [mask m] Hacc; [done|].
  cbn [foldl]. apply IH. simpl in *. destruct (barrier_map st !! r) as [b|] eqn:Hr; [|done].
  apply Hb in Hr. apply lor_range; [lia|done|]. rewrite Z.shiftl_1_l. split; [lia|].
  apply Z.pow_lt_mono_r; lia.
Qed.

Lemma source_control_ranges st idx inst :
  barriers_ok st -> 1 <= fst (source_control st idx inst) <= 15 /\
  0 <= snd (source_control st idx inst) < 2 ^ 6.
Proof.
  intros Hb. pose proof (visit_ranges st idx (source_registers inst) (0, 0) Hb ltac:(simpl; lia)) as Hm.
  unfold source_control. destruct (foldl _ _ _) as [mask m]; simpl in *.
  split; [|done]. destruct (negb _); lia.
Qed.

(** A scheduled instruction is the original with control codes that fit. *)
Lemma schedule_inst insts k inst :
  insts !! k = Some inst -> exists cc, schedule insts !! k = Some (set_control inst cc) /\
    1 <= stall cc <= 15 /\ wf_control cc = true.
Proof.
  intros Hk. pose proof (state_at_barriers insts k) as Hb.
  rewrite (schedule_lookup _ _ _ Hk). set (st := state_at insts k) in *.
  destruct (source_control_ranges st k inst Hb) as [Hs Hm].
  destruct (record_write_barriers st k inst Hb) as [_ Hw].
  pose proof (schedule_step_control k st inst) as Hc. unfold schedule_step in Hc |- *.
  destruct (source_control st k inst) as [stl mask], (record_write st k inst) as [st' b]. simpl in *.
  eexists. split; [done|]. simpl. split; [lia|]. unfold wf_control. simpl.
  rewrite !andb_true_iff, !is_u_spec. lia.
Qed.

(** ** Theorems *)

(** Scheduling only assigns control codes: it keeps every instruction in
    its place with its operation, operands, predicate and modifiers, and the
    codes it assigns always fit their fields, so that a well-formed instruction
    stays encodable and its codes decode unchanged. *)
Theorem schedule_keeps_instructions insts :
  (fun inst => set_control inst default_control) <$> schedule insts =
    (fun inst => set_control inst default_control) <$> insts /\
  Forall (fun inst => 1 <= stall (control inst) <= 15 /\ wf_control (control inst) = true /\
                      cc_decode (cc_encode (control inst)) = control inst) (schedule insts).
Proof.
  pose proof (schedule_inst insts) as H.
  assert (length (schedule insts) = length insts) as Hlen by apply length_schedule_from. split.
  - apply list_eq. intros k. rewrite !list_lookup_fmap. destruct (insts !! k) as [inst|] eqn:Hk.
    + destruct (H k inst Hk) as (cc & -> & _). done.
    + apply lookup_ge_None in Hk. by rewrite lookup_ge_None_2 by lia.
  - apply Forall_lookup. intros k inst' Hk.
    destruct (lookup_lt_is_Some_2 insts k) as [inst Hi]; [apply lookup_lt_Some in Hk; lia|].
    destruct (H k inst Hi) as (cc & Hi' & Hs & Hw). rewrite Hk in Hi'. injection Hi' as ->.
    split; [done|]. split; [done|]. by apply wf_control_decode.
Qed.

(** A consumer waits for the load that feeds it: when the instruction at
    [j] reads a register last loaded at [i], its wait mask has the bit of the
    write barrier that the load was given. *)
Theorem schedule_waits_for_load insts i j load use n :
  insts !! i = Some load -> insts !! j = Some use -> (i < j)%nat ->
  loads n load -> n ∈ source_registers use ->
  (forall k inst, (i < k < j)%nat -> insts !! k = Some inst -> ~ loads n inst) ->
  exists load' use', schedule insts !! i = Some load' /\ schedule insts !! j = Some use' /\
    0 <= write_barrier (control load') < 6 /\
    Z.testbit (wait_mask (control use')) (write_barrier (control load')) = true.
Proof.
  intros Hi Hj Hij Hload Hn Hno. do 2 eexists.
  split_and!; [by apply schedule_lookup|by apply schedule_lookup| | |];
    rewrite !schedule_step_control; simpl;
    destruct (record_write_load (state_at insts i) i load n Hload) as [Hb Hmap]; rewrite Hb.
  1,2: apply Z.mod_pos_bound; lia.
  set (b := next_barrier (state_at insts i) mod 6) in *.
  assert (barrier_map (state_at insts j) !! n = Some b) as Hbj.
  { apply (barrier_kept insts (S i)); [lia|apply lookup_lt_Some in Hj; lia| |].
    - intros k inst Hk. apply Hno. lia.
    - by rewrite (state_at_S _ _ _ Hi), schedule_step_state. }
  pose proof (visit_mask_sets (state_at insts j) j (source_registers use) (0, 0) n b Hn Hbj
    ltac:(apply Z.mod_pos_bound; lia)) as Hbit.
  unfold source_control. by destruct (foldl _ _ _) as [mask m].
Qed.

Lemma schedule_waits_for_load_witness :
  exists load' use',
    schedule [select_load_global 4 2 0; select_load_global 5 2 4; select_add_i32 6 4 3] !! 0%nat = Some load' /\
    schedule [select_load_global 4 2 0; select_load_global 5 2 4; select_add_i32 6 4 3] !! 2%nat = Some use' /\
    0 <= write_barrier (control load') < 6 /\
    Z.testbit (wait_mask (control use')) (write_barrier (control load')) = true.
Proof.
  apply (schedule_waits_for_load _ 0 2 (select_load_global 4 2 0) (select_add_i32 6 4 3) 4).
  - reflexivity.
  - reflexivity.
  - lia.
  - split; reflexivity.
  - left.
  - intros k inst Hk. replace k with 1%nat by lia. intros [= <-] [Hd _]. discriminate Hd.
Defined.

(** The stall a source register asks for. *)
Lemma visit_stall_mono st idx regs acc :
  snd acc <= snd (foldl (visit_source st idx) acc regs).
Proof.
  revert acc. induction regs as [|r regs IH]; intros [mask m]; [reflexivity|]. cbn [foldl].
  etransitivity; [|apply IH]. simpl. destruct (pending_writes st !! r) as [[w l]|]; [|lia].
  destruct (_ <? l); lia.
Qed.

Lemma visit_stall_needed st idx regs acc n w l :
  n ∈ regs -> pending_writes st !! n = Some (w, l) -> Z.of_nat (idx - w) < 256 ->
  l - Z.of_nat (idx - w) <= snd (foldl (visit_source st idx) acc regs) \/ l <= Z.of_nat (idx - w).
Proof.
  intros Hn Hp Hd. revert acc. induction regs as [|r regs IH]; intros [mask m]; [set_solver|].
  apply elem_of_cons in Hn as [<-|Hn]; [|by apply IH]. cbn [foldl].
  destruct (decide (l <= Z.of_nat (idx - w))); [by right|left].
  etransitivity; [|apply visit_stall_mono]. simpl. rewrite Hp.
  unfold wrap. rewrite Z.mod_small by lia.
  rewrite (proj2 (Z.ltb_lt (Z.of_nat (idx - w)) l)) by lia. unfold saturating_sub. lia.
Qed.

Lemma pending_kept insts i j n w :
  (i <= j)%nat -> (j <= length insts)%nat ->
  (forall k inst, (i <= k < j)%nat -> insts !! k = Some inst -> dst inst <> Some (R n)) ->
  pending_writes (state_at insts i) !! n = Some w -> pending_writes (state_at insts j) !! n = Some w.
Proof.
  intros Hij Hj Hno Hb. induction j as [|j IH]; [by replace i with 0%nat in Hb by lia|].
  destruct (decide (i = S j)) as [->|Hne]; [done|].
  destruct (lookup_lt_is_Some_2 insts j ltac:(lia)) as [inst Hi].
  assert (dst inst <> Some (R n)) as Hd by (eapply Hno; [|done]; lia).
  rewrite (state_at_S _ _ _ Hi), schedule_step_state. unfold record_write.
  assert (pending_writes (state_at insts j) !! n = Some w) as IHj
    by (apply IH; [lia|lia|]; intros k inst' Hk; apply Hno; lia).
  destruct (dst inst) as [[m| | | | |]|]; try done.
  destruct (15 <? _); simpl; by rewrite lookup_insert_ne by congruence.
Qed.

(** Short latencies are covered by stalls: when the instruction at [j]
    reads a register last written at [i], fewer than 256 instructions earlier,
    and waits for no barrier, the instructions between them and its stall
    together cover the latency of the write, up to the maximum stall of 15. *)
Theorem schedule_stalls_for_write insts i j write use n :
  insts !! i = Some write -> insts !! j = Some use -> (i < j)%nat -> Z.of_nat (j - i) < 256 ->
  dst write = Some (R n) -> n ∈ source_registers use ->
  (forall k inst, (i < k < j)%nat -> insts !! k = Some inst -> dst inst <> Some (R n)) ->
  exists use', schedule insts !! j = Some use' /\
    (wait_mask (control use') = 0 ->
     Z.min 15 (instruction_latency (op_class (opcode write)) - Z.of_nat (j - i)) <= stall (control use')).
Proof.
  intros Hi Hj Hij Hd Hw Hn Hno. eexists. split; [by apply schedule_lookup|].
  rewrite !schedule_step_control. simpl.
  assert (pending_writes (state_at insts j) !! n =
    Some (i, instruction_latency (op_class (opcode write)))) as Hp.
  { apply (pending_kept insts (S i)); [lia|apply lookup_lt_Some in Hj; lia| |].
    - intros k inst Hk. apply Hno. lia.
    - rewrite (state_at_S _ _ _ Hi), schedule_step_state. unfold record_write. rewrite Hw.
      destruct (15 <? _); simpl; by rewrite lookup_insert_eq. }
  pose proof (visit_stall_needed (state_at insts j) j (source_registers use) (0, 0) n i _ Hn Hp Hd) as Hs.
  unfold source_control. destruct (foldl _ _ _) as [mask m]. simpl in *. intros ->. simpl. lia.
Qed.

Lemma schedule_stalls_for_write_witness :
  exists use', schedule [select_add_i32 4 1 2; select_nop; select_add_i32 5 4 4] !! 2%nat = Some use' /\
    (wait_mask (control use') = 0 -> Z.min 15 (4 - 2) <= stall (control use')).
Proof.
  apply (schedule_stalls_for_write _ 0 2 (select_add_i32 4 1 2) (select_add_i32 5 4 4) 4).
  - reflexivity.
  - reflexivity.
  - lia.
  - reflexivity.
  - reflexivity.
  - left.
  - intros k inst Hk. replace k with 1%nat by lia. intros [= <-]. discriminate.
Defined.

(** A wait cancels a stall: the third instruction below reads R4, which a
    load writes, and R5, which the addition just before it writes with a latency
    of 4; because it waits for the load's barrier its stall is 1, and when the
    load is already done R5 is read 2 cycles early. *)
Theorem schedule_wait_drops_stall :
  let insts := [select_load_global 4 2 0; select_add_i32 5 1 1; select_add_i32 6 4 5] in
  let alone := [select_nop; select_add_i32 5 1 1; select_add_i32 6 1 5] in
  (fun inst => (wait_mask (control inst), stall (control inst))) <$> schedule insts !! 2%nat = Some (1, 1) /\
  (fun inst => (wait_mask (control inst), stall (control inst))) <$> schedule alone !! 2%nat = Some (0, 3).
Proof. split; vm_compute; reflexivity. Qed.
