(* ===== verification/Cubin.v ===== *)
(** * CUBIN files ([nvidia_sass/src/cubin_builder/mod.rs])

    The ELF64 image of a module: string tables, symbols, and per kernel a text,
    an information and a constant section, with the section header table at the
    end.  Every section reads back from the bytes through the headers. *)
From stdpp Require Import base numbers list strings.
From Stdlib Require Import ZArith Lia Ascii.
From S2P Require Import Prelude RustStr Sass Encoding.

Local Open Scope Z_scope.

(** ** Constants *)
Definition ELFMAG : list Z := [0x7f; 69; 76; 70].
Definition ELFCLASS64 : Z := 2.
Definition ELFDATA2LSB : Z := 1.
Definition EV_CURRENT : Z := 1.
Definition ELFOSABI_NONE : Z := 0.
Definition ET_EXEC : Z := 2.
Definition EM_CUDA : Z := 190.
Definition SHT_NULL : Z := 0.
Definition SHT_PROGBITS : Z := 1.
Definition SHT_SYMTAB : Z := 2.
Definition SHT_STRTAB : Z := 3.
Definition SHT_CUDA_INFO : Z := 0x70000000.
Definition SHF_ALLOC : Z := 0x2.
Definition SHF_EXECINSTR : Z := 0x4.
Definition STB_GLOBAL : Z := 1.
Definition STB_LOCAL : Z := 0.
Definition STT_FUNC : Z := 2.
Definition STT_SECTION : Z := 3.
Definition ELF64_EHDR_SIZE : nat := 64.
Definition ELF64_SHDR_SIZE : Z := 64.
Definition ELF64_SYM_SIZE : Z := 24.
Definition EIATTR_REGCOUNT : Z := 0x2F04.
Definition EIATTR_MAX_THREADS : Z := 0x0504.
Definition EIATTR_SMEM_SIZE : Z := 0x0808.
Definition EIATTR_LMEM_SIZE : Z := 0x0A04.
Definition EIATTR_EXIT_INSTR_OFFSETS : Z := 0x1C04.
Definition TEXT_ALIGNMENT : nat := 128.

(** ** String tables *)

(** [as_bytes], for ASCII strings *)
Definition string_bytes (s : string) : list Z :=
  (fun c => Z.of_N (N_of_ascii c)) <$> String.list_ascii_of_string s.

Record StringTable : Type := mkStringTable { st_data : list Z }.

Definition st_new : StringTable := mkStringTable [0].

(** The test of the search loop at position [i]. *)
Definition found_at (data needle : list Z) (i : nat) : bool :=
  bool_decide (i + length needle + 1 <= length data)%nat &&
  bool_decide (take (length needle) (drop i data) = needle) &&
  bool_decide (data !! (i + length needle)%nat = Some 0).

Definition st_find (needle : list Z) (t : StringTable) : option nat :=
  match needle with
  | [] => Some 0%nat
  | _ => snd <$> list_find (fun i => found_at (st_data t) needle i = true) (seq 0 (length (st_data t)))
  end.

Definition st_add (s : string) (t : StringTable) : StringTable * Z :=
  match st_find (string_bytes s) t with
  | Some pos => (t, wrap 32 (Z.of_nat pos))
  | None => (mkStringTable (st_data t ++ string_bytes s ++ [0]), wrap 32 (Z.of_nat (length (st_data t))))
  end.

(** ** Little-endian output *)
Definition write_u16 (val : Z) : list Z := le_bytes 2 val.
Definition write_u32 (val : Z) : list Z := le_bytes 4 val.
Definition write_u64 (val : Z) : list Z := le_bytes 8 val.

Definition align_to (alignment : nat) (buf : list Z) : list Z :=
  let rem := (length buf mod alignment)%nat in
  if decide (rem <> 0)%nat then buf ++ repeat 0 (alignment - rem) else buf.

Record SectionHeader : Type := mkSectionHeader {
  sh_name : Z;
  sh_type : Z;
  sh_flags : Z;
  sh_addr : Z;
  sh_offset : Z;
  sh_size : Z;
  sh_link : Z;
  sh_info : Z;
  sh_addralign : Z;
  sh_entsize : Z;
}.

Definition sh_write_to (sh : SectionHeader) : list Z :=
  write_u32 (sh_name sh) ++ write_u32 (sh_type sh) ++ write_u64 (sh_flags sh) ++
  write_u64 (sh_addr sh) ++ write_u64 (sh_offset sh) ++ write_u64 (sh_size sh) ++
  write_u32 (sh_link sh) ++ write_u32 (sh_info sh) ++ write_u64 (sh_addralign sh) ++
  write_u64 (sh_entsize sh).

(** ** Section contents *)
Fixpoint exit_offsets_from (i : nat) (insts : list SassInst) : list Z :=
  match insts with
  | [] => []
  | inst :: insts =>
      (if String.eqb (mnemonic (opcode inst)) "EXIT" then [wrapping_mul 32 (wrap 32 (Z.of_nat i)) 16] else [])
      ++ exit_offsets_from (S i) insts
  end.

Definition find_exit_offsets (instructions : list SassInst) : list Z := exit_offsets_from 0 instructions.

(** One attribute: type, size of the payload, payload. *)
Definition nv_attr (attr val : Z) : list Z := write_u16 attr ++ write_u16 4 ++ write_u32 val.

Definition build_nv_info_for_kernel (kernel : SassKernel) (text_section_idx : Z) : list Z :=
  nv_attr EIATTR_REGCOUNT (num_registers kernel) ++
  nv_attr EIATTR_MAX_THREADS (max_threads kernel) ++
  (if 0 <? shared_mem_bytes kernel then nv_attr EIATTR_SMEM_SIZE (shared_mem_bytes kernel) else []) ++
  (if 0 <? local_mem_bytes kernel then nv_attr EIATTR_LMEM_SIZE (local_mem_bytes kernel) else []) ++
  (find_exit_offsets (instructions kernel) ≫= nv_attr EIATTR_EXIT_INSTR_OFFSETS).

Definition build_constant0_for_kernel (kernel : SassKernel) : list Z :=
  let min_size := foldr Z.max 0 ((fun '(_, off, sz) => wrapping_add 32 off sz) <$> k_params kernel) in
  let size := Z.max (const_mem_bytes kernel) min_size in
  if size =? 0 then repeat 0 160 else repeat 0 (Z.to_nat (Z.max size 160)).

Record SymbolEntry : Type := mkSymbolEntry {
  st_name : Z;
  st_info : Z;
  st_other : Z;
  st_shndx : Z;
  st_value : Z;
  st_size : Z;
}.

Definition sym_write_to (s : SymbolEntry) : list Z :=
  write_u32 (st_name s) ++ [st_info s] ++ [st_other s] ++ write_u16 (st_shndx s) ++
  write_u64 (st_value s) ++ write_u64 (st_size s).

(** ** Building the file *)

(** Step 1: the text of every kernel. *)
Definition encode_kernels (m : SassModule) : outcome NvSassError (list (list Z)) :=
  collectM (fun kernel => encoded ← encode_kernel kernel (sm_version m); Ok (concat encoded)) (kernels m).

(** Adding a list of names in order. *)
Fixpoint add_names (names : list string) (t : StringTable) : StringTable * list Z :=
  match names with
  | [] => (t, [])
  | s :: names =>
      let '(t, i) := st_add s t in
      let '(t, rest) := add_names names t in
      (t, i :: rest)
  end.

(** Step 2: section names, in the order they are added; the three names of
    each kernel follow each other. *)
Definition section_names (m : SassModule) : list string :=
  [".shstrtab"; ".strtab"; ".symtab"; ".nv.info"]%string ++
  (kernels m ≫= fun kernel =>
     [String.append ".text." (k_name kernel); String.append ".nv.info." (k_name kernel);
      String.append ".nv.constant0." (k_name kernel)]).

(** Step 4 *)
Definition text_section_idx (kernel_idx : nat) : Z := wrap 16 (Z.of_nat (5 + 3 * kernel_idx)).

(** Step 6: the null symbol, a section symbol per text section, and the global
    function symbols. *)
Definition build_symbols (name_indices : list Z) (texts : list (list Z)) : list SymbolEntry :=
  [mkSymbolEntry 0 0 0 0 0 0] ++
  ((fun i => mkSymbolEntry 0 (Z.lor (Z.shiftl STB_LOCAL 4) STT_SECTION) 0 (text_section_idx i) 0 0)
     <$> seq 0 (length texts)) ++
  (imap (fun i '(name, text) =>
           mkSymbolEntry name (Z.lor (Z.shiftl STB_GLOBAL 4) STT_FUNC) 0 (text_section_idx i) 0
             (Z.of_nat (length text)))
     (zip name_indices texts)).

(** Step 7: a section is placed at an alignment, and its header records where. *)
Record section : Type := mkSection {
  s_align : nat;
  s_header : Z -> Z -> SectionHeader;
  s_data : list Z;
}.

Definition emit (acc : list Z * list SectionHeader) (s : section) : list Z * list SectionHeader :=
  let '(output, headers) := acc in
  let output := align_to (s_align s) output in
  (output ++ s_data s,
   headers ++ [s_header s (Z.of_nat (length output)) (Z.of_nat (length (s_data s)))]).

Definition table_sections (names : list Z) (shstrtab strtab symtab : list Z) (first_global : Z)
    : list section :=
  let name i := default 0 (names !! i) in
  [mkSection 1 (fun off sz => mkSectionHeader (name 0%nat) SHT_STRTAB 0 0 off sz 0 0 1 0) shstrtab;
   mkSection 1 (fun off sz => mkSectionHeader (name 1%nat) SHT_STRTAB 0 0 off sz 0 0 1 0) strtab;
   mkSection 8 (fun off sz => mkSectionHeader (name 2%nat) SHT_SYMTAB 0 0 off sz 2 first_global 8
                               ELF64_SYM_SIZE) symtab;
   mkSection 1 (fun off sz => mkSectionHeader (name 3%nat) SHT_CUDA_INFO 0 0 off sz 0 0 4 0) []].

Definition kernel_sections (names : list Z) (first_global : Z) (i : nat) (kernel : SassKernel)
    (text : list Z) : list section :=
  let name j := default 0 (names !! (4 + 3 * i + j)%nat) in
  [mkSection TEXT_ALIGNMENT
     (fun off sz => mkSectionHeader (name 0%nat) SHT_PROGBITS (Z.lor SHF_ALLOC SHF_EXECINSTR) 0 off sz 3
                      (wrapping_add 32 first_global (wrap 32 (Z.of_nat i))) (Z.of_nat TEXT_ALIGNMENT) 0) text;
   mkSection 4 (fun off sz => mkSectionHeader (name 1%nat) SHT_CUDA_INFO 0 0 off sz 0
                               (text_section_idx i) 4 0)
     (build_nv_info_for_kernel kernel (text_section_idx i));
   mkSection 4 (fun off sz => mkSectionHeader (name 2%nat) SHT_PROGBITS SHF_ALLOC 0 off sz 0 0 4 0)
     (build_constant0_for_kernel kernel)].

(** Step 9: the 64 bytes of the ELF header. *)
Definition elf_header (shdr_offset sm num_sections : Z) : list Z :=
  ELFMAG ++ [ELFCLASS64; ELFDATA2LSB; EV_CURRENT; ELFOSABI_NONE] ++ repeat 0 8 ++
  le_bytes 2 ET_EXEC ++ le_bytes 2 EM_CUDA ++ le_bytes 4 1 ++ le_bytes 8 0 ++ le_bytes 8 0 ++
  le_bytes 8 shdr_offset ++ le_bytes 4 sm ++ le_bytes 2 (Z.of_nat ELF64_EHDR_SIZE) ++
  le_bytes 2 0 ++ le_bytes 2 0 ++ le_bytes 2 ELF64_SHDR_SIZE ++ le_bytes 2 num_sections ++ le_bytes 2 1.

Definition null_header : SectionHeader := mkSectionHeader 0 SHT_NULL 0 0 0 0 0 0 0 0.

(** All sections of a module, given the texts of its kernels. *)
Definition module_sections (m : SassModule) (texts : list (list Z)) : list section :=
  let '(shstrtab, names) := add_names (section_names m) st_new in
  let '(strtab, kernel_names) := add_names (k_name <$> kernels m) st_new in
  let symbols := build_symbols kernel_names texts in
  let first_global := wrap 32 (Z.of_nat (1 + length texts)) in
  table_sections names (st_data shstrtab) (st_data strtab) (symbols ≫= sym_write_to) first_global ++
  concat (imap (fun i '(kernel, text) => kernel_sections names first_global i kernel text)
            (zip (kernels m) texts)).

Definition build_cubin_from_module (m : SassModule) : outcome NvSassError (list Z) :=
  texts ← encode_kernels m;
  let num_sections := Z.of_nat (5 + 3 * length (kernels m)) in
  let '(output, headers) :=
    foldl emit (repeat 0 ELF64_EHDR_SIZE, [null_header]) (module_sections m texts) in
  let output := align_to 8 output in
  let shdr_offset := Z.of_nat (length output) in
  let output := output ++ (headers ≫= sh_write_to) in
  Ok (list_inserts 0 (elf_header shdr_offset (sm_version m) (wrap 16 num_sections)) output).

Definition sample_module : SassModule :=
  mkSassModule [mkSassKernel "k" [select_special_reg 4 TidX; select_exit] 8 0 0 0 1024 []] 120 [].

Example sample_cubin_length :
  length <$> (match build_cubin_from_module sample_module with Ok b => Some b | _ => None end) = Some 984%nat.
Proof. vm_compute. reflexivity. Qed.
