(* ===== verification/CubinSpec.v ===== *)
(** * Reading a CUBIN back

    Through the ELF header and the section header table, every section of a
    built file is found where its header says, aligned, with its contents and
    its name. *)
From stdpp Require Import base numbers list strings.
From Stdlib Require Import ZArith Lia Ascii.
From S2P Require Import Prelude RustStr Sass Encoding Cubin.

Local Open Scope nat_scope.

(** ** A reader *)

(** A little-endian number of [n] bytes at [pos]. *)
Definition number_at (pos n : nat) (bytes : list Z) : Z := le_decode (take n (drop pos bytes)).

Definition shoff (cubin : list Z) : nat := Z.to_nat (number_at 40 8 cubin).

(** The header of section [k]. *)
Definition header_at (k : nat) (cubin : list Z) : list Z := take 64 (drop (shoff cubin + 64 * k) cubin).

Definition hdr_name (h : list Z) : nat := Z.to_nat (number_at 0 4 h).
Definition hdr_offset (h : list Z) : nat := Z.to_nat (number_at 24 8 h).
Definition hdr_size (h : list Z) : nat := Z.to_nat (number_at 32 8 h).

(** The contents of section [k]. *)
Definition section_at (k : nat) (cubin : list Z) : list Z :=
  let h := header_at k cubin in take (hdr_size h) (drop (hdr_offset h) cubin).

(** A null-terminated string in a string table. *)
Definition cstr_at (data : list Z) (pos : nat) (s : list Z) : Prop :=
  take (length s) (drop pos data) = s /\ data !! (pos + length s) = Some 0%Z.

(** ** Lists *)
Lemma take_drop_app {A} n pos (l1 l2 : list A) :
  pos + n <= length l1 -> take n (drop pos (l1 ++ l2)) = take n (drop pos l1).
Proof.
  intros H. rewrite drop_app_le by lia. rewrite take_app_le; [done|]. rewrite length_drop. lia.
Qed.

Lemma inserts_head {A} (hdr l : list A) :
  length hdr <= length l -> list_inserts 0 hdr l = hdr ++ drop (length hdr) l.
Proof.
  intros Hl. apply list_eq. intros i. destruct (decide (i < length hdr)).
  - rewrite lookup_inserts_in by lia. rewrite lookup_app_l by lia. f_equal. lia.
  - rewrite lookup_inserts_out by lia. rewrite lookup_app_r, lookup_drop by lia. f_equal. lia.
Qed.

Lemma concat_blocks {A B} (f : nat -> A -> list B) n l k i x j :
  (forall i x, length (f i x) = n) -> l !! i = Some x -> j < n ->
  concat (imap (fun i => f (k + i)) l) !! (n * i + j) = f (k + i) x !! j.
Proof.
  intros Hf. revert k i. induction l as [|y l IH]; intros k i Hi Hj; [by rewrite lookup_nil in Hi|].
  rewrite imap_cons. cbn [concat]. destruct i as [|i]; simpl in Hi.
  - injection Hi as ->. rewrite Nat.mul_0_r, Nat.add_0_l, lookup_app_l by (rewrite Hf; lia). done.
  - rewrite lookup_app_r by (rewrite Hf; lia). rewrite Hf.
    rewrite (imap_ext _ (fun i => f (S k + i)))
      by (intros; unfold compose; f_equal; lia).
    replace (n * S i + j - n) with (n * i + j) by lia.
    rewrite (IH (S k) i Hi Hj). f_equal. f_equal. lia.
Qed.

Lemma bind_blocks {A B} (f : A -> list B) n l k x :
  (forall x, length (f x) = n) -> l !! k = Some x -> take n (drop (n * k) (l ≫= f)) = f x.
Proof.
  intros Hf. revert k. induction l as [|y l IH]; intros k Hk; [by rewrite lookup_nil in Hk|].
  csimpl. destruct k as [|k]; simpl in Hk.
  - injection Hk as ->. rewrite Nat.mul_0_r, drop_0, <- (Hf x). by rewrite take_app_length.
  - replace (n * S k) with (n + n * k) by lia. rewrite <- drop_drop.
    rewrite drop_app_ge by (rewrite Hf; lia). rewrite Hf, Nat.sub_diag, drop_0. by apply IH.
Qed.

Lemma length_bind_blocks {A B} (f : A -> list B) n (l : list A) :
  (forall x, length (f x) = n) -> length (l ≫= f) = n * length l.
Proof.
  intros Hf. induction l as [|y l IH]; csimpl; [lia|]. rewrite length_app, Hf, IH. lia.
Qed.

(** ** Placing sections *)
Lemma align_to_spec a buf :
  0 < a -> exists pad, align_to a buf = buf ++ pad /\ length (align_to a buf) mod a = 0.
Proof.
  intros Ha. unfold align_to. case_decide as Hr.
  - eexists. split; [done|]. rewrite length_app, repeat_length.
    pose proof (Nat.div_mod_eq (length buf) a). pose proof (Nat.mod_upper_bound (length buf) a ltac:(lia)).
    set (q := length buf / a) in *. set (r := length buf mod a) in *.
    replace (length buf + (a - r)) with ((q + 1) * a) by nia. by apply Nat.Div0.mod_mul.
  - exists []. rewrite app_nil_r. split; [done|]. lia.
Qed.

(** A section and the header it was given, in a finished output. *)
Definition placed (output : list Z) (lo : nat) (s : section) (h : SectionHeader) : Prop :=
  exists off, h = s_header s (Z.of_nat off) (Z.of_nat (length (s_data s))) /\ lo <= off /\
    off mod s_align s = 0 /\ off + length (s_data s) <= length output /\
    take (length (s_data s)) (drop off output) = s_data s.

Lemma placed_app output rest lo s h : placed output lo s h -> placed (output ++ rest) lo s h.
Proof.
  intros (off & -> & Hlo & Hal & Hlen & Hd). exists off. rewrite length_app.
  split_and!; try done; [lia|]. by rewrite take_drop_app.
Qed.

Lemma emit_all sections output headers :
  Forall (fun s => 0 < s_align s) sections ->
  exists rest hs, foldl emit (output, headers) sections = (output ++ rest, headers ++ hs) /\
    length hs = length sections /\
    forall k s, sections !! k = Some s ->
      exists h, hs !! k = Some h /\ placed (output ++ rest) (length output) s h.
Proof.
  intros Hal. revert output headers. induction Hal as [|s sections Hs Hal IH]; intros output headers.
  { exists [], []. rewrite !app_nil_r. by split_and!. }
  cbn [foldl]. unfold emit at 2.
  destruct (align_to_spec (s_align s) output Hs) as (pad & Hpad & Hmod).
  set (out1 := align_to (s_align s) output) in *.
  destruct (IH (out1 ++ s_data s) (headers ++ [s_header s (Z.of_nat (length out1)) (Z.of_nat (length (s_data s)))]))
    as (rest & hs & Heq & Hlen & Hk). rewrite Heq.
  exists (pad ++ s_data s ++ rest), (s_header s (Z.of_nat (length out1)) (Z.of_nat (length (s_data s))) :: hs).
  split_and!.
  - rewrite Hpad, <- !app_assoc. done.
  - simpl. by rewrite Hlen.
  - intros [|k] s' Hks; simpl in Hks.
    + injection Hks as <-. eexists. split; [done|].
      replace (output ++ pad ++ s_data s ++ rest) with ((out1 ++ s_data s) ++ rest)
        by (rewrite Hpad, <- !app_assoc; done).
      apply placed_app. exists (length out1). rewrite length_app. split_and!; try done.
      * rewrite Hpad, length_app. lia.
      * by rewrite drop_app_length, take_ge by lia.
    + destruct (Hk k s' Hks) as (h & Hh & (off & Hoff)). exists h. split; [done|].
      replace (output ++ pad ++ s_data s ++ rest) with ((out1 ++ s_data s) ++ rest)
        by (rewrite Hpad, <- !app_assoc; done).
      exists off. destruct Hoff as (? & Hlo & ?). split_and!; try tauto.
      rewrite length_app in Hlo. rewrite Hpad, length_app in Hlo. lia.
Qed.

(** ** The finished file *)
Lemma length_sh_write sh : length (sh_write_to sh) = 64.
Proof. reflexivity. Qed.

Lemma length_elf_header off sm n : length (elf_header off sm n) = 64.
Proof. reflexivity. Qed.

Lemma sh_write_fields sh :
  number_at 0 4 (sh_write_to sh) = le_decode (le_bytes 4 (sh_name sh)) /\
  number_at 24 8 (sh_write_to sh) = le_decode (le_bytes 8 (sh_offset sh)) /\
  number_at 32 8 (sh_write_to sh) = le_decode (le_bytes 8 (sh_size sh)).
Proof. done. Qed.

(** The file as the ELF header, the sections and the section headers. *)
Lemma cubin_layout m cubin texts :
  encode_kernels m = Ok texts -> build_cubin_from_module m = Ok cubin ->
  Forall (fun s => 0 < s_align s) (module_sections m texts) ->
  exists body hs,
    cubin = elf_header (Z.of_nat (length body)) (sm_version m) (wrap 16 (Z.of_nat (5 + 3 * length (kernels m))))
            ++ drop 64 (body ++ ((null_header :: hs) ≫= sh_write_to)) /\
    64 <= length body /\ length body mod 8 = 0 /\ length hs = length (module_sections m texts) /\
    forall k s, module_sections m texts !! k = Some s ->
      exists h, hs !! k = Some h /\ placed body 64 s h.
Proof.
  intros Htexts Hb Hal. unfold build_cubin_from_module in Hb. rewrite Htexts in Hb.
  cbn [mbind outcome_bind] in Hb.
  destruct (emit_all (module_sections m texts) (repeat 0%Z ELF64_EHDR_SIZE) [null_header] Hal)
    as (rest & hs & Heq & Hlen & Hk).
  rewrite Heq in Hb. cbv zeta in Hb.
  set (out := _ ++ rest) in *. destruct (align_to_spec 8 out ltac:(lia)) as (pad & Hpad & Hal8).
  set (body := align_to 8 out) in *.
  assert (64 <= length body) as H64 by (rewrite Hpad; unfold out; rewrite !length_app, repeat_length; unfold ELF64_EHDR_SIZE; lia).
  rewrite inserts_head in Hb by (rewrite length_elf_header, length_app; lia).
  rewrite length_elf_header in Hb. injection Hb as <-.
  exists body, hs. split_and!; try done.
  intros k s Hks. destruct (Hk k s Hks) as (h & Hh & Hp). exists h. split; [done|].
  rewrite Hpad. apply placed_app. exact Hp.
Qed.

Lemma drop_past_header (hdr rest : list Z) n :
  length hdr = 64 -> 64 <= n -> drop n (hdr ++ drop 64 rest) = drop n rest.
Proof.
  intros Hh Hn. rewrite drop_app_ge by lia. rewrite drop_drop. f_equal. lia.
Qed.

(** The headers that the builder makes record the position they are given. *)
Definition honest (s : section) : Prop :=
  0 < s_align s /\ forall off sz, sh_offset (s_header s off sz) = off /\ sh_size (s_header s off sz) = sz.

Lemma le_decode_nat n (x : nat) :
  (Z.of_nat x < 256 ^ Z.of_nat n)%Z -> le_decode (le_bytes n (Z.of_nat x)) = Z.of_nat x.
Proof. intros. apply le_decode_le_bytes_small. lia. Qed.

Lemma header_read body hs sm n k h cubin :
  cubin = elf_header (Z.of_nat (length body)) sm n ++ drop 64 (body ++ ((null_header :: hs) ≫= sh_write_to)) ->
  64 <= length body -> (Z.of_nat (length cubin) < 2 ^ 63)%Z -> (null_header :: hs) !! k = Some h ->
  shoff cubin = length body /\ header_at k cubin = sh_write_to h.
Proof.
  intros Hc H64 Hlen Hk.
  assert (length body <= length cubin) as Hle.
  { rewrite Hc, length_app, length_drop, length_app, length_elf_header. lia. }
  assert (shoff cubin = length body) as Hsh.
  { unfold shoff. assert (number_at 40 8 cubin = Z.of_nat (length body)) as ->; [|lia].
    unfold number_at. rewrite Hc, take_drop_app by (rewrite length_elf_header; lia).
    change (le_decode (le_bytes 8 (Z.of_nat (length body))) = Z.of_nat (length body)).
    apply le_decode_nat. lia. }
  split; [done|]. unfold header_at. rewrite Hsh, Hc.
  rewrite drop_past_header by (done || lia). rewrite drop_app_ge by lia.
  replace (length body + 64 * k - length body) with (64 * k) by lia.
  by apply (bind_blocks sh_write_to 64).
Qed.

Lemma placed_read body hdr tail s h cubin :
  cubin = hdr ++ drop 64 (body ++ tail) -> length hdr = 64 -> 64 <= length body ->
  (Z.of_nat (length cubin) < 2 ^ 63)%Z -> honest s -> placed body 64 s h ->
  take (hdr_size (sh_write_to h)) (drop (hdr_offset (sh_write_to h)) cubin) = s_data s /\
  hdr_offset (sh_write_to h) mod s_align s = 0.
Proof.
  intros Hc Hhdr H64 Hlen [_ Hon] (off & -> & Hlo & Hmod & Hend & Hd).
  assert (length body <= length cubin) as Hle.
  { rewrite Hc, length_app, length_drop, length_app. lia. }
  destruct (sh_write_fields (s_header s (Z.of_nat off) (Z.of_nat (length (s_data s))))) as (_ & Ho & Hs).
  destruct (Hon (Z.of_nat off) (Z.of_nat (length (s_data s)))) as [Ho' Hs'].
  unfold hdr_offset, hdr_size. rewrite Ho, Hs, Ho', Hs', !le_decode_nat, !Nat2Z.id by (simpl; lia).
  split; [|done]. rewrite Hc, drop_past_header by done. by rewrite take_drop_app.
Qed.

Lemma cubin_section m cubin texts k s :
  encode_kernels m = Ok texts -> build_cubin_from_module m = Ok cubin ->
  (Z.of_nat (length cubin) < 2 ^ 63)%Z ->
  Forall honest (module_sections m texts) -> module_sections m texts !! k = Some s ->
  section_at (S k) cubin = s_data s /\
  hdr_offset (header_at (S k) cubin) mod s_align s = 0 /\
  exists off sz, header_at (S k) cubin = sh_write_to (s_header s off sz).
Proof.
  intros Ht Hb Hlen Hon Hk.
  destruct (cubin_layout m cubin texts Ht Hb) as (body & hs & Hc & H64 & _ & _ & Hp).
  { eapply Forall_impl; [exact Hon|]. by intros s' [? _]. }
  destruct (Hp k s Hk) as (h & Hh & Hpl).
  destruct (header_read _ _ _ _ (S k) _ _ Hc H64 Hlen Hh) as [_ Hhd].
  rewrite Forall_lookup in Hon. unfold section_at. rewrite Hhd.
  destruct (placed_read _ _ _ _ _ _ Hc (length_elf_header _ _ _) H64 Hlen (Hon _ _ Hk) Hpl) as [H1 H2].
  split_and!; [done|done|]. destruct Hpl as (off & -> & _). eauto.
Qed.

Lemma kernel_sections_honest names fg i kernel text : Forall honest (kernel_sections names fg i kernel text).
Proof. repeat constructor; simpl; unfold TEXT_ALIGNMENT; lia. Qed.

Lemma module_sections_honest m texts : Forall honest (module_sections m texts).
Proof.
  unfold module_sections. destruct (add_names (section_names m) st_new) as [t names].
  destruct (add_names (k_name <$> kernels m) st_new) as [t' names']. apply Forall_app. split.
  - repeat constructor; simpl; lia.
  - apply Forall_concat, Forall_lookup. intros i ss Hi. rewrite list_lookup_imap in Hi.
    destruct (zip (kernels m) texts !! i) as [[kernel text]|]; [|done]. injection Hi as <-.
    apply kernel_sections_honest.
Qed.

Lemma module_section_lookup m texts i kernel text j :
  kernels m !! i = Some kernel -> texts !! i = Some text -> j < 3 ->
  exists names fg, snd (add_names (section_names m) st_new) = names /\
    module_sections m texts !! (4 + (3 * i + j)) = kernel_sections names fg i kernel text !! j.
Proof.
  intros Hk Ht Hj. unfold module_sections. destruct (add_names (section_names m) st_new) as [t names].
  destruct (add_names (k_name <$> kernels m) st_new) as [t' names'].
  eexists _, _. split; [done|]. rewrite lookup_app_r by (simpl; lia).
  replace (4 + (3 * i + j) - length _) with (3 * i + j) by (simpl; lia).
  apply (concat_blocks (fun i '(kernel, text) => kernel_sections names
    (wrap 32 (Z.of_nat (1 + length texts))) i kernel text) 3 (zip (kernels m) texts) 0 i (kernel, text) j);
    [by intros ? [? ?]| |done].
  rewrite lookup_zip_with, Hk. simpl. by rewrite Ht.
Qed.

(** ** String tables *)
Lemma cstr_at_app data rest pos s : cstr_at data pos s -> cstr_at (data ++ rest) pos s.
Proof.
  intros [Ht Hz]. pose proof (lookup_lt_Some _ _ _ Hz) as Hlt. split.
  - by rewrite take_drop_app by lia.
  - by rewrite lookup_app_l.
Qed.

Lemma st_find_cstr needle t pos :
  st_data t !! 0 = Some 0%Z -> st_find needle t = Some pos -> cstr_at (st_data t) pos needle /\ pos < length (st_data t).
Proof.
  intros H0. unfold st_find. destruct needle as [|b needle].
  - intros [= <-]. split; [by split|]. by apply lookup_lt_Some in H0.
  - destruct (list_find _ _) as [[i p]|] eqn:Hf; [|done]. intros [= <-].
    apply list_find_Some in Hf as (Hi & Hp & _). unfold found_at in Hp.
    rewrite !andb_true_iff, !bool_decide_eq_true in Hp. destruct Hp as ((Hl & Ht) & Hz).
    split; [by split|]. apply lookup_lt_Some in Hz. lia.
Qed.

(** Adding a string keeps the table's strings and returns where it is. *)
Lemma st_add_spec s t t' idx :
  st_data t !! 0 = Some 0%Z -> st_add s t = (t', idx) -> (Z.of_nat (length (st_data t')) < 2 ^ 32)%Z ->
  cstr_at (st_data t') (Z.to_nat idx) (string_bytes s) /\ (0 <= idx < 2 ^ 32)%Z /\
  exists rest, st_data t' = st_data t ++ rest.
Proof.
  intros H0 Ha Hlen. unfold st_add in Ha. destruct (st_find _ t) as [pos|] eqn:Hf.
  - injection Ha as <- <-. destruct (st_find_cstr _ _ _ H0 Hf) as [Hc Hp].
    rewrite wrap_small by lia. rewrite Nat2Z.id. split_and!; try (done || lia).
    exists []. by rewrite app_nil_r.
  - injection Ha as <- <-. simpl in *. rewrite length_app in Hlen.
    rewrite wrap_small by lia. rewrite Nat2Z.id. split_and!; try lia; [|by eexists].
    split.
    + rewrite drop_app_length. by rewrite take_app_length.
    + rewrite lookup_app_r by lia. rewrite lookup_app_r by lia. by replace (_ - _ - _) with 0 by lia.
Qed.

Lemma add_names_spec names t t' idxs :
  st_data t !! 0 = Some 0%Z -> add_names names t = (t', idxs) -> (Z.of_nat (length (st_data t')) < 2 ^ 32)%Z ->
  (exists rest, st_data t' = st_data t ++ rest) /\
  forall k s, names !! k = Some s ->
    exists idx, idxs !! k = Some idx /\ (0 <= idx < 2 ^ 32)%Z /\
      cstr_at (st_data t') (Z.to_nat idx) (string_bytes s).
Proof.
  revert t idxs. induction names as [|s names IH]; intros t idxs H0 Ha Hlen; simpl in Ha.
  { injection Ha as <- <-. split; [exists []; by rewrite app_nil_r|]. intros k s Hk. done. }
  destruct (st_add s t) as [t1 i] eqn:Hs. destruct (add_names names t1) as [t2 rest] eqn:Hn.
  injection Ha as <- <-.
  assert (st_data t1 !! 0 = Some 0%Z) as H1.
  { unfold st_add in Hs. destruct (st_find _ t); injection Hs as <- <-; [done|]. simpl.
    by rewrite lookup_app_l by (by apply lookup_lt_Some in H0). }
  destruct (IH t1 rest H1 Hn Hlen) as [[r2 Hr2] Hk].
  assert (Z.of_nat (length (st_data t1)) < 2 ^ 32)%Z as Hl1.
  { rewrite Hr2, length_app in Hlen. lia. }
  destruct (st_add_spec s t t1 i H0 Hs Hl1) as (Hc & Hi & [r1 Hr1]). split.
  - exists (r1 ++ r2). by rewrite Hr2, Hr1, app_assoc.
  - intros [|k] s' Hks; simpl in Hks.
    + injection Hks as <-. exists i. split_and!; try done; try lia. rewrite Hr2. by apply cstr_at_app.
    + destruct (Hk k s' Hks) as (idx & ? & ? & ?). exists idx. split; [done|]. by split.
Qed.

Lemma section_name_lookup m i kernel j :
  kernels m !! i = Some kernel ->
  section_names m !! (4 + (3 * i + j)) =
  if decide (j < 3) then [String.append ".text." (k_name kernel); String.append ".nv.info." (k_name kernel);
    String.append ".nv.constant0." (k_name kernel)] !! j
  else section_names m !! (4 + (3 * i + j)).
Proof.
  intros Hk. case_decide as Hj; [|done]. unfold section_names. rewrite lookup_app_r by (simpl; lia).
  replace (4 + (3 * i + j) - length _) with (3 * i + j) by (simpl; lia).
  set (f := fun kernel => _).
  pose proof (bind_blocks f 3 (kernels m) i kernel (fun _ => eq_refl) Hk) as H.
  rewrite <- (lookup_drop _ (3 * i)).
  rewrite <- (lookup_take_lt (drop (3 * i) (kernels m ≫= f)) 3 j) by lia. by rewrite H.
Qed.

(** ** Exit offsets *)
Lemma exit_offsets_spec insts k o :
  (Z.of_nat (k + length insts) < 2 ^ 28)%Z ->
  o ∈ exit_offsets_from k insts <->
  exists i inst, insts !! i = Some inst /\ mnemonic (opcode inst) = "EXIT"%string /\ o = Z.of_nat (16 * (k + i)).
Proof.
  revert k. induction insts as [|inst insts IH]; intros k Hk; simpl.
  { split; [intros H%elem_of_nil; done|intros (i & ? & H & _); by rewrite lookup_nil in H]. }
  simpl in Hk. rewrite elem_of_app, IH by lia. split.
  - intros [H|(i & inst' & ? & ? & ->)].
    + destruct (String.eqb_spec (mnemonic (opcode inst)) "EXIT"); [|by apply elem_of_nil in H].
      apply list_elem_of_singleton in H. exists 0, inst. split_and!; try done. rewrite H.
      unfold wrapping_mul. rewrite !wrap_small; [lia|lia|]. rewrite wrap_small; lia.
    + exists (S i), inst'. split_and!; try done. lia.
  - intros ([|i] & inst' & Hi & He & ->); simpl in Hi.
    + injection Hi as <-. left. rewrite He. simpl. apply list_elem_of_singleton.
      unfold wrapping_mul. rewrite !wrap_small; [lia|lia|]. rewrite wrap_small; lia.
    + right. exists i, inst'. split_and!; try done. lia.
Qed.

(** ** Texts *)
Lemma encode_length inst sm bytes : encode inst sm = Ok bytes -> length bytes = 16.
Proof.
  unfold encode, sm120_encode. destruct (_ || _); [|done].
  destruct (encode_instruction_bits inst); simpl; try done. intros [= <-]. done.
Qed.

Lemma encode_kernels_lookup m texts i kernel :
  encode_kernels m = Ok texts -> kernels m !! i = Some kernel ->
  exists encoded, texts !! i = Some (concat encoded) /\
    Forall2 (fun inst bytes => encode inst (sm_version m) = Ok bytes) (instructions kernel) encoded.
Proof.
  intros H%collectM_Ok_iff Hk. destruct (Forall2_lookup_l _ _ _ _ _ H Hk) as (text & Ht & Heq).
  unfold encode_kernel in Heq. destruct (collectM _ _) as [encoded| |] eqn:He; simpl in Heq; try done.
  injection Heq as <-. exists encoded. split; [done|]. by apply collectM_Ok_iff.
Qed.

Lemma concat_encoded sm insts encoded k inst :
  Forall2 (fun inst bytes => encode inst sm = Ok bytes) insts encoded ->
  insts !! k = Some inst -> encode inst sm = Ok (take 16 (drop (16 * k) (concat encoded))).
Proof.
  intros H. revert k. induction H as [|i b insts encoded Hb H IH]; intros k Hk; [by rewrite lookup_nil in Hk|].
  pose proof (encode_length _ _ _ Hb) as Hl. cbn [concat]. destruct k as [|k]; simpl in Hk.
  - injection Hk as ->. rewrite Nat.mul_0_r, drop_0, <- Hl. by rewrite take_app_length.
  - replace (16 * S k) with (16 + 16 * k) by lia. rewrite <- drop_drop, drop_app_ge by lia.
    rewrite Hl, Nat.sub_diag, drop_0. by apply IH.
Qed.

Lemma length_concat_encoded sm insts encoded :
  Forall2 (fun inst bytes => encode inst sm = Ok bytes) insts encoded ->
  length (concat encoded) = 16 * length insts.
Proof.
  induction 1 as [|i b insts encoded Hb H IH]; [done|]. cbn [concat length].
  rewrite length_app, IH, (encode_length _ _ _ Hb). lia.
Qed.

Lemma build_cubin_texts m cubin :
  build_cubin_from_module m = Ok cubin -> exists texts, encode_kernels m = Ok texts.
Proof.
  unfold build_cubin_from_module. destruct (encode_kernels m) as [texts| |]; try done. by exists texts.
Qed.

Lemma shstrtab_section m texts :
  exists s, module_sections m texts !! 0 = Some s /\
    s_data s = st_data (fst (add_names (section_names m) st_new)).
Proof.
  unfold module_sections. destruct (add_names (section_names m) st_new) as [t names].
  destruct (add_names (k_name <$> kernels m) st_new) as [t' names']. by eexists.
Qed.

(** ** Theorems *)

(** A kernel's text section holds its instructions, 16 bytes each. *)
Lemma text_section_encodes m cubin i kernel :
  build_cubin_from_module m = Ok cubin -> (Z.of_nat (length cubin) < 2 ^ 63)%Z -> kernels m !! i = Some kernel ->
  length (section_at (5 + 3 * i) cubin) = 16 * length (instructions kernel) /\
  forall k inst, instructions kernel !! k = Some inst ->
    encode inst (sm_version m) = Ok (take 16 (drop (16 * k) (section_at (5 + 3 * i) cubin))).
Proof.
  intros Hb Hlen Hk. destruct (build_cubin_texts m cubin Hb) as [texts Ht].
  pose proof (module_sections_honest m texts) as Hon.
  destruct (encode_kernels_lookup m texts i kernel Ht Hk) as (encoded & Htext & Hall).
  destruct (module_section_lookup m texts i kernel _ 0 Hk Htext ltac:(lia)) as (names & fg & Hnames & Hsec).
  simpl in Hsec. replace (S (S (S (S (i + (i + (i + 0)) + 0))))) with (4 + 3 * i) in Hsec by lia.
  destruct (cubin_section m cubin texts (4 + 3 * i) _ Ht Hb Hlen Hon Hsec) as (Hdata & _).
  replace (5 + 3 * i) with (S (4 + 3 * i)) by lia. rewrite Hdata. cbn [s_data]. split.
  - by eapply length_concat_encoded.
  - intros k inst Hi. by eapply concat_encoded.
Qed.

(** [C9] The text of every kernel is in the file: the section header at its
    index names ".text.<kernel>" in the section-name table, points at an offset
    that is a multiple of 128, and the section holds the kernel's instructions,
    16 bytes each, in order. *)
Theorem cubin_text_reads_back m cubin i kernel :
  build_cubin_from_module m = Ok cubin -> (Z.of_nat (length cubin) < 2 ^ 63)%Z ->
  (Z.of_nat (length (section_at 1 cubin)) < 2 ^ 32)%Z -> kernels m !! i = Some kernel ->
  let h := header_at (5 + 3 * i) cubin in
  hdr_offset h mod 128 = 0 /\
  cstr_at (section_at 1 cubin) (hdr_name h) (string_bytes (String.append ".text." (k_name kernel))) /\
  length (section_at (5 + 3 * i) cubin) = 16 * length (instructions kernel) /\
  forall k inst, instructions kernel !! k = Some inst ->
    encode inst (sm_version m) = Ok (take 16 (drop (16 * k) (section_at (5 + 3 * i) cubin))).
Proof.
  intros Hb Hlen Hstr Hk. destruct (build_cubin_texts m cubin Hb) as [texts Ht].
  pose proof (module_sections_honest m texts) as Hon.
  destruct (encode_kernels_lookup m texts i kernel Ht Hk) as (encoded & Htext & Hall).
  destruct (module_section_lookup m texts i kernel _ 0 Hk Htext ltac:(lia)) as (names & fg & Hnames & Hsec).
  simpl in Hsec. replace (S (S (S (S (i + (i + (i + 0)) + 0))))) with (4 + 3 * i) in Hsec by lia.
  destruct (cubin_section m cubin texts (4 + 3 * i) _ Ht Hb Hlen Hon Hsec) as (Hdata & Hmod & off & sz & Hhd).
  destruct (shstrtab_section m texts) as (s1 & Hs1 & Hs1d).
  destruct (cubin_section m cubin texts 0 s1 Ht Hb Hlen Hon Hs1) as (Hstrdata & _).
  replace (5 + 3 * i) with (S (4 + 3 * i)) by lia. cbv zeta. rewrite Hdata, Hhd in *.
  rewrite Hstrdata, Hs1d in *. cbn [s_data s_align] in *. split_and!.
  - exact Hmod.
  - destruct (add_names (section_names m) st_new) as [t names'] eqn:Ha. cbn [fst snd] in Hnames, Hstr |- *. subst names'.
    destruct (add_names_spec (section_names m) st_new t names eq_refl Ha Hstr) as [_ Hn].
    destruct (Hn (4 + (3 * i + 0)) (String.append ".text." (k_name kernel))) as (idx & Hidx & Hr & Hc).
    { by rewrite (section_name_lookup m i kernel 0 Hk). }
    replace (4 + (3 * i + 0)) with (4 + 3 * i) in Hidx by lia.
    unfold hdr_name. rewrite (proj1 (sh_write_fields _)). cbn [s_header sh_name].
    rewrite Hidx. cbn [default]. rewrite le_decode_le_bytes_small by (simpl; lia). exact Hc.
  - by eapply length_concat_encoded.
  - intros k inst Hi. by eapply concat_encoded.
Qed.

(** The exit offsets a kernel's information section lists are exactly the
    positions of its EXIT instructions: the 16 bytes of the text section at
    each of them are the encoding of an EXIT, and no EXIT is missing. *)
Theorem cubin_exit_offsets m cubin i kernel o :
  build_cubin_from_module m = Ok cubin -> (Z.of_nat (length cubin) < 2 ^ 63)%Z ->
  kernels m !! i = Some kernel -> (Z.of_nat (length (instructions kernel)) < 2 ^ 28)%Z ->
  o ∈ find_exit_offsets (instructions kernel) <->
  exists k inst, instructions kernel !! k = Some inst /\ mnemonic (opcode inst) = "EXIT"%string /\
    o = Z.of_nat (16 * k) /\
    encode inst (sm_version m) = Ok (take 16 (drop (Z.to_nat o) (section_at (5 + 3 * i) cubin))).
Proof.
  intros Hb Hlen Hk Hn. destruct (text_section_encodes m cubin i kernel Hb Hlen Hk) as [_ Hall].
  unfold find_exit_offsets. rewrite exit_offsets_spec by lia. split.
  - intros (k & inst & Hi & He & ->). exists k, inst. split_and!; try done.
    rewrite Nat2Z.id. by apply Hall.
  - intros (k & inst & Hi & He & -> & _). by exists k, inst.
Qed.

Lemma sample_cubin : exists cubin, build_cubin_from_module sample_module = Ok cubin /\
  length cubin = 984 /\ length (section_at 1 cubin) = 71.
Proof.
  eexists. split; [vm_compute; reflexivity|]. split; vm_compute; reflexivity.
Qed.

Lemma cubin_text_reads_back_witness :
  exists cubin, build_cubin_from_module sample_module = Ok cubin /\
    encode select_exit 120 = Ok (take 16 (drop 16 (section_at 5 cubin))).
Proof.
  destruct sample_cubin as (cubin & Hb & H1 & H2). exists cubin. split; [exact Hb|].
  destruct (cubin_text_reads_back sample_module cubin 0
    (mkSassKernel "k" [select_special_reg 4 TidX; select_exit] 8 0 0 0 1024 [])) as (_ & _ & _ & H).
  - exact Hb.
  - rewrite H1. reflexivity.
  - rewrite H2. reflexivity.
  - reflexivity.
  - exact (H 1 select_exit eq_refl).
Defined.

Lemma cubin_exit_offsets_witness :
  exists cubin, build_cubin_from_module sample_module = Ok cubin /\
    16%Z ∈ find_exit_offsets [select_special_reg 4 TidX; select_exit].
Proof.
  destruct sample_cubin as (cubin & Hb & H1 & H2). exists cubin. split; [exact Hb|].
  apply (cubin_exit_offsets sample_module cubin 0
    (mkSassKernel "k" [select_special_reg 4 TidX; select_exit] 8 0 0 0 1024 [])).
  - exact Hb.
  - rewrite H1. reflexivity.
  - reflexivity.
  - reflexivity.
  - exists 1, select_exit. split; [reflexivity|]. split; [reflexivity|]. split; [reflexivity|].
    vm_compute in Hb. injection Hb as <-. vm_compute. reflexivity.
Defined.
