(* ===== verification/CubinParser.v ===== *)
(** * The CUBIN parser ([ptx/src/sass/cubin_parser.rs])

    The parser reads a CUBIN through the [object] crate's ELF reader, which is a
    parameter ([ElfReader]): a reader turns bytes into the flags, sections and
    symbols of a file.  Everything the parser itself does on top of it is
    here: the section map, the symbols, the kernels with the attributes of
    their information sections, the constant banks, and the tests on raw
    bytes and file names. *)
From stdpp Require Import base numbers list strings gmap.
From Stdlib Require Import ZArith Lia Ascii.
From S2P Require Import Prelude RustStr.

Local Open Scope string_scope.
Local Open Scope list_scope.
Local Open Scope nat_scope.

(** ** Results *)
Record CubinKernel : Type := mkCubinKernel {
  ck_name : string;
  ck_address : Z;
  ck_size : Z;
  ck_code : list Z;
  ck_num_registers : Z;
  ck_shared_mem_size : Z;
  ck_const_mem_size : Z;
  ck_local_mem_size : Z;
  ck_max_threads_per_block : Z;
  ck_sm_version : Z;
}.

Record CubinConstant : Type := mkCubinConstant {
  cc_bank : Z;
  cc_offset : Z;
  cc_size : Z;
  cc_name : option string;
  cc_data : list Z;
}.

Record DebugLineInfo : Type := mkDebugLineInfo {
  dl_address : Z;
  dl_file : string;
  dl_line : Z;
  dl_column : Z;
  dl_is_statement : bool;
  dl_discriminator : Z;
}.

Inductive CubinSymbolType : Type :=
  SymFunction | SymVariable | SymTexture | SymSurface | SymSampler | SymSection | SymUnknown.

Record CubinSymbol : Type := mkCubinSymbol {
  cy_name : string;
  cy_address : Z;
  cy_size : Z;
  cy_symbol_type : CubinSymbolType;
  cy_section : option string;
  cy_is_global : bool;
}.

Record CubinSection : Type := mkCubinSection {
  cs_name : string;
  cs_address : Z;
  cs_size : Z;
  cs_data : list Z;
  cs_section_type : Z;
  cs_flags : Z;
}.

Record ParsedCubin : Type := mkParsedCubin {
  pc_sm_version : Z;
  pc_ptx_version : option string;
  pc_kernels : list CubinKernel;
  pc_constants : list CubinConstant;
  pc_debug_lines : gmap Z DebugLineInfo;
  pc_symbols : list CubinSymbol;
  pc_sections : gmap string CubinSection;
}.

Inductive CubinParseError : Type :=
| IoError (msg : string)
| ElfParseError (msg : string)
| SectionError (msg : string)
| InvalidFormat (msg : string)
| UnsupportedVersion (ver : Z).

(** ** The ELF reader

    What the parser uses of an [ElfFile]: accessors that can fail carry the
    reader's message. *)
Record ElfSection : Type := mkElfSection {
  es_name : outcome string string;
  es_data : outcome string (list Z);
  es_address : Z;
  es_size : Z;
}.

(** [object::SymbolKind]; the kinds the parser does not name are together. *)
Inductive SymbolKind : Type := KText | KData | KSection | KOther.

Record ElfSymbol : Type := mkElfSymbol {
  ey_name : outcome string string;
  ey_kind : SymbolKind;
  ey_section_index : option nat;
  ey_address : Z;
  ey_size : Z;
  ey_is_global : bool;
}.

Record ElfFile : Type := mkElfFile {
  ef_flags : option Z;
  ef_sections : list ElfSection;
  ef_symbols : list ElfSymbol;
  ef_section_by_index : nat -> outcome string ElfSection;
}.

Class ElfReader : Type := elf_parse : list Z -> outcome string ElfFile.

(** The order in which a [HashMap] of sections is iterated. *)
Class SectionOrder : Type := {
  section_iter : gmap string CubinSection -> list (string * CubinSection);
  section_iter_perm : forall m, section_iter m ≡ₚ map_to_list m;
}.

(** [Result::ok] *)
Definition ok_of {E A} (m : outcome E A) : option A :=
  match m with Ok a => Some a | _ => None end.

(** ** Versions *)
Definition sm_version_from_elf_flags (flags : Z) : option Z :=
  snd <$> list_find (fun sm => ((10 <=? sm) && (sm <=? 255))%Z = true)
            [Z.land flags 0xff; Z.land (Z.shiftr flags 8) 0xff; Z.land (Z.shiftr flags 16) 0xff].

Definition extract_sm_version (elf : ElfFile) : outcome CubinParseError Z :=
  match ef_flags elf with
  | Some e_flags =>
      match sm_version_from_elf_flags e_flags with
      | Some sm_version => Ok sm_version
      | None => Ok 61%Z
      end
  | None => Ok 61%Z
  end.

Fixpoint first_sm_part (parts : list string) : option Z :=
  match parts with
  | [] => None
  | part :: parts =>
      if starts_with "sm_" part then part ← strip_prefix "sm_" part; parse_u32 part
      else first_sm_part parts
  end.

Definition sm_version_from_filename (filename : string) : option Z :=
  first_sm_part (split_char "." filename).

(** ** The test on raw bytes *)

(** [data[i]], which panics out of range *)
Definition byte_at {E} (i : nat) (data : list Z) : outcome E Z := unwrap (data !! i).

Definition is_cubin {E} (data : list Z) : outcome E bool :=
  if length data <? 16 then Ok false
  else if bool_decide (take 4 data <> [0x7f; 69; 76; 70]%Z) then Ok false
  else
    b4 ← byte_at 4 data;
    if bool_decide (b4 <> 2%Z) then Ok false
    else
      b5 ← byte_at 5 data;
      if bool_decide (b5 <> 1%Z) then Ok false
      else
        b18 ← byte_at 18 data;
        b19 ← byte_at 19 data;
        if bool_decide (le_decode [b18; b19] <> 190%Z) then Ok false else Ok true.

(** ** Sections and symbols *)
Definition parse_section (sections : gmap string CubinSection) (section : ElfSection)
    : outcome CubinParseError (gmap string CubinSection) :=
  name ← map_err SectionError (es_name section);
  if bool_decide (name = "") then Ok sections
  else
    data ← map_err SectionError (es_data section);
    Ok (<[name := mkCubinSection name (es_address section) (es_size section) data 0 0]> sections).

Definition parse_sections (elf : ElfFile) : outcome CubinParseError (gmap string CubinSection) :=
  foldM parse_section ∅ (ef_sections elf).

Definition symbol_type_of (k : SymbolKind) : CubinSymbolType :=
  match k with
  | KText => SymFunction
  | KData => SymVariable
  | KSection => SymSection
  | KOther => SymUnknown
  end.

Definition parse_symbol (elf : ElfFile) (symbol : ElfSymbol) : option CubinSymbol :=
  match ey_name symbol with
  | Ok n =>
      if bool_decide (n = "") then None
      else Some (mkCubinSymbol n (ey_address symbol) (ey_size symbol) (symbol_type_of (ey_kind symbol))
                   (idx ← ey_section_index symbol; s ← ok_of (ef_section_by_index elf idx); ok_of (es_name s))
                   (ey_is_global symbol))
  | _ => None
  end.

Definition parse_symbols (elf : ElfFile) : outcome CubinParseError (list CubinSymbol) :=
  Ok (omap (parse_symbol elf) (ef_symbols elf)).

(** ** Kernel attributes *)

(** Registers, shared, constant and local memory, threads. *)
Definition nv_info : Type := (Z * Z * Z * Z * Z)%type.

(** [(offset + 3) & !3] *)
Definition align4 (offset : nat) : nat := Z.to_nat (Z.land (Z.of_nat offset + 3) (Z.lnot 3)).

(** The [match] on the type of one attribute. *)
Definition nv_attribute (attr_type : Z) (attr_data : list Z) (info : nv_info) : nv_info :=
  let '(num_regs, shared_mem, const_mem, local_mem, max_threads) := info in
  let val := le_decode (take 4 attr_data) in
  if length attr_data <? 4 then info
  else if (attr_type =? 0x0401)%Z then (val, shared_mem, const_mem, local_mem, max_threads)
  else if (attr_type =? 0x0808)%Z then (num_regs, val, const_mem, local_mem, max_threads)
  else if (attr_type =? 0x0A04)%Z then (num_regs, shared_mem, const_mem, val, max_threads)
  else if (attr_type =? 0x0504)%Z then (num_regs, shared_mem, const_mem, local_mem, val)
  else info.

(** The [while] loop; a pass moves [offset] by at least four, so a fuel of the
    length of the data is enough ([nv_info_scans]). *)
Fixpoint nv_info_loop (fuel : nat) (data : list Z) (offset : nat) (info : nv_info) : nv_info :=
  match fuel with
  | 0 => info
  | S fuel =>
      if offset + 4 <=? length data then
        let attr_type := bytes_at offset 2 data in
        let attr_size := Z.to_nat (bytes_at (offset + 2) 2 data) in
        let offset := offset + 4 in
        if length data <? offset + attr_size then info
        else
          let attr_data := take attr_size (drop offset data) in
          nv_info_loop fuel data (align4 (offset + attr_size)) (nv_attribute attr_type attr_data info)
      else info
  end.

Definition parse_nv_info (data : list Z) : nv_info :=
  nv_info_loop (S (length data)) data 0 (32, 0, 0, 0, 1024)%Z.

(** ** Kernels and constants *)

(** The symbol the source looks up for a kernel is not used. *)
Definition extract_kernel (sections : gmap string CubinSection) (sm_version : Z)
    (entry : string * CubinSection) : option CubinKernel :=
  let '(name, section) := entry in
  if starts_with ".text." name && (0 <? length (cs_data section)) then
    let kernel_name := default name (strip_prefix ".text." name) in
    let '(num_registers, shared_mem, const_mem, local_mem, max_threads) :=
      match sections !! sapp ".nv.info." kernel_name with
      | Some info => parse_nv_info (cs_data info)
      | None => (32, 0, 0, 0, 1024)%Z
      end in
    Some (mkCubinKernel kernel_name (cs_address section) (cs_size section) (cs_data section)
            num_registers shared_mem const_mem local_mem max_threads sm_version)
  else None.

Definition extract_kernels `{SectionOrder} (sections : gmap string CubinSection) (sm_version : Z)
    : outcome CubinParseError (list CubinKernel) :=
  Ok (omap (extract_kernel sections sm_version) (section_iter sections)).

Definition extract_constant (entry : string * CubinSection) : option CubinConstant :=
  let '(name, section) := entry in
  if starts_with ".nv.constant" name then
    let bank := s ← strip_prefix ".nv.constant" name; s ← head (split_char "." s); parse_u32 s in
    Some (mkCubinConstant (default 0%Z bank) 0 (wrap 32 (cs_size section)) (Some name) (cs_data section))
  else None.

Definition extract_constants `{SectionOrder} (sections : gmap string CubinSection)
    : outcome CubinParseError (list CubinConstant) :=
  Ok (omap extract_constant (section_iter sections)).

(** ** Embedded PTX *)
Definition between (lo hi b : Z) : bool := (lo <=? b)%Z && (b <=? hi)%Z.

(** [std::str::from_utf8] accepts well-formed UTF-8. *)
Fixpoint utf8_valid (l : list Z) : bool :=
  match l with
  | [] => true
  | b0 :: l =>
      if between 0 0x7f b0 then utf8_valid l
      else
        match l with
        | [] => false
        | b1 :: l =>
            if between 0xc2 0xdf b0 then between 0x80 0xbf b1 && utf8_valid l
            else
              match l with
              | [] => false
              | b2 :: l =>
                  if between 0xe0 0xef b0 then
                    between (if b0 =? 0xe0 then 0xa0 else 0x80) (if b0 =? 0xed then 0x9f else 0xbf) b1 &&
                    between 0x80 0xbf b2 && utf8_valid l
                  else
                    match l with
                    | [] => false
                    | b3 :: l =>
                        between 0xf0 0xf4 b0 &&
                        between (if b0 =? 0xf0 then 0x90 else 0x80) (if b0 =? 0xf4 then 0x8f else 0xbf) b1 &&
                        between 0x80 0xbf b2 && between 0x80 0xbf b3 && utf8_valid l
                    end
              end
        end
  end%Z.

Definition bytes_string (l : list Z) : string :=
  String.string_of_list_ascii ((fun b => ascii_of_N (Z.to_N b)) <$> l).

Definition from_utf8 (l : list Z) : option string := if utf8_valid l then Some (bytes_string l) else None.

Definition section_ptx_version (entry : string * CubinSection) : option string :=
  let '(name, section) := entry in
  if contains "ptx" name then
    s ← from_utf8 (cs_data section);
    snd <$> list_find (fun l => starts_with ".version" l = true) (lines s)
  else None.

Definition find_ptx_version `{SectionOrder} (sections : gmap string CubinSection) : option string :=
  head (omap section_ptx_version (section_iter sections)).

(** ** The parser *)
Record CubinParser : Type := mkCubinParser { cp_data : list Z }.

Definition parser_new (data : list Z) : CubinParser := mkCubinParser data.

(** [std::fs::read] is [read]. *)
Definition parser_from_file (read : string -> outcome string (list Z)) (path : string)
    : outcome CubinParseError CubinParser :=
  data ← map_err IoError (read path);
  Ok (parser_new data).

Definition parse_debug_lines (elf : ElfFile) : outcome CubinParseError (gmap Z DebugLineInfo) := Ok ∅.

Definition parse `{ElfReader, SectionOrder} (self : CubinParser) : outcome CubinParseError ParsedCubin :=
  elf ← map_err ElfParseError (elf_parse (cp_data self));
  sm_version ← extract_sm_version elf;
  sections ← parse_sections elf;
  symbols ← parse_symbols elf;
  kernels ← extract_kernels sections sm_version;
  constants ← extract_constants sections;
  debug_lines ← parse_debug_lines elf;
  Ok (mkParsedCubin sm_version (find_ptx_version sections) kernels constants debug_lines symbols sections).

Definition get_kernel_code (parsed : ParsedCubin) (kernel_name : string) : option (list Z) :=
  ck_code ∘ snd <$> list_find (fun k => ck_name k = kernel_name) (pc_kernels parsed).

Definition get_kernel_names (parsed : ParsedCubin) : list string := ck_name <$> pc_kernels parsed.

(** ** The builder *)
Record CubinParserBuilder : Type := mkCubinParserBuilder {
  cb_data : option (list Z);
  cb_parse_debug : bool;
  cb_parse_constants : bool;
}.

Definition builder_new : CubinParserBuilder := mkCubinParserBuilder None true true.

Definition builder_data (data : list Z) (self : CubinParserBuilder) : CubinParserBuilder :=
  mkCubinParserBuilder (Some data) (cb_parse_debug self) (cb_parse_constants self).

Definition builder_from_file (read : string -> outcome string (list Z)) (path : string)
    (self : CubinParserBuilder) : outcome CubinParseError CubinParserBuilder :=
  data ← map_err IoError (read path);
  Ok (builder_data data self).

Definition builder_parse_debug (enable : bool) (self : CubinParserBuilder) : CubinParserBuilder :=
  mkCubinParserBuilder (cb_data self) enable (cb_parse_constants self).

Definition builder_parse_constants (enable : bool) (self : CubinParserBuilder) : CubinParserBuilder :=
  mkCubinParserBuilder (cb_data self) (cb_parse_debug self) enable.

Definition builder_build (self : CubinParserBuilder) : outcome CubinParseError CubinParser :=
  data ← ok_or (InvalidFormat "No data provided") (cb_data self);
  valid ← is_cubin data;
  if negb valid then Err (InvalidFormat "Not a valid CUBIN file") else Ok (parser_new data).
