(* ===== verification/CubinParserSpec.v ===== *)
(** * The parser reads what the builder writes

    The contract of the ELF reader on well-formed files, that a built CUBIN is
    such a file, and that parsing it gives back the kernels, their code and
    their attributes. *)
From stdpp Require Import base numbers list strings gmap.
From Stdlib Require Import ZArith Lia ZifyNat Ascii.
From S2P Require Import Prelude RustStr Sass Encoding Cubin CubinSpec CubinParser.

Local Open Scope string_scope.
Local Open Scope list_scope.
Local Open Scope nat_scope.

(** ** The attribute loop *)

(** What the loop is meant to do, as a relation: from [offset], with the
    attributes read so far, to the final attributes. *)
Inductive nv_scan (data : list Z) : nat -> nv_info -> nv_info -> Prop :=
| scan_end offset info : length data < offset + 4 -> nv_scan data offset info info
| scan_cut offset info :
    offset + 4 <= length data ->
    length data < offset + 4 + Z.to_nat (bytes_at (offset + 2) 2 data) ->
    nv_scan data offset info info
| scan_attr offset info info' size :
    size = Z.to_nat (bytes_at (offset + 2) 2 data) -> offset + 4 + size <= length data ->
    nv_scan data (align4 (offset + 4 + size))
      (nv_attribute (bytes_at offset 2 data) (take size (drop (offset + 4) data)) info) info' ->
    nv_scan data offset info info'.

Lemma align4_div n : align4 n = 4 * ((n + 3) / 4).
Proof.
  unfold align4. rewrite <- Z.ldiff_land. change 3%Z with (Z.ones 2) at 2. rewrite Z.ldiff_ones_r by lia.
  rewrite Z.shiftl_mul_pow2, Z.shiftr_div_pow2 by lia. change (2 ^ 2)%Z with 4%Z.
  change (Z.ones 2) with 3%Z. lia.
Qed.

Lemma align4_ge n : n <= align4 n.
Proof. rewrite align4_div. lia. Qed.

Lemma align4_id k : align4 (4 * k) = 4 * k.
Proof. rewrite align4_div. lia. Qed.

Lemma nv_info_loop_scans fuel data offset info :
  length data < fuel + offset -> nv_scan data offset info (nv_info_loop fuel data offset info).
Proof.
  revert offset info. induction fuel as [|fuel IH]; intros offset info Hf; [apply scan_end; lia|].
  cbn [nv_info_loop]. cbv zeta. destruct (Nat.leb_spec (offset + 4) (length data)); [|apply scan_end; lia].
  destruct (Nat.ltb_spec (length data) (offset + 4 + Z.to_nat (bytes_at (offset + 2) 2 data)));
    [apply scan_cut; lia|].
  eapply scan_attr; [reflexivity|lia|]. apply IH.
  pose proof (align4_ge (offset + 4 + Z.to_nat (bytes_at (offset + 2) 2 data))). lia.
Qed.

Lemma nv_scan_functional data offset info i1 i2 :
  nv_scan data offset info i1 -> nv_scan data offset info i2 -> i1 = i2.
Proof.
  intros H1. revert i2. induction H1 as [| |? ? ? ? -> ? ? IH]; intros i2 H2; inversion H2; subst; try lia; try done.
  by apply IH.
Qed.

(** The scan of an information section ends, on every input, and
    [parse_nv_info] gives its result. *)
Theorem nv_info_scans data info :
  nv_scan data 0 (32, 0, 0, 0, 1024)%Z info <-> info = parse_nv_info data.
Proof.
  assert (nv_scan data 0 (32, 0, 0, 0, 1024)%Z (parse_nv_info data)) as H
    by (apply nv_info_loop_scans; lia).
  split; [|by intros ->]. intros H'. by eapply nv_scan_functional.
Qed.

(** ** Attributes of a built kernel *)
Definition is_u32 (z : Z) : Prop := (0 <= z < 2 ^ 32)%Z.

Lemma length_nv_attr a v : length (nv_attr a v) = 8.
Proof. reflexivity. Qed.

Lemma nv_scan_attr pre k a v rest info info' :
  length pre = 4 * k -> (0 <= a < 2 ^ 16)%Z -> is_u32 v ->
  nv_scan (pre ++ nv_attr a v ++ rest) (length pre + 8) (nv_attribute a (le_bytes 4 v) info) info' ->
  nv_scan (pre ++ nv_attr a v ++ rest) (length pre) info info'.
Proof.
  intros Hk Ha Hv H.
  assert (bytes_at (length pre) 2 (pre ++ nv_attr a v ++ rest) = a) as Ht.
  { unfold bytes_at. rewrite drop_app_length. apply (le_decode_le_bytes_small 2). lia. }
  assert (bytes_at (length pre + 2) 2 (pre ++ nv_attr a v ++ rest) = 4%Z) as Hs.
  { unfold bytes_at. rewrite drop_app_ge by lia. replace (length pre + 2 - length pre) with 2 by lia. reflexivity. }
  eapply scan_attr; [reflexivity| |]; rewrite Hs.
  - rewrite !length_app, length_nv_attr. change (Z.to_nat 4) with 4. lia.
  - rewrite Ht. change (Z.to_nat 4) with 4. rewrite (drop_app_ge pre) by lia.
    replace (length pre + 4 - length pre) with 4 by lia.
    replace (length pre + 4 + 4) with (4 * (k + 2)) by lia. rewrite align4_id.
    replace (4 * (k + 2)) with (length pre + 8) by lia. exact H.
Qed.

(** A sequence of attributes, each with a four-byte value. *)
Lemma nv_scan_attrs attrs pre k info :
  length pre = 4 * k -> Forall (fun '(a, v) => (0 <= a < 2 ^ 16)%Z /\ is_u32 v) attrs ->
  nv_scan (pre ++ (attrs ≫= fun '(a, v) => nv_attr a v)) (length pre) info
    (foldl (fun i '(a, v) => nv_attribute a (le_bytes 4 v) i) info attrs).
Proof.
  intros Hk Hall. revert pre k info Hk. induction Hall as [|[a v] attrs [Ha Hv] _ IH]; intros pre k info Hk.
  - apply scan_end. rewrite length_app. simpl. lia.
  - cbn [mbind list_bind foldl]. eapply nv_scan_attr; [exact Hk|exact Ha|exact Hv|].
    rewrite app_assoc. replace (length pre + 8) with (length (pre ++ nv_attr a v))
      by (rewrite length_app, length_nv_attr; lia).
    apply (IH _ (k + 2)). rewrite length_app, length_nv_attr. lia.
Qed.

Definition kernel_attrs (kernel : SassKernel) : list (Z * Z) :=
  [(EIATTR_REGCOUNT, num_registers kernel); (EIATTR_MAX_THREADS, max_threads kernel)] ++
  (if (0 <? shared_mem_bytes kernel)%Z then [(EIATTR_SMEM_SIZE, shared_mem_bytes kernel)] else []) ++
  (if (0 <? local_mem_bytes kernel)%Z then [(EIATTR_LMEM_SIZE, local_mem_bytes kernel)] else []) ++
  ((fun o => (EIATTR_EXIT_INSTR_OFFSETS, o)) <$> find_exit_offsets (instructions kernel)).

Definition kernel_u32 (kernel : SassKernel) : Prop :=
  is_u32 (num_registers kernel) /\ is_u32 (max_threads kernel) /\
  is_u32 (shared_mem_bytes kernel) /\ is_u32 (local_mem_bytes kernel).

Lemma nv_info_attrs kernel idx :
  build_nv_info_for_kernel kernel idx = kernel_attrs kernel ≫= fun '(a, v) => nv_attr a v.
Proof.
  unfold build_nv_info_for_kernel, kernel_attrs. rewrite !bind_app. cbn [mbind list_bind].
  rewrite !app_nil_r, <- !app_assoc. f_equal. f_equal.
  f_equal; [by destruct (0 <? shared_mem_bytes kernel)%Z|].
  f_equal; [by destruct (0 <? local_mem_bytes kernel)%Z|].
  by induction (find_exit_offsets (instructions kernel)) as [|o l IH]; [|cbn [fmap list_fmap mbind list_bind]; f_equal].
Qed.

Lemma exit_offsets_u32 insts k : Forall is_u32 (exit_offsets_from k insts).
Proof.
  revert k. induction insts as [|i insts IH]; intros k; cbn [exit_offsets_from]; [constructor|].
  apply Forall_app. split; [|apply IH]. destruct (String.eqb _ _); constructor; [|constructor].
  apply wrap_range. lia.
Qed.

Lemma kernel_attrs_wf kernel :
  kernel_u32 kernel -> Forall (fun '(a, v) => (0 <= a < 2 ^ 16)%Z /\ is_u32 v) (kernel_attrs kernel).
Proof.
  intros (? & ? & ? & ?). unfold kernel_attrs. apply Forall_app. split.
  { repeat constructor; (done || apply H || apply H0). }
  apply Forall_app. split; [destruct (0 <? shared_mem_bytes kernel)%Z; repeat constructor; (done || apply H1)|].
  apply Forall_app. split; [destruct (0 <? local_mem_bytes kernel)%Z; repeat constructor; (done || apply H2)|].
  apply Forall_fmap. eapply Forall_impl; [apply exit_offsets_u32|]. intros o Ho. simpl. split; [done|exact Ho].
Qed.

Lemma nv_attribute_exit l info :
  foldl (fun i '(a, v) => nv_attribute a (le_bytes 4 v) i) info
    ((fun o => (EIATTR_EXIT_INSTR_OFFSETS, o)) <$> l) = info.
Proof. destruct info as [[[[? ?] ?] ?] ?]. induction l as [|o l IH]; [done|]. exact IH. Qed.

Lemma kernel_attrs_read kernel :
  kernel_u32 kernel ->
  foldl (fun i '(a, v) => nv_attribute a (le_bytes 4 v) i) (32, 0, 0, 0, 1024)%Z (kernel_attrs kernel)
  = (32, shared_mem_bytes kernel, 0, local_mem_bytes kernel, max_threads kernel)%Z.
Proof.
  intros (Hr & Ht & Hs & Hl).
  assert (forall v, is_u32 v -> le_decode (take 4 (le_bytes 4 v)) = v) as Hd.
  { intros v Hv. apply (le_decode_le_bytes_small 4). exact Hv. }
  unfold kernel_attrs. rewrite !foldl_app, nv_attribute_exit. cbn [foldl]. unfold is_u32 in Hs, Hl.
  destruct (Z.ltb_spec 0 (shared_mem_bytes kernel)); destruct (Z.ltb_spec 0 (local_mem_bytes kernel));
    cbn [foldl]; unfold nv_attribute; rewrite ?length_le_bytes, !Hd by done; cbn;
    repeat f_equal; lia.
Qed.

(** Of a built kernel's attributes the parser reads back the threads, the
    shared and the local memory; the register count stays at its default. *)
Lemma parse_built_nv_info kernel idx :
  kernel_u32 kernel ->
  parse_nv_info (build_nv_info_for_kernel kernel idx)
  = (32, shared_mem_bytes kernel, 0, local_mem_bytes kernel, max_threads kernel)%Z.
Proof.
  intros Hk. symmetry. apply nv_info_scans. rewrite nv_info_attrs, <- kernel_attrs_read by done.
  exact (nv_scan_attrs _ [] 0 _ eq_refl (kernel_attrs_wf _ Hk)).
Qed.

(** ** The contract of the ELF reader *)
Definition hdr_type (h : list Z) : Z := number_at 4 4 h.
Definition hdr_addr (h : list Z) : Z := number_at 16 8 h.
Definition hdr_link (h : list Z) : nat := Z.to_nat (number_at 40 4 h).
Definition shnum (data : list Z) : nat := Z.to_nat (number_at 60 2 data).
Definition shstrndx (data : list Z) : nat := Z.to_nat (number_at 62 2 data).

(** A little-endian ELF64 file without program headers, whose section headers,
    sections, section-name table and symbol table are where they should be. *)
Record elf_well_formed (data : list Z) : Prop := {
  wf_ident : take 7 data = ELFMAG ++ [ELFCLASS64; ELFDATA2LSB; EV_CURRENT];
  wf_phnum : number_at 56 2 data = 0%Z;
  wf_shentsize : number_at 58 2 data = 64%Z;
  wf_shnum : (0 < Z.of_nat (shnum data) < 0xff00)%Z;
  wf_shoff : 64 <= shoff data /\ shoff data mod 8 = 0 /\ shoff data + 64 * shnum data <= length data;
  wf_null : header_at 0 data = repeat 0%Z 64;
  wf_shstrndx : shstrndx data < shnum data /\ hdr_type (header_at (shstrndx data) data) = SHT_STRTAB /\
    section_at (shstrndx data) data !! 0 = Some 0%Z;
  wf_types : forall k, k < shnum data ->
    hdr_type (header_at k data) ∈ [SHT_NULL; SHT_PROGBITS; SHT_SYMTAB; SHT_STRTAB; SHT_CUDA_INFO];
  wf_bounds : forall k, k < shnum data ->
    hdr_offset (header_at k data) + hdr_size (header_at k data) <= length data;
  wf_symtab : forall k, k < shnum data -> hdr_type (header_at k data) = SHT_SYMTAB ->
    hdr_offset (header_at k data) mod 8 = 0 /\ hdr_size (header_at k data) mod 24 = 0 /\
    hdr_link (header_at k data) < shnum data /\
    hdr_type (header_at (hdr_link (header_at k data)) data) = SHT_STRTAB;
}.

(** ASCII text without a NUL, which a string table can hold and UTF-8 decoding
    accepts. *)
Definition c_string (s : string) : Prop :=
  Forall (fun c => 0 < nat_of_ascii c < 128) (String.list_ascii_of_string s).

(** A section handed out for the header at index [k]. *)
Definition section_reads (data : list Z) (k : nat) (s : ElfSection) : Prop :=
  (forall name, c_string name ->
     cstr_at (section_at (shstrndx data) data) (hdr_name (header_at k data)) (string_bytes name) ->
     es_name s = Ok name) /\
  es_data s = Ok (section_at k data) /\
  es_address s = hdr_addr (header_at k data) /\
  es_size s = number_at 32 8 (header_at k data).

(** A well-formed file is accepted; its sections come in the order of the
    headers, with or without the unnamed null section in front. *)
Class ElfReaderSpec `{ElfReader} : Prop :=
  elf_reads : forall data, elf_well_formed data ->
    exists elf unnamed secs, elf_parse data = Ok elf /\ ef_flags elf = Some (number_at 48 4 data) /\
      ef_sections elf = unnamed ++ secs /\ Forall (fun s => es_name s = Ok "") unnamed /\
      length secs = shnum data - 1 /\
      forall k s, secs !! k = Some s -> section_reads data (S k) s.

(** ** A built file is well formed *)

(** What the reader needs of a section's header. *)
Definition elf_section (s : section) : Prop :=
  forall off sz, sh_addr (s_header s off sz) = 0%Z /\
    sh_type (s_header s off sz) ∈ [SHT_NULL; SHT_PROGBITS; SHT_SYMTAB; SHT_STRTAB; SHT_CUDA_INFO] /\
    (sh_type (s_header s off sz) = SHT_SYMTAB ->
     s_align s = 8 /\ length (s_data s) mod 24 = 0 /\ sh_link (s_header s off sz) = 2%Z).

Lemma sh_write_more sh :
  hdr_type (sh_write_to sh) = le_decode (le_bytes 4 (sh_type sh)) /\
  hdr_addr (sh_write_to sh) = le_decode (le_bytes 8 (sh_addr sh)) /\
  hdr_link (sh_write_to sh) = Z.to_nat (le_decode (le_bytes 4 (sh_link sh))).
Proof. done. Qed.

Lemma sh_type_read sh :
  sh_type sh ∈ [SHT_NULL; SHT_PROGBITS; SHT_SYMTAB; SHT_STRTAB; SHT_CUDA_INFO] ->
  hdr_type (sh_write_to sh) = sh_type sh.
Proof.
  intros H. rewrite (proj1 (sh_write_more sh)). apply le_decode_le_bytes_small.
  repeat (apply elem_of_cons in H as [->|H]; [vm_compute; split; congruence|]). by apply elem_of_nil in H.
Qed.

Lemma length_sym_write s : length (sym_write_to s) = 24.
Proof. reflexivity. Qed.

Lemma kernel_sections_elf names fg i kernel text : Forall elf_section (kernel_sections names fg i kernel text).
Proof. repeat constructor; cbn; try discriminate; set_solver. Qed.

Lemma module_sections_elf m texts : Forall elf_section (module_sections m texts).
Proof.
  unfold module_sections. destruct (add_names (section_names m) st_new) as [t names].
  destruct (add_names (k_name <$> kernels m) st_new) as [t' names']. apply Forall_app. split.
  - unfold table_sections. repeat constructor; cbn [s_header s_align s_data sh_type sh_link]; try discriminate;
      try set_solver.
    rewrite (length_bind_blocks _ 24) by apply length_sym_write. rewrite Nat.mul_comm. apply Nat.Div0.mod_mul.
  - apply Forall_concat, Forall_lookup. intros i ss Hi. rewrite list_lookup_imap in Hi.
    destruct (zip (kernels m) texts !! i) as [[kernel text]|]; [|done]. injection Hi as <-.
    apply kernel_sections_elf.
Qed.

(** The contents of the sections of one kernel. *)
Definition kernel_entries (kernel : SassKernel) (text : list Z) : list (string * list Z) :=
  [(sapp ".text." (k_name kernel), text);
   (sapp ".nv.info." (k_name kernel), build_nv_info_for_kernel kernel 0);
   (sapp ".nv.constant0." (k_name kernel), build_constant0_for_kernel kernel)].

Definition table_entries (m : SassModule) (texts : list (list Z)) : list (string * list Z) :=
  [(".shstrtab", st_data (fst (add_names (section_names m) st_new)));
   (".strtab", st_data (fst (add_names (k_name <$> kernels m) st_new)));
   (".symtab", build_symbols (snd (add_names (k_name <$> kernels m) st_new)) texts ≫= sym_write_to);
   (".nv.info", [])].

(** The named contents of all sections, in order. *)
Definition module_entries (m : SassModule) (texts : list (list Z)) : list (string * list Z) :=
  table_entries m texts ++ (zip (kernels m) texts ≫= fun '(kernel, text) => kernel_entries kernel text).

Lemma kernel_entries_data names fg (g : nat -> nat) l :
  s_data <$> concat (imap (fun i '(kernel, text) => kernel_sections names fg (g i) kernel text) l)
  = (l ≫= fun '(kernel, text) => kernel_entries kernel text).*2.
Proof.
  revert g. induction l as [|[kernel text] l IH]; intros g; [done|].
  rewrite imap_cons. cbn [concat mbind list_bind]. rewrite !fmap_app. f_equal. apply (IH (g ∘ S)).
Qed.

Lemma module_entries_data m texts : s_data <$> module_sections m texts = (module_entries m texts).*2.
Proof.
  unfold module_entries, table_entries, module_sections. destruct (add_names (section_names m) st_new) as [t names].
  destruct (add_names (k_name <$> kernels m) st_new) as [t' names'].
  rewrite !fmap_app. f_equal. apply (kernel_entries_data names _ id).
Qed.

Lemma kernel_entries_names (ks : list SassKernel) (texts : list (list Z)) :
  length ks = length texts ->
  (zip ks texts ≫= fun '(kernel, text) => kernel_entries kernel text).*1
  = ks ≫= fun kernel => [sapp ".text." (k_name kernel); sapp ".nv.info." (k_name kernel);
                         sapp ".nv.constant0." (k_name kernel)].
Proof.
  revert texts. induction ks as [|k ks IH]; intros [|t texts] Hl; try done.
  cbn [zip zip_with mbind list_bind]. rewrite fmap_app. cbn [kernel_entries fmap list_fmap fst app].
  do 3 f_equal. apply IH. by injection Hl.
Qed.

Lemma module_entries_names m texts :
  length (kernels m) = length texts -> (module_entries m texts).*1 = section_names m.
Proof.
  intros Hl. unfold module_entries, section_names. rewrite fmap_app, kernel_entries_names by done. done.
Qed.

Lemma module_sections_length m texts :
  length (kernels m) = length texts -> length (module_sections m texts) = 4 + 3 * length (kernels m).
Proof.
  intros Hl. rewrite <- (length_fmap s_data), module_entries_data, length_fmap, <- (length_fmap fst).
  rewrite module_entries_names by done. unfold section_names. rewrite length_app.
  rewrite (length_bind_blocks _ 3); done.
Qed.

(** The header at the index of a section carries the index of its name. *)
Definition names_header (nm : Z) (s : section) : Prop := forall off sz, sh_name (s_header s off sz) = nm.

Lemma module_section_named m texts k s :
  length (kernels m) = length texts -> module_sections m texts !! k = Some s ->
  names_header (default 0%Z (snd (add_names (section_names m) st_new) !! k)) s.
Proof.
  intros Hl Hk. pose proof (lookup_lt_Some _ _ _ Hk) as Hlt. rewrite module_sections_length in Hlt by done.
  destruct (decide (k < 4)) as [H4|H4].
  - unfold module_sections in Hk. destruct (add_names (section_names m) st_new) as [t names].
    destruct (add_names (k_name <$> kernels m) st_new) as [t' names'].
    rewrite lookup_app_l in Hk by exact H4.
    destruct k as [|[|[|[|k]]]]; [..|lia]; injection Hk as <-; done.
  - set (i := (k - 4) / 3). set (j := (k - 4) mod 3).
    assert (k = 4 + (3 * i + j) /\ j < 3) as [Ek Hj] by (pose proof (Nat.div_mod_eq (k - 4) 3);
      pose proof (Nat.mod_upper_bound (k - 4) 3 ltac:(lia)); unfold i, j; lia).
    destruct (lookup_lt_is_Some_2 (kernels m) i ltac:(lia)) as [kernel Hki].
    destruct (lookup_lt_is_Some_2 texts i ltac:(lia)) as [text Hti].
    destruct (module_section_lookup m texts i kernel text j Hki Hti Hj) as (names & fg & Hn & Hs).
    rewrite Hn. rewrite <- Ek in Hs. rewrite Hs in Hk. unfold kernel_sections in Hk.
    replace k with (4 + 3 * i + j) by lia.
    destruct j as [|[|[|j]]]; [..|lia]; injection Hk as <-; done.
Qed.

Lemma encode_kernels_length m texts : encode_kernels m = Ok texts -> length (kernels m) = length texts.
Proof. intros H. symmetry. by eapply collectM_length. Qed.

Section Built.
Context (m : SassModule) (cubin : list Z) (texts : list (list Z)).
Hypothesis Hbuild : build_cubin_from_module m = Ok cubin.
Hypothesis Htexts : encode_kernels m = Ok texts.
Hypothesis Hlen : (Z.of_nat (length cubin) < 2 ^ 63)%Z.
Hypothesis Hstr : (Z.of_nat (length (section_at 1 cubin)) < 2 ^ 32)%Z.
Hypothesis Hcount : (Z.of_nat (5 + 3 * length (kernels m)) < 0xff00)%Z.

Let Hkt : length (kernels m) = length texts := encode_kernels_length m texts Htexts.

Lemma built_shape :
  exists (body rest : list Z), cubin = elf_header (Z.of_nat (length body)) (sm_version m)
                              (Z.of_nat (5 + 3 * length (kernels m))) ++ rest /\
    shoff cubin = length body /\ 64 <= length body /\ length body mod 8 = 0 /\
    length cubin = length body + 64 * (5 + 3 * length (kernels m)) /\
    header_at 0 cubin = repeat 0%Z 64 /\
    forall k s, module_sections m texts !! k = Some s ->
      exists off, header_at (S k) cubin = sh_write_to (s_header s (Z.of_nat off) (Z.of_nat (length (s_data s)))) /\
        off mod s_align s = 0 /\ off + length (s_data s) <= length cubin.
Proof using Hbuild Htexts Hlen Hcount Hkt.
  pose proof (module_sections_honest m texts) as Hon.
  destruct (cubin_layout m cubin texts Htexts Hbuild) as (body & hs & Hc & H64 & H8 & Hhs & Hp).
  { eapply Forall_impl; [exact Hon|]. by intros s' [? _]. }
  rewrite wrap_small in Hc by lia. rewrite module_sections_length in Hhs by exact Hkt.
  assert (length cubin = length body + 64 * (5 + 3 * length (kernels m))) as Hcl.
  { rewrite Hc, length_app, length_drop, length_app, (length_bind_blocks _ 64) by apply length_sh_write.
    rewrite length_elf_header. cbn [length]. lia. }
  destruct (header_read _ _ _ _ 0 _ _ Hc H64 Hlen eq_refl) as [Hsh H0].
  eexists body, _. split; [exact Hc|]. split_and!; try done.
  intros k s Hk. destruct (Hp k s Hk) as (h & Hh & (off & -> & _ & Hmod & Hend & _)).
  destruct (header_read _ _ _ _ (S k) _ _ Hc H64 Hlen Hh) as [_ Hhd].
  exists off. split_and!; [exact Hhd|exact Hmod|lia].
Qed.

Lemma built_field pos n v :
  (forall off, take n (drop pos (elf_header off (sm_version m) (Z.of_nat (5 + 3 * length (kernels m))))) = le_bytes n v) ->
  pos + n <= 64 -> (0 <= v < 256 ^ Z.of_nat n)%Z -> number_at pos n cubin = v.
Proof using Hbuild Htexts Hlen Hcount Hkt.
  intros H Hn Hv. destruct built_shape as (body & rest & Hc & _). unfold number_at.
  rewrite Hc, take_drop_app by (rewrite length_elf_header; lia). rewrite H.
  apply le_decode_le_bytes_small. exact Hv.
Qed.

Lemma built_shnum : shnum cubin = 5 + 3 * length (kernels m).
Proof using Hbuild Htexts Hlen Hcount Hkt.
  unfold shnum. rewrite (built_field 60 2 (Z.of_nat (5 + 3 * length (kernels m)))); [lia|done|lia|].
  change (256 ^ Z.of_nat 2)%Z with 65536%Z. lia.
Qed.

Lemma built_shstrndx : shstrndx cubin = 1.
Proof using Hbuild Htexts Hlen Hcount Hkt.
  unfold shstrndx. rewrite (built_field 62 2 1); [done|done|lia|done].
Qed.

Lemma built_section k name data :
  module_entries m texts !! k = Some (name, data) ->
  section_at (S k) cubin = data /\
  number_at 32 8 (header_at (S k) cubin) = Z.of_nat (length data) /\
  hdr_addr (header_at (S k) cubin) = 0%Z /\
  cstr_at (section_at 1 cubin) (hdr_name (header_at (S k) cubin)) (string_bytes name).
Proof using Hbuild Htexts Hlen Hcount Hkt Hstr.
  intros Hk. pose proof (module_entries_data m texts) as Hd. pose proof (module_entries_names m texts Hkt) as Hn.
  apply (f_equal (lookup k)) in Hd, Hn. rewrite !list_lookup_fmap, Hk in Hd. rewrite list_lookup_fmap, Hk in Hn.
  destruct (module_sections m texts !! k) as [s|] eqn:Hs; [|done]. cbn in Hd, Hn. injection Hd as Hd. symmetry in Hn.
  pose proof (module_sections_honest m texts) as Hon.
  destruct (cubin_section m cubin texts k s Htexts Hbuild Hlen Hon Hs) as (Hsec & _).
  destruct built_shape as (body & rest & _ & _ & _ & _ & _ & _ & Hh).
  destruct (Hh k s Hs) as (off & Hhd & _ & Hend). rewrite Hsec, Hhd.
  destruct (Forall_lookup_1 _ _ _ _ Hon Hs) as [_ Hos].
  destruct (sh_write_fields (s_header s (Z.of_nat off) (Z.of_nat (length (s_data s))))) as (Hnm & _ & Hsz).
  split; [exact Hd|]. split; [|split].
  - rewrite Hsz, (proj2 (Hos _ _)), le_decode_nat by (change (256 ^ Z.of_nat 8)%Z with (2 ^ 64)%Z; lia).
    by rewrite Hd.
  - rewrite (proj1 (proj2 (sh_write_more _))).
    by rewrite (proj1 (Forall_lookup_1 _ _ _ _ (module_sections_elf m texts) Hs _ _)).
  - destruct (shstrtab_section m texts) as (s1 & Hs1 & Hs1d).
    destruct (cubin_section m cubin texts 0 s1 Htexts Hbuild Hlen Hon Hs1) as (Hstrdata & _).
    rewrite Hstrdata, Hs1d in *. unfold hdr_name. rewrite Hnm, (module_section_named m texts k s Hkt Hs).
    destruct (add_names (section_names m) st_new) as [t names] eqn:Ha. cbn [fst snd] in *.
    destruct (add_names_spec (section_names m) st_new t names eq_refl Ha Hstr) as [_ Hc].
    destruct (Hc k name Hn) as (idx & Hidx & Hr & Hcs). rewrite Hidx. cbn [default].
    rewrite le_decode_le_bytes_small by (simpl; lia). exact Hcs.
Qed.

(** Every header of the file is the null header or that of a section. *)
Lemma built_header_cases k :
  k < shnum cubin ->
  k = 0 \/ exists i s off, k = S i /\ module_sections m texts !! i = Some s /\ elf_section s /\ honest s /\
    header_at k cubin = sh_write_to (s_header s (Z.of_nat off) (Z.of_nat (length (s_data s)))) /\
    off mod s_align s = 0 /\ off + length (s_data s) <= length cubin.
Proof using Hbuild Htexts Hlen Hcount Hkt.
  rewrite built_shnum. intros Hk. destruct k as [|i]; [by left|right].
  destruct (lookup_lt_is_Some_2 (module_sections m texts) i) as [s Hs].
  { rewrite module_sections_length by exact Hkt. lia. }
  destruct built_shape as (body & rest & _ & _ & _ & _ & _ & _ & Hh).
  destruct (Hh i s Hs) as (off & Hhd & Hmod & Hend). exists i, s, off. split_and!; try done.
  - by apply (Forall_lookup_1 _ _ _ _ (module_sections_elf m texts) Hs).
  - by apply (Forall_lookup_1 _ _ _ _ (module_sections_honest m texts) Hs).
Qed.

Lemma built_header_type k s off sz :
  module_sections m texts !! k = Some s -> header_at (S k) cubin = sh_write_to (s_header s off sz) ->
  hdr_type (header_at (S k) cubin) = sh_type (s_header s off sz).
Proof using Hbuild Htexts Hlen Hcount Hkt.
  intros Hs ->. apply sh_type_read.
  by apply (Forall_lookup_1 _ _ _ _ (module_sections_elf m texts) Hs).
Qed.

Lemma built_strtab k : k = 0 \/ k = 1 -> hdr_type (header_at (S k) cubin) = SHT_STRTAB.
Proof using Hbuild Htexts Hlen Hcount Hkt.
  intros Hk. destruct built_shape as (body & rest & _ & _ & _ & _ & _ & _ & Hh).
  destruct (lookup_lt_is_Some_2 (module_sections m texts) k) as [s Hs].
  { rewrite module_sections_length by exact Hkt. lia. }
  destruct (Hh k s Hs) as (off & Hhd & _). rewrite (built_header_type k s _ _ Hs Hhd).
  unfold module_sections in Hs. destruct (add_names (section_names m) st_new) as [t names].
  destruct (add_names (k_name <$> kernels m) st_new) as [t' names'].
  destruct Hk as [-> | ->]; injection Hs as <-; done.
Qed.

Lemma built_placement k s off :
  honest s -> header_at k cubin = sh_write_to (s_header s (Z.of_nat off) (Z.of_nat (length (s_data s)))) ->
  off + length (s_data s) <= length cubin ->
  hdr_offset (header_at k cubin) = off /\ hdr_size (header_at k cubin) = length (s_data s).
Proof using Hlen Hcount Hkt Htexts.
  intros [_ Hos] -> Hend. unfold hdr_offset, hdr_size.
  destruct (sh_write_fields (s_header s (Z.of_nat off) (Z.of_nat (length (s_data s))))) as (_ & Ho & Hsz).
  rewrite Ho, Hsz, (proj1 (Hos _ _)), (proj2 (Hos _ _)).
  rewrite !le_decode_nat by (change (256 ^ Z.of_nat 8)%Z with (2 ^ 64)%Z; lia). lia.
Qed.

Lemma built_well_formed : elf_well_formed cubin.
Proof using Hbuild Htexts Hlen Hcount Hkt Hstr.
  destruct built_shape as (body & rest & Hc & Hoff & H64 & H8 & Hcl & H0 & _). constructor.
  - rewrite Hc, take_app_le by (rewrite length_elf_header; lia). done.
  - apply (built_field 56 2 0); [done|lia|done].
  - apply (built_field 58 2 64); [done|lia|done].
  - rewrite built_shnum. lia.
  - rewrite built_shnum, Hoff. lia.
  - exact H0.
  - rewrite built_shstrndx, built_shnum. split_and!; [lia|by apply built_strtab; left|].
    destruct (built_section 0 ".shstrtab" _ eq_refl) as (Hd & _). pose proof Hstr as Hs. rewrite Hd in Hs |- *.
    destruct (add_names (section_names m) st_new) as [t names] eqn:Ha. cbn [fst] in *.
    by destruct (proj1 (add_names_spec (section_names m) st_new t names eq_refl Ha Hs)) as [r ->].
  - intros k Hk. destruct (built_header_cases k Hk) as [->|(i & s & off & -> & Hs & He & _ & Hh & _)].
    + rewrite H0. apply elem_of_cons. left. reflexivity.
    + rewrite (built_header_type i s _ _ Hs Hh). apply He.
  - intros k Hk. destruct (built_header_cases k Hk) as [->|(i & s & off & -> & Hs & He & Ho & Hh & _ & Hend)].
    + rewrite H0. change (hdr_offset (repeat 0%Z 64) + hdr_size (repeat 0%Z 64)) with 0. lia.
    + destruct (built_placement (S i) s off Ho Hh Hend) as [-> ->]. exact Hend.
  - intros k Hk Hty. destruct (built_header_cases k Hk) as [->|(i & s & off & -> & Hs & He & Ho & Hh & Hmod & Hend)].
    { rewrite H0 in Hty. discriminate Hty. }
    rewrite (built_header_type i s _ _ Hs Hh) in Hty. destruct (proj2 (proj2 (He _ _)) Hty) as (Ha & Hd & Hl).
    destruct (built_placement (S i) s off Ho Hh Hend) as [-> ->]. rewrite Ha in Hmod.
    assert (hdr_link (header_at (S i) cubin) = 2) as ->.
    { rewrite Hh, (proj2 (proj2 (sh_write_more _))), Hl. done. }
    rewrite built_shnum. split_and!; try done; [lia|]. by apply built_strtab; right.
Qed.
End Built.

(** ** Reading the sections *)
Definition entry_section (e : string * list Z) : string * CubinSection :=
  (e.1, mkCubinSection e.1 0 (Z.of_nat (length e.2)) e.2 0 0).

Definition section_is (s : ElfSection) (e : string * list Z) : Prop :=
  es_name s = Ok e.1 /\ es_data s = Ok e.2 /\ es_address s = 0%Z /\ es_size s = Z.of_nat (length e.2) /\ e.1 <> "".

Lemma entry_section_names entries : (entry_section <$> entries).*1 = entries.*1.
Proof. rewrite <- list_fmap_compose. by apply list_fmap_ext. Qed.

Lemma parse_section_unnamed sections s : es_name s = Ok "" -> parse_section sections s = Ok sections.
Proof. intros Hs. unfold parse_section. by rewrite Hs. Qed.

Lemma parse_section_named sections s e :
  section_is s e -> parse_section sections s = Ok (<[e.1 := (entry_section e).2]> sections).
Proof.
  intros (Hn & Hd & Ha & Hz & Hne). unfold parse_section. rewrite Hn, Hd, Ha, Hz.
  cbn [map_err mbind outcome_bind]. by rewrite bool_decide_false.
Qed.

Lemma parse_unnamed sections unnamed :
  Forall (fun s => es_name s = Ok "") unnamed -> foldM parse_section sections unnamed = Ok sections.
Proof.
  induction 1 as [|s l Hs _ IH]; [done|]. cbn [foldM].
  by rewrite parse_section_unnamed by exact Hs.
Qed.

Lemma parse_named secs entries pre :
  Forall2 section_is secs entries -> NoDup (pre ++ entries).*1 ->
  foldM parse_section (list_to_map (entry_section <$> pre)) secs
  = Ok (list_to_map (entry_section <$> (pre ++ entries))).
Proof.
  intros H. revert pre. induction H as [|s e secs entries Hs _ IH]; intros pre Hnd.
  { by rewrite app_nil_r. }
  cbn [foldM]. rewrite (parse_section_named _ s e Hs). cbn [mbind outcome_bind].
  rewrite cons_middle, app_assoc in Hnd |- *. rewrite <- IH by exact Hnd. f_equal.
  rewrite fmap_app. cbn [fmap list_fmap]. change (entry_section e) with (e.1, (entry_section e).2).
  rewrite list_to_map_snoc; [done|]. rewrite entry_section_names.
  rewrite !fmap_app, <- app_assoc in Hnd. apply NoDup_app in Hnd as (_ & Hdis & _). intros Hin.
  apply (Hdis e.1 Hin). cbn. apply elem_of_cons. by left.
Qed.

(** Membership in explicit lists, by cases. *)
Ltac elem_cases H :=
  rewrite !elem_of_cons in H; rewrite elem_of_nil in H; naive_solver.

Lemma section_names_nodup m : NoDup (k_name <$> kernels m) -> NoDup (section_names m).
Proof.
  intros Hk. unfold section_names. apply NoDup_app. split_and!.
  - repeat (constructor; [rewrite ?elem_of_cons, elem_of_nil; naive_solver|]). constructor.
  - intros x Hx (kernel & Hin & _)%list_elem_of_bind.
    rewrite !elem_of_cons in Hx; rewrite elem_of_nil in Hx; elem_cases Hin.
  - induction (kernels m) as [|k ks IH]; [constructor|]. apply NoDup_cons in Hk as [Hnk Hk].
    cbn [mbind list_bind]. apply NoDup_app. split_and!; [|intros x Hx (kernel & Hin & Hks)%list_elem_of_bind|by apply IH].
    + repeat (constructor; [rewrite ?elem_of_cons, elem_of_nil; naive_solver|]). constructor.
    + apply Hnk, list_elem_of_fmap. exists kernel. split; [|exact Hks].
      rewrite !elem_of_cons in Hx; rewrite elem_of_nil in Hx; elem_cases Hin.
Qed.

(** ** Kernels and constants *)
Lemma omap_perm {A B} (f : A -> option B) l1 l2 : l1 ≡ₚ l2 -> omap f l1 ≡ₚ omap f l2.
Proof.
  induction 1 as [|x l1 l2 _ IH|x y l|l1 l2 l3 _ IH1 _ IH2]; csimpl; [done| | |by rewrite IH1].
  - destruct (f x); by rewrite IH.
  - destruct (f x), (f y); try done. apply Permutation_swap.
Qed.

Lemma omap_bind {A B C} (f : B -> option C) (g : A -> list B) l : omap f (l ≫= g) = l ≫= (omap f ∘ g).
Proof. induction l as [|x l IH]; [done|]. cbn [mbind list_bind]. by rewrite omap_app, IH. Qed.

Lemma starts_with_app p s : starts_with p (sapp p s) = true.
Proof.
  unfold starts_with. induction p as [|c p IH]; [by destruct s|].
  change (sapp (String c p) s) with (String c (sapp p s)). cbn [String.prefix].
  destruct (ascii_dec c c) as [_|n]; [exact IH|by destruct n].
Qed.

Lemma strip_prefix_app p s : strip_prefix p (sapp p s) = Some s.
Proof.
  induction p as [|c p IH]; [by destruct s|].
  change (sapp (String c p) s) with (String c (sapp p s)). cbn [strip_prefix]. by rewrite Ascii.eqb_refl.
Qed.

(** The kernel that is read for a kernel of the module and its text. *)
Definition read_kernel (sm : Z) (kernel : SassKernel) (text : list Z) : CubinKernel :=
  mkCubinKernel (k_name kernel) 0 (Z.of_nat (length text)) text
    32 (shared_mem_bytes kernel) 0 (local_mem_bytes kernel) (max_threads kernel) sm.

Definition read_constant (kernel : SassKernel) : CubinConstant :=
  let data := build_constant0_for_kernel kernel in
  mkCubinConstant 0 0 (wrap 32 (Z.of_nat (length data))) (Some (sapp ".nv.constant0." (k_name kernel))) data.

Lemma extract_kernel_entries sections sm kernel text :
  sections !! sapp ".nv.info." (k_name kernel)
  = Some (entry_section (sapp ".nv.info." (k_name kernel), build_nv_info_for_kernel kernel 0)).2 ->
  kernel_u32 kernel ->
  omap (extract_kernel sections sm) (entry_section <$> kernel_entries kernel text)
  = if decide (text = []) then [] else [read_kernel sm kernel text].
Proof.
  intros Hs Hu. unfold kernel_entries. cbn [fmap list_fmap].
  change (omap (extract_kernel sections sm) [?a; ?b; ?c]) with
    (omap (extract_kernel sections sm) ([a] ++ [b; c])). rewrite omap_app.
  change (omap (extract_kernel sections sm) [_; _]) with (@nil CubinKernel). rewrite app_nil_r.
  unfold entry_section. cbn [fst snd omap list_omap]. unfold extract_kernel.
  rewrite starts_with_app, strip_prefix_app. cbn [andb cs_data from_option id].
  case_decide as Ht; [by subst text|].
  destruct (Nat.ltb_spec 0 (length text)) as [_|H0]; [|by apply Nat.le_0_r, nil_length_inv in H0].
  rewrite Hs. cbn [snd entry_section cs_data]. by rewrite parse_built_nv_info.
Qed.

Lemma extract_constant_entries kernel text :
  omap extract_constant (entry_section <$> kernel_entries kernel text) = [read_constant kernel].
Proof.
  unfold kernel_entries, entry_section. cbn [fmap list_fmap fst snd omap list_omap]. unfold extract_constant.
  change (sapp ".nv.constant0." (k_name kernel)) with (sapp ".nv.constant" (sapp "0." (k_name kernel))).
  rewrite starts_with_app, strip_prefix_app. reflexivity.
Qed.

Lemma bind_ext_in {A B} (f g : A -> list B) l : (forall x, x ∈ l -> f x = g x) -> l ≫= f = l ≫= g.
Proof.
  induction l as [|x l IH]; intros H; [done|]. cbn [mbind list_bind].
  rewrite H by (apply elem_of_cons; by left). f_equal. apply IH. intros y Hy. apply H, elem_of_cons. by right.
Qed.

Lemma omap_entries {C} (f : string * CubinSection -> option C) m texts :
  omap f (entry_section <$> table_entries m texts) = [] ->
  omap f (entry_section <$> module_entries m texts)
  = zip (kernels m) texts ≫= fun '(kernel, text) => omap f (entry_section <$> kernel_entries kernel text).
Proof.
  intros Ht. unfold module_entries. rewrite fmap_app, omap_app, Ht. cbn [app].
  induction (zip (kernels m) texts) as [|[kernel text] l IH]; [done|].
  cbn [mbind list_bind]. by rewrite fmap_app, omap_app, IH.
Qed.

(** The kernels and constants of a module as they are read. *)
Definition read_kernels (m : SassModule) (texts : list (list Z)) : list CubinKernel :=
  zip (kernels m) texts ≫= fun '(kernel, text) =>
    if decide (text = []) then [] else [read_kernel (sm_version m) kernel text].

Lemma sections_nodup m texts :
  length (kernels m) = length texts -> NoDup (k_name <$> kernels m) ->
  NoDup (entry_section <$> module_entries m texts).*1.
Proof.
  intros Hl Hnd. rewrite entry_section_names, module_entries_names by done. by apply section_names_nodup.
Qed.

Lemma entries_perm `{SectionOrder} {C} (f : string * CubinSection -> option C) m texts :
  length (kernels m) = length texts -> NoDup (k_name <$> kernels m) ->
  omap f (section_iter (list_to_map (entry_section <$> module_entries m texts)))
  ≡ₚ omap f (entry_section <$> module_entries m texts).
Proof.
  intros Hl Hnd. apply omap_perm. rewrite section_iter_perm. apply map_to_list_to_map. by apply sections_nodup.
Qed.

Lemma info_section_found m texts kernel text :
  length (kernels m) = length texts -> NoDup (k_name <$> kernels m) -> (kernel, text) ∈ zip (kernels m) texts ->
  (list_to_map (entry_section <$> module_entries m texts) : gmap string CubinSection)
    !! sapp ".nv.info." (k_name kernel)
  = Some (entry_section (sapp ".nv.info." (k_name kernel), build_nv_info_for_kernel kernel 0)).2.
Proof.
  intros Hl Hnd Hin. apply elem_of_list_to_map_1; [by apply sections_nodup|].
  apply (list_elem_of_fmap_2 entry_section _ (sapp ".nv.info." (k_name kernel), build_nv_info_for_kernel kernel 0)).
  unfold module_entries. apply elem_of_app. right. apply list_elem_of_bind. exists (kernel, text).
  split; [|exact Hin]. unfold kernel_entries. rewrite !elem_of_cons. auto.
Qed.

Lemma kernels_read `{SectionOrder} m texts :
  length (kernels m) = length texts -> NoDup (k_name <$> kernels m) -> Forall kernel_u32 (kernels m) ->
  let sections := list_to_map (entry_section <$> module_entries m texts) in
  omap (extract_kernel sections (sm_version m)) (section_iter sections) ≡ₚ read_kernels m texts.
Proof.
  intros Hl Hnd Hu sections. unfold sections at 2. rewrite entries_perm by done. rewrite omap_entries by done.
  unfold read_kernels. apply reflexive_eq, bind_ext_in. intros [kernel text] Hin.
  apply extract_kernel_entries; [by eapply info_section_found|].
  rewrite Forall_forall in Hu. apply Hu. by apply elem_of_zip_l in Hin.
Qed.

Lemma constants_read `{SectionOrder} m texts :
  length (kernels m) = length texts -> NoDup (k_name <$> kernels m) ->
  omap extract_constant (section_iter (list_to_map (entry_section <$> module_entries m texts)))
  ≡ₚ read_constant <$> kernels m.
Proof.
  intros Hl Hnd. rewrite entries_perm by done. rewrite omap_entries by done. apply reflexive_eq.
  rewrite (bind_ext_in _ (fun '(kernel, _) => [read_constant kernel]))
    by (intros [k t] _; apply extract_constant_entries).
  clear Hnd. revert texts Hl. induction (kernels m) as [|k ks IH]; intros [|t texts] Hl; try done.
  cbn [zip zip_with mbind list_bind fmap list_fmap app]. f_equal. apply IH. by injection Hl.
Qed.

Lemma sm_version_read sm : (10 <= sm <= 255)%Z -> sm_version_from_elf_flags sm = Some sm.
Proof.
  intros H. unfold sm_version_from_elf_flags.
  assert (Z.land sm 0xff = sm) as ->.
  { change 0xff%Z with (Z.ones 8). rewrite Z.land_ones, Z.mod_small by lia. done. }
  cbn [list_find].
  rewrite decide_True; [done|]. rewrite andb_true_iff, !Z.leb_le. lia.
Qed.

Lemma read_kernels_code m texts kernel text (ks : list CubinKernel) :
  NoDup (k_name <$> kernels m) -> (kernel, text) ∈ zip (kernels m) texts -> text <> [] ->
  ks ≡ₚ read_kernels m texts ->
  ck_code ∘ snd <$> list_find (fun k => ck_name k = k_name kernel) ks = Some text.
Proof.
  intros Hnd Hin Ht Hp.
  assert (read_kernel (sm_version m) kernel text ∈ ks) as Hk.
  { rewrite Hp. apply list_elem_of_bind. exists (kernel, text). split; [|exact Hin].
    rewrite decide_False by exact Ht. by apply list_elem_of_singleton. }
  destruct (list_find (fun k => ck_name k = k_name kernel) ks) as [[i x]|] eqn:Hf.
  - apply list_find_Some in Hf as (Hi & Hx & _). apply list_elem_of_lookup_2 in Hi. rewrite Hp in Hi.
    apply list_elem_of_bind in Hi as ([kernel' text'] & Hi & Hin').
    case_decide; [by apply elem_of_nil in Hi|]. apply list_elem_of_singleton in Hi as ->.
    cbn in Hx |- *. f_equal.
    apply list_elem_of_lookup in Hin as [a Ha], Hin' as [b Hb].
    apply lookup_zip_Some in Ha as [Ha Hta], Hb as [Hb Htb].
    assert (b = a) as ->; [|congruence]. apply (NoDup_lookup (k_name <$> kernels m) b a (k_name kernel) Hnd).
    + rewrite list_lookup_fmap, Hb. cbn. by rewrite Hx.
    + by rewrite list_lookup_fmap, Ha.
  - apply list_find_None in Hf. rewrite Forall_forall in Hf. by destruct (Hf _ Hk).
Qed.

Lemma c_string_app s1 s2 : c_string s1 -> c_string s2 -> c_string (sapp s1 s2).
Proof.
  unfold c_string. intros H1 H2. induction s1 as [|c s1 IH]; [done|].
  change (sapp (String c s1) s2) with (String c (sapp s1 s2)). cbn [String.list_ascii_of_string] in *.
  inversion H1; subst. constructor; [done|]. by apply IH.
Qed.

Lemma section_name_text m texts k name data :
  Forall (fun k => c_string (k_name k)) (kernels m) -> length (kernels m) = length texts ->
  module_entries m texts !! k = Some (name, data) -> c_string name /\ name <> "".
Proof.
  intros Hcs Hl Hk. assert (name ∈ section_names m) as Hin.
  { rewrite <- (module_entries_names m texts Hl). apply list_elem_of_lookup. exists k.
    by rewrite list_lookup_fmap, Hk. }
  apply elem_of_app in Hin as [Hin|(kernel & Hin & Hks)%list_elem_of_bind];
    rewrite !elem_of_cons in Hin; rewrite elem_of_nil in Hin.
  - destruct Hin as [->|[->|[->|[->|[]]]]]; (split; [|done]); repeat constructor; cbn; lia.
  - rewrite Forall_forall in Hcs. specialize (Hcs _ Hks).
    destruct Hin as [->|[->|[->|[]]]]; (split; [|done]); apply c_string_app; try exact Hcs; repeat constructor; cbn; lia.
Qed.

Section Parse.
Context `{ElfReaderSpec} `{SectionOrder}.

End Parse.

(** ** A reader that meets the contract *)
Fixpoint until_nul (l : list Z) : list Z :=
  match l with
  | [] => []
  | b :: l => if (b =? 0)%Z then [] else b :: until_nul l
  end.

Definition reference_section (data : list Z) (k : nat) : ElfSection :=
  let h := header_at k data in
  mkElfSection (Ok (bytes_string (until_nul (drop (hdr_name h) (section_at (shstrndx data) data)))))
    (Ok (section_at k data)) (hdr_addr h) (number_at 32 8 h).

#[local] Instance reference_reader : ElfReader := fun data =>
  Ok (mkElfFile (Some (number_at 48 4 data)) (reference_section data <$> seq 1 (shnum data - 1)) []
        (fun idx => if idx <? shnum data then Ok (reference_section data idx) else Err "section")).

Lemma until_nul_bytes s rest : c_string s -> until_nul (string_bytes s ++ 0%Z :: rest) = string_bytes s.
Proof.
  unfold c_string, string_bytes. induction s as [|c s IH]; intros H; [done|].
  cbn [String.list_ascii_of_string fmap list_fmap app until_nul] in *. inversion H; subst.
  destruct (Z.eqb_spec (Z.of_N (N_of_ascii c)) 0) as [E|_]; [|f_equal; by apply IH].
  unfold nat_of_ascii in *. lia.
Qed.

Lemma bytes_string_bytes s : bytes_string (string_bytes s) = s.
Proof.
  unfold bytes_string, string_bytes. induction s as [|c s IH]; [done|].
  cbn [String.list_ascii_of_string fmap list_fmap String.string_of_list_ascii]. rewrite N2Z.id, ascii_N_embedding.
  f_equal. exact IH.
Qed.

Lemma cstr_at_read data pos s :
  c_string s -> cstr_at data pos (string_bytes s) -> bytes_string (until_nul (drop pos data)) = s.
Proof.
  intros Hs [Ht Hz]. rewrite <- (take_drop (length (string_bytes s)) (drop pos data)), Ht, drop_drop.
  rewrite (drop_S _ 0%Z) by exact Hz. rewrite until_nul_bytes by exact Hs. apply bytes_string_bytes.
Qed.

#[local] Instance reference_reader_spec : ElfReaderSpec.
Proof.
  intros data _. eexists _, [], (reference_section data <$> seq 1 (shnum data - 1)). split; [reflexivity|]. split; [reflexivity|]. split; [reflexivity|].
  split; [constructor|]. split; [by rewrite length_fmap, length_seq|].
  intros k s Hk. rewrite list_lookup_fmap in Hk. apply fmap_Some in Hk as (i & Hi & ->).
  apply lookup_seq in Hi as [-> _]. split_and!; [|done|done|done].
  intros name Hc Hcs. cbn [es_name reference_section]. f_equal. by apply cstr_at_read.
Qed.

#[local] Instance section_order_lists : SectionOrder := {
  section_iter := map_to_list;
  section_iter_perm := fun m => reflexivity (map_to_list m);
}.


(** ** The test on raw bytes *)

(** A built file passes. *)
Lemma built_is_cubin {E} m cubin texts :
  build_cubin_from_module m = Ok cubin -> encode_kernels m = Ok texts -> (Z.of_nat (length cubin) < 2 ^ 63)%Z ->
  (Z.of_nat (5 + 3 * length (kernels m)) < 0xff00)%Z -> @is_cubin E cubin = Ok true.
Proof.
  intros Hb Ht Hlen Hcount.
  destruct (built_shape m cubin texts Hb Ht Hlen Hcount) as (body & rest & -> & _). reflexivity.
Qed.

(** The test reads the machine field past the length it checked: it panics
    exactly on inputs of 16 to 19 bytes that start like a little-endian ELF64
    file. *)
Theorem is_cubin_panics {E} data :
  @is_cubin E data = Panic <->
  16 <= length data < 20 /\ take 4 data = ELFMAG /\ data !! 4 = Some 2%Z /\ data !! 5 = Some 1%Z.
Proof.
  unfold is_cubin, byte_at. destruct (Nat.ltb_spec (length data) 16) as [Hl|Hl].
  { split; [discriminate|lia]. }
  destruct (lookup_lt_is_Some_2 data 4 ltac:(lia)) as [b4 H4].
  destruct (lookup_lt_is_Some_2 data 5 ltac:(lia)) as [b5 H5]. rewrite H4, H5.
  case_bool_decide as Hm; [by split; [discriminate|intros (_ & ? & _)]|].
  cbn [unwrap mbind outcome_bind]. case_bool_decide as E4; [by split; [discriminate|intros (_ & _ & [= ->] & _)]|].
  case_bool_decide as E5; [by split; [discriminate|intros (_ & _ & _ & [= ->])]|].
  subst. destruct (decide (length data < 20)) as [H20|H20].
  - rewrite (lookup_ge_None_2 data 19) by lia. split; [done|]. intros _. destruct (data !! 18); reflexivity.
  - destruct (lookup_lt_is_Some_2 data 18 ltac:(lia)) as [b18 ->].
    destruct (lookup_lt_is_Some_2 data 19 ltac:(lia)) as [b19 ->]. cbn [unwrap mbind outcome_bind].
    split; [by case_bool_decide|lia].
Qed.
