(* ===== verification/Bitnet.v ===== *)
(** * Routing of BitNet kernels ([zluda/src/impl/bitnet_disagg.rs])

    A kernel goes to the CXL matrix unit, to the GPU, to the fallback or is
    rejected, by markers in its name: those of the environment, of a manifest
    file, which is read once for a path and a mode, and the built-in ones.  The
    process environment is a parameter; the JSON of manifests and of the route
    log is the [serde_json] crate's, a class. *)
From stdpp Require Import base numbers list strings gmap.
From Stdlib Require Import ZArith Lia Ascii.
From S2P Require Import Prelude HostIO RustStr Runtime Replay CubinParser.

Open Scope Z_scope.

Definition BUILTIN_GPU_MARKERS : list string :=
  ["attention"; "attn"; "flash"; "softmax"; "soft_max"; "rope"; "kq"; "qk"; "qkv"; "query"; "key"; "value";
   "kv_cache"].

Definition BUILTIN_FFN_MARKERS : list string :=
  ["ffn"; "feed_forward"; "mlp"; "gate_proj"; "up_proj"; "down_proj"; "expert"; "moe"; "mul_mat_vec_q";
   "mul_mat_q"; "mul_mat_f"].

(** ** Data *)
Inductive BitnetRoute : Type := RouteCxlTmatmul | RouteGpuNative | RouteFallback | RouteReject.

#[global] Instance BitnetRoute_eq_dec : EqDecision BitnetRoute.
Proof. solve_decision. Defined.

Definition route_str (r : BitnetRoute) : string :=
  match r with
  | RouteCxlTmatmul => "cxl_tmatmul"
  | RouteGpuNative => "gpu"
  | RouteFallback => "fallback"
  | RouteReject => "reject"
  end.

Inductive BitnetRouteSource : Type :=
| SourceDisabled | SourceExplicitGpuEnv | SourceManifest | SourceExplicitCxlEnv | SourceBuiltinGpuMarker
| SourceBuiltinFfnMarker | SourceDefault.

Definition source_str (s : BitnetRouteSource) : string :=
  match s with
  | SourceDisabled => "disabled"
  | SourceExplicitGpuEnv => "explicit_gpu_env"
  | SourceManifest => "manifest"
  | SourceExplicitCxlEnv => "explicit_cxl_env"
  | SourceBuiltinGpuMarker => "builtin_gpu_marker"
  | SourceBuiltinFfnMarker => "builtin_ffn_marker"
  | SourceDefault => "default"
  end.

Record BitnetRouteDecision : Type := mkBitnetDecision {
  bd_kernel : string;
  bd_route : BitnetRoute;
  bd_source : BitnetRouteSource;
  bd_matched : option string;
  bd_reason : option string;
  bd_strict : bool;
}.

Inductive ManifestRouteName : Type := NameCxlTmatmul | NameGpu | NameFallback | NameReject.

#[global] Instance ManifestRouteName_eq_dec : EqDecision ManifestRouteName.
Proof. solve_decision. Defined.

Definition to_route (n : ManifestRouteName) : BitnetRoute :=
  match n with
  | NameCxlTmatmul => RouteCxlTmatmul
  | NameGpu => RouteGpuNative
  | NameFallback => RouteFallback
  | NameReject => RouteReject
  end.

Definition default_manifest_route : ManifestRouteName := NameFallback.

Record BitnetRouteManifestEntry : Type := mkBitnetEntry {
  be_match_text : string;
  be_route : ManifestRouteName;
  be_reason : option string;
}.

Record BitnetRouteManifest : Type := mkBitnetManifest {
  bm_version : Z;
  bm_default : ManifestRouteName;
  bm_routes : list BitnetRouteManifestEntry;
}.

Record BitnetRouteConfig : Type := mkBitnetConfig {
  bc_enabled : bool;
  bc_strict : bool;
  bc_gpu_markers : list string;
  bc_cxl_markers : list string;
  bc_manifest : option BitnetRouteManifest;
}.

(** Parsing gives the default route and the routes their serde defaults. *)
Class RouteJson : Type := {
  parse_route_manifest : string -> option BitnetRouteManifest;
  route_record_text : BitnetRouteDecision -> bool -> bool -> option (list Z);
}.

Inductive BitnetError : Type :=
| BitnetReadFailed (path : string)
| BitnetParseFailed (path : string)
| UnsupportedManifestVersion (version : Z)
| CxlManifestDefault
| SerializeRouteLog (path : string)
| OpenRouteLog (path : string) (e : io_error)
| WriteRouteLog (path : string) (e : io_error).

(** ** Markers *)
Definition normalize_kernel_name (kernel_name : string) : string := to_ascii_lowercase (trim kernel_name).

Definition is_ascii_uppercase (c : ascii) : bool := (65 <=? nat_of_ascii c)%nat && (nat_of_ascii c <=? 90)%nat.

Fixpoint marker_is_ascii_lowercase (marker : string) : bool :=
  match marker with
  | EmptyString => true
  | String c rest => negb (is_ascii_uppercase c) && marker_is_ascii_lowercase rest
  end.

Definition normalized_marker_match (name_lower marker : string) : option string :=
  let marker := trim marker in
  if String.eqb marker "" then None
  else if marker_is_ascii_lowercase marker then
    if contains marker name_lower then Some marker else None
  else
    let marker_lower := to_ascii_lowercase marker in
    if contains marker_lower name_lower then Some marker_lower else None.

Definition find_marker (name_lower : string) (markers : list string) : option string :=
  find_map (normalized_marker_match name_lower) markers.

(** ** Decisions *)
Definition bitnet_decision (kernel_name : string) (route : BitnetRoute) (source : BitnetRouteSource)
    (matched reason : option string) (strict : bool) : BitnetRouteDecision :=
  mkBitnetDecision kernel_name route source matched reason strict.

Definition classify_entry (kernel_name name_lower : string) (config : BitnetRouteConfig)
    (entry : BitnetRouteManifestEntry) : option BitnetRouteDecision :=
  marker ← normalized_marker_match name_lower (be_match_text entry);
  Some (bitnet_decision kernel_name (to_route (be_route entry)) SourceManifest (Some marker) (be_reason entry)
          (bc_strict config)).

Definition classify_manifest (kernel_name name_lower : string) (config : BitnetRouteConfig)
    : option BitnetRouteDecision :=
  manifest ← bc_manifest config;
  match find_map (classify_entry kernel_name name_lower config) (bm_routes manifest) with
  | Some d => Some d
  | None =>
      if decide (bm_default manifest = NameCxlTmatmul)
      then Some (bitnet_decision kernel_name RouteFallback SourceManifest None
                   (Some "cxl_tmatmul manifest default is not allowed; falling back"%string) (bc_strict config))
      else if decide (bm_default manifest = NameFallback) then None
      else Some (bitnet_decision kernel_name (to_route (bm_default manifest)) SourceManifest None None
                   (bc_strict config))
  end.

Definition classify_kernel_name (kernel_name : string) (config : BitnetRouteConfig) : BitnetRouteDecision :=
  let name_lower := normalize_kernel_name kernel_name in
  let strict := bc_strict config in
  if negb (bc_enabled config) then bitnet_decision kernel_name RouteFallback SourceDisabled None None strict
  else match find_marker name_lower (bc_gpu_markers config) with
  | Some marker => bitnet_decision kernel_name RouteGpuNative SourceExplicitGpuEnv (Some marker) None strict
  | None =>
  match classify_manifest kernel_name name_lower config with
  | Some d => d
  | None =>
  match find_marker name_lower (bc_cxl_markers config) with
  | Some marker => bitnet_decision kernel_name RouteCxlTmatmul SourceExplicitCxlEnv (Some marker) None strict
  | None =>
  match find_marker name_lower BUILTIN_GPU_MARKERS with
  | Some marker => bitnet_decision kernel_name RouteGpuNative SourceBuiltinGpuMarker (Some marker) None strict
  | None =>
  match find_marker name_lower BUILTIN_FFN_MARKERS with
  | Some marker => bitnet_decision kernel_name RouteCxlTmatmul SourceBuiltinFfnMarker (Some marker) None strict
  | None =>
      bitnet_decision kernel_name (if strict then RouteReject else RouteFallback) SourceDefault None None strict
  end end end end end.

(** ** Manifests *)
Section Manifests.
Context `{RouteJson}.

Definition load_manifest_file (path : string) (w : world) : outcome BitnetError BitnetRouteManifest :=
  file ← map_err (fun _ => BitnetReadFailed path) (open_read path w);
  bytes ← ok_or (BitnetReadFailed path) (read_to_end file);
  text ← ok_or (BitnetReadFailed path) (from_utf8 bytes);
  manifest ← ok_or (BitnetParseFailed path) (parse_route_manifest text);
  if negb (bm_version manifest =? 1) then Err (UnsupportedManifestVersion (bm_version manifest))
  else if decide (bm_default manifest = NameCxlTmatmul) then Err CxlManifestDefault
  else Ok manifest.

(** [path.components().collect()]: empty segments and [.] go, but for a leading
    [.] of a relative path. *)
Definition normal_segments (segs : list string) : list string :=
  filter (fun s => s <> ""%string /\ s <> "."%string) segs.

Definition normalize_manifest_path (path : string) : string :=
  match split_char "/" path with
  | [] => ""
  | first :: rest =>
      if String.eqb first "" then String "/" (join "/" (normal_segments rest))
      else join "/" (first :: normal_segments rest)
  end.

Record ManifestCacheEntry : Type := mkCacheEntry {
  ce_manifest : option BitnetRouteManifest;
  ce_error : option BitnetError;
  ce_diagnostic_emitted : bool;
}.

(** The key is the normalised path and the mode. *)
Definition ManifestCacheKey : Type := string * bool.

(** The process-wide cache, and the errors printed so far *)
Record manifest_cache : Type := mkManifestCache {
  mc_entries : gmap ManifestCacheKey ManifestCacheEntry;
  mc_printed : list BitnetError;
}.

Definition empty_cache : manifest_cache := mkManifestCache ∅ [].

(** Loading does not panic ([load_manifest_total]). *)
Definition cache_entry_load (path : string) (strict : bool) (w : world) : ManifestCacheEntry :=
  match load_manifest_file path w with
  | Ok manifest => mkCacheEntry (Some manifest) None false
  | Err err => mkCacheEntry (if strict then Some (mkBitnetManifest 1 NameReject []) else None) (Some err) false
  | Panic => mkCacheEntry None None false
  end.

Definition cached_manifest_from_path (path_text : string) (strict : bool) (w : world) (c : manifest_cache)
    : manifest_cache * option BitnetRouteManifest :=
  if String.eqb path_text "" then (c, None)
  else
    let key := (normalize_manifest_path path_text, strict) in
    let entry := default (cache_entry_load path_text strict w) (mc_entries c !! key) in
    let '(entry, printed) :=
      match ce_error entry with
      | Some err =>
          if ce_diagnostic_emitted entry then (entry, mc_printed c)
          else (mkCacheEntry (ce_manifest entry) (ce_error entry) true, mc_printed c ++ [err])
      | None => (entry, mc_printed c)
      end in
    (mkManifestCache (<[key := entry]> (mc_entries c)) printed, ce_manifest entry).

(** ** The environment *)
Definition env_truthy (env : environment) (name : string) : bool :=
  match env name with
  | Some value =>
      let v := to_ascii_lowercase (trim value) in
      String.eqb v "1" || String.eqb v "true" || String.eqb v "yes" || String.eqb v "on"
  | None => false
  end.

Definition env_list (env : environment) (name : string) : list string :=
  match env name with
  | Some value =>
      filter (fun item => item <> ""%string) ((fun item => to_ascii_lowercase (trim item)) <$> split_char "," value)
  | None => []
  end.

Definition enabled_from_env (env : environment) : bool :=
  env_truthy env "HETGPU_BITNET_DISAGGREGATE" || env_truthy env "HETGPU_BITNET_FFN_CXL"
  || env_truthy env "HETGPU_TMATMUL_BITNET_DISAGGREGATE".

Definition bitnet_config_from_env (env : environment) (w : world) (c : manifest_cache)
    : manifest_cache * BitnetRouteConfig :=
  let strict := env_truthy env "HETGPU_BITNET_DISAGG_STRICT" in
  let '(c, manifest) :=
    match env "HETGPU_BITNET_ROUTE_MANIFEST"%string with
    | Some path => cached_manifest_from_path (trim path) strict w c
    | None => (c, None)
    end in
  (c, mkBitnetConfig (enabled_from_env env) strict (env_list env "HETGPU_BITNET_GPU_KERNELS")
        (env_list env "HETGPU_BITNET_CXL_KERNELS") manifest).

(** ** The route log *)
Definition append_route_log (path : string) (decision : BitnetRouteDecision) (cxl_enabled hardware_matmul_enabled : bool)
    : stm world BitnetError unit :=
  line ← stm_lift (ok_or (SerializeRouteLog path) (route_record_text decision cxl_enabled hardware_matmul_enabled));
  stm_map_err (OpenRouteLog path) (open_for_append path);;
  stm_map_err (WriteRouteLog path) (write_all path (line ++ [10])).

Definition append_route_log_from_env (env : environment) (decision : BitnetRouteDecision)
    (cxl_enabled hardware_matmul_enabled : bool) : stm world BitnetError unit :=
  match env "HETGPU_BITNET_ROUTE_LOG"%string with
  | None => mret tt
  | Some path =>
      if String.eqb (trim path) "" then mret tt
      else append_route_log (trim path) decision cxl_enabled hardware_matmul_enabled
  end.

(** ** Lemmas *)
Lemma load_manifest_total path w : load_manifest_file path w <> Panic.
Proof.
  unfold load_manifest_file, open_read. case_decide; [done|]. destruct (files w !! path); [|done].
  cbn -[from_utf8 read_to_end]. destruct (read_to_end _); [|done]. cbn -[from_utf8]. destruct (from_utf8 _); [|done]. cbn.
  destruct (parse_route_manifest _) as [m|]; [|done]. cbn. destruct (negb _); [done|]. by case_decide.
Qed.

(** A loaded manifest has version 1 and does not send everything to CXL. *)
Lemma load_manifest_checked path w m : load_manifest_file path w = Ok m ->
  bm_version m = 1 /\ bm_default m <> NameCxlTmatmul.
Proof.
  unfold load_manifest_file, open_read. case_decide; [done|]. destruct (files w !! path); [|done].
  cbn -[from_utf8 read_to_end]. destruct (read_to_end _); [|done]. cbn -[from_utf8]. destruct (from_utf8 _); [|done]. cbn.
  destruct (parse_route_manifest _) as [m'|]; [|done]. cbn. destruct (Z.eqb_spec (bm_version m') 1); [|done].
  cbn. case_decide; [done|]. by intros [= <-].
Qed.
End Manifests.

(** ** Which kernels go to CXL *)

Lemma ascii_lower_id c : is_ascii_uppercase c = false -> ascii_lower c = c.
Proof. unfold is_ascii_uppercase, ascii_lower. intros ->. done. Qed.

Lemma lowercase_id s : marker_is_ascii_lowercase s = true -> to_ascii_lowercase s = s.
Proof.
  induction s as [|c s IH]; [done|]. cbn [marker_is_ascii_lowercase]. intros [Hc Hs]%andb_true_iff.
  unfold to_ascii_lowercase in *. cbn [string_map]. rewrite ascii_lower_id by (by apply negb_true_iff). by rewrite IH.
Qed.

(** A marker counts when, trimmed and in lower case, it is part of the name. *)
Definition marker_hits (kernel_name marker : string) : Prop :=
  trim marker <> ""%string /\ contains (to_ascii_lowercase (trim marker)) (normalize_kernel_name kernel_name) = true.

#[global] Instance marker_hits_dec kernel_name marker : Decision (marker_hits kernel_name marker).
Proof. unfold marker_hits. apply _. Defined.

Lemma marker_match_spec kernel_name marker :
  normalized_marker_match (normalize_kernel_name kernel_name) marker =
  if decide (marker_hits kernel_name marker) then Some (to_ascii_lowercase (trim marker)) else None.
Proof.
  assert (normalized_marker_match (normalize_kernel_name kernel_name) marker =
    if String.eqb (trim marker) "" then None
    else if contains (to_ascii_lowercase (trim marker)) (normalize_kernel_name kernel_name)
    then Some (to_ascii_lowercase (trim marker)) else None) as ->.
  { unfold normalized_marker_match. destruct (String.eqb _ _); [done|].
    destruct (marker_is_ascii_lowercase _) eqn:Hl; [by rewrite (lowercase_id _ Hl)|done]. }
  case_decide as Hh; unfold marker_hits in Hh; destruct (String.eqb_spec (trim marker) "") as [He|He]; [by destruct Hh| |done|].
  - by destruct Hh as [_ ->].
  - destruct (contains _ _) eqn:Hc; [|done]. exfalso. by apply Hh.
Qed.

Definition any_hit (kernel_name : string) (markers : list string) : Prop := Exists (marker_hits kernel_name) markers.

Lemma find_marker_None kernel_name markers :
  find_marker (normalize_kernel_name kernel_name) markers = None <-> ~ any_hit kernel_name markers.
Proof.
  unfold any_hit, find_marker. induction markers as [|m l IH]; cbn [find_map].
  - split; [intros _ Hx; by inversion Hx|done].
  - rewrite marker_match_spec, Exists_cons. case_decide; [|rewrite IH]; intuition (done || eauto).
Qed.

Lemma find_marker_Some kernel_name markers marker :
  find_marker (normalize_kernel_name kernel_name) markers = Some marker -> any_hit kernel_name markers.
Proof.
  intros Hf. destruct (decide (any_hit kernel_name markers)) as [|Hn]; [done|].
  apply find_marker_None in Hn. congruence.
Qed.

(** The manifest entry that decides, if any *)
Definition first_entry (kernel_name : string) (config : BitnetRouteConfig) : option BitnetRouteManifestEntry :=
  manifest ← bc_manifest config;
  snd <$> list_find (fun e => marker_hits kernel_name (be_match_text e)) (bm_routes manifest).

Definition default_of (config : BitnetRouteConfig) : ManifestRouteName :=
  from_option bm_default default_manifest_route (bc_manifest config).

Lemma entries_spec kernel_name config entries :
  find_map (classify_entry kernel_name (normalize_kernel_name kernel_name) config) entries =
  match list_find (fun e => marker_hits kernel_name (be_match_text e)) entries with
  | Some (_, e) => Some (bitnet_decision kernel_name (to_route (be_route e)) SourceManifest
                           (Some (to_ascii_lowercase (trim (be_match_text e)))) (be_reason e) (bc_strict config))
  | None => None
  end.
Proof.
  induction entries as [|e l IH]; [done|]. cbn [find_map list_find]. unfold classify_entry at 1. rewrite marker_match_spec.
  case_decide; [done|]. cbn [mbind option_bind]. rewrite IH. by destruct (list_find _ l) as [[? ?]|].
Qed.

(** What the manifest decides *)
Lemma classify_manifest_spec kernel_name config :
  bd_route <$> classify_manifest kernel_name (normalize_kernel_name kernel_name) config =
  match first_entry kernel_name config with
  | Some e => Some (to_route (be_route e))
  | None => match default_of config with
            | NameCxlTmatmul => Some RouteFallback
            | NameFallback => None
            | n => Some (to_route n)
            end
  end.
Proof.
  unfold classify_manifest, first_entry, default_of. destruct (bc_manifest config) as [m|]; [|done].
  cbn [mbind option_bind]. rewrite entries_spec. destruct (list_find _ _) as [[i e]|]; [done|]. cbn.
  by destruct (bm_default m).
Qed.

(** [C36] A kernel goes to the CXL unit exactly when routing is on, no GPU marker of
    the environment is in its name, and either the first manifest entry found in
    its name says so, or there is none, the manifest's default leaves the choice
    open, and the name has a CXL marker of the environment or a built-in FFN
    marker without a built-in GPU marker. *)
Theorem cxl_route_iff kernel_name config :
  bd_route (classify_kernel_name kernel_name config) = RouteCxlTmatmul <->
  bc_enabled config = true /\ ~ any_hit kernel_name (bc_gpu_markers config) /\
  match first_entry kernel_name config with
  | Some e => be_route e = NameCxlTmatmul
  | None => default_of config = NameFallback /\
            (any_hit kernel_name (bc_cxl_markers config) \/
             ~ any_hit kernel_name BUILTIN_GPU_MARKERS /\ any_hit kernel_name BUILTIN_FFN_MARKERS)
  end.
Proof.
  unfold classify_kernel_name. cbv zeta. destruct (bc_enabled config); cbn [negb]; [|by split; [|intros []]].
  pose proof (classify_manifest_spec kernel_name config) as Hm.
  destruct (find_marker _ (bc_gpu_markers config)) eqn:H1.
  { apply find_marker_Some in H1. cbn. split; [done|]. intros (_ & Hn & _). done. }
  apply find_marker_None in H1. destruct (classify_manifest _ _ _) as [d|]; cbn in Hm.
  - destruct (first_entry kernel_name config) as [e|].
    + injection Hm as ->. split; [intros Hr; by destruct (be_route e)|by intros (_ & _ & ->)].
    + split; [|by intros (_ & _ & Hf & _); rewrite Hf in Hm].
      intros Hr. rewrite Hr in Hm. by destruct (default_of config).
  - destruct (first_entry kernel_name config) as [e|]; [done|].
    assert (default_of config = NameFallback) as Hd by (by destruct (default_of config)).
    destruct (find_marker _ (bc_cxl_markers config)) eqn:H2; [apply find_marker_Some in H2|apply find_marker_None in H2].
    { split; [intros _|done]. split_and!; auto. }
    destruct (find_marker _ BUILTIN_GPU_MARKERS) eqn:H3; [apply find_marker_Some in H3|apply find_marker_None in H3].
    { split; [done|]. intros (_ & _ & _ & [|[]]); done. }
    destruct (find_marker _ BUILTIN_FFN_MARKERS) eqn:H4; [apply find_marker_Some in H4|apply find_marker_None in H4].
    { split; [intros _|done]. split_and!; auto. }
    split; [by destruct (bc_strict config)|]. intros (_ & _ & _ & [|[]]); done.
Qed.

(** ** The manifest cache *)
Section Cache.
Context `{RouteJson}.

(** A lookup: the path, the mode and the files at that time *)
Definition manifest_read : Type := string * bool * world.

Definition read_key (r : manifest_read) : ManifestCacheKey := (normalize_manifest_path (fst (fst r)), snd (fst r)).

Fixpoint run_reads (c : manifest_cache) (reads : list manifest_read) : manifest_cache * list (option BitnetRouteManifest) :=
  match reads with
  | [] => (c, [])
  | (path, strict, w) :: rest =>
      let '(c, m) := cached_manifest_from_path path strict w c in
      let '(c, ms) := run_reads c rest in (c, m :: ms)
  end.

(** The first read of a key *)
Definition opens (key : ManifestCacheKey) (r : manifest_read) : Prop := fst (fst r) <> ""%string /\ read_key r = key.

Definition first_read (reads : list manifest_read) (key : ManifestCacheKey) : option manifest_read :=
  snd <$> list_find (opens key) reads.

Definition loaded (r : manifest_read) : ManifestCacheEntry := cache_entry_load (fst (fst r)) (snd (fst r)) (snd r).

(** The errors of the first reads, in order *)
Fixpoint first_errors (before reads : list manifest_read) : list BitnetError :=
  match reads with
  | [] => []
  | r :: rest =>
      (if decide (fst (fst r) = ""%string) then []
       else match first_read before (read_key r) with
            | Some _ => []
            | None => option_list (ce_error (loaded r))
            end) ++ first_errors (before ++ [r]) rest
  end.

Lemma first_read_app reads1 reads2 key :
  first_read (reads1 ++ reads2) key = match first_read reads1 key with Some r => Some r | None => first_read reads2 key end.
Proof.
  unfold first_read. induction reads1 as [|r l IH]; [done|]. cbn [app list_find]. case_decide; [done|].
  replace (snd <$> (prod_map S id <$> list_find (opens key) (l ++ reads2))) with (snd <$> list_find (opens key) (l ++ reads2))
    by (by destruct (list_find _ _) as [[]|]).
  rewrite IH. by destruct (list_find (opens key) l) as [[]|].
Qed.

Definition shown (e : ManifestCacheEntry) : ManifestCacheEntry :=
  mkCacheEntry (ce_manifest e) (ce_error e) (bool_decide (is_Some (ce_error e))).

(** The cache after some reads *)
Definition cache_is (reads : list manifest_read) (c : manifest_cache) : Prop :=
  forall key, mc_entries c !! key = shown ∘ loaded <$> first_read reads key.

Lemma fresh_not_emitted r : ce_diagnostic_emitted (loaded r) = false.
Proof. unfold loaded, cache_entry_load. by destruct (load_manifest_file _ _). Qed.

Lemma first_read_self r : fst (fst r) <> ""%string -> first_read [r] (read_key r) = Some r.
Proof. intros Hp. unfold first_read. cbn [list_find]. by rewrite decide_True by (by split). Qed.

Lemma first_read_other r key : ~ opens key r -> first_read [r] key = None.
Proof. intros Hn. unfold first_read. cbn [list_find]. by rewrite decide_False. Qed.

Lemma cache_is_insert before c r printed : fst (fst r) <> ""%string -> cache_is before c ->
  cache_is (before ++ [r]) (mkManifestCache
    (<[read_key r := shown (loaded (default r (first_read before (read_key r))))]> (mc_entries c)) printed).
Proof.
  intros Hp Hc key. cbn [mc_entries]. rewrite first_read_app. destruct (decide (read_key r = key)) as [<-|Hk].
  - rewrite lookup_insert_eq. destruct (first_read before (read_key r)); [done|]. by rewrite first_read_self.
  - rewrite lookup_insert_ne, Hc by done. destruct (first_read before key); [done|].
    by rewrite first_read_other by (by intros []).
Qed.

(** The entry that a lookup leaves, and what it prints *)
Lemma entry_shown e printed : (ce_diagnostic_emitted e = false \/ e = shown e) ->
  match ce_error e with
  | Some err => if ce_diagnostic_emitted e then (e, printed)
                else (mkCacheEntry (ce_manifest e) (ce_error e) true, printed ++ [err])
  | None => (e, printed)
  end = (shown e, printed ++ if ce_diagnostic_emitted e then [] else option_list (ce_error e)).
Proof.
  destruct e as [m [err|] []]; unfold shown; cbn; intros [Hx|Hx]; try discriminate; by rewrite ?app_nil_r.
Qed.

Lemma shown_shown e : shown (shown e) = shown e.
Proof. done. Qed.

Lemma cached_step before c path strict w : cache_is before c ->
  let r := (path, strict, w) in
  let '(c', m) := cached_manifest_from_path path strict w c in
  cache_is (before ++ [r]) c' /\ mc_printed c' = mc_printed c ++ first_errors before [r] /\
  m = (if decide (path = ""%string) then None else r0 ← first_read (before ++ [r]) (read_key r); ce_manifest (loaded r0)).
Proof.
  intros Hc r. unfold cached_manifest_from_path. cbn [first_errors]. rewrite app_nil_r.
  destruct (String.eqb_spec path "") as [->|Hp].
  - rewrite !decide_True by done. split_and!; [|by rewrite app_nil_r|done]. intros key. rewrite Hc, first_read_app.
    destruct (first_read before key); [done|]. by rewrite first_read_other by (by intros []).
  - rewrite !decide_False by done. change (normalize_manifest_path path, strict) with (read_key r).
    pose proof (cache_is_insert before c r) as Hins. rewrite Hc, first_read_app.
    destruct (first_read before (read_key r)) as [r0|]; cbn [fmap option_fmap option_map default from_option id compose] in *.
    + rewrite entry_shown by auto. rewrite shown_shown. split_and!; [by apply Hins| |done].
      cbn. destruct (ce_error (loaded r0)); cbn; by rewrite ?app_nil_r.
    + change (cache_entry_load path strict w) with (loaded r). rewrite entry_shown by (left; apply fresh_not_emitted).
      rewrite fresh_not_emitted, first_read_self by done. split_and!; [by apply Hins|done|done].
Qed.

Lemma first_errors_app before reads1 reads2 :
  first_errors before (reads1 ++ reads2) = first_errors before reads1 ++ first_errors (before ++ reads1) reads2.
Proof.
  revert before. induction reads1 as [|r l IH]; intros before; cbn [app first_errors]; [by rewrite app_nil_r|].
  by rewrite IH, <- !app_assoc.
Qed.

Definition expected_manifest (reads : list manifest_read) (r : manifest_read) : option BitnetRouteManifest :=
  if decide (fst (fst r) = ""%string) then None else r0 ← first_read reads (read_key r); ce_manifest (loaded r0).

Lemma run_reads_spec reads : forall before c, cache_is before c ->
  let '(c', ms) := run_reads c reads in
  cache_is (before ++ reads) c' /\ mc_printed c' = mc_printed c ++ first_errors before reads /\
  ms = expected_manifest (before ++ reads) <$> reads.
Proof.
  induction reads as [|[[path strict] w] reads IH]; intros before c Hc; cbn [run_reads].
  - rewrite !app_nil_r. done.
  - pose proof (cached_step before c path strict w Hc) as Hs. cbv zeta in Hs.
    destruct (cached_manifest_from_path path strict w c) as [c1 m]. destruct Hs as (Hc1 & Hp1 & ->).
    specialize (IH _ _ Hc1). destruct (run_reads c1 reads) as [c2 ms]. destruct IH as (Hc2 & Hp2 & ->).
    rewrite <- (app_assoc before) in Hc2 |- *. split_and!; [done| |].
    + rewrite Hp2, Hp1, <- app_assoc. f_equal. symmetry.
      change ((path, strict, w) :: reads) with ([(path, strict, w)] ++ reads). apply first_errors_app.
    + cbn [fmap list_fmap app]. f_equal. unfold expected_manifest. cbn [fst snd]. case_decide as Hp; [done|].
      change (before ++ (path, strict, w) :: reads) with (before ++ [(path, strict, w)] ++ reads).
      rewrite (app_assoc before [_] reads), (first_read_app (before ++ [_]) reads).
      assert (is_Some (first_read (before ++ [(path, strict, w)]) (read_key (path, strict, w)))) as [r0 Hf].
      { rewrite first_read_app. destruct (first_read before _); [done|]. by rewrite first_read_self. }
      pose proof (Hf : first_read (before ++ [((path, strict, w) : manifest_read)]) _ = Some r0) as Hf'.
      by rewrite Hf, Hf'.
Qed.

(** A manifest is read once for a normalised path and a mode: whatever
    happens to the files later, every lookup of the key returns what the first
    one loaded, and each key whose first load failed prints one diagnostic. *)
Theorem manifest_loaded_once reads :
  let '(c, results) := run_reads empty_cache reads in
  results = expected_manifest reads <$> reads /\ mc_printed c = first_errors [] reads /\ cache_is reads c.
Proof.
  pose proof (run_reads_spec reads [] empty_cache) as Hr. destruct (run_reads empty_cache reads) as [c results].
  destruct Hr as (Hc & Hp & Hm); [|done]. intros key. apply lookup_empty.
Qed.

Lemma loaded_default r m : ce_manifest (loaded r) = Some m -> bm_default m <> NameCxlTmatmul.
Proof.
  unfold loaded, cache_entry_load. destruct (load_manifest_file _ _) as [m'|e|] eqn:Hl; cbn.
  - intros [= <-]. by eapply load_manifest_checked.
  - destruct (snd (fst r)); [|done]. by intros [= <-].
  - done.
Qed.

(** No configuration sends kernels to CXL by default. *)
Lemma config_default reads env w :
  let config := snd (bitnet_config_from_env env w (fst (run_reads empty_cache reads))) in
  default_of config <> NameCxlTmatmul.
Proof.
  cbv zeta. pose proof (run_reads_spec reads [] empty_cache) as Hr. unfold bitnet_config_from_env.
  destruct (run_reads empty_cache reads) as [c ms]. destruct Hr as (Hc & _ & _); [intros key; apply lookup_empty|].
  cbn [fst]. destruct (env _) as [path|]; [|done].
  set (strict := env_truthy env _). pose proof (cached_step reads c (trim path) strict w Hc) as Hs. cbv zeta in Hs.
  destruct (cached_manifest_from_path (trim path) strict w c) as [c' m]. destruct Hs as (_ & _ & Hm). cbn.
  unfold default_of. cbn [bc_manifest]. destruct m as [m|]; [cbn|done]. case_decide; [done|]. symmetry in Hm.
  apply bind_Some in Hm as (r0 & _ & Hm). by eapply loaded_default.
Qed.

(** In strict mode nothing falls back unasked: whatever manifests were read
    before, a kernel routed to the fallback has a manifest entry that says so. *)
Theorem strict_never_falls_back reads env w kernel_name :
  let config := snd (bitnet_config_from_env env w (fst (run_reads empty_cache reads))) in
  bc_enabled config = true -> bc_strict config = true ->
  bd_route (classify_kernel_name kernel_name config) = RouteFallback ->
  exists e, first_entry kernel_name config = Some e /\ be_route e = NameFallback.
Proof.
  pose proof (config_default reads env w) as Hd. cbv zeta in *. set (config := snd _) in *. intros He Hs Hr.
  pose proof (classify_manifest_spec kernel_name config) as Hm. unfold classify_kernel_name in Hr. rewrite He, Hs in Hr.
  cbn [negb] in Hr. destruct (find_marker _ (bc_gpu_markers config)); [done|].
  destruct (classify_manifest _ _ config) as [d|]; cbn in Hm.
  - rewrite Hr in Hm. destruct (first_entry kernel_name config) as [e|]; [|by destruct (default_of config)].
    exists e. split; [done|]. by destruct (be_route e).
  - destruct (find_marker _ (bc_cxl_markers config)); [done|]. destruct (find_marker _ BUILTIN_GPU_MARKERS); [done|].
    by destruct (find_marker _ BUILTIN_FFN_MARKERS).
Qed.
End Cache.

(** A manifest file of one byte that keeps [norm] kernels on the fallback *)
Definition sample_route_json : RouteJson :=
  {| parse_route_manifest := fun _ => Some (mkBitnetManifest 1 NameFallback [mkBitnetEntry "Norm" NameFallback None]);
     route_record_text := fun _ _ _ => Some [123; 125] |}.

Definition strict_env : environment := fun name =>
  if String.eqb name "HETGPU_BITNET_DISAGGREGATE" || String.eqb name "HETGPU_BITNET_DISAGG_STRICT" then Some "1"%string
  else if String.eqb name "HETGPU_BITNET_ROUTE_MANIFEST" then Some "/etc/routes.json "%string else None.

Lemma strict_never_falls_back_witness :
  let w := mkWorld {[ "/etc/routes.json"%string := [123] ]} ∅ [] None in
  let config := snd (@bitnet_config_from_env sample_route_json strict_env w
                       (fst (@run_reads sample_route_json empty_cache []))) in
  exists e, first_entry "rms_norm_f32" config = Some e /\ be_route e = NameFallback.
Proof.
  intros w config. apply (@strict_never_falls_back sample_route_json [] strict_env w "rms_norm_f32");
    vm_compute; reflexivity.
Defined.
