(* ===== verification/Checkpoint.v ===== *)
(** * Checkpoint and resume of GPU kernels ([zluda/src/impl/checkpoint.rs])

    The data that a checkpoint holds, the manager that keeps the active kernels
    and writes checkpoint files, the request flag that the signal handler sets,
    and the tracking of kernel executions by thread.  The process-wide statics
    are the fields of [ckpt]; the time, the environment and the enabled backend
    features are parameters; the JSON is the [serde_json] crate's.  Mutexes are
    never poisoned; messages are dropped.  The text of PTX is handled in
    [CheckpointPtx], restoring in [CheckpointRestore]. *)
From stdpp Require Import base numbers list strings gmap.
From Stdlib Require Import ZArith Lia.
From S2P Require Import Prelude HostIO Delta Aof RustStr Runtime Replay CubinParser.

Open Scope Z_scope.

(** Triples of [u32] for grid and block positions *)
Definition dim : Type := Z * Z * Z.
Definition dim_x (d : dim) : Z := fst (fst d).
Definition dim_y (d : dim) : Z := snd (fst d).
Definition dim_z (d : dim) : Z := snd d.

(** ** Fine-grained state *)
Inductive CheckpointGranularity : Type := KernelLevel | BasicBlockLevel | InstructionLevel | WarpSyncLevel.

Definition granularity_default : CheckpointGranularity := KernelLevel.

Record PtxInstructionState : Type := mkPtxInstruction {
  pi_instruction_pc : Z;
  pi_ptx_line : Z;
  pi_opcode : string;
  pi_src_operands : list string;
  pi_dst_operand : option string;
  pi_predicate : option string;
}.

(** Floats by their bits *)
Record ThreadRegisterState : Type := mkThreadRegisters {
  tr_thread_id : dim;
  tr_regs_32 : gmap Z Z;
  tr_regs_64 : gmap Z Z;
  tr_pred_regs : gmap Z bool;
  tr_float_regs : gmap Z Z;
  tr_double_regs : gmap Z Z;
  tr_special_regs : gmap string Z;
  tr_current_pc : Z;
  tr_is_active : bool;
}.

Record WarpState : Type := mkWarpState {
  wp_warp_id : Z;
  wp_thread_states : list ThreadRegisterState;
  wp_warp_pc : Z;
  wp_active_mask : Z;
  wp_convergence_stack : list (Z * Z);
  wp_barrier_mask : Z;
}.

Inductive BlockSyncState : Type := BlockRunning | BlockAtBarrier (n : Z) | BlockCompleted.

Record BlockState : Type := mkBlockState {
  bk_block_id : dim;
  bk_warp_states : list WarpState;
  bk_shared_memory : list Z;
  bk_shared_memory_size : Z;
  bk_barrier_count : Z;
  bk_sync_state : BlockSyncState;
}.

Inductive PtxMemoryType : Type := PtxGlobal | PtxConstant | PtxTexture | PtxShared | PtxLocal | PtxParameter.

Record MemoryRegionState : Type := mkMemoryRegionState {
  mr_device_ptr : Z;
  mr_size : Z;
  mr_memory_type : PtxMemoryType;
  mr_data : list Z;
  mr_is_dirty : bool;
  mr_checksum : Z;
  mr_access_regions : list (Z * Z);
}.

Record KernelExecutionState : Type := mkKernelExecution {
  ke_execution_id : Z;
  ke_kernel_name : string;
  ke_ptx_source : option string;
  ke_grid_dim : dim;
  ke_block_dim : dim;
  ke_shared_mem_bytes : Z;
  ke_kernel_args : list (Z * Z);
  ke_stream : Z;
  ke_start_time : Z;
  ke_module_handle : Z;
  ke_function_handle : Z;
}.

Record FineGrainedKernelState : Type := mkFineGrainedKernel {
  fk_base : KernelExecutionState;
  fk_granularity : CheckpointGranularity;
  fk_block_states : list BlockState;
  fk_memory_regions : list MemoryRegionState;
  fk_ptx_instructions : list PtxInstructionState;
  fk_completed_blocks : Z;
  fk_total_blocks : Z;
  fk_kernel_start_pc : Z;
  fk_kernel_end_pc : Z;
}.

Record CheckpointMetadata : Type := mkCheckpointMetadata {
  md_checkpoint_id : Z;
  md_parent_id : option Z;
  md_is_incremental : bool;
  md_source_backend : string;
  md_compute_capability : Z * Z;
  md_estimated_resume_time_us : Z;
}.

Record FineGrainedCheckpointData : Type := mkFineGrainedData {
  fd_version : Z;
  fd_timestamp : Z;
  fd_granularity : CheckpointGranularity;
  fd_kernel_states : list FineGrainedKernelState;
  fd_ptx_sources : gmap Z string;
  fd_metadata : CheckpointMetadata;
}.

(** ** State for migration *)
Record ThreadExecutionState : Type := mkThreadExecution {
  te_ptx_line : Z;
  te_instruction_offset : Z;
  te_registers : gmap string Z;
  te_predicates : gmap string bool;
  te_active_mask : Z;
  te_block_id : dim;
  te_thread_id : dim;
}.

Record WarpExecutionState : Type := mkWarpExecution {
  we_warp_id : Z;
  we_thread_states : list ThreadExecutionState;
  we_convergence_stack : list Z;
  we_warp_ip : Z;
}.

Record BlockExecutionState : Type := mkBlockExecution {
  be_block_id : dim;
  be_warp_states : list WarpExecutionState;
  be_shared_memory : list Z;
  be_barrier_count : Z;
}.

Record MemoryRegionCheckpoint : Type := mkMemoryRegionCheckpoint {
  mc_device_addr : Z;
  mc_size : Z;
  mc_data : string;
  mc_mem_type : string;
}.

Record FineGrainedExecutionState : Type := mkFineGrainedExecution {
  fe_kernel_name : string;
  fe_ptx_source : string;
  fe_block_states : list BlockExecutionState;
  fe_memory_regions : list MemoryRegionCheckpoint;
  fe_grid_dim : dim;
  fe_block_dim : dim;
  fe_shared_mem_bytes : Z;
  fe_granularity : CheckpointGranularity;
}.

Record CheckpointData : Type := mkCheckpointData {
  cd_version : Z;
  cd_timestamp : Z;
  cd_active_kernels : list KernelExecutionState;
  cd_ptx_sources : gmap Z string;
  cd_fine_grained_state : option FineGrainedExecutionState;
  cd_resume_ip : Z;
  cd_thread_states : list ThreadExecutionState;
}.

(** ** State for restoration *)
Inductive MemoryType : Type := MemDevice | MemManaged | MemPinned | MemShared.

Record MemoryRegionRestore : Type := mkRegionRestore {
  rr_original_addr : Z;
  rr_size : Z;
  rr_data : list Z;
  rr_mem_type : MemoryType;
  rr_alignment : Z;
}.

Record KernelArgRestore : Type := mkArgRestore {
  ka_index : Z;
  ka_original_addr : Z;
  ka_size : Z;
  ka_is_pointer : bool;
  ka_data : list Z;
}.

Record GpuRestoreState : Type := mkGpuRestore {
  gs_version : Z;
  gs_source_backend : string;
  gs_ptx_source : string;
  gs_compiled_binary : option (list Z);
  gs_kernel_name : string;
  gs_kernel_args : list KernelArgRestore;
  gs_memory_regions : list MemoryRegionRestore;
  gs_grid_dim : dim;
  gs_block_dim : dim;
  gs_shared_mem_bytes : Z;
  gs_thread_state : option ThreadExecutionState;
  gs_address_remap : gmap Z Z;
}.

(** ** Parameters *)

(** The iteration order of hash maps: some order of the entries *)
Class MapOrder : Type := {
  iter_u64 : forall {A}, gmap Z A -> list (Z * A);
  iter_str : forall {A}, gmap string A -> list (string * A);
  iter_u64_perm : forall A (m : gmap Z A), iter_u64 m ≡ₚ map_to_list m;
  iter_str_perm : forall A (m : gmap string A), iter_str m ≡ₚ map_to_list m;
}.

(** The JSON of the three kinds of file; writing can fail, and reading gives
    missing fields their serde defaults. *)
Class CheckpointJson : Type := {
  checkpoint_text : CheckpointData -> option (list Z);
  parse_checkpoint : string -> option CheckpointData;
  fine_grained_text : FineGrainedCheckpointData -> option (list Z);
  parse_fine_grained : string -> option FineGrainedCheckpointData;
  restore_state_text : GpuRestoreState -> option (list Z);
  parse_restore_state : string -> option GpuRestoreState;
}.

(** The cargo features of the build *)
Record features : Type := mkFeatures {
  feature_nvidia : bool;
  feature_amd : bool;
  feature_intel : bool;
  feature_tenstorrent : bool;
}.

Definition detect_backend (f : features) : string :=
  if feature_nvidia f then "nvidia"
  else if feature_amd f then "amd"
  else if feature_intel f then "intel"
  else if feature_tenstorrent f then "tenstorrent"
  else "unknown".

Definition detect_current_backend (f : features) : string :=
  if feature_intel f then "intel"
  else if feature_amd f then "amd"
  else if feature_tenstorrent f then "tenstorrent"
  else "virtual".

(** ** The manager *)
Record CheckpointManager : Type := mkCheckpointManager {
  cm_checkpoint_dir : string;
  cm_active_kernels : gmap Z KernelExecutionState;
  cm_saved_checkpoints : list string;
  cm_ptx_cache : gmap Z string;
  cm_loaded_restore_state : option GpuRestoreState;
}.

Definition cm_set_active (a : gmap Z KernelExecutionState) (m : CheckpointManager) : CheckpointManager :=
  mkCheckpointManager (cm_checkpoint_dir m) a (cm_saved_checkpoints m) (cm_ptx_cache m) (cm_loaded_restore_state m).
Definition cm_set_ptx (c : gmap Z string) (m : CheckpointManager) : CheckpointManager :=
  mkCheckpointManager (cm_checkpoint_dir m) (cm_active_kernels m) (cm_saved_checkpoints m) c (cm_loaded_restore_state m).
Definition cm_set_restore (s : GpuRestoreState) (m : CheckpointManager) : CheckpointManager :=
  mkCheckpointManager (cm_checkpoint_dir m) (cm_active_kernels m) (cm_saved_checkpoints m) (cm_ptx_cache m) (Some s).

(** A directory that exists is made again, which changes nothing. *)
Definition checkpoint_manager_new (dir : string) (w : world) : world * CheckpointManager :=
  (fst (create_dir_all dir w), mkCheckpointManager dir ∅ [] ∅ None).

Definition register_ptx_source (module_handle : Z) (ptx_source : string) (m : CheckpointManager) : CheckpointManager :=
  cm_set_ptx (<[module_handle := ptx_source]> (cm_ptx_cache m)) m.

Definition get_ptx_source (m : CheckpointManager) (module_handle : Z) : option string := cm_ptx_cache m !! module_handle.

Definition register_kernel (state : KernelExecutionState) (m : CheckpointManager) : CheckpointManager :=
  cm_set_active (<[ke_execution_id state := state]> (cm_active_kernels m)) m.

Definition unregister_kernel (execution_id : Z) (m : CheckpointManager) : CheckpointManager :=
  cm_set_active (delete execution_id (cm_active_kernels m)) m.

Inductive CkptError : Type :=
| CkptSerialization
| CkptWriteFailed (e : io_error)
| CkptReadFailed
| CkptParseFailed
| KernelNotFound (name : string).

(** [fs::write] *)
Definition fs_write (path : string) (data : list Z) : stm world CkptError unit :=
  stm_map_err CkptWriteFailed (open_truncate path;; write_all path data).

(** [fs::read_to_string] *)
Definition read_text (path : string) (w : world) : outcome CkptError string :=
  rd ← map_err (fun _ => CkptReadFailed) (open_read path w);
  bytes ← ok_or CkptReadFailed (read_to_end rd);
  ok_or CkptReadFailed (from_utf8 bytes).

Section Files.
Context `{MapOrder} `{CheckpointJson} (f : features).

Definition checkpoint_file_name (timestamp : Z) : string :=
  String.append "hetgpu_checkpoint_" (String.append (dec timestamp) ".json").

Definition checkpoint_data_of (m : CheckpointManager) (timestamp : Z) (fine_grained_state : option FineGrainedExecutionState)
    (resume_ip : Z) (thread_states : list ThreadExecutionState) : CheckpointData :=
  mkCheckpointData 1 timestamp (snd <$> iter_u64 (cm_active_kernels m)) (cm_ptx_cache m) fine_grained_state resume_ip
    thread_states.

Definition save_checkpoint_with_execution_state (m : CheckpointManager) (timestamp : Z)
    (fine_grained_state : option FineGrainedExecutionState) (resume_ip : Z) (thread_states : list ThreadExecutionState)
    : stm world CkptError string :=
  let filepath := path_join (cm_checkpoint_dir m) (checkpoint_file_name timestamp) in
  json ← stm_lift (ok_or CkptSerialization
           (checkpoint_text (checkpoint_data_of m timestamp fine_grained_state resume_ip thread_states)));
  fs_write filepath json;;
  mret filepath.

Definition save_checkpoint (m : CheckpointManager) (timestamp : Z) : stm world CkptError string :=
  save_checkpoint_with_execution_state m timestamp None 0 [].

Definition load_checkpoint (path : string) (w : world) : outcome CkptError CheckpointData :=
  content ← read_text path w;
  ok_or CkptParseFailed (parse_checkpoint content).

(** Sums of [u64] wrap. *)
Definition region_time (total : Z) (r : MemoryRegionState) : Z := wrapping_add 64 total (mr_size r / 1024).

Definition kernel_time (total : Z) (state : FineGrainedKernelState) : Z :=
  let total := wrapping_add 64 total 100 in
  let total := foldl region_time total (fk_memory_regions state) in
  let total := wrapping_add 64 total (wrapping_mul 64 (Z.of_nat (length (fk_block_states state))) 10) in
  wrapping_add 64 total (Z.of_nat (length (fk_ptx_instructions state))).

Definition estimate_resume_time (kernel_states : list FineGrainedKernelState) : Z := foldl kernel_time 0 kernel_states.

Definition fine_grained_file_name (checkpoint_id timestamp : Z) : string :=
  String.append "hetgpu_finegrained_"
    (String.append (dec checkpoint_id) (String.append "_" (String.append (dec timestamp) ".json"))).

Definition load_fine_grained_checkpoint (path : string) (w : world) : outcome CkptError FineGrainedCheckpointData :=
  content ← read_text path w;
  ok_or CkptParseFailed (parse_fine_grained content).
End Files.

(** ** The process *)

(** The statics, and the current kernel of each thread *)
Record ckpt : Type := mkCkpt {
  ck_counter : Z;
  ck_requested : bool;
  ck_handler_installed : bool;
  ck_next_execution : Z;
  ck_dir : option string;
  ck_manager : option CheckpointManager;
  ck_current : gmap Z KernelExecutionState;
  ck_loaded : option CheckpointData;
}.

Definition ckpt_start : ckpt := mkCkpt 0 false false 0 None None ∅ None.

Definition ck_set_counter (n : Z) (c : ckpt) : ckpt :=
  mkCkpt n (ck_requested c) (ck_handler_installed c) (ck_next_execution c) (ck_dir c) (ck_manager c) (ck_current c) (ck_loaded c).
Definition ck_set_requested (b : bool) (c : ckpt) : ckpt :=
  mkCkpt (ck_counter c) b (ck_handler_installed c) (ck_next_execution c) (ck_dir c) (ck_manager c) (ck_current c) (ck_loaded c).
Definition ck_set_handler (b : bool) (c : ckpt) : ckpt :=
  mkCkpt (ck_counter c) (ck_requested c) b (ck_next_execution c) (ck_dir c) (ck_manager c) (ck_current c) (ck_loaded c).
Definition ck_bump_execution (c : ckpt) : ckpt :=
  mkCkpt (ck_counter c) (ck_requested c) (ck_handler_installed c) (wrapping_add 64 (ck_next_execution c) 1) (ck_dir c)
    (ck_manager c) (ck_current c) (ck_loaded c).
Definition ck_set_dir (d : string) (c : ckpt) : ckpt :=
  mkCkpt (ck_counter c) (ck_requested c) (ck_handler_installed c) (ck_next_execution c) (Some d) (ck_manager c) (ck_current c)
    (ck_loaded c).
Definition ck_set_manager (m : CheckpointManager) (c : ckpt) : ckpt :=
  mkCkpt (ck_counter c) (ck_requested c) (ck_handler_installed c) (ck_next_execution c) (ck_dir c) (Some m) (ck_current c)
    (ck_loaded c).
Definition ck_set_current (k : gmap Z KernelExecutionState) (c : ckpt) : ckpt :=
  mkCkpt (ck_counter c) (ck_requested c) (ck_handler_installed c) (ck_next_execution c) (ck_dir c) (ck_manager c) k (ck_loaded c).
Definition ck_set_loaded (d : CheckpointData) (c : ckpt) : ckpt :=
  mkCkpt (ck_counter c) (ck_requested c) (ck_handler_installed c) (ck_next_execution c) (ck_dir c) (ck_manager c) (ck_current c)
    (Some d).

Definition ckpt_state : Type := ckpt * world.

Section Process.
Context `{MapOrder} `{CheckpointJson} (f : features) (env : environment).

(** [OnceLock::get_or_init] *)
Definition get_checkpoint_dir (c : ckpt) : string * ckpt :=
  match ck_dir c with
  | Some dir => (dir, c)
  | None =>
      let dir := default "/tmp/hetgpu_checkpoints"%string (env "HETGPU_CHECKPOINT_DIR"%string) in
      (dir, ck_set_dir dir c)
  end.

Definition get_checkpoint_manager (s : ckpt_state) : CheckpointManager * ckpt_state :=
  let '(c, w) := s in
  match ck_manager c with
  | Some m => (m, s)
  | None =>
      let '(dir, c) := get_checkpoint_dir c in
      let '(w, m) := checkpoint_manager_new dir w in
      (m, (ck_set_manager m c, w))
  end.

Definition update_manager (g : CheckpointManager -> CheckpointManager) (s : ckpt_state) : ckpt_state :=
  let '(m, (c, w)) := get_checkpoint_manager s in (ck_set_manager (g m) c, w).

(** [OnceLock::set] keeps the first value. *)
Definition set_checkpoint_dir (dir : string) (s : ckpt_state) : ckpt_state :=
  let '(c, w) := s in
  (match ck_dir c with Some _ => c | None => ck_set_dir dir c end, fst (create_dir_all dir w)).

Definition save_fine_grained_checkpoint (m : CheckpointManager) (granularity : CheckpointGranularity)
    (kernel_states : list FineGrainedKernelState) (timestamp : Z) : stm ckpt_state CkptError string := fun '(c, w) =>
  let checkpoint_id := ck_counter c in
  let c := ck_set_counter (wrapping_add 64 checkpoint_id 1) c in
  let filepath := path_join (cm_checkpoint_dir m) (fine_grained_file_name checkpoint_id timestamp) in
  let metadata := mkCheckpointMetadata checkpoint_id None false (detect_backend f) (8, 6)
                    (estimate_resume_time kernel_states) in
  let '(w, r) :=
    (json ← stm_lift (ok_or CkptSerialization
              (fine_grained_text (mkFineGrainedData 2 timestamp granularity kernel_states (cm_ptx_cache m) metadata)));
     fs_write filepath json;;
     mret filepath) w in
  ((c, w), r).

(** ** Requests *)
Definition sigint_handler (c : ckpt) : ckpt := ck_set_requested true c.

(** [sigaction_result] is what the system call returns. *)
Definition install_signal_handler (sigaction_result : Z) (c : ckpt) : ckpt * bool :=
  if ck_handler_installed c then (c, true)
  else
    let c := ck_set_handler true c in
    if sigaction_result =? 0 then (c, true) else (ck_set_handler false c, false).

Definition is_checkpoint_requested (c : ckpt) : bool := ck_requested c.
Definition clear_checkpoint_request (c : ckpt) : ckpt := ck_set_requested false c.
Definition request_checkpoint (c : ckpt) : ckpt := ck_set_requested true c.

(** The manager saves; whether a file was written *)
Definition save_now (timestamp : Z) (s : ckpt_state) : ckpt_state * bool :=
  let '(m, (c, w)) := get_checkpoint_manager s in
  let '(w, r) := save_checkpoint m timestamp w in
  ((c, w), is_ok r).

Definition process_pending_checkpoint (timestamp : Z) (s : ckpt_state) : ckpt_state * bool :=
  let '(c, w) := s in
  if negb (is_checkpoint_requested c) then (s, false)
  else save_now timestamp (clear_checkpoint_request c, w).

Definition check_checkpoint_at_launch (timestamp : Z) (s : ckpt_state) : ckpt_state * bool :=
  let '(c, w) := s in
  if is_checkpoint_requested c then
    let '(s, _) := save_now timestamp (clear_checkpoint_request c, w) in
    (s, bool_decide (env "HETGPU_CHECKPOINT_PAUSE"%string = Some "1"%string))
  else (s, false).

Definition hetgpu_request_checkpoint (timestamp : Z) (s : ckpt_state) : ckpt_state := fst (save_now timestamp s).

(** ** Kernel executions *)
Definition next_execution_id (c : ckpt) : Z * ckpt := (ck_next_execution c, ck_bump_execution c).

(** What a launch is begun with *)
Record Launch : Type := mkLaunch {
  ln_kernel_name : string;
  ln_grid_dim : dim;
  ln_block_dim : dim;
  ln_shared_mem_bytes : Z;
  ln_stream : Z;
  ln_module_handle : Z;
  ln_function_handle : Z;
}.

Definition execution_of (l : Launch) (execution_id start_time : Z) (ptx_source : option string) : KernelExecutionState :=
  mkKernelExecution execution_id (ln_kernel_name l) ptx_source (ln_grid_dim l) (ln_block_dim l) (ln_shared_mem_bytes l) []
    (ln_stream l) start_time (ln_module_handle l) (ln_function_handle l).

Definition begin_kernel_execution (thread : Z) (l : Launch) (start_time : Z) (s : ckpt_state) : ckpt_state * Z :=
  let '(c, w) := s in
  let '(execution_id, c) := next_execution_id c in
  let '(m, (c, w)) := get_checkpoint_manager (c, w) in
  let state := execution_of l execution_id start_time (get_ptx_source m (ln_module_handle l)) in
  let c := ck_set_current (<[thread := state]> (ck_current c)) c in
  (update_manager (register_kernel state) (c, w), execution_id).

Definition add_argument (arg_addr arg_size : Z) (k : KernelExecutionState) : KernelExecutionState :=
  mkKernelExecution (ke_execution_id k) (ke_kernel_name k) (ke_ptx_source k) (ke_grid_dim k) (ke_block_dim k)
    (ke_shared_mem_bytes k) (ke_kernel_args k ++ [(arg_addr, arg_size)]) (ke_stream k) (ke_start_time k)
    (ke_module_handle k) (ke_function_handle k).

Definition add_kernel_argument (thread arg_addr arg_size : Z) (s : ckpt_state) : ckpt_state :=
  let '(c, w) := s in (ck_set_current (alter (add_argument arg_addr arg_size) thread (ck_current c)) c, w).

Definition end_kernel_execution (thread execution_id : Z) (s : ckpt_state) : ckpt_state :=
  let '(c, w) := s in
  update_manager (unregister_kernel execution_id) (ck_set_current (delete thread (ck_current c)) c, w).

Definition get_current_kernel_state (thread : Z) (c : ckpt) : option KernelExecutionState := ck_current c !! thread.

Definition register_module_ptx (module_handle : Z) (ptx_source : string) : ckpt_state -> ckpt_state :=
  update_manager (register_ptx_source module_handle ptx_source).

Definition prepare_resume (checkpoint_path : string) (w : world) : outcome CkptError CheckpointData :=
  load_checkpoint checkpoint_path w.
End Process.
