(* ===== verification/CheckpointSpec.v ===== *)
(** * What checkpoints hold

    The calls of a process, as a sequence, against an abstract record of the
    kernels that run; the file of a pending checkpoint and its loading. *)
From stdpp Require Import base numbers list strings gmap.
From Stdlib Require Import ZArith Lia.
From S2P Require Import Prelude HostIO Delta Aof RustStr Runtime Replay CubinParser Checkpoint.

Open Scope Z_scope.

(** ** Calls *)
Inductive ckpt_call : Type :=
| CallBegin (thread : Z) (l : Launch) (start_time : Z)
| CallArgument (thread arg_addr arg_size : Z)
| CallEnd (thread execution_id : Z)
| CallSignal
| CallRequest
| CallSafePoint (timestamp : Z)
| CallLaunchPoint (timestamp : Z)
| CallModule (module_handle : Z) (ptx_source : string)
| CallSetDir (dir : string).

Section Calls.
Context `{MapOrder} `{CheckpointJson} (env : environment).

Definition ckpt_do (s : ckpt_state) (c : ckpt_call) : ckpt_state :=
  match c with
  | CallBegin thread l t => fst (begin_kernel_execution env thread l t s)
  | CallArgument thread a n => add_kernel_argument thread a n s
  | CallEnd thread id => end_kernel_execution env thread id s
  | CallSignal => (sigint_handler (fst s), snd s)
  | CallRequest => (request_checkpoint (fst s), snd s)
  | CallSafePoint t => fst (process_pending_checkpoint env t s)
  | CallLaunchPoint t => fst (check_checkpoint_at_launch env t s)
  | CallModule h ptx => register_module_ptx env h ptx s
  | CallSetDir dir => set_checkpoint_dir dir s
  end.

(** ** What runs *)
Record running : Type := mkRunning {
  rn_next : Z;
  rn_active : gmap Z KernelExecutionState;
  rn_ptx : gmap Z string;
  rn_requested : bool;
}.

Definition nothing_runs : running := mkRunning 0 ∅ ∅ false.

(** A kernel runs, without arguments, from its begin to the end of its id; a
    request stands until the next safe point or launch. *)
Definition running_do (r : running) (c : ckpt_call) : running :=
  match c with
  | CallBegin _ l t =>
      mkRunning (wrapping_add 64 (rn_next r) 1)
        (<[rn_next r := execution_of l (rn_next r) t (rn_ptx r !! ln_module_handle l)]> (rn_active r))
        (rn_ptx r) (rn_requested r)
  | CallEnd _ id => mkRunning (rn_next r) (delete id (rn_active r)) (rn_ptx r) (rn_requested r)
  | CallModule h ptx => mkRunning (rn_next r) (rn_active r) (<[h := ptx]> (rn_ptx r)) (rn_requested r)
  | CallSignal | CallRequest => mkRunning (rn_next r) (rn_active r) (rn_ptx r) true
  | CallSafePoint _ | CallLaunchPoint _ => mkRunning (rn_next r) (rn_active r) (rn_ptx r) false
  | CallArgument _ _ _ | CallSetDir _ => r
  end.

(** The manager's kernels and sources, empty before it exists *)
Definition active_of (c : ckpt) : gmap Z KernelExecutionState := from_option cm_active_kernels ∅ (ck_manager c).
Definition ptx_of (c : ckpt) : gmap Z string := from_option cm_ptx_cache ∅ (ck_manager c).

Record tracks (r : running) (s : ckpt_state) : Prop := mkTracks {
  tk_next : ck_next_execution (fst s) = rn_next r;
  tk_active : active_of (fst s) = rn_active r;
  tk_ptx : ptx_of (fst s) = rn_ptx r;
  tk_requested : ck_requested (fst s) = rn_requested r;
}.

Lemma tracks_manager r s : tracks r s ->
  let '(m, s') := get_checkpoint_manager env s in
  tracks r s' /\ ck_manager (fst s') = Some m /\ cm_active_kernels m = rn_active r /\ cm_ptx_cache m = rn_ptx r /\
  snd s' = snd s.
Proof.
  destruct s as [c w]. intros [Hn Ha Hp Hr]. unfold get_checkpoint_manager, active_of, ptx_of in *. cbn [fst snd] in *.
  destruct (ck_manager c) as [m|] eqn:Hm.
  - split_and!; try done. split; cbn [fst]; unfold active_of, ptx_of; rewrite ?Hm; done.
  - unfold get_checkpoint_dir, checkpoint_manager_new, create_dir_all. cbn in Ha, Hp.
    destruct (ck_dir c); case_decide; cbn; split_and!; try done; split; cbn; done.
Qed.

Lemma tracks_update r r' s g : tracks r s ->
  (forall m, cm_active_kernels m = rn_active r -> cm_ptx_cache m = rn_ptx r ->
     cm_active_kernels (g m) = rn_active r' /\ cm_ptx_cache (g m) = rn_ptx r') ->
  rn_next r' = rn_next r -> rn_requested r' = rn_requested r -> tracks r' (update_manager env g s).
Proof.
  intros Ht Hg Hn Hq. unfold update_manager. pose proof (tracks_manager r s Ht) as Hm.
  destruct (get_checkpoint_manager env s) as [m [c w]]. destruct Hm as ([Hn1 Ha1 Hp1 Hr1] & Hc & Ha & Hp & _).
  destruct (Hg m Ha Hp) as [Hga Hgp].
  split; unfold active_of, ptx_of in *; cbn in *; congruence.
Qed.

Lemma tracks_save r s t : tracks r s -> tracks r (fst (save_now env t s)).
Proof.
  intros Ht. unfold save_now. pose proof (tracks_manager r s Ht) as Hm.
  destruct (get_checkpoint_manager env s) as [m [c w]]. destruct Hm as ([Hn Ha Hp Hr] & _).
  destruct (save_checkpoint m t w) as [w' o]. by split.
Qed.

Lemma tracks_step r s c : tracks r s -> tracks (running_do r c) (ckpt_do s c).
Proof.
  intros Ht. pose proof Ht as [Hn Ha Hp Hr]. destruct s as [k w]. destruct c; cbn [running_do ckpt_do].
  - unfold begin_kernel_execution, next_execution_id. cbn in Hn. rewrite Hn.
    assert (tracks (mkRunning (wrapping_add 64 (rn_next r) 1) (rn_active r) (rn_ptx r) (rn_requested r)) (ck_bump_execution k, w))
      as Ht1 by (split; unfold active_of, ptx_of in *; cbn in *; congruence).
    pose proof (tracks_manager _ _ Ht1) as Hm. destruct (get_checkpoint_manager env _) as [m [k1 w1]].
    destruct Hm as ([Hn1 Ha1 Hp1 Hr1] & Hk & Ham & Hpm & _). cbn [fst].
    eapply tracks_update with (r := mkRunning (wrapping_add 64 (rn_next r) 1) (rn_active r) (rn_ptx r) (rn_requested r));
      [by split| |done|done].
    intros m' Ha' Hp'. unfold register_kernel, get_ptx_source. cbn in *. by rewrite Ha', Hp', Hpm.
  - by split.
  - eapply tracks_update with (r := r); [by split| |done|done]. intros m Hma Hmp. cbn. by rewrite Hma, Hmp.
  - by split.
  - by split.
  - unfold process_pending_checkpoint, is_checkpoint_requested. destruct (negb (ck_requested k)) eqn:Hq.
    + apply negb_true_iff in Hq. split; cbn in *; done.
    + apply tracks_save. by split.
  - unfold check_checkpoint_at_launch, is_checkpoint_requested. destruct (ck_requested k) eqn:Hq; [|by split].
    pose proof (tracks_save (mkRunning (rn_next r) (rn_active r) (rn_ptx r) false) (clear_checkpoint_request k, w) timestamp) as Hs.
    destruct (save_now env timestamp _) as [s' b]. cbn in *. apply Hs. by split.
  - eapply tracks_update with (r := r); [by split| |done|done]. intros m Hma Hmp. cbn. by rewrite Hma, Hmp.
  - unfold set_checkpoint_dir. destruct (ck_dir k); by split.
Qed.

Lemma tracks_calls calls : forall r s, tracks r s -> tracks (foldl running_do r calls) (foldl ckpt_do s calls).
Proof. induction calls as [|c calls IH]; intros r s Ht; [done|]. apply IH. by apply tracks_step. Qed.

Lemma tracks_start w : tracks nothing_runs (ckpt_start, w).
Proof. by split. Qed.

(** Kernels have no arguments. *)
Lemma running_no_args calls : forall r, map_Forall (fun _ k => ke_kernel_args k = []) (rn_active r) ->
  map_Forall (fun _ k => ke_kernel_args k = []) (rn_active (foldl running_do r calls)).
Proof.
  induction calls as [|c calls IH]; intros r Hr; [done|]. apply IH. destruct c; cbn; try done.
  - by apply map_Forall_insert_2.
  - by apply map_Forall_delete.
Qed.

(** ** Files *)
Lemma fs_write_Ok path data w : path ∉ denied w -> write_faults w = [] ->
  exists w', fs_write path data w = (w', Ok tt) /\ files w' !! path = Some data /\ denied w' = denied w /\
    read_fault w' = read_fault w.
Proof.
  intros Hd Hf. unfold fs_write, open_truncate, stm_map_err, mbind, stm_bind. rewrite decide_False by done.
  unfold write_all. rewrite file_bytes_set_file. cbn [write_faults set_file]. rewrite Hf.
  destruct data as [|b data]; eexists; (split; [done|]); cbn; by rewrite lookup_insert_eq.
Qed.

Lemma read_text_Ok path w bytes : files w !! path = Some bytes -> path ∉ denied w -> read_fault w = None ->
  read_text path w = ok_or CkptReadFailed (from_utf8 bytes).
Proof.
  intros Hf Hd Hr. unfold read_text, open_read. rewrite decide_False, Hf by done. cbn. unfold read_to_end. cbn.
  rewrite Hr. cbn. done.
Qed.

Lemma save_checkpoint_Ok m t w bytes : let path := path_join (cm_checkpoint_dir m) (checkpoint_file_name t) in
  let d := checkpoint_data_of m t None 0 [] in
  path ∉ denied w -> write_faults w = [] -> read_fault w = None -> checkpoint_text d = Some bytes ->
  from_utf8 bytes ≫= parse_checkpoint = Some d ->
  exists w', save_checkpoint m t w = (w', Ok path) /\ load_checkpoint path w' = Ok d.
Proof.
  intros path d Hd Hf Hr Ht Hp. destruct (fs_write_Ok path bytes w Hd Hf) as (w' & Hw & Hfile & Hd' & Hr').
  exists w'. split.
  - unfold save_checkpoint, save_checkpoint_with_execution_state. fold d. rewrite Ht. cbn [ok_or].
    unfold stm_lift, mbind, stm_bind. fold path. by rewrite Hw.
  - unfold load_checkpoint. rewrite (read_text_Ok path w' bytes) by congruence.
    destruct (from_utf8 bytes) as [text|]; [|done]. cbn in Hp |- *. by rewrite Hp.
Qed.

End Calls.

#[export] Instance listed_order : MapOrder := {|
  iter_u64 A m := map_to_list m;
  iter_str A m := map_to_list m;
  iter_u64_perm A m := Permutation_refl _;
  iter_str_perm A m := Permutation_refl _;
|}.

(** ** A sample run *)
Definition sample_launch (name : string) : Launch := mkLaunch name (2, 1, 1) (32, 1, 1) 0 0 7 9.

Definition sample_ckpt_calls : list ckpt_call :=
  [CallModule 7 ".entry a"; CallBegin 1 (sample_launch "a") 100; CallArgument 1 4096 8;
   CallBegin 2 (sample_launch "b") 101; CallEnd 2 1; CallSignal].

Definition sample_ckpt_data : CheckpointData :=
  mkCheckpointData 1 200 [execution_of (sample_launch "a") 0 100 (Some ".entry a"%string)] {[ 7 := ".entry a"%string ]} None 0 [].

Definition sample_ckpt_json : CheckpointJson := {|
  checkpoint_text _ := Some [123; 125]; parse_checkpoint _ := Some sample_ckpt_data;
  fine_grained_text _ := None; parse_fine_grained _ := None; restore_state_text _ := None; parse_restore_state _ := None;
|}.

Definition no_env : environment := fun _ => None.


(** ** What is lost *)

(** A save that fails at a safe point drops the request. *)
Lemma failed_save_drops_request :
  let w := mkWorld ∅ ∅ [Some 0%nat] None in
  let s := foldl (@ckpt_do listed_order sample_ckpt_json no_env) (ckpt_start, w) sample_ckpt_calls in
  let '(s', saved) := @process_pending_checkpoint listed_order sample_ckpt_json no_env 200 s in
  is_checkpoint_requested (fst s) = true /\ saved = false /\ is_checkpoint_requested (fst s') = false.
Proof. vm_compute. done. Qed.

(** Checkpoints of the same second have one file: the second replaces the first. *)
Lemma same_second_same_file `{MapOrder} `{CheckpointJson} m1 m2 t w w1 w2 p1 p2 :
  cm_checkpoint_dir m1 = cm_checkpoint_dir m2 ->
  save_checkpoint m1 t w = (w1, Ok p1) -> save_checkpoint m2 t w1 = (w2, Ok p2) -> p1 = p2.
Proof.
  intros Hd H1 H2. unfold save_checkpoint, save_checkpoint_with_execution_state in *.
  apply stm_bind_Ok_inv in H1 as (? & ? & _ & H1). apply stm_bind_Ok_inv in H1 as (? & ? & _ & [= _ <-]).
  apply stm_bind_Ok_inv in H2 as (? & ? & _ & H2). apply stm_bind_Ok_inv in H2 as (? & ? & _ & [= _ <-]). by rewrite Hd.
Qed.
