(* ===== verification/CheckpointThreads.v ===== *)
(** * Initial thread, warp and block states of a checkpoint
    ([zluda/src/impl/checkpoint.rs] 582-700)

    Products and sums of [u32] wrap. *)
From stdpp Require Import base numbers list strings gmap.
From Stdlib Require Import ZArith Lia.
From S2P Require Import Prelude HostIO Delta Aof RustStr Runtime Replay CubinParser Checkpoint.

Open Scope Z_scope.

(** [lane_id] is taken from the x coordinate. *)
Definition special_registers (thread_id block_dim block_id grid_dim : dim) : gmap string Z :=
  foldl (fun regs '(name, value) => <[name := value]> regs) ∅
    [("tid.x", dim_x thread_id); ("tid.y", dim_y thread_id); ("tid.z", dim_z thread_id);
     ("ntid.x", dim_x block_dim); ("ntid.y", dim_y block_dim); ("ntid.z", dim_z block_dim);
     ("ctaid.x", dim_x block_id); ("ctaid.y", dim_y block_id); ("ctaid.z", dim_z block_id);
     ("nctaid.x", dim_x grid_dim); ("nctaid.y", dim_y grid_dim); ("nctaid.z", dim_z grid_dim);
     ("WARP_SZ", 32); ("laneid", dim_x thread_id mod 32)]%string.

Definition create_initial_thread_state (thread_id block_dim block_id grid_dim : dim) : ThreadRegisterState :=
  mkThreadRegisters thread_id ∅ ∅ ∅ ∅ ∅ (special_registers thread_id block_dim block_id grid_dim) 0 true.

Definition threads_of (block_dim : dim) : Z :=
  wrapping_mul 32 (wrapping_mul 32 (dim_x block_dim) (dim_y block_dim)) (dim_z block_dim).

(** The position of a thread by its linear number *)
Definition tid_of (block_dim : dim) (linear_tid : Z) : dim :=
  (linear_tid mod dim_x block_dim, linear_tid / dim_x block_dim mod dim_y block_dim,
   linear_tid / wrapping_mul 32 (dim_x block_dim) (dim_y block_dim)).

Definition warp_active_mask (threads_per_block warp_start : Z) : Z :=
  if wrapping_add 32 warp_start 32 <=? threads_per_block then 0xFFFFFFFF
  else if warp_start <? threads_per_block then wrap 32 (shl 1 (threads_per_block - warp_start) - 1)
  else 0.

Definition create_initial_warp_state (warp_id : Z) (block_dim block_id grid_dim : dim) : WarpState :=
  let threads_per_block := threads_of block_dim in
  let warp_start := wrapping_mul 32 warp_id 32 in
  let thread_states :=
    omap (fun lane =>
            let linear_tid := wrapping_add 32 warp_start lane in
            if linear_tid <? threads_per_block
            then Some (create_initial_thread_state (tid_of block_dim linear_tid) block_dim block_id grid_dim)
            else None) (seqZ 0 32) in
  mkWarpState warp_id thread_states 0 (warp_active_mask threads_per_block warp_start) [] 0.

(** The shared memory is allocated, which panics past [isize::MAX] bytes. *)
Definition create_initial_block_state (block_id block_dim grid_dim : dim) (shared_mem_size : Z)
    : outcome CkptError BlockState :=
  let warps_per_block := wrapping_add 32 (threads_of block_dim) 31 / 32 in
  let warp_states := (fun warp_id => create_initial_warp_state warp_id block_dim block_id grid_dim) <$> seqZ 0 warps_per_block in
  if isize_max <? shared_mem_size then Panic
  else Ok (mkBlockState block_id warp_states (repeat 0 (Z.to_nat shared_mem_size)) shared_mem_size 0 BlockRunning).

(** ** Every thread of a block once *)
Definition dim_ok (d : dim) : Prop :=
  0 < dim_x d /\ 0 < dim_y d /\ 0 < dim_z d /\ dim_x d * dim_y d * dim_z d <= 2 ^ 32 - 32.

Definition in_dim (p d : dim) : Prop :=
  0 <= dim_x p < dim_x d /\ 0 <= dim_y p < dim_y d /\ 0 <= dim_z p < dim_z d.

Definition volume (d : dim) : Z := dim_x d * dim_y d * dim_z d.

Lemma threads_volume d : dim_ok d -> threads_of d = volume d /\ wrapping_mul 32 (dim_x d) (dim_y d) = dim_x d * dim_y d.
Proof.
  intros (Hx & Hy & Hz & Hv). unfold threads_of, volume, wrapping_mul in *.
  assert (dim_x d * dim_y d <= dim_x d * dim_y d * dim_z d) by nia.
  assert (0 < dim_x d * dim_y d) by nia. rewrite (wrap_small 32 (dim_x d * dim_y d)) by lia. rewrite wrap_small by nia. done.
Qed.

(** The linear number of a position *)
Definition linear (d p : dim) : Z := dim_x p + dim_x d * (dim_y p + dim_y d * dim_z p).

Lemma tid_linear d p : dim_ok d -> in_dim p d -> tid_of d (linear d p) = p /\ 0 <= linear d p < volume d.
Proof.
  intros Hd (Hx & Hy & Hz). destruct (threads_volume d Hd) as [_ Hxy]. destruct Hd as (Dx & Dy & Dz & _).
  unfold tid_of, linear, volume. rewrite Hxy. destruct p as [[px py] pz]. unfold dim_x, dim_y, dim_z in *. cbn in *.
  destruct d as [[dx dy] dz]. cbn in *.
  assert ((px + dx * (py + dy * pz)) / dx = py + dy * pz) as Hq
    by (rewrite Z.mul_comm, Z.div_add, Z.div_small by lia; lia).
  assert (0 <= py + dy * pz <= dy * dz - 1) as Hb by nia.
  assert (dx * (py + dy * pz) <= dx * (dy * dz - 1)) by (apply Z.mul_le_mono_nonneg_l; lia).
  split; [|rewrite <- Z.mul_assoc; nia]. f_equal; [f_equal|].
  - rewrite Z.mul_comm, Z.mod_add, Z.mod_small by lia. done.
  - rewrite Hq, Z.mul_comm, Z.mod_add, Z.mod_small by lia. done.
  - rewrite <- Z.div_div, Hq by lia. rewrite Z.mul_comm, Z.div_add, Z.div_small by lia. done.
Qed.

Lemma linear_tid d t : dim_ok d -> 0 <= t < volume d -> linear d (tid_of d t) = t /\ in_dim (tid_of d t) d.
Proof.
  intros Hd Ht. destruct (threads_volume d Hd) as [_ Hxy]. destruct Hd as (Dx & Dy & Dz & _).
  unfold tid_of, linear, in_dim, volume in *. rewrite Hxy. destruct d as [[dx dy] dz]. unfold dim_x, dim_y, dim_z in *. cbn in *.
  rewrite <- Z.div_div by lia. pose proof (Z.div_mod t dx ltac:(lia)). pose proof (Z.div_mod (t / dx) dy ltac:(lia)).
  pose proof (Z.mod_pos_bound t dx ltac:(lia)). pose proof (Z.mod_pos_bound (t / dx) dy ltac:(lia)).
  assert (0 <= t / dx) by (apply Z.div_pos; lia).
  split; [nia|]. split_and!; try lia; [apply Z.div_pos; lia|]. apply Z.div_lt_upper_bound; [lia|].
  apply Z.div_lt_upper_bound; lia.
Qed.

Lemma seqZ_one k : seqZ k 1 = [k].
Proof. done. Qed.

Lemma omap_below {A} (g : Z -> A) n : forall k base, 0 <= k ->
  omap (fun lane => if base + lane <? n then Some (g (base + lane)) else None) (seqZ 0 k) =
  g <$> seqZ base (Z.min k (Z.max 0 (n - base))).
Proof.
  intros k base Hk. pattern k. apply natlike_ind; [| |done]; clear k Hk.
  - rewrite Z.min_l by lia. done.
  - intros k Hk IH. unfold Z.succ. rewrite seqZ_app by lia. rewrite omap_app, IH, seqZ_one, Z.add_0_l. cbn [omap list_omap].
    destruct (Z.ltb_spec (base + k) n).
    + rewrite !Z.min_l by lia. rewrite seqZ_app by lia. by rewrite fmap_app.
    + rewrite app_nil_r. f_equal. f_equal. lia.
Qed.

Lemma concat_chunks n : 0 <= n -> forall k, 0 <= k -> 32 * k < n + 32 ->
  concat ((fun w => seqZ (32 * w) (Z.min 32 (Z.max 0 (n - 32 * w)))) <$> seqZ 0 k) = seqZ 0 (Z.min n (32 * k)).
Proof.
  intros Hn k Hk. pattern k. apply natlike_ind; [| |done]; clear k Hk.
  - intros _. by rewrite Z.mul_0_r, Z.min_r by lia.
  - intros k Hk IH Hb. unfold Z.succ in *. rewrite seqZ_app by lia. rewrite fmap_app, concat_app, IH by lia.
    rewrite seqZ_one, Z.add_0_l. cbn [fmap list_fmap concat]. rewrite app_nil_r.
    replace (Z.min n (32 * k)) with (32 * k) by lia.
    replace (Z.min n (32 * (k + 1))) with (32 * k + Z.min 32 (Z.max 0 (n - 32 * k))) by lia.
    rewrite (seqZ_app 0) by lia. done.
Qed.

Lemma warp_threads d b g w : dim_ok d -> 0 <= w -> 32 * w < volume d ->
  tr_thread_id <$> wp_thread_states (create_initial_warp_state w d b g) =
  tid_of d <$> seqZ (32 * w) (Z.min 32 (Z.max 0 (volume d - 32 * w))).
Proof.
  intros Hd Hw Hv. destruct (threads_volume d Hd) as [Hn _]. pose proof Hd as (_ & _ & _ & Hb). fold (volume d) in Hb.
  unfold create_initial_warp_state. cbn [wp_thread_states]. rewrite Hn. unfold wrapping_mul, wrapping_add.
  rewrite (wrap_small 32 (w * 32)) by lia.
  rewrite <- (omap_below (tid_of d) (volume d) 32 (32 * w)) by lia.
  assert (Forall (fun lane => 0 <= lane < 32) (seqZ 0 32)) as Hall by (apply Forall_seqZ; lia).
  induction Hall as [|lane l Hl Hall IH]; [done|]. cbn [omap list_omap]. rewrite (Z.mul_comm w 32).
  rewrite (wrap_small 32 (32 * w + lane)) by lia. rewrite <- IH, (Z.mul_comm w 32).
  destruct (32 * w + lane <? volume d); done.
Qed.

(** The mask of a warp has one low bit for each of its threads. *)
Lemma warp_mask d b g w : dim_ok d -> 0 <= w -> 32 * w < volume d ->
  wp_active_mask (create_initial_warp_state w d b g) =
  2 ^ Z.of_nat (length (wp_thread_states (create_initial_warp_state w d b g))) - 1.
Proof.
  intros Hd Hw Hv. rewrite <- (length_fmap tr_thread_id), warp_threads, length_fmap, length_seqZ, Z2Nat.id by (done || lia).
  destruct (threads_volume d Hd) as [Hn _]. pose proof Hd as (_ & _ & _ & Hb). fold (volume d) in Hb.
  unfold create_initial_warp_state. cbn [wp_active_mask]. rewrite Hn. unfold warp_active_mask, wrapping_add, wrapping_mul.
  rewrite (wrap_small 32 (w * 32)) by lia. rewrite (wrap_small 32 (w * 32 + 32)) by lia.
  destruct (Z.leb_spec (w * 32 + 32) (volume d)) as [Hfull|Hpart].
  - by rewrite Z.min_l by lia.
  - rewrite (proj2 (Z.ltb_lt _ _)) by lia. rewrite Z.min_r, Z.max_r by lia. replace (w * 32) with (32 * w) by lia.
    set (k := volume d - 32 * w). assert (0 < k < 32) by lia. unfold shl. rewrite Z.shiftl_1_l.
    assert (2 ^ k < 2 ^ 32) by (apply Z.pow_lt_mono_r; lia). assert (0 < 2 ^ k) by (apply Z.pow_pos_nonneg; lia).
    rewrite (wrap_small 64) by lia. apply wrap_small. lia.
Qed.

Lemma concat_fmap_fmap {A B C} (h : B -> C) (g : A -> list B) l :
  concat ((fun a => h <$> g a) <$> l) = h <$> concat (g <$> l).
Proof. induction l as [|a l IH]; [done|]. cbn [fmap list_fmap concat]. by rewrite fmap_app, <- IH. Qed.

Definition block_threads (blk : BlockState) : list dim :=
  concat ((fun w => tr_thread_id <$> wp_thread_states w) <$> bk_warp_states blk).

(** [C38] The initial state of a block has every thread of the block exactly once,
    in the order of the linear thread number.  It has one warp for each 32 threads
    or part of 32; warp number [w] has that id and holds threads [32 w] to
    [32 w + 31], the last one what is left; and the mask of each warp has one low
    bit for each of its threads.  (Block sides are at least 1 and the block has
    room for one more warp below 2^32 threads, [dim_ok].) *)
Theorem block_covers_threads d b g shared blk :
  dim_ok d -> create_initial_block_state b d g shared = Ok blk ->
  block_threads blk = tid_of d <$> seqZ 0 (volume d) /\ NoDup (block_threads blk) /\
  (forall p, p ∈ block_threads blk <-> in_dim p d) /\
  Z.of_nat (length (bk_warp_states blk)) = (volume d + 31) / 32 /\
  (forall w warp, bk_warp_states blk !! w = Some warp ->
     wp_warp_id warp = Z.of_nat w /\
     tr_thread_id <$> wp_thread_states warp =
       tid_of d <$> seqZ (32 * Z.of_nat w) (Z.min 32 (volume d - 32 * Z.of_nat w))) /\
  Forall (fun w => wp_active_mask w = 2 ^ Z.of_nat (length (wp_thread_states w)) - 1) (bk_warp_states blk).
Proof.
  intros Hd Hrun. unfold create_initial_block_state in Hrun. destruct (isize_max <? shared); [done|]. injection Hrun as <-.
  destruct (threads_volume d Hd) as [Hn _]. pose proof Hd as (Hx & Hy & Hz & Hb). fold (volume d) in Hb.
  assert (0 < volume d) as Hpos by (unfold volume; nia).
  unfold block_threads. cbn [bk_warp_states]. rewrite Hn. unfold wrapping_add. rewrite wrap_small by lia.
  set (k := (volume d + 31) / 32). pose proof (Z.div_mod (volume d + 31) 32 ltac:(lia)) as Hdm. fold k in Hdm.
  pose proof (Z.mod_pos_bound (volume d + 31) 32 ltac:(lia)) as Hmb.
  assert (forall w, w ∈ seqZ 0 k -> 0 <= w /\ 32 * w < volume d) as Hin by (intros w Hw%elem_of_seqZ; lia).
  assert (concat ((fun w => tr_thread_id <$> wp_thread_states w) <$>
      ((fun warp_id => create_initial_warp_state warp_id d b g) <$> seqZ 0 k)) = tid_of d <$> seqZ 0 (volume d)) as Hids.
  { rewrite <- list_fmap_compose, <- (Z.min_l (volume d) (32 * k)), <- concat_chunks, <- concat_fmap_fmap by lia. f_equal.
    apply list_fmap_ext. intros i w Hw%list_elem_of_lookup_2. apply warp_threads; [done|apply Hin..]; done. }
  rewrite Hids. split; [done|]. split_and!.
  - apply NoDup_fmap_2_strong; [|apply NoDup_seqZ]. intros t1 t2 H1%elem_of_seqZ H2%elem_of_seqZ Heq.
    rewrite <- (proj1 (linear_tid d t1 Hd ltac:(lia))), <- (proj1 (linear_tid d t2 Hd ltac:(lia))). by rewrite Heq.
  - intros p. rewrite list_elem_of_fmap. split.
    + intros (t & -> & Ht%elem_of_seqZ). apply linear_tid; [done|lia].
    + intros Hp. destruct (tid_linear d p Hd Hp) as [Heq Hr]. exists (linear d p). split; [done|]. apply elem_of_seqZ. lia.
  - rewrite length_fmap, length_seqZ. lia.
  - intros w warp Hw. rewrite list_lookup_fmap in Hw. destruct (seqZ 0 k !! w) as [z|] eqn:Hkw; [|done].
    injection Hw as <-. destruct (Hin z (list_elem_of_lookup_2 _ _ _ Hkw)). apply lookup_seqZ in Hkw as [-> _].
    split; [done|]. rewrite warp_threads by (done || lia). by rewrite Z.max_r by lia.
  - apply Forall_fmap, Forall_forall. intros w Hw. apply warp_mask; [done|apply Hin..]; done.
Qed.

Definition sample_block : BlockState :=
  match create_initial_block_state (0, 0, 0) (7, 5, 2) (1, 1, 1) 16 with
  | Ok blk => blk
  | _ => mkBlockState (0, 0, 0) [] [] 0 0 BlockCompleted
  end.

Lemma sample_block_created : create_initial_block_state (0, 0, 0) (7, 5, 2) (1, 1, 1) 16 = Ok sample_block.
Proof. unfold sample_block, create_initial_block_state. replace (isize_max <? 16) with false by reflexivity. reflexivity. Qed.

Lemma block_covers_threads_witness :
  block_threads sample_block = (tid_of (7, 5, 2) <$> seqZ 0 (volume (7, 5, 2))) /\
  (wp_active_mask <$> bk_warp_states sample_block) = [0xFFFFFFFF; 0xFFFFFFFF; 63].
Proof.
  assert (dim_ok (7, 5, 2)) as Hd by (unfold dim_ok, dim_x, dim_y, dim_z; simpl; lia).
  split; [|lazy; reflexivity].
  exact (proj1 (block_covers_threads (7, 5, 2) (0, 0, 0) (1, 1, 1) 16 sample_block Hd sample_block_created)).
Defined.

(** The lane id is that of the x coordinate, not of the thread in its warp: in a
    block of 16 by 2 threads, threads 0 and 16 of the one warp have the same. *)
Lemma lane_ids_collide :
  let lane_id (i : nat) := t ← wp_thread_states (create_initial_warp_state 0 (16, 2, 1) (0, 0, 0) (1, 1, 1)) !! i;
                           tr_special_regs t !! "laneid"%string in
  lane_id 0%nat = Some 0 /\ lane_id 16%nat = Some 0.
Proof. split; vm_compute; reflexivity. Qed.
