(* ===== verification/CheckpointPtx.v ===== *)
(** * PTX text for migration ([zluda/src/impl/checkpoint.rs] 418-540, 703-1080)

    A line scanner numbers the instructions of PTX text; the instrumentation puts
    a label before each instruction and, before the first, code that restores the
    registers and jumps to the instruction of a saved thread.  The output is a
    list of [piece]s: lines of the source, labels and generated code. *)
From stdpp Require Import base numbers list strings gmap.
From Stdlib Require Import ZArith Lia Ascii.
From S2P Require Import Prelude HostIO Delta Aof RustStr Runtime Replay ReplayEngine CubinParser Checkpoint.

Open Scope Z_scope.

(** ** Instructions *)
Definition is_store_instruction (opcode : string) : bool := starts_with "st." opcode || starts_with "atom." opcode.

(** The destination and the sources among the words after the opcode *)
Definition instruction_operands (opcode : string) (words : list string) : option string * list string :=
  match words with
  | [] => (None, [])
  | _ =>
      let operands := trim <$> split_char "," (join " " words) in
      if is_store_instruction opcode then (None, operands)
      else match operands with
           | [] => (None, [])
           | dst :: srcs => (Some dst, srcs)
           end
  end.

Definition parse_single_instruction (line : string) (pc ptx_line : Z) : option PtxInstructionState :=
  let line := trim line in
  '(predicate, rest) ← (if starts_with "@" line
                        then '(p, rest) ← split_once_char (Ascii.eqb " ") line; Some (Some p, trim rest)
                        else Some (None, line));
  let rest := trim (trim_end_matches (Ascii.eqb ";") rest) in
  match split_whitespace rest with
  | [] => None
  | opcode :: words =>
      let '(dst, srcs) := instruction_operands opcode words in
      Some (mkPtxInstruction pc ptx_line opcode srcs dst predicate)
  end.

Definition opens_function (line : string) : bool := contains ".entry" line || contains ".func" line.

Record scan_state : Type := mkScanState {
  ss_pc : Z;
  ss_in_kernel : bool;
  ss_instructions : list PtxInstructionState;
}.

(** The lines that the scanner passes over inside a kernel *)
Definition skipped_line (line : string) : bool :=
  String.eqb line "{" || String.eqb line ")" || String.eqb line "(" || starts_with "." line || ends_with_char ":" line.

Definition scan_line (st : scan_state) (numbered : Z * string) : scan_state :=
  let '(line_num, line) := numbered in
  let line := trim line in
  if String.eqb line "" || starts_with "//" line then st
  else if opens_function line then mkScanState (ss_pc st) true (ss_instructions st)
  else if String.eqb line "}" then mkScanState (ss_pc st) false (ss_instructions st)
  else if skipped_line line then st
  else if negb (ss_in_kernel st) then st
  else match parse_single_instruction line (ss_pc st) (wrap 32 line_num) with
       | Some instr => mkScanState (wrapping_add 64 (ss_pc st) 1) (ss_in_kernel st) (ss_instructions st ++ [instr])
       | None => st
       end.

(** [lines().enumerate()] *)
Definition numbered_from (n : nat) (l : list string) : list (Z * string) := imap (fun i line => (Z.of_nat (n + i), line)) l.

Definition parse_ptx_instructions (ptx_source : string) : list PtxInstructionState :=
  ss_instructions (foldl scan_line (mkScanState 0 false []) (numbered_from 0 (lines ptx_source))).

Definition create_fine_grained_state (base : KernelExecutionState) (granularity : CheckpointGranularity)
    : FineGrainedKernelState :=
  let grid_dim := ke_grid_dim base in
  let total_blocks := wrapping_mul 64 (wrapping_mul 64 (dim_x grid_dim) (dim_y grid_dim)) (dim_z grid_dim) in
  let ptx_instructions := from_option parse_ptx_instructions [] (ke_ptx_source base) in
  mkFineGrainedKernel base granularity [] [] ptx_instructions 0 total_blocks 0 (Z.of_nat (length ptx_instructions)).

(** ** The restore dispatcher

    The register declarations that the callers collect are not used. *)
Section Dispatch.
Context `{MapOrder}.

Definition text (l : list string) : string := String.concat "" l.

Definition nl : string := String newline "".

Definition bit_of (b : bool) : string := if b then "1" else "0".

(** The code that sets one register; other names are left out. *)
Definition restore_register (reg : string * Z) : string :=
  let '(reg_name, value) := reg in
  if starts_with "%rd" reg_name then text ["    mov.u64 "; reg_name; ", "; dec value; ";"; nl]
  else if starts_with "%r" reg_name then text ["    mov.u32 "; reg_name; ", "; dec value; ";"; nl]
  else if starts_with "%fd" reg_name then text ["    mov.f64 "; reg_name; ", 0d"; hex_padded 16 value; ";"; nl]
  else if starts_with "%f" reg_name then text ["    mov.b32 "; reg_name; ", "; dec (wrap 32 value); ";"; nl]
  else if starts_with "%p" reg_name
  then text ["    setp.ne.u32 "; reg_name; ", "; bit_of (negb (value =? 0)); ", 0;"; nl]
  else "".

Definition restore_predicate (pred : string * bool) : string :=
  let '(pred_name, value) := pred in text ["    setp.ne.u32 "; pred_name; ", "; bit_of value; ", 0;"; nl].

Definition checkpoint_label (ip : Z) : string := String.append "__checkpoint_ip_" (dec ip).

Definition jump_entry (instr : PtxInstructionState) : string :=
  text ["    setp.eq.u64 %__restore_active, %__restore_ip, "; dec (pi_instruction_pc instr); ";"; nl;
        "    @%__restore_active bra "; checkpoint_label (pi_instruction_pc instr); ";"; nl].

Definition dispatcher_head : string :=
  text ["    // === Migration Restore Dispatcher ==="; nl; "    .reg .pred %__restore_active;"; nl;
        "    .reg .u64 %__restore_ip;"; nl; "    .reg .u64 %__restore_base;"; nl;
        "    // Check restore mode flag"; nl; "    mov.u64 %__restore_ip, 0;"; nl].

Definition generate_restore_dispatcher (instructions : list PtxInstructionState)
    (resume_state : option ThreadExecutionState) : string :=
  text ([dispatcher_head] ++
    match resume_state with
    | Some state =>
        ["    mov.u64 %__restore_ip, "; dec (te_instruction_offset state); ";"; nl;
         "    setp.ne.u64 %__restore_active, %__restore_ip, 0;"; nl;
         "    @%__restore_active bra __restore_dispatch;"; nl; "    bra __normal_start;"; nl; nl;
         "__restore_dispatch:"; nl; "    // Restore register state"; nl]%string ++
        (restore_register <$> iter_str (te_registers state)) ++
        (restore_predicate <$> iter_str (te_predicates state)) ++
        [nl; "    // Jump to correct instruction based on IP"; nl]%string ++ (jump_entry <$> instructions) ++
        ["    // Fallthrough to normal start if IP not found"; nl]%string
    | None =>
        ["    // Runtime restore check (via shared memory or parameter)"; nl;
         "    // For now, always start from beginning"; nl]%string
    end ++ [nl; "__normal_start:"; nl; "    // === Normal execution starts here ==="; nl; nl]%string).

(** ** Instrumented text *)
Inductive piece : Type :=
| PLine (line : string)
| PLabel (ip : Z)
| PCode (code : string).

Definition piece_text (p : piece) : string :=
  match p with
  | PLine line => String.append line nl
  | PLabel ip => text [checkpoint_label ip; ":"; nl]
  | PCode code => code
  end.

Record instr_state : Type := mkInstrState {
  is_header : bool;
  is_body : bool;
  is_wrote_dispatch : bool;
  is_past_decls : bool;
  is_ip : Z;
  is_output : list piece;
}.

Definition emit_pieces (l : list piece) (st : instr_state) : instr_state :=
  mkInstrState (is_header st) (is_body st) (is_wrote_dispatch st) (is_past_decls st) (is_ip st) (is_output st ++ l).

(** A line of the body that gets a label *)
Definition labelled_line (trimmed : string) : bool :=
  negb (String.eqb trimmed "") && negb (starts_with "." trimmed) && negb (starts_with "//" trimmed)
  && negb (ends_with_char ":" trimmed) && negb (String.eqb trimmed "}").

(** The end of the loop body: the closing brace, the label, the line *)
Definition instr_tail (line trimmed : string) (st : instr_state) : instr_state :=
  let st := if String.eqb trimmed "}" && is_body st
            then mkInstrState (is_header st) false (is_wrote_dispatch st) false (is_ip st) (is_output st) else st in
  let st := if is_body st && is_past_decls st && labelled_line trimmed
            then mkInstrState (is_header st) (is_body st) (is_wrote_dispatch st) (is_past_decls st)
                   (wrapping_add 64 (is_ip st) 1) (is_output st ++ [PLabel (is_ip st)])
            else st in
  emit_pieces [PLine line] st.

Definition instr_line (dispatcher : string) (st : instr_state) (line : string) : instr_state :=
  let trimmed := trim line in
  if opens_function trimmed
  then emit_pieces [PLine line] (mkInstrState true (is_body st) (is_wrote_dispatch st) (is_past_decls st) (is_ip st) (is_output st))
  else if is_header st && String.eqb trimmed "{"
  then emit_pieces [PLine line] (mkInstrState false true false false 0 (is_output st))
  else if is_header st then emit_pieces [PLine line] st
  else if is_body st && negb (is_past_decls st) && starts_with "." trimmed then emit_pieces [PLine line] st
  else if is_body st && negb (is_wrote_dispatch st) && negb (is_past_decls st) then
    if starts_with "." trimmed || String.eqb trimmed "" || starts_with "//" trimmed then emit_pieces [PLine line] st
    else instr_tail line trimmed
           (mkInstrState (is_header st) (is_body st) true true (is_ip st) (is_output st ++ [PCode dispatcher]))
  else instr_tail line trimmed st.

Definition instr_start : instr_state := mkInstrState false false false false 0 [].

Definition instrument_pieces (original_ptx : string) (resume_state : option ThreadExecutionState) : list piece :=
  let dispatcher := generate_restore_dispatcher (parse_ptx_instructions original_ptx) resume_state in
  is_output (foldl (instr_line dispatcher) instr_start (lines original_ptx)).

Definition instrument_ptx_for_migration (original_ptx : string) (resume_state : option ThreadExecutionState) : string :=
  if bool_decide (parse_ptx_instructions original_ptx = []) then original_ptx
  else text (piece_text <$> instrument_pieces original_ptx resume_state).

(** ** The whole transformation *)
Record trans_state : Type := mkTransState {
  ts_in_kernel : bool;
  ts_header_done : bool;
  ts_ip : Z;
  ts_output : list piece;
}.

(** The closing brace is not excluded: it has already ended the kernel. *)
Definition trans_labelled (trimmed : string) : bool :=
  negb (String.eqb trimmed "") && negb (starts_with "." trimmed) && negb (starts_with "//" trimmed)
  && negb (ends_with_char ":" trimmed).

Definition trans_line (dispatcher : string) (st : trans_state) (line : string) : trans_state :=
  let trimmed := trim line in
  if contains ".entry" trimmed
  then mkTransState true (ts_header_done st) (ts_ip st) (ts_output st ++ [PLine line])
  else if ts_in_kernel st && String.eqb trimmed "{" && negb (ts_header_done st)
  then mkTransState (ts_in_kernel st) true (ts_ip st) (ts_output st ++ [PLine line; PCode dispatcher])
  else
    let st := if String.eqb trimmed "}" && ts_in_kernel st then mkTransState false false (ts_ip st) (ts_output st) else st in
    let st := if ts_in_kernel st && ts_header_done st && trans_labelled trimmed
              then mkTransState (ts_in_kernel st) (ts_header_done st) (wrapping_add 64 (ts_ip st) 1)
                     (ts_output st ++ [PLabel (ts_ip st)])
              else st in
    mkTransState (ts_in_kernel st) (ts_header_done st) (ts_ip st) (ts_output st ++ [PLine line]).

Definition trans_start : trans_state := mkTransState false false 0 [].

Definition transform_pieces (original_ptx : string) (resume_state : option ThreadExecutionState) : list piece :=
  let dispatcher := generate_restore_dispatcher (parse_ptx_instructions original_ptx) resume_state in
  ts_output (foldl (trans_line dispatcher) trans_start (lines original_ptx)).

(** The name of a buffer parameter is not used. *)
Definition transform_ptx_for_heterogeneous_migration (original_ptx : string) (resume_state : option ThreadExecutionState)
    (checkpoint_buffer_param : option string) : outcome CkptError string :=
  if bool_decide (parse_ptx_instructions original_ptx = []) then Ok original_ptx
  else Ok (text (piece_text <$> transform_pieces original_ptx resume_state)).

Definition resume_thread (resume_ip : Z) (registers : gmap string Z) (predicates : gmap string bool) : ThreadExecutionState :=
  mkThreadExecution 0 resume_ip registers predicates 0xFFFFFFFFFFFFFFFF (0, 0, 0) (0, 0, 0).

Definition create_resumable_ptx_kernel (original_ptx : string) (resume_ip : Z) (register_state : gmap string Z)
    (predicate_state : gmap string bool) : outcome CkptError string :=
  transform_ptx_for_heterogeneous_migration original_ptx (Some (resume_thread resume_ip register_state predicate_state)) None.

(** ** Code that saves a checkpoint *)

(** The store of a register and the bytes it takes; other names take none. *)
Definition save_register (checkpoint_buffer_ptr : string) (offset : Z) (reg : string) : string * Z :=
  let store ty := text ["    st.global."; ty; " ["; checkpoint_buffer_ptr; "+"; dec offset; "], "; reg; ";"; nl]%string in
  if starts_with "%r" reg && negb (starts_with "%rd" reg) then (store "u32"%string, 4)
  else if starts_with "%rd" reg then (store "u64"%string, 8)
  else if starts_with "%f" reg && negb (starts_with "%fd" reg) then (store "f32"%string, 4)
  else if starts_with "%fd" reg then (store "f64"%string, 8)
  else (""%string, 0).

Fixpoint save_registers (checkpoint_buffer_ptr : string) (offset : Z) (registers : list string) : list string :=
  match registers with
  | [] => []
  | reg :: rest =>
      let '(code, size) := save_register checkpoint_buffer_ptr offset reg in
      code :: save_registers checkpoint_buffer_ptr (wrapping_add 64 offset size) rest
  end.

Definition generate_checkpoint_save_code (instruction_pc : Z) (registers : list string) (checkpoint_buffer_ptr : string) : string :=
  text (["    // === Checkpoint save at IP "; dec instruction_pc; " ==="; nl;
         "    st.global.u64 ["; checkpoint_buffer_ptr; "], "; dec instruction_pc; ";"; nl]%string ++
        save_registers checkpoint_buffer_ptr 8 registers ++ ["    // === End checkpoint save ==="; nl]%string).
End Dispatch.
