(* ===== verification/CheckpointPtxSpec.v ===== *)
(** * Labels and instruction numbers agree

    For PTX text with one function, its braces on lines of their own, the
    instrumented text keeps every line, and the label that the dispatcher jumps
    to for an instruction stands right before that instruction's line. *)
From stdpp Require Import base numbers list strings gmap.
From Stdlib Require Import ZArith Lia Ascii.
From S2P Require Import Prelude HostIO Delta Aof RustStr Runtime Replay ReplayEngine CubinParser Checkpoint CheckpointSpec CheckpointPtx.

Open Scope Z_scope.

(** ** Kinds of lines *)
Definition blank_or_comment (line : string) : bool := String.eqb (trim line) "" || starts_with "//" (trim line).
Definition declares (line : string) : bool := starts_with "." (trim line) || blank_or_comment line.

Definition plain (line : string) : Prop := opens_function (trim line) = false.

Definition param_line (line : string) : Prop :=
  plain line /\ trim line <> "{"%string /\ trim line <> "}"%string /\
  (blank_or_comment line = true \/ skipped_line (trim line) = true).

Definition decl_line (line : string) : Prop := plain line /\ declares line = true.

Definition body_line (line : string) : Prop :=
  plain line /\ trim line <> "{"%string /\ trim line <> "}"%string /\ trim line <> "("%string /\ trim line <> ")"%string /\
  (labelled_line (trim line) = true -> forall pc n, is_Some (parse_single_instruction (trim line) pc n)).

(** The text of one function *)
Record one_function (source : list string) : Type := mkOneFunction {
  of_pre : list string;
  of_entry : string;
  of_params : list string;
  of_open : string;
  of_decls : list string;
  of_first : string;
  of_rest : list string;
  of_close : string;
  of_post : list string;
  of_lines : source = of_pre ++ of_entry :: of_params ++ of_open :: of_decls ++ of_first :: of_rest ++ of_close :: of_post;
  of_pre_ok : Forall plain of_pre;
  of_entry_ok : opens_function (trim of_entry) = true /\ blank_or_comment of_entry = false;
  of_params_ok : Forall param_line of_params;
  of_open_ok : trim of_open = "{"%string;
  of_decls_ok : Forall decl_line of_decls;
  of_first_ok : body_line of_first /\ declares of_first = false;
  of_rest_ok : Forall body_line of_rest;
  of_close_ok : trim of_close = "}"%string;
  of_post_ok : Forall plain of_post;
}.

(** ** Instrumented lines *)
Definition line_of (p : piece) : option string := match p with PLine l => Some l | _ => None end.
Definition label_of (p : piece) : option Z := match p with PLabel ip => Some ip | _ => None end.

Fixpoint label_body (ip : Z) (body : list string) : list piece :=
  match body with
  | [] => []
  | l :: rest =>
      if labelled_line (trim l) then PLabel ip :: PLine l :: label_body (ip + 1) rest
      else PLine l :: label_body ip rest
  end.

(** The instructions of a body that starts at line [n] *)
Fixpoint body_instructions (pc n : Z) (body : list string) : list PtxInstructionState :=
  match body with
  | [] => []
  | l :: rest =>
      if labelled_line (trim l) then
        match parse_single_instruction (trim l) pc (wrap 32 n) with
        | Some i => i :: body_instructions (pc + 1) (n + 1) rest
        | None => body_instructions pc (n + 1) rest
        end
      else body_instructions pc (n + 1) rest
  end.

Lemma parse_fields line pc n i : parse_single_instruction line pc n = Some i -> pi_instruction_pc i = pc /\ pi_ptx_line i = n.
Proof.
  unfold parse_single_instruction. intros Hp. apply bind_Some in Hp as ([pr rest] & _ & Hp).
  destruct (split_whitespace _) as [|opcode words]; [done|]. destruct (instruction_operands opcode words). by injection Hp as <-.
Qed.

(** Every source keeps its lines. *)
Lemma tail_lines line trimmed st : omap line_of (is_output (instr_tail line trimmed st)) = omap line_of (is_output st) ++ [line].
Proof.
  unfold instr_tail, emit_pieces. destruct (String.eqb trimmed "}" && is_body st); cbn [is_body is_past_decls];
    destruct (_ && _ && _); cbn; rewrite ?omap_app; cbn; by rewrite ?app_nil_r.
Qed.

Lemma instr_line_lines dispatcher st line :
  omap line_of (is_output (instr_line dispatcher st line)) = omap line_of (is_output st) ++ [line].
Proof.
  unfold instr_line. repeat case_match; cbn [emit_pieces is_output]; rewrite ?tail_lines; cbn [is_output];
    rewrite ?omap_app; cbn; by rewrite ?app_nil_r.
Qed.

Lemma instrument_keeps_lines `{MapOrder} source resume : omap line_of (instrument_pieces source resume) = lines source.
Proof.
  unfold instrument_pieces. set (dsp := generate_restore_dispatcher _ _).
  enough (forall ls st, omap line_of (is_output (foldl (instr_line dsp) st ls)) = omap line_of (is_output st) ++ ls) as Hall by apply Hall.
  induction ls as [|l ls IH]; intros st; [by rewrite app_nil_r|]. cbn [foldl]. by rewrite IH, instr_line_lines, <- app_assoc.
Qed.

(** ** The parts of the text, instrumented *)
Section Parts.
Context (dispatcher : string).

Lemma emit_emit l1 l2 st : emit_pieces l2 (emit_pieces l1 st) = emit_pieces (l1 ++ l2) st.
Proof. unfold emit_pieces. cbn. by rewrite app_assoc. Qed.

(** Lines that are only copied, in a state that copying does not change *)
Lemma copy_lines (P : string -> Prop) (st0 : instr_state) ls : Forall P ls ->
  (forall l out, P l -> let st := emit_pieces out st0 in instr_line dispatcher st l = emit_pieces [PLine l] st) ->
  foldl (instr_line dispatcher) st0 ls = emit_pieces (PLine <$> ls) st0.
Proof.
  intros Hall Hstep. enough (forall out, foldl (instr_line dispatcher) (emit_pieces out st0) ls = emit_pieces (out ++ (PLine <$> ls)) st0) as Hg.
  { specialize (Hg []). cbn in Hg. replace (emit_pieces [] st0) with st0 in Hg; [done|].
    unfold emit_pieces. rewrite app_nil_r. by destruct st0. }
  induction Hall as [|l ls Hl Hall IH]; intros out; [by rewrite app_nil_r|]. cbn [foldl fmap list_fmap].
  rewrite Hstep by done. rewrite emit_emit, IH. by rewrite <- app_assoc.
Qed.

Lemma outside_lines w p ip out ls : Forall plain ls ->
  foldl (instr_line dispatcher) (mkInstrState false false w p ip out) ls = mkInstrState false false w p ip (out ++ (PLine <$> ls)).
Proof.
  intros Hall. erewrite copy_lines; [done|done|]. intros l o Hl st. unfold instr_line. rewrite Hl. cbn.
  unfold instr_tail. cbn. rewrite andb_false_r. done.
Qed.

Lemma header_lines w p ip out ls : Forall param_line ls ->
  foldl (instr_line dispatcher) (mkInstrState true false w p ip out) ls = mkInstrState true false w p ip (out ++ (PLine <$> ls)).
Proof.
  intros Hall. erewrite copy_lines; [done|done|]. intros l o (Hl & Ho & _) st. unfold instr_line. rewrite Hl. cbn.
  by rewrite (proj2 (String.eqb_neq _ _) Ho).
Qed.

Lemma decl_lines ip out ls : Forall decl_line ls ->
  foldl (instr_line dispatcher) (mkInstrState false true false false ip out) ls = mkInstrState false true false false ip (out ++ (PLine <$> ls)).
Proof.
  intros Hall. erewrite copy_lines; [done|done|]. intros l o (Hl & Hd) st. unfold instr_line. rewrite Hl. cbn.
  unfold declares, blank_or_comment in Hd. destruct (starts_with "." (trim l)); [done|]. cbn in *. by rewrite Hd.
Qed.

Lemma body_tail ip out l : body_line l -> 0 <= ip < 2 ^ 64 - 1 ->
  instr_tail l (trim l) (mkInstrState false true true true ip out) =
  mkInstrState false true true true (if labelled_line (trim l) then ip + 1 else ip) (out ++ label_body ip [l]).
Proof.
  intros (_ & _ & Hc & _) Hip. unfold instr_tail. rewrite (proj2 (String.eqb_neq _ _) Hc). cbn [andb is_body is_past_decls label_body].
  destruct (labelled_line (trim l)); cbn -[wrapping_add]; unfold emit_pieces; cbn -[wrapping_add]; [|done].
  unfold wrapping_add. rewrite wrap_small by lia. by rewrite <- app_assoc.
Qed.

Lemma body_lines ls : forall ip out, Forall body_line ls -> 0 <= ip -> ip + Z.of_nat (length ls) < 2 ^ 64 - 1 ->
  exists ip', foldl (instr_line dispatcher) (mkInstrState false true true true ip out) ls =
    mkInstrState false true true true ip' (out ++ label_body ip ls).
Proof.
  induction ls as [|l ls IH]; intros ip out Hall H0 Hip; [exists ip; by rewrite app_nil_r|].
  apply Forall_cons in Hall as [Hl Hall]. cbn [length] in Hip. cbn [foldl].
  assert (instr_line dispatcher (mkInstrState false true true true ip out) l =
    instr_tail l (trim l) (mkInstrState false true true true ip out)) as -> by (unfold instr_line; destruct Hl as (-> & _); done).
  rewrite body_tail by (done || lia).
  destruct (IH (if labelled_line (trim l) then ip + 1 else ip) (out ++ label_body ip [l]) Hall) as (ip' & ->);
    [destruct (labelled_line _); lia..|].
  exists ip'. f_equal. cbn [label_body]. destruct (labelled_line (trim l)); by rewrite <- app_assoc.
Qed.

Lemma close_lines ip out close post : trim close = "}"%string -> Forall plain post ->
  exists ip', foldl (instr_line dispatcher) (mkInstrState false true true true ip out) (close :: post) =
    mkInstrState false false true false ip' (out ++ (PLine <$> close :: post)).
Proof.
  intros Hc Hp. cbn [foldl]. exists ip.
  assert (instr_line dispatcher (mkInstrState false true true true ip out) close = mkInstrState false false true false ip (out ++ [PLine close])) as ->.
  { unfold instr_line, instr_tail. rewrite Hc. done. }
  rewrite outside_lines by done. cbn [fmap list_fmap]. by rewrite <- app_assoc.
Qed.
End Parts.

(** The pieces of a text with one function *)
Lemma instrument_one_function `{MapOrder} source resume (o : one_function (lines source)) :
  Z.of_nat (length (lines source)) < 2 ^ 32 ->
  instrument_pieces source resume =
    (PLine <$> of_pre _ o ++ of_entry _ o :: of_params _ o ++ of_open _ o :: of_decls _ o) ++
    PCode (generate_restore_dispatcher (parse_ptx_instructions source) resume) ::
    label_body 0 (of_first _ o :: of_rest _ o) ++ (PLine <$> of_close _ o :: of_post _ o).
Proof.
  intros Hlen. unfold instrument_pieces. set (dsp := generate_restore_dispatcher _ _).
  destruct o as [pre entry params open decls first rest close post Hls Hpre Hentry Hpar Hop Hdec Hbody Hrest Hclose Hpost].
  cbn [of_pre of_entry of_params of_open of_decls of_first of_rest of_close of_post].
  destruct Hentry as [Hen _], Hbody as [Hfirst Hnd]. rewrite Hls in Hlen |- *.
  rewrite foldl_app. unfold instr_start. rewrite outside_lines by done. cbn [app foldl].
  assert (forall out, instr_line dsp (mkInstrState false false false false 0 out) entry =
    mkInstrState true false false false 0 (out ++ [PLine entry])) as Hent by (intros out; unfold instr_line; by rewrite Hen).
  rewrite Hent, foldl_app, header_lines by done. cbn [foldl].
  assert (forall out, instr_line dsp (mkInstrState true false false false 0 out) open =
    mkInstrState false true false false 0 (out ++ [PLine open])) as Hopn by (intros out; unfold instr_line; by rewrite Hop).
  rewrite Hopn, foldl_app, decl_lines by done. cbn [foldl].
  assert (forall out, instr_line dsp (mkInstrState false true false false 0 out) first =
    instr_tail first (trim first) (mkInstrState false true true true 0 (out ++ [PCode dsp]))) as Hfst.
  { intros out. unfold instr_line. destruct Hfirst as (-> & _). unfold declares, blank_or_comment in Hnd.
    apply orb_false_iff in Hnd as [Hd Hb]. cbn. rewrite Hd. cbn. by rewrite Hb. }
  rewrite Hfst, body_tail by (done || lia). rewrite !length_app in Hlen. cbn [length] in Hlen. rewrite !length_app in Hlen.
  cbn [length] in Hlen. rewrite !length_app in Hlen. cbn [length] in Hlen. rewrite !length_app in Hlen.
  rewrite foldl_app. set (ip1 := if labelled_line (trim first) then 0 + 1 else 0).
  edestruct (body_lines dsp rest ip1) as (ip2 & ->); [done|unfold ip1; destruct (labelled_line _); lia..|].
  edestruct (close_lines dsp ip2) as (ip3 & ->); [done|done|]. cbn [is_output].
  rewrite !fmap_app. cbn [fmap list_fmap app]. rewrite !fmap_app. cbn [fmap list_fmap]. rewrite <- !app_assoc. cbn [app].
  do 2 f_equal. cbn [label_body]. unfold ip1. by destruct (labelled_line (trim first)); rewrite <- !app_assoc.
Qed.

(** ** The parts of the text, scanned *)
Lemma numbered_app n l1 l2 : numbered_from n (l1 ++ l2) = numbered_from n l1 ++ numbered_from (n + length l1) l2.
Proof. unfold numbered_from. rewrite imap_app. f_equal. apply imap_ext. intros i x _. cbn. f_equal. lia. Qed.

Lemma numbered_cons n l ls : numbered_from n (l :: ls) = (Z.of_nat n, l) :: numbered_from (S n) ls.
Proof. unfold numbered_from. rewrite imap_cons. rewrite Nat.add_0_r. f_equal. apply imap_ext. intros i x _. cbn. f_equal. lia. Qed.

Lemma scan_skips (P : string -> Prop) st ls : (forall n l, P l -> scan_line st (n, l) = st) -> Forall P ls ->
  forall n, foldl scan_line st (numbered_from n ls) = st.
Proof.
  intros Hs. induction 1 as [|l ls Hl Hall IH]; intros n; [done|]. rewrite numbered_cons. cbn [foldl]. by rewrite Hs.
Qed.

Lemma scan_outside pc acc n l : plain l -> scan_line (mkScanState pc false acc) (n, l) = mkScanState pc false acc.
Proof.
  intros Hl. unfold scan_line. destruct (_ || _); [done|]. rewrite Hl. destruct (String.eqb _ "}"); [done|].
  by destruct (skipped_line _).
Qed.

Lemma scan_param pc acc n l : param_line l -> scan_line (mkScanState pc true acc) (n, l) = mkScanState pc true acc.
Proof.
  intros (Hl & _ & Hc & Hs). unfold scan_line. fold (blank_or_comment l). destruct (blank_or_comment l); [done|].
  destruct Hs as [|Hs]; [done|]. by rewrite Hl, (proj2 (String.eqb_neq _ _) Hc), Hs.
Qed.

Lemma scan_decl pc acc n l : decl_line l -> scan_line (mkScanState pc true acc) (n, l) = mkScanState pc true acc.
Proof.
  intros (Hl & Hd). unfold scan_line, declares in *. fold (blank_or_comment l). destruct (blank_or_comment l); [done|].
  rewrite orb_false_r in Hd. rewrite Hl. destruct (String.eqb_spec (trim l) "}") as [He|_]; [by rewrite He in Hd|].
  unfold skipped_line. by rewrite Hd, orb_true_r.
Qed.

Lemma scan_body ls : forall pc acc n, Forall body_line ls -> 0 <= pc -> pc + Z.of_nat (length ls) < 2 ^ 64 - 1 ->
  exists pc', foldl scan_line (mkScanState pc true acc) (numbered_from n ls) =
    mkScanState pc' true (acc ++ body_instructions pc (Z.of_nat n) ls).
Proof.
  induction ls as [|l ls IH]; intros pc acc n Hall H0 Hb; [exists pc; by rewrite app_nil_r|].
  apply Forall_cons in Hall as [(Hl & Ho & Hc & Hp & Hq & Hparse) Hall]. rewrite numbered_cons. cbn [foldl length body_instructions] in *.
  assert (scan_line (mkScanState pc true acc) (Z.of_nat n, l) =
    match (if labelled_line (trim l) then parse_single_instruction (trim l) pc (wrap 32 (Z.of_nat n)) else None) with
    | Some i => mkScanState (wrapping_add 64 pc 1) true (acc ++ [i])
    | None => mkScanState pc true acc
    end) as ->.
  { unfold scan_line, labelled_line, skipped_line. rewrite Hl. apply String.eqb_neq in Ho, Hc, Hp, Hq. rewrite Ho, Hc, Hp, Hq.
    destruct (String.eqb (trim l) ""); [done|]. destruct (starts_with "//" (trim l)); [by rewrite !andb_false_r|].
    cbn [orb negb andb]. destruct (starts_with "." (trim l)); [done|]. destruct (ends_with_char ":" (trim l)); [done|]. done. }
  replace (Z.of_nat n + 1) with (Z.of_nat (S n)) by lia. destruct (labelled_line (trim l)).
  - destruct (Hparse eq_refl pc (wrap 32 (Z.of_nat n))) as [i Hi]. rewrite Hi. unfold wrapping_add. rewrite wrap_small by lia.
    destruct (IH (pc + 1) (acc ++ [i]) (S n) Hall) as [pc' ->]; [lia..|]. exists pc'. by rewrite <- app_assoc.
  - destruct (IH pc acc (S n) Hall) as [pc' ->]; [lia..|]. by exists pc'.
Qed.

Definition body_start {source} (o : one_function source) : nat :=
  length (of_pre _ o ++ of_entry _ o :: of_params _ o ++ of_open _ o :: of_decls _ o).

Lemma scan_one_function source (o : one_function (lines source)) : Z.of_nat (length (lines source)) < 2 ^ 32 ->
  parse_ptx_instructions source = body_instructions 0 (Z.of_nat (body_start o)) (of_first _ o :: of_rest _ o).
Proof.
  intros Hlen. unfold parse_ptx_instructions, body_start.
  destruct o as [pre entry params open decls first rest close post Hls Hpre Hentry Hpar Hop Hdec Hbody Hrest Hclose Hpost].
  cbn [of_pre of_entry of_params of_open of_decls of_first of_rest of_close of_post].
  destruct Hentry as [Hen Hnc], Hbody as [Hfirst Hnd]. rewrite Hls in Hlen |- *.
  replace (pre ++ entry :: params ++ open :: decls ++ first :: rest ++ close :: post)
    with ((pre ++ entry :: params ++ open :: decls) ++ (first :: rest) ++ close :: post) in * by (by rewrite <- !app_assoc; cbn; rewrite <- !app_assoc).
  rewrite (numbered_app 0 (pre ++ _)), foldl_app. set (start := (0 + length _)%nat).
  assert (foldl scan_line (mkScanState 0 false []) (numbered_from 0 (pre ++ entry :: params ++ open :: decls)) = mkScanState 0 true []) as ->.
  { rewrite numbered_app, foldl_app, (scan_skips plain (mkScanState 0 false []) pre) by (done || (intros; by apply scan_outside)). rewrite numbered_cons. cbn [foldl].
    assert (forall n, scan_line (mkScanState 0 false []) (n, entry) = mkScanState 0 true []) as ->.
    { intros n. unfold scan_line. fold (blank_or_comment entry). by rewrite Hnc, Hen. }
    rewrite numbered_app, foldl_app, (scan_skips param_line (mkScanState 0 true []) params) by (done || (intros; by apply scan_param)). rewrite numbered_cons. cbn [foldl].
    assert (forall n, scan_line (mkScanState 0 true []) (n, open) = mkScanState 0 true []) as -> by (intros n; unfold scan_line; by rewrite Hop).
    apply (scan_skips decl_line); [|done]. intros. by apply scan_decl. }
  rewrite numbered_app, foldl_app. destruct (scan_body (first :: rest) 0 [] start) as [pc ->]; [by constructor|lia| |].
  { rewrite !length_app in Hlen. lia. }
  rewrite numbered_cons. cbn [foldl].
  assert (forall n acc, scan_line (mkScanState pc true acc) (n, close) = mkScanState pc false acc) as -> by (intros n acc; unfold scan_line; by rewrite Hclose).
  rewrite (scan_skips plain) by (done || (intros; by apply scan_outside)). done.
Qed.

(** ** Labels against instruction numbers *)
Lemma labels_are_pcs body : forall pc n, Forall body_line body ->
  omap label_of (label_body pc body) = pi_instruction_pc <$> body_instructions pc n body.
Proof.
  induction body as [|l body IH]; intros pc n Hall; [done|]. apply Forall_cons in Hall as [(_ & _ & _ & _ & _ & Hp) Hall].
  cbn [label_body body_instructions]. destruct (labelled_line (trim l)); [|by apply IH].
  destruct (Hp eq_refl pc (wrap 32 n)) as [i Hi]. rewrite Hi. apply parse_fields in Hi as [Hpc _]. cbn. by rewrite Hpc, (IH _ (n + 1)).
Qed.

Lemma pcs_are_consecutive body : forall pc n, Forall body_line body ->
  pi_instruction_pc <$> body_instructions pc n body = seqZ pc (Z.of_nat (length (body_instructions pc n body))).
Proof.
  induction body as [|l body IH]; intros pc n Hall; [done|]. apply Forall_cons in Hall as [(_ & _ & _ & _ & _ & Hp) Hall].
  cbn [body_instructions]. destruct (labelled_line (trim l)); [|by apply IH].
  destruct (Hp eq_refl pc (wrap 32 n)) as [i Hi]. rewrite Hi. apply parse_fields in Hi as [Hpc _].
  cbn [fmap list_fmap length]. rewrite seqZ_cons by lia. rewrite Hpc, IH by done. do 2 f_equal; lia.
Qed.

(** Where the label of an instruction stands *)
Definition labels_instruction (pieces : list piece) (source : list string) (i : PtxInstructionState) : Prop :=
  exists k line, pieces !! k = Some (PLabel (pi_instruction_pc i)) /\ pieces !! S k = Some (PLine line) /\
    source !! Z.to_nat (pi_ptx_line i) = Some line.

Lemma label_before_line body : forall pc n i, Forall body_line body -> 0 <= n -> n + Z.of_nat (length body) < 2 ^ 32 ->
  i ∈ body_instructions pc n body ->
  exists k j line, label_body pc body !! k = Some (PLabel (pi_instruction_pc i)) /\
    label_body pc body !! S k = Some (PLine line) /\ body !! j = Some line /\ pi_ptx_line i = n + Z.of_nat j.
Proof.
  induction body as [|l body IH]; intros pc n i Hall H0 Hn Hi; [by apply elem_of_nil in Hi|].
  apply Forall_cons in Hall as [(_ & _ & _ & _ & _ & Hp) Hall]. cbn [length] in Hn.
  cbn [label_body body_instructions] in *. destruct (labelled_line (trim l)).
  - destruct (Hp eq_refl pc (wrap 32 n)) as [i0 Hi0]. rewrite Hi0 in Hi. apply parse_fields in Hi0 as [Hpc Hln].
    apply elem_of_cons in Hi as [->|Hi].
    + exists 0%nat, 0%nat, l. rewrite Hpc, Hln, wrap_small by lia. split_and!; [done..|lia].
    + destruct (IH (pc + 1) (n + 1) i Hall ltac:(lia) ltac:(lia) Hi) as (k & j & line & Hk & Hk' & Hj & Hline).
      exists (S (S k)), (S j), line. split_and!; [done..|lia].
  - destruct (IH pc (n + 1) i Hall ltac:(lia) ltac:(lia) Hi) as (k & j & line & Hk & Hk' & Hj & Hline).
    exists (S k), (S j), line. split_and!; [done..|lia].
Qed.

Lemma omap_label_lines (ls : list string) : omap label_of (PLine <$> ls) = [].
Proof. by induction ls. Qed.

Lemma source_split {source} (o : one_function source) :
  source = (of_pre _ o ++ of_entry _ o :: of_params _ o ++ of_open _ o :: of_decls _ o) ++
    (of_first _ o :: of_rest _ o) ++ of_close _ o :: of_post _ o.
Proof. rewrite (of_lines _ o) at 1. rewrite <- !app_assoc. cbn. by rewrite <- !app_assoc. Qed.

Lemma one_function_body {source} (o : one_function source) : Forall body_line (of_first _ o :: of_rest _ o).
Proof. constructor; [apply (of_first_ok _ o)|apply (of_rest_ok _ o)]. Qed.

(** [C19] For PTX text with one function whose braces stand on lines of their own
    (parameters before the opening brace, declarations first), fewer than 2^32
    lines, and any thread state to resume: the instrumented text is the source
    with only labels and the dispatcher added; its labels are, in order, the
    instruction numbers that the dispatcher's jump table is built from, and those
    are 0, 1, 2, ...; and the label of every instruction stands right before the
    source line that the instruction was read from.  So the jump to a saved
    instruction number lands on the instruction that had this number. *)
Theorem resume_jumps_to_instruction `{MapOrder} (source : string) (resume : option ThreadExecutionState)
    (o : one_function (lines source)) :
  Z.of_nat (length (lines source)) < 2 ^ 32 ->
  let pieces := instrument_pieces source resume in
  let instructions := parse_ptx_instructions source in
  omap line_of pieces = lines source /\
  omap label_of pieces = pi_instruction_pc <$> instructions /\
  pi_instruction_pc <$> instructions = seqZ 0 (Z.of_nat (length instructions)) /\
  forall i, i ∈ instructions -> labels_instruction pieces (lines source) i.
Proof.
  intros Hlen pieces instructions. split; [apply instrument_keeps_lines|].
  subst pieces instructions. rewrite (instrument_one_function _ _ o Hlen), (scan_one_function _ o Hlen).
  pose proof (one_function_body o) as Hb. split_and!.
  - rewrite omap_app, omap_label_lines. cbn [omap list_omap label_of app]. rewrite omap_app, omap_label_lines, app_nil_r.
    by apply labels_are_pcs.
  - by apply pcs_are_consecutive.
  - intros i Hi. pose proof (source_split o) as Hsrc.
    assert (Z.of_nat (body_start o) + Z.of_nat (length (of_first _ o :: of_rest _ o)) < 2 ^ 32) as Hn.
    { rewrite Hsrc, !length_app in Hlen. unfold body_start. rewrite !length_app in *. lia. }
    destruct (label_before_line _ 0 (Z.of_nat (body_start o)) i Hb ltac:(lia) Hn Hi) as (k & j & line & Hk & Hk' & Hj & Hline).
    exists (body_start o + S k)%nat, line. split_and!.
    + rewrite lookup_app_r by (rewrite length_fmap; unfold body_start; lia). rewrite length_fmap. fold (body_start o).
      rewrite Nat.add_sub'. cbn [lookup list_lookup]. by apply lookup_app_l_Some.
    + rewrite lookup_app_r by (rewrite length_fmap; unfold body_start; lia). rewrite length_fmap. fold (body_start o).
      rewrite <- Nat.add_succ_r, Nat.add_sub'. cbn [lookup list_lookup]. by apply lookup_app_l_Some.
    + rewrite Hsrc at 1. rewrite Hline, lookup_app_r by (unfold body_start; lia). fold (body_start o).
      replace (_ - _)%nat with j by lia. by apply lookup_app_l_Some.
Qed.

(** ** A kernel *)
Definition sample_kernel : list string :=
  [".version 7.0"; ".visible .entry add("; "    .param .u64 p"; ")"; "{"; "    .reg .b32 %r<3>;"; "";
   "    ld.param.u64 %rd1, [p];"; "LOOP:"; "    add.u32 %r1, %r1, 1;"; "    // again"; "    @%p1 bra LOOP;"; "    ret;"; "}"]%string.

Definition sample_ptx : string := join nl sample_kernel.

Lemma sample_function : one_function (lines sample_ptx).
Proof.
  refine (mkOneFunction _ [".version 7.0"] ".visible .entry add(" ["    .param .u64 p"; ")"] "{" ["    .reg .b32 %r<3>;"; ""]
    "    ld.param.u64 %rd1, [p];" ["LOOP:"; "    add.u32 %r1, %r1, 1;"; "    // again"; "    @%p1 bra LOOP;"; "    ret;"] "}" []
    _ _ _ _ _ _ _ _ _ _)%string; try (vm_compute; reflexivity).
  all: repeat (apply Forall_cons_2 || apply Forall_nil_2); try (vm_compute; reflexivity).
  all: try (split; vm_compute; reflexivity).
  all: unfold param_line, decl_line, body_line, plain; split_and?; try (vm_compute; reflexivity); try (vm_compute; discriminate);
    try (left; vm_compute; reflexivity); try (right; vm_compute; reflexivity); intros Hl; try (vm_compute in Hl; discriminate Hl);
    intros pc n; vm_compute; eexists; reflexivity.
Defined.

Lemma resume_jumps_to_instruction_witness :
  let pieces := @instrument_pieces listed_order sample_ptx (Some (resume_thread 2 ∅ ∅)) in
  omap line_of pieces = sample_kernel /\ omap label_of pieces = [0; 1; 2; 3] /\
  labels_instruction pieces sample_kernel (mkPtxInstruction 2 11 "bra" [] (Some "LOOP"%string) (Some "@%p1"%string)).
Proof.
  destruct (@resume_jumps_to_instruction listed_order sample_ptx (Some (resume_thread 2 ∅ ∅)) sample_function) as (Hl & Hb & _ & Hi);
    [vm_compute; reflexivity|].
  cbv zeta. split; [rewrite Hl; vm_compute; reflexivity|]. split; [rewrite Hb; vm_compute; reflexivity|].
  replace sample_kernel with (lines sample_ptx) by (vm_compute; reflexivity). apply Hi.
  rewrite list_elem_of_lookup. exists 2%nat. vm_compute. reflexivity.
Defined.

(** ** Texts of another shape *)
Definition two_kernels : string :=
  join nl [".entry a("; ")"; "{"; "    mov.u32 %r1, 1;"; "    ret;"; "}"; ".entry b("; ")"; "{"; "    ret;"; "}"]%string.

(** The labels start again at 0 in each kernel, the instruction numbers do not:
    the jump to instruction 2 of the second kernel has no label. *)
Lemma second_kernel_has_no_label :
  omap label_of (@instrument_pieces listed_order two_kernels None) = [0; 1; 0] /\
  (pi_instruction_pc <$> parse_ptx_instructions two_kernels) = [0; 1; 2].
Proof. split; vm_compute; reflexivity. Qed.

Definition brace_on_entry : string := join nl [".entry a() {"; "    mov.u32 %r1, 1;"; "    ret;"; "}"]%string.

(** An opening brace on the line of the entry is not seen: two instructions, and
    neither a label nor the dispatcher. *)
Lemma entry_brace_not_instrumented :
  length (parse_ptx_instructions brace_on_entry) = 2%nat /\
  @instrument_pieces listed_order brace_on_entry (Some (resume_thread 1 ∅ ∅)) = (PLine <$> lines brace_on_entry).
Proof. split; vm_compute; reflexivity. Qed.

(** The whole-kernel transformation numbers on from one kernel to the next, and
    puts the dispatcher, with its branch targets, before the declarations. *)
Lemma transform_numbers_on :
  omap label_of (@transform_pieces listed_order two_kernels None) = (pi_instruction_pc <$> parse_ptx_instructions two_kernels).
Proof. vm_compute. reflexivity. Qed.

(** A 64-bit register after a 32-bit one is stored at offset 12. *)
Lemma save_code_misaligned :
  save_registers "buf" 8 ["%r1"; "%rd1"]%string =
    [text ["    st.global.u32 [buf+8], %r1;"; nl]; text ["    st.global.u64 [buf+12], %rd1;"; nl]]%string.
Proof. vm_compute. reflexivity. Qed.
