(* ===== verification/CheckpointRestore.v ===== *)
(** * Restoring and the C interface ([zluda/src/impl/checkpoint.rs] 1493-1875, 1914-2633)

    A restore state, the restorer that gives its memory regions new addresses and
    prepares the PTX text, and the C functions.  A C string is [None] for the
    null pointer or its bytes before the terminator; an output pointer is [None]
    or what it points to, and a function returns what it points to afterwards.  A
    returned string is valid until the next call of the same function.  Arrays
    hold as many entries as their count says. *)
From stdpp Require Import base numbers list strings gmap.
From Stdlib Require Import ZArith Lia.
From S2P Require Import Prelude HostIO Delta Aof RustStr Sass Encoding Cubin Runtime Replay CubinParser Checkpoint CheckpointPtx.

Open Scope Z_scope.

(** ** Restore states *)
Definition is_likely_pointer (addr : Z) : bool := (0x1000 <=? addr) && (Z.land addr 0x7 =? 0).

Definition arg_restores (args : list (Z * Z)) : list KernelArgRestore :=
  imap (fun i '(addr, size) => mkArgRestore (wrap 32 (Z.of_nat i)) addr size (is_likely_pointer addr) []) args.

(** The restore state of a kernel: no memory, no thread state *)
Definition restore_of_kernel (f : features) (version : Z) (ptx_source kernel_name : string) (kernel : KernelExecutionState)
    : GpuRestoreState :=
  mkGpuRestore version (detect_current_backend f) ptx_source None kernel_name (arg_restores (ke_kernel_args kernel)) []
    (ke_grid_dim kernel) (ke_block_dim kernel) (ke_shared_mem_bytes kernel) None ∅.

Definition from_checkpoint (f : features) (checkpoint : CheckpointData) (ptx_source kernel_name : string)
    : outcome CkptError GpuRestoreState :=
  kernel ← ok_or (KernelNotFound kernel_name)
             (snd <$> list_find (fun k => ke_kernel_name k = kernel_name) (cd_active_kernels checkpoint));
  Ok (restore_of_kernel f (cd_version checkpoint) ptx_source kernel_name kernel).

Definition gs_set_regions (l : list MemoryRegionRestore) (s : GpuRestoreState) : GpuRestoreState :=
  mkGpuRestore (gs_version s) (gs_source_backend s) (gs_ptx_source s) (gs_compiled_binary s) (gs_kernel_name s)
    (gs_kernel_args s) l (gs_grid_dim s) (gs_block_dim s) (gs_shared_mem_bytes s) (gs_thread_state s) (gs_address_remap s).
Definition gs_set_thread (t : ThreadExecutionState) (s : GpuRestoreState) : GpuRestoreState :=
  mkGpuRestore (gs_version s) (gs_source_backend s) (gs_ptx_source s) (gs_compiled_binary s) (gs_kernel_name s)
    (gs_kernel_args s) (gs_memory_regions s) (gs_grid_dim s) (gs_block_dim s) (gs_shared_mem_bytes s) (Some t)
    (gs_address_remap s).
Definition gs_set_remap (m : gmap Z Z) (s : GpuRestoreState) : GpuRestoreState :=
  mkGpuRestore (gs_version s) (gs_source_backend s) (gs_ptx_source s) (gs_compiled_binary s) (gs_kernel_name s)
    (gs_kernel_args s) (gs_memory_regions s) (gs_grid_dim s) (gs_block_dim s) (gs_shared_mem_bytes s) (gs_thread_state s) m.

Definition add_memory_region (addr size : Z) (data : list Z) (mem_type : MemoryType) (s : GpuRestoreState)
    : GpuRestoreState :=
  gs_set_regions (gs_memory_regions s ++ [mkRegionRestore addr size data mem_type 256]) s.

Definition set_thread_state (state : ThreadExecutionState) (s : GpuRestoreState) : GpuRestoreState := gs_set_thread state s.

Definition remap_address (original new : Z) (s : GpuRestoreState) : GpuRestoreState :=
  gs_set_remap (<[original := new]> (gs_address_remap s)) s.

Definition get_remapped_address (s : GpuRestoreState) (original : Z) : Z := default original (gs_address_remap s !! original).

(** The remapping is not written ([serde(skip)]). *)
Definition restore_state_save `{CheckpointJson} (s : GpuRestoreState) (path : string) : stm world CkptError unit :=
  json ← stm_lift (ok_or CkptSerialization (restore_state_text (gs_set_remap ∅ s)));
  fs_write path json.

Definition restore_state_load `{CheckpointJson} (path : string) (w : world) : outcome CkptError GpuRestoreState :=
  content ← read_text path w;
  gs_set_remap ∅ <$> ok_or CkptParseFailed (parse_restore_state content).

(** ** Restoring *)
Record ResumePoint : Type := mkResumePoint {
  rp_ptx_line : Z;
  rp_instruction_offset : Z;
  rp_block_id : dim;
  rp_thread_id : dim;
}.

Record RestoreResult : Type := mkRestoreResult {
  rs_recompiled : bool;
  rs_instrumented : bool;
  rs_ptx_source : string;
  rs_kernel_name : string;
  rs_memory_mappings : list (Z * Z);
  rs_remapped_args : list (Z * Z);
  rs_grid_dim : dim;
  rs_block_dim : dim;
  rs_shared_mem_bytes : Z;
  rs_resume_point : option ResumePoint;
}.

Record GpuRestorer : Type := mkGpuRestorer {
  gr_state : GpuRestoreState;
  gr_target_backend : string;
}.

Definition gpu_restorer_new (f : features) (state : GpuRestoreState) : GpuRestorer :=
  mkGpuRestorer state (detect_current_backend f).

Definition is_cross_backend (g : GpuRestorer) : bool :=
  negb (String.eqb (gs_source_backend (gr_state g)) (gr_target_backend g)).

(** A placeholder that does not allocate *)
Definition restorer_allocate (size : Z) (mem_type : MemoryType) : outcome CkptError Z := Ok (wrapping_add 64 0x10000000 size).

(** Nothing is copied, with or without data. *)
Definition copy_to_device (addr : Z) (data : list Z) : outcome CkptError unit := Ok tt.

(** The first pass: a new address for every region *)
Fixpoint allocate_regions (regions : list MemoryRegionRestore) : outcome CkptError (list (Z * Z * list Z)) :=
  match regions with
  | [] => Ok []
  | region :: rest =>
      new_addr ← restorer_allocate (rr_size region) (rr_mem_type region);
      allocations ← allocate_regions rest;
      Ok ((rr_original_addr region, new_addr, rr_data region) :: allocations)
  end.

(** The second pass: the remapping and the copies *)
Fixpoint apply_allocations (allocations : list (Z * Z * list Z)) (s : GpuRestoreState) (mappings : list (Z * Z))
    : outcome CkptError (GpuRestoreState * list (Z * Z)) :=
  match allocations with
  | [] => Ok (s, mappings)
  | (original_addr, new_addr, data) :: rest =>
      let s := remap_address original_addr new_addr s in
      copy_to_device new_addr data;;
      apply_allocations rest s (mappings ++ [(original_addr, new_addr)])
  end.

Definition remapped_arg (s : GpuRestoreState) (arg : KernelArgRestore) : Z * Z :=
  (ka_index arg, if ka_is_pointer arg then get_remapped_address s (ka_original_addr arg) else ka_original_addr arg).

Section Restore.
Context `{MapOrder}.

(** The text, and whether it was instrumented *)
Definition resume_text (s : GpuRestoreState) : string * bool :=
  match gs_thread_state s with
  | Some thread_state =>
      if negb (String.eqb (gs_ptx_source s) "") && (0 <? te_instruction_offset thread_state)
      then (instrument_ptx_for_migration (gs_ptx_source s) (Some thread_state), true)
      else (gs_ptx_source s, false)
  | None => (gs_ptx_source s, false)
  end.

Definition resume_point_of (t : ThreadExecutionState) : ResumePoint :=
  mkResumePoint (te_ptx_line t) (te_instruction_offset t) (te_block_id t) (te_thread_id t).

Definition restore (g : GpuRestorer) : outcome CkptError (GpuRestorer * RestoreResult) :=
  let recompiled := is_cross_backend g || bool_decide (gs_compiled_binary (gr_state g) = None) in
  allocations ← allocate_regions (gs_memory_regions (gr_state g));
  '(s, memory_mappings) ← apply_allocations allocations (gr_state g) [];
  let remapped_args := remapped_arg s <$> gs_kernel_args s in
  let '(ptx_source, instrumented) := resume_text s in
  Ok (mkGpuRestorer s (gr_target_backend g),
      mkRestoreResult recompiled instrumented ptx_source (gs_kernel_name s) memory_mappings remapped_args (gs_grid_dim s)
        (gs_block_dim s) (gs_shared_mem_bytes s) (resume_point_of <$> gs_thread_state s)).

(** For every backend the buffer stays zero. *)
Definition capture_memory_region (addr size : Z) : outcome CkptError (list Z) := Ok (replicate (Z.to_nat size) 0).

Definition resume_from_checkpoint `{CheckpointJson} (f : features) (checkpoint_path : string) (w : world)
    : outcome CkptError RestoreResult :=
  state ← restore_state_load checkpoint_path w;
  snd <$> restore (gpu_restorer_new f state).
End Restore.

(** ** The C interface *)
Record CRestoreResult : Type := mkCRestoreResult {
  cr_error_code : Z;
  cr_recompiled : Z;
  cr_num_memory_mappings : Z;
  cr_num_remapped_args : Z;
  cr_grid_dim : dim;
  cr_block_dim : dim;
  cr_shared_mem_bytes : Z;
  cr_resume_ptx_line : Z;
  cr_resume_instruction_offset : Z;
}.

Definition crestore_default : CRestoreResult := mkCRestoreResult 0 0 0 0 (1, 1, 1) (1, 1, 1) 0 0 0.

Record CThreadState : Type := mkCThreadState {
  ct_instruction_offset : Z;
  ct_ptx_line : Z;
  ct_block : dim;
  ct_thread : dim;
  ct_active_mask : Z;
  ct_num_registers : Z;
}.

(** The name as [to_string_lossy] decodes it *)
Record CRegisterValue : Type := mkCRegisterValue {
  rv_name : string;
  rv_value : Z;
  rv_reg_type : Z;
}.

Definition register_entry {A} (g : Z -> A) (m : gmap string A) (reg : CRegisterValue) : gmap string A :=
  if String.eqb (rv_name reg) "" then m else <[rv_name reg := g (rv_value reg)]> m.

(** The entries of an array that may be null, later ones replacing earlier ones *)
Definition register_map {A} (g : Z -> A) (count : Z) (registers : option (list CRegisterValue)) : gmap string A :=
  match registers with
  | Some regs => foldl (register_entry g) ∅ (take (Z.to_nat count) regs)
  | None => ∅
  end.

Definition thread_of_registers (instruction_offset num_registers : Z) (registers : option (list CRegisterValue))
    (num_predicates : Z) (predicates : option (list CRegisterValue)) : ThreadExecutionState :=
  mkThreadExecution 0 instruction_offset (register_map id num_registers registers)
    (register_map (fun v => negb (v =? 0)) num_predicates predicates) 0xFFFFFFFFFFFFFFFF (0, 0, 0) (0, 0, 0).

(** [CString::new] refuses a zero byte. *)
Definition cstring_new (s : string) : option string := if bool_decide (0 ∈ string_bytes s) then None else Some s.

(** A string into a buffer of [size] bytes, cut to fit, with its terminator *)
Definition write_cstring (bytes : list Z) (size : Z) (buffer : list Z) : list Z :=
  let copy_len := Nat.min (length bytes) (Z.to_nat size - 1) in
  take copy_len bytes ++ 0 :: drop (S copy_len) buffer.

Section Interface.
Context `{MapOrder} `{CheckpointJson} (f : features) (env : environment).

Definition restore_of_checkpoint (d : CheckpointData) : option GpuRestoreState :=
  match cd_active_kernels d with
  | kernel :: _ =>
      (fun ptx => restore_of_kernel f (cd_version d) ptx (ke_kernel_name kernel) kernel) <$> ke_ptx_source kernel
  | [] =>
      (fun '(_, ptx) => mkGpuRestore (cd_version d) (detect_current_backend f) ptx None "" [] [] (1, 1, 1) (1, 1, 1) 0 None ∅)
      <$> head (iter_u64 (cd_ptx_sources d))
  end.

(** The codes of a poisoned lock do not occur, and nothing here panics. *)
Definition hetgpu_checkpoint_load (path : option (list Z)) (s : ckpt_state) : ckpt_state * Z :=
  match path with
  | None => (s, -1)
  | Some bytes =>
      match from_utf8 bytes with
      | None => (s, -2)
      | Some path_str =>
          let '(c, w) := s in
          match load_checkpoint path_str w with
          | Ok checkpoint_data =>
              let s := (ck_set_loaded checkpoint_data c, w) in
              (match restore_of_checkpoint checkpoint_data with
               | Some restore_state => update_manager env (cm_set_restore restore_state) s
               | None => s
               end, 0)
          | _ =>
              match restore_state_load path_str w with
              | Ok state => (update_manager env (cm_set_restore state) s, 0)
              | _ => (s, -4)
              end
          end
      end
  end.

Definition fill_result (res : RestoreResult) (out : CRestoreResult) : CRestoreResult :=
  mkCRestoreResult 0 (if rs_recompiled res then 1 else 0) (wrap 32 (Z.of_nat (length (rs_memory_mappings res))))
    (wrap 32 (Z.of_nat (length (rs_remapped_args res)))) (rs_grid_dim res) (rs_block_dim res) (rs_shared_mem_bytes res)
    (from_option rp_ptx_line (cr_resume_ptx_line out) (rs_resume_point res))
    (from_option rp_instruction_offset (cr_resume_instruction_offset out) (rs_resume_point res)).

Definition set_error_code (e : Z) (out : CRestoreResult) : CRestoreResult :=
  mkCRestoreResult e (cr_recompiled out) (cr_num_memory_mappings out) (cr_num_remapped_args out) (cr_grid_dim out)
    (cr_block_dim out) (cr_shared_mem_bytes out) (cr_resume_ptx_line out) (cr_resume_instruction_offset out).

(** The restorer works on a copy of the restore state. *)
Definition hetgpu_checkpoint_restore (result : option CRestoreResult) (s : ckpt_state)
    : ckpt_state * option CRestoreResult * Z :=
  match result with
  | None => (s, None, -1)
  | Some out =>
      let '(manager, s) := get_checkpoint_manager env s in
      match cm_loaded_restore_state manager with
      | None => (s, Some out, -3)
      | Some state =>
          match restore (gpu_restorer_new f state) with
          | Ok (_, res) => (s, Some (fill_result res out), 0)
          | _ => (s, Some (set_error_code (-10) out), -10)
          end
      end
  end.

(** The first alternative that gives a C string *)
Definition first_cstring (l : list (option string)) : option string := head (omap (fun o => o ≫= cstring_new) l).

Definition nonempty_str (s : string) : option string := if String.eqb s "" then None else Some s.

Definition hetgpu_checkpoint_get_ptx (s : ckpt_state) : ckpt_state * option string :=
  let '(manager, s) := get_checkpoint_manager env s in
  let checkpoint := ck_loaded (fst s) in
  (s, first_cstring
        [cm_loaded_restore_state manager ≫= (fun st => nonempty_str (gs_ptx_source st));
         checkpoint ≫= (fun d => snd <$> head (iter_u64 (cd_ptx_sources d)));
         checkpoint ≫= (fun d => head (cd_active_kernels d) ≫= ke_ptx_source)]).

Definition hetgpu_checkpoint_get_kernel_name (s : ckpt_state) : ckpt_state * option string :=
  let '(manager, s) := get_checkpoint_manager env s in
  (s, first_cstring
        [cm_loaded_restore_state manager ≫= (fun st => nonempty_str (gs_kernel_name st));
         ck_loaded (fst s) ≫= (fun d => head (cd_active_kernels d) ≫= (fun k => nonempty_str (ke_kernel_name k)))]).

Definition loaded_region (s : ckpt_state) (index : Z) : ckpt_state * (Z + MemoryRegionRestore) :=
  let '(manager, s) := get_checkpoint_manager env s in
  (s, match cm_loaded_restore_state manager with
      | None => inl (-2)
      | Some state =>
          match gs_memory_regions state !! Z.to_nat index with
          | None => inl (-3)
          | Some region => inr region
          end
      end).

(** Null pointers are not written. *)
Definition hetgpu_checkpoint_get_memory_mapping (index : Z) (original_addr size : option Z) (s : ckpt_state)
    : ckpt_state * (option Z * option Z) * Z :=
  let '(s, r) := loaded_region s index in
  match r with
  | inl e => (s, (original_addr, size), e)
  | inr region => (s, ((fun _ => rr_original_addr region) <$> original_addr, (fun _ => rr_size region) <$> size), 0)
  end.

Definition hetgpu_checkpoint_get_memory_region_count (s : ckpt_state) : ckpt_state * Z :=
  let '(manager, s) := get_checkpoint_manager env s in
  (s, from_option (fun st => wrap 32 (Z.of_nat (length (gs_memory_regions st)))) 0 (cm_loaded_restore_state manager)).

(** The number of bytes is an [i32]; the buffer holds [buffer_size] bytes. *)
Definition hetgpu_checkpoint_get_memory_data (index : Z) (buffer : option (list Z)) (buffer_size : Z) (s : ckpt_state)
    : ckpt_state * option (list Z) * Z :=
  let '(s, r) := loaded_region s index in
  match r with
  | inl e => (s, buffer, e)
  | inr region =>
      let copy_size := Nat.min (Z.to_nat buffer_size) (length (rr_data region)) in
      (s, (fun b => take copy_size (rr_data region) ++ drop copy_size b) <$> buffer, to_signed 32 (Z.of_nat copy_size))
  end.

Definition hetgpu_checkpoint_save_with_state (instruction_offset num_registers : Z) (registers : option (list CRegisterValue))
    (num_predicates : Z) (predicates : option (list CRegisterValue)) (path_buf : option (list Z)) (path_buf_size timestamp : Z)
    (s : ckpt_state) : ckpt_state * option (list Z) * Z :=
  let thread_state := thread_of_registers instruction_offset num_registers registers num_predicates predicates in
  let '(manager, (c, w)) := get_checkpoint_manager env s in
  let '(w, r) := save_checkpoint_with_execution_state manager timestamp None instruction_offset [thread_state] w in
  match r with
  | Ok path =>
      ((c, w), (fun b => if 0 <? path_buf_size then write_cstring (string_bytes path) path_buf_size b else b) <$> path_buf, 0)
  | _ => ((c, w), path_buf, -2)
  end.

Definition hetgpu_get_instrumented_ptx (original_ptx : option (list Z)) (resume_ip num_registers : Z)
    (registers : option (list CRegisterValue)) (num_predicates : Z) (predicates : option (list CRegisterValue)) : option string :=
  bytes ← original_ptx;
  original ← from_utf8 bytes;
  cstring_new (instrument_ptx_for_migration original
    (Some (thread_of_registers resume_ip num_registers registers num_predicates predicates))).

Definition hetgpu_checkpoint_get_resume_ip (c : ckpt) : Z := from_option cd_resume_ip 0 (ck_loaded c).

Definition hetgpu_checkpoint_get_thread_state_count (c : ckpt) : Z :=
  from_option (fun d => wrap 32 (Z.of_nat (length (cd_thread_states d)))) 0 (ck_loaded c).

Definition loaded_thread (c : ckpt) (index : Z) : option ThreadExecutionState :=
  d ← ck_loaded c; cd_thread_states d !! Z.to_nat index.

Definition hetgpu_checkpoint_get_thread_state (index : Z) (state : option CThreadState) (c : ckpt) : option CThreadState * Z :=
  match state with
  | None => (None, -1)
  | Some out =>
      match loaded_thread c index with
      | Some ts => (Some (mkCThreadState (te_instruction_offset ts) (te_ptx_line ts) (te_block_id ts) (te_thread_id ts)
                      (te_active_mask ts) (wrap 32 (Z.of_nat (size (te_registers ts))))), 0)
      | None => (Some out, -2)
      end
  end.

Definition hetgpu_checkpoint_get_register (thread_index : Z) (reg_name : option (list Z)) (value : option Z) (c : ckpt)
    : option Z * Z :=
  match reg_name, value with
  | Some bytes, Some _ =>
      match from_utf8 bytes with
      | None => (value, -2)
      | Some name =>
          match loaded_thread c thread_index ≫= (fun ts => te_registers ts !! name) with
          | Some val => (Some val, 0)
          | None => (value, -3)
          end
      end
  | _, _ => (value, -1)
  end.

Definition hetgpu_parse_ptx_instruction_count (ptx : option (list Z)) : Z :=
  match ptx with
  | None => -1
  | Some bytes =>
      match from_utf8 bytes with
      | None => -2
      | Some ptx_str => to_signed 32 (Z.of_nat (length (parse_ptx_instructions ptx_str)))
      end
  end.
End Interface.
