(* ===== verification/CheckpointRestoreSpec.v ===== *)
(** * A saved thread comes back; a restore does not use it

    The C functions composed: the thread state that is saved is what the loaded
    checkpoint answers with.  Then what restoring does with memory regions and
    arguments, and what it leaves out. *)
From stdpp Require Import base numbers list strings gmap.
From Stdlib Require Import ZArith Lia.
From S2P Require Import Prelude HostIO Delta Aof RustStr Sass Encoding Cubin Runtime Replay CubinParser Checkpoint CheckpointSpec CheckpointPtx CheckpointRestore.

Open Scope Z_scope.

(** The C string at the start of a buffer *)
Fixpoint c_string (buffer : list Z) : list Z :=
  match buffer with
  | [] => []
  | b :: rest => if b =? 0 then [] else b :: c_string rest
  end.

Lemma c_string_stops bytes rest : 0 ∉ bytes -> c_string (bytes ++ 0 :: rest) = bytes.
Proof.
  induction bytes as [|b bytes IH]; intros Hn; [done|]. apply not_elem_of_cons in Hn as [Hb Hn]. cbn.
  rewrite (proj2 (Z.eqb_neq _ _)) by congruence. by rewrite IH.
Qed.

Lemma write_cstring_fits bytes size buffer : 0 ∉ bytes -> Z.of_nat (length bytes) < size ->
  c_string (write_cstring bytes size buffer) = bytes.
Proof.
  intros Hn Hs. unfold write_cstring. rewrite Nat.min_l, firstn_all by lia. by apply c_string_stops.
Qed.

(** Registers of an array *)
Definition last_named (regs : list CRegisterValue) (r : CRegisterValue) : Prop :=
  exists before after, regs = before ++ r :: after /\ Forall (fun r' => rv_name r' <> rv_name r) after.

Lemma register_entries_other {A} (g : Z -> A) regs name : Forall (fun r' => rv_name r' <> name) regs ->
  forall m, foldl (register_entry g) m regs !! name = m !! name.
Proof.
  induction 1 as [|r regs Hr _ IH]; intros m; [done|]. cbn [foldl]. rewrite IH. unfold register_entry.
  destruct (String.eqb _ _); [done|]. by rewrite lookup_insert_ne.
Qed.

Lemma register_map_last {A} (g : Z -> A) regs r : last_named regs r -> rv_name r <> ""%string ->
  register_map g (Z.of_nat (length regs)) (Some regs) !! rv_name r = Some (g (rv_value r)).
Proof.
  intros (before & after & -> & Hafter) Hne. unfold register_map. rewrite Nat2Z.id, firstn_all, foldl_app. cbn [foldl].
  rewrite register_entries_other by done. unfold register_entry. rewrite (proj2 (String.eqb_neq _ _)) by done.
  by rewrite lookup_insert_eq.
Qed.

Section Calls.
Context `{MapOrder} `{CheckpointJson} (f : features) (env : environment).

Lemma save_state_loads m t ip threads w bytes :
  let path := path_join (cm_checkpoint_dir m) (checkpoint_file_name t) in
  let d := checkpoint_data_of m t None ip threads in
  path ∉ denied w -> write_faults w = [] -> read_fault w = None -> checkpoint_text d = Some bytes ->
  from_utf8 bytes ≫= parse_checkpoint = Some d ->
  exists w', save_checkpoint_with_execution_state m t None ip threads w = (w', Ok path) /\ load_checkpoint path w' = Ok d.
Proof.
  intros path d Hd Hf Hr Ht Hp. destruct (fs_write_Ok path bytes w Hd Hf) as (w' & Hw & Hfile & Hd' & Hr').
  exists w'. split.
  - unfold save_checkpoint_with_execution_state. fold d. rewrite Ht. cbn [ok_or].
    unfold stm_lift, mbind, stm_bind. fold path. by rewrite Hw.
  - unfold load_checkpoint. rewrite (read_text_Ok path w' bytes) by congruence.
    destruct (from_utf8 bytes) as [text|]; [|done]. cbn in Hp |- *. by rewrite Hp.
Qed.

(** Updating the manager leaves the loaded checkpoint. *)
Lemma update_manager_loaded g s : ck_loaded (fst (update_manager env g s)) = ck_loaded (fst s).
Proof.
  destruct s as [c w]. unfold update_manager, get_checkpoint_manager, get_checkpoint_dir, checkpoint_manager_new, create_dir_all.
  destruct (ck_manager c); [done|]. destruct (ck_dir c); case_decide; done.
Qed.

Lemma load_sets_loaded path bytes c w d : from_utf8 bytes = Some path -> load_checkpoint path w = Ok d ->
  exists s, hetgpu_checkpoint_load f env (Some bytes) (c, w) = (s, 0) /\ ck_loaded (fst s) = Some d.
Proof.
  intros Hu Hl. unfold hetgpu_checkpoint_load. rewrite Hu, Hl. eexists. split; [done|].
  destruct (restore_of_checkpoint f d); [by rewrite update_manager_loaded|done].
Qed.

(** [C37] A thread state saved through the C interface is read back: the save
    writes the path of the file into the caller's buffer as a C string; loading
    that path gives back the instruction number, one thread state with the mask,
    and under the name of every register the value of its last entry in the
    array that was passed, whatever the process did before and whatever the
    kernels and modules it had.  The JSON of the saved data is assumed to parse
    to the same data, and the file to be writable. *)
Theorem saved_state_reads_back (s : ckpt_state) (ip t size : Z) (regs preds : list CRegisterValue) (buffer bytes : list Z)
    (out : CThreadState) :
  let m := fst (get_checkpoint_manager env s) in
  let w := snd (snd (get_checkpoint_manager env s)) in
  let path := path_join (cm_checkpoint_dir m) (checkpoint_file_name t) in
  let nregs := Z.of_nat (length regs) in
  let npreds := Z.of_nat (length preds) in
  let d := checkpoint_data_of m t None ip [thread_of_registers ip nregs (Some regs) npreds (Some preds)] in
  path ∉ denied w -> write_faults w = [] -> read_fault w = None -> checkpoint_text d = Some bytes ->
  from_utf8 bytes ≫= parse_checkpoint = Some d ->
  0 ∉ string_bytes path -> from_utf8 (string_bytes path) = Some path -> Z.of_nat (length (string_bytes path)) < size ->
  exists s1 buffer' s2,
    hetgpu_checkpoint_save_with_state env ip nregs (Some regs) npreds (Some preds) (Some buffer) size t s =
      (s1, Some buffer', 0) /\
    hetgpu_checkpoint_load f env (Some (c_string buffer')) s1 = (s2, 0) /\
    hetgpu_checkpoint_get_resume_ip (fst s2) = ip /\
    hetgpu_checkpoint_get_thread_state_count (fst s2) = 1 /\
    (exists ct, hetgpu_checkpoint_get_thread_state 0 (Some out) (fst s2) = (Some ct, 0) /\
       ct_instruction_offset ct = ip /\ ct_active_mask ct = 2 ^ 64 - 1) /\
    forall r name v, last_named regs r -> rv_name r <> ""%string -> from_utf8 name = Some (rv_name r) ->
      hetgpu_checkpoint_get_register 0 (Some name) (Some v) (fst s2) = (Some (rv_value r), 0).
Proof.
  intros m w path nregs npreds d Hd Hf Hr Ht Hp Hz Hu Hs.
  destruct (save_state_loads m t ip _ w bytes Hd Hf Hr Ht Hp) as (w' & Hsave & Hload). fold path in Hsave, Hload.
  unfold hetgpu_checkpoint_save_with_state. destruct (get_checkpoint_manager env s) as [m0 [c0 w0]]. cbn [fst snd] in *.
  subst m w. rewrite Hsave. assert ((0 <? size) = true) as -> by (apply Z.ltb_lt; lia). cbn [fmap option_fmap option_map].
  destruct (load_sets_loaded path (string_bytes path) c0 w' d Hu Hload) as (s2 & Hs2 & Hloaded).
  eexists _, _, s2. split; [done|]. rewrite write_cstring_fits by done. split; [exact Hs2|].
  unfold hetgpu_checkpoint_get_resume_ip, hetgpu_checkpoint_get_thread_state_count, hetgpu_checkpoint_get_thread_state,
    hetgpu_checkpoint_get_register, loaded_thread. rewrite Hloaded.
  split; [done|]. split; [done|]. split; [eexists; split; [done|]; done|].
  intros r name v Hlast Hne Hname. rewrite Hname.
  change (match register_map id nregs (Some regs) !! rv_name r with
    Some val => (Some val, 0) | None => (Some v, -3) end = (Some (rv_value r), 0)).
  unfold nregs. by rewrite (register_map_last id regs r Hlast Hne).
Qed.
End Calls.

(** ** A sample save *)
Definition sample_registers : list CRegisterValue :=
  [mkCRegisterValue "%r1" 5 0; mkCRegisterValue "%rd1" 4096 1; mkCRegisterValue "%r1" 6 0]%string.

Definition sample_state_data : CheckpointData :=
  mkCheckpointData 1 300 [] ∅ None 3 [thread_of_registers 3 3 (Some sample_registers) 0 (Some [])].

Definition sample_state_json : CheckpointJson := {|
  checkpoint_text _ := Some [123; 125]; parse_checkpoint _ := Some sample_state_data;
  fine_grained_text _ := None; parse_fine_grained _ := None; restore_state_text _ := None; parse_restore_state _ := None;
|}.

Definition virtual_backend : features := mkFeatures false false false false.

Lemma saved_state_reads_back_witness :
  exists s1 buffer s2,
    @hetgpu_checkpoint_save_with_state listed_order sample_state_json no_env 3 3 (Some sample_registers) 0 (Some [])
      (Some (replicate 80 0)) 80 300 (ckpt_start, mkWorld ∅ ∅ [] None) = (s1, Some buffer, 0) /\
    @hetgpu_checkpoint_load listed_order sample_state_json virtual_backend no_env (Some (c_string buffer)) s1 = (s2, 0) /\
    hetgpu_checkpoint_get_resume_ip (fst s2) = 3 /\
    hetgpu_checkpoint_get_register 0 (Some (string_bytes "%r1")) (Some 0) (fst s2) = (Some 6, 0).
Proof.
  destruct (@saved_state_reads_back listed_order sample_state_json virtual_backend no_env (ckpt_start, mkWorld ∅ ∅ [] None)
    3 300 80 sample_registers [] (replicate 80 0) [123; 125] (mkCThreadState 0 0 (0, 0, 0) (0, 0, 0) 0 0))
    as (s1 & b & s2 & Hs & Hl & Hip & _ & _ & Hr);
    [apply not_elem_of_empty|vm_compute; reflexivity..| |vm_compute; reflexivity|vm_compute; reflexivity|].
  { refine (bool_decide_unpack _ _). vm_compute. exact I. }
  exists s1, b, s2. split; [exact Hs|]. split; [exact Hl|]. split; [exact Hip|].
  apply (Hr (mkCRegisterValue "%r1" 6 0)); [|discriminate|vm_compute; reflexivity].
  exists (take 2 sample_registers), []. split; [reflexivity|constructor].
Defined.

(** ** What restoring does *)
Definition new_address (region : MemoryRegionRestore) : Z := wrapping_add 64 0x10000000 (rr_size region).

Definition region_mapping (region : MemoryRegionRestore) : Z * Z := (rr_original_addr region, new_address region).

Lemma allocate_regions_Ok regions :
  allocate_regions regions = Ok ((fun r => (rr_original_addr r, new_address r, rr_data r)) <$> regions).
Proof. induction regions as [|r regions IH]; [done|]. cbn -[wrapping_add]. by rewrite IH. Qed.

Lemma apply_allocations_Ok regions : forall s mappings,
  apply_allocations ((fun r => (rr_original_addr r, new_address r, rr_data r)) <$> regions) s mappings =
  Ok (gs_set_remap (foldl (fun m p => <[fst p := snd p]> m) (gs_address_remap s) (region_mapping <$> regions)) s,
      mappings ++ (region_mapping <$> regions)).
Proof.
  induction regions as [|r regions IH]; intros s mappings; [destruct s; by rewrite app_nil_r|].
  cbn -[new_address gs_set_remap]. rewrite IH. cbn -[new_address]. by rewrite <- app_assoc.
Qed.

(** The address that an argument gets: that of the last region which starts there *)
Definition remap_table (regions : list MemoryRegionRestore) (known : gmap Z Z) : gmap Z Z :=
  foldl (fun m p => <[fst p := snd p]> m) known (region_mapping <$> regions).

(** Restoring never fails. *)
Lemma restore_result `{MapOrder} g :
  let s := gr_state g in
  let s' := gs_set_remap (remap_table (gs_memory_regions s) (gs_address_remap s)) s in
  exists res, restore g = Ok (mkGpuRestorer s' (gr_target_backend g), res) /\
    rs_memory_mappings res = region_mapping <$> gs_memory_regions s /\
    rs_remapped_args res = remapped_arg s' <$> gs_kernel_args s /\
    rs_resume_point res = resume_point_of <$> gs_thread_state s /\
    (rs_instrumented res = true <->
       exists t, gs_thread_state s = Some t /\ gs_ptx_source s <> ""%string /\ 0 < te_instruction_offset t).
Proof.
  intros s s'. unfold restore. rewrite allocate_regions_Ok. cbn [mbind outcome_bind]. rewrite apply_allocations_Ok.
  fold (remap_table (gs_memory_regions (gr_state g)) (gs_address_remap (gr_state g))). fold s s'. cbn [mbind outcome_bind].
  unfold resume_text. change (gs_thread_state s') with (gs_thread_state s). change (gs_ptx_source s') with (gs_ptx_source s).
  destruct (gs_thread_state s) as [t|].
  - destruct (negb (String.eqb (gs_ptx_source s) "") && (0 <? te_instruction_offset t)) eqn:Hc; eexists; (split; [done|]);
      split_and!; try done; cbn.
    + apply andb_true_iff in Hc as [Hn Hi]. apply negb_true_iff, String.eqb_neq in Hn. apply Z.ltb_lt in Hi. naive_solver.
    + split; [done|]. intros (t' & [= <-] & Hn & Hi). apply String.eqb_neq in Hn. apply Z.ltb_lt in Hi. by rewrite Hn, Hi in Hc.
  - eexists. split; [done|]. split_and!; try done. cbn. split; [done|]. by intros (? & ? & _).
Qed.

(** Regions of one size get one address. *)
Lemma restore_aliases_equal_sizes r1 r2 : rr_size r1 = rr_size r2 -> new_address r1 = new_address r2.
Proof. unfold new_address. by intros ->. Qed.

(** A loaded checkpoint has no thread state to resume, whatever was saved: the
    text is never instrumented and the caller's resume fields stay. *)
Lemma loaded_checkpoint_not_resumed `{MapOrder} f d st : restore_of_checkpoint f d = Some st ->
  exists g res, restore (gpu_restorer_new f st) = Ok (g, res) /\ rs_instrumented res = false /\
    rs_memory_mappings res = [] /\ rs_resume_point res = None /\
    forall out, cr_resume_instruction_offset (fill_result res out) = cr_resume_instruction_offset out.
Proof.
  intros Hst. assert (gs_thread_state st = None /\ gs_memory_regions st = []) as [Ht Hm].
  { unfold restore_of_checkpoint in Hst. destruct (cd_active_kernels d) as [|k ks].
    - destruct (head _) as [[? ?]|]; [|done]. by injection Hst as <-.
    - destruct (ke_ptx_source k); [|done]. by injection Hst as <-. }
  destruct (restore_result (gpu_restorer_new f st)) as (res & Hr & Hmap & _ & Hp & Hi). cbn [gpu_restorer_new gr_state] in *.
  rewrite Ht, Hm in *. eexists _, res. split; [exact Hr|]. split_and!; try done.
  - apply not_true_is_false. intros Htrue. by apply Hi in Htrue as (? & ? & _).
  - intros out. unfold fill_result. by rewrite Hp.
Qed.

(** The two ways to name the backend differ for an NVIDIA build. *)
Lemma nvidia_is_virtual : let f := mkFeatures true false false false in
  detect_backend f = "nvidia"%string /\ detect_current_backend f = "virtual"%string.
Proof. done. Qed.
