(* ===== verification/CompileCheckpoint.v ===== *)
(** * Checkpoints of a compilation ([ptx/src/checkpoint.rs],
    [ptx/src/checkpoint_integration.rs])

    A manager keeps the state of compilations by id, in memory and as files; a
    compiler records each stage of a compilation in it and can resume one.  The
    parser, LLVM and their messages are parameters ([Toolchain]), as are JSON,
    base64 and the order of hash maps; the clock and the random number of an id
    are arguments.  The report, which changes nothing, is left out. *)
From stdpp Require Import base numbers list strings gmap sorting.
From Stdlib Require Import ZArith Lia.
From S2P Require Import Prelude HostIO Delta Aof RustStr Runtime Replay CubinParser Checkpoint.

Open Scope Z_scope.

(** ** Data *)
Record PtxSourceLocation : Type := mkPtxSourceLocation {
  psl_file : string;
  psl_line : Z;
  psl_column : Z;
  psl_instruction_offset : Z;
}.

Inductive TargetInstruction : Type :=
| AmdGcn (instruction : string) (address : Z) (register_state : gmap string string)
| IntelSpirv (instruction : string) (opcode : Z) (operands : list string)
| SassInstruction (instruction : string) (address : Z) (predicate : option string).

Inductive VariableLocation : Type :=
| VarRegister (name : string)
| VarMemory (address size : Z)
| VarConstant (value : string).

Record DwarfMappingEntry : Type := mkDwarfMapping {
  dm_ptx_location : PtxSourceLocation;
  dm_target_instructions : list TargetInstruction;
  dm_variable_mappings : gmap string VariableLocation;
  dm_scope_id : Z;
}.

Inductive CompilationStage : Type :=
| PtxParsing | LlvmGeneration | LlvmOptimization | SpirvConversion | DebugGeneration | StageCompleted | StageFailed.

Record CompileMetadata : Type := mkCompileMetadata {
  me_id : string;
  me_timestamp : Z;
  me_zluda_version : string;
  me_created_at : string;
  me_description : string;
  me_source_file_path : option string;
}.

Record ErrorInfo : Type := mkErrorInfo {
  ei_error_type : string;
  ei_message : string;
  ei_source_location : option PtxSourceLocation;
  ei_call_stack : list string;
  ei_llvm_context : option string;
}.

Record CompileOptions : Type := mkCompileOptions {
  co_optimization_level : Z;
  co_debug_enabled : bool;
  co_target_arch : string;
  co_address_space_strategy : string;
  co_custom_flags : gmap string string;
}.

Record PerformanceStats : Type := mkPerformanceStats {
  pf_ptx_parse_time_ms : Z;
  pf_llvm_gen_time_ms : Z;
  pf_spirv_conv_time_ms : Z;
  pf_total_time_ms : Z;
  pf_peak_memory_bytes : Z;
  pf_llvm_ir_size_bytes : Z;
  pf_spirv_binary_size_bytes : Z;
}.

Definition stats_default : PerformanceStats := mkPerformanceStats 0 0 0 0 0 0 0.

Definition options_default : CompileOptions := mkCompileOptions 2 true "x86_64" "spirv_compatible" ∅.

Record CompilationCheckpoint : Type := mkCompilation {
  cc_metadata : CompileMetadata;
  cc_ptx_source : string;
  cc_llvm_ir : option string;
  cc_spirv_binary : option string;
  cc_compilation_stage : CompilationStage;
  cc_error_info : option ErrorInfo;
  cc_debug_mappings : list DwarfMappingEntry;
  cc_source_mappings : gmap Z PtxSourceLocation;
  cc_compile_options : CompileOptions;
  cc_performance_stats : PerformanceStats;
}.

Definition cc_set_metadata (x : CompileMetadata) (c : CompilationCheckpoint) : CompilationCheckpoint :=
  mkCompilation x (cc_ptx_source c) (cc_llvm_ir c) (cc_spirv_binary c) (cc_compilation_stage c) (cc_error_info c)
    (cc_debug_mappings c) (cc_source_mappings c) (cc_compile_options c) (cc_performance_stats c).
Definition cc_set_llvm (x : option string) (c : CompilationCheckpoint) : CompilationCheckpoint :=
  mkCompilation (cc_metadata c) (cc_ptx_source c) x (cc_spirv_binary c) (cc_compilation_stage c) (cc_error_info c)
    (cc_debug_mappings c) (cc_source_mappings c) (cc_compile_options c) (cc_performance_stats c).
Definition cc_set_spirv (x : option string) (c : CompilationCheckpoint) : CompilationCheckpoint :=
  mkCompilation (cc_metadata c) (cc_ptx_source c) (cc_llvm_ir c) x (cc_compilation_stage c) (cc_error_info c)
    (cc_debug_mappings c) (cc_source_mappings c) (cc_compile_options c) (cc_performance_stats c).
Definition cc_set_stage (x : CompilationStage) (c : CompilationCheckpoint) : CompilationCheckpoint :=
  mkCompilation (cc_metadata c) (cc_ptx_source c) (cc_llvm_ir c) (cc_spirv_binary c) x (cc_error_info c)
    (cc_debug_mappings c) (cc_source_mappings c) (cc_compile_options c) (cc_performance_stats c).
Definition cc_set_error (x : option ErrorInfo) (c : CompilationCheckpoint) : CompilationCheckpoint :=
  mkCompilation (cc_metadata c) (cc_ptx_source c) (cc_llvm_ir c) (cc_spirv_binary c) (cc_compilation_stage c) x
    (cc_debug_mappings c) (cc_source_mappings c) (cc_compile_options c) (cc_performance_stats c).
Definition cc_set_mappings (x : list DwarfMappingEntry) (c : CompilationCheckpoint) : CompilationCheckpoint :=
  mkCompilation (cc_metadata c) (cc_ptx_source c) (cc_llvm_ir c) (cc_spirv_binary c) (cc_compilation_stage c)
    (cc_error_info c) x (cc_source_mappings c) (cc_compile_options c) (cc_performance_stats c).
Definition cc_set_stats (x : PerformanceStats) (c : CompilationCheckpoint) : CompilationCheckpoint :=
  mkCompilation (cc_metadata c) (cc_ptx_source c) (cc_llvm_ir c) (cc_spirv_binary c) (cc_compilation_stage c)
    (cc_error_info c) (cc_debug_mappings c) (cc_source_mappings c) (cc_compile_options c) x.

Definition pf_set_llvm_size (n : Z) (p : PerformanceStats) : PerformanceStats :=
  mkPerformanceStats (pf_ptx_parse_time_ms p) (pf_llvm_gen_time_ms p) (pf_spirv_conv_time_ms p) (pf_total_time_ms p)
    (pf_peak_memory_bytes p) n (pf_spirv_binary_size_bytes p).
Definition pf_set_spirv_size (n : Z) (p : PerformanceStats) : PerformanceStats :=
  mkPerformanceStats (pf_ptx_parse_time_ms p) (pf_llvm_gen_time_ms p) (pf_spirv_conv_time_ms p) (pf_total_time_ms p)
    (pf_peak_memory_bytes p) (pf_llvm_ir_size_bytes p) n.

Definition me_set_timestamp (t : Z) (x : CompileMetadata) : CompileMetadata :=
  mkCompileMetadata (me_id x) t (me_zluda_version x) (me_created_at x) (me_description x) (me_source_file_path x).

(** ** Parameters *)
Class CompileJson : Type := {
  compilation_text : CompilationCheckpoint -> option (list Z);
  parse_compilation : string -> option CompilationCheckpoint;
}.

(** The [base64] crate *)
Class Base64 : Type := {
  base64_encode : list Z -> string;
  base64_decode : string -> option (list Z);
}.

(** ** The manager *)
Inductive CompileCkptError : Type :=
| CheckpointNotFound (id : string)
| CompileIoError
| CompileSerializationError
| CompileDeserializationError
| CompileInvalidData.

Record CompileManager : Type := mkCompileManager {
  pm_checkpoint_dir : string;
  pm_active_checkpoints : gmap string CompilationCheckpoint;
  pm_auto_save_interval : Z;
  pm_max_checkpoints : Z;
}.

Definition pm_set_active (a : gmap string CompilationCheckpoint) (m : CompileManager) : CompileManager :=
  mkCompileManager (pm_checkpoint_dir m) a (pm_auto_save_interval m) (pm_max_checkpoints m).

Definition compile_manager_new (checkpoint_dir : string) : stm world io_error CompileManager :=
  create_dir_all checkpoint_dir;;
  mret (mkCompileManager checkpoint_dir ∅ 300 100).

Definition compile_id (timestamp random : Z) : string :=
  String.append "checkpoint_" (String.append (dec timestamp) (String.append "_" (dec random))).

Section Manager.
(** The version and the source position that the compiler fills in *)
Context (zluda_version created_at : string).

Definition new_compilation (id ptx_source : string) (stage : CompilationStage) (description : string) (timestamp : Z)
    : CompilationCheckpoint :=
  mkCompilation (mkCompileMetadata id timestamp zluda_version created_at description None) ptx_source None None stage None []
    ∅ options_default stats_default.

Definition create_checkpoint (ptx_source : string) (stage : CompilationStage) (description : string)
    (timestamp random : Z) (m : CompileManager) : CompileManager * string :=
  let id := compile_id timestamp random in
  (pm_set_active (<[id := new_compilation id ptx_source stage description timestamp]> (pm_active_checkpoints m)) m, id).
End Manager.

(** A change of one checkpoint, or the error that it does not exist *)
Definition modify_checkpoint (checkpoint_id : string) (g : CompilationCheckpoint -> CompilationCheckpoint)
    (m : CompileManager) : CompileManager * outcome CompileCkptError unit :=
  match pm_active_checkpoints m !! checkpoint_id with
  | Some checkpoint => (pm_set_active (<[checkpoint_id := g checkpoint]> (pm_active_checkpoints m)) m, Ok tt)
  | None => (m, Err (CheckpointNotFound checkpoint_id))
  end.

Definition update_checkpoint (checkpoint_id : string) (stage : CompilationStage) (timestamp : Z) (m : CompileManager)
    : CompileManager * outcome CompileCkptError unit :=
  modify_checkpoint checkpoint_id
    (fun c => cc_set_metadata (me_set_timestamp timestamp (cc_metadata c)) (cc_set_stage stage c)) m.

Definition add_llvm_ir (checkpoint_id llvm_ir : string) (m : CompileManager) : CompileManager * outcome CompileCkptError unit :=
  modify_checkpoint checkpoint_id
    (fun c => cc_set_llvm (Some llvm_ir)
                (cc_set_stats (pf_set_llvm_size (Z.of_nat (String.length llvm_ir)) (cc_performance_stats c)) c)) m.

Definition add_spirv_binary `{Base64} (checkpoint_id : string) (spirv_binary : list Z) (m : CompileManager)
    : CompileManager * outcome CompileCkptError unit :=
  modify_checkpoint checkpoint_id
    (fun c => cc_set_spirv (Some (base64_encode spirv_binary))
                (cc_set_stats (pf_set_spirv_size (Z.of_nat (length spirv_binary)) (cc_performance_stats c)) c)) m.

(** The error by its debug and its display text *)
Definition add_error (checkpoint_id error_debug error_display : string) (llvm_context : option string) (m : CompileManager)
    : CompileManager * outcome CompileCkptError unit :=
  modify_checkpoint checkpoint_id
    (fun c => cc_set_stage StageFailed (cc_set_error (Some (mkErrorInfo error_debug error_display None [] llvm_context)) c)) m.

Definition add_debug_mappings (checkpoint_id : string) (mappings : list DwarfMappingEntry) (m : CompileManager)
    : CompileManager * outcome CompileCkptError unit :=
  modify_checkpoint checkpoint_id (cc_set_mappings mappings) m.

Definition update_performance_stats (checkpoint_id : string) (stats : PerformanceStats) (m : CompileManager)
    : CompileManager * outcome CompileCkptError unit :=
  modify_checkpoint checkpoint_id (cc_set_stats stats) m.

Definition compile_file (m : CompileManager) (id : string) : string :=
  path_join (pm_checkpoint_dir m) (String.append id ".json").

Definition save_compilation `{CompileJson} (m : CompileManager) (checkpoint_id : string) : stm world CompileCkptError string :=
  match pm_active_checkpoints m !! checkpoint_id with
  | Some checkpoint =>
      let filepath := compile_file m checkpoint_id in
      json_data ← stm_lift (ok_or CompileSerializationError (compilation_text checkpoint));
      stm_map_err (fun _ => CompileIoError) (fs_write filepath json_data);;
      mret filepath
  | None => stm_lift (Err (CheckpointNotFound checkpoint_id))
  end.

Definition load_compilation `{CompileJson} (filepath : string) (m : CompileManager) (w : world)
    : CompileManager * outcome CompileCkptError string :=
  match map_err (fun _ => CompileIoError) (read_text filepath w) with
  | Ok content =>
      match parse_compilation content with
      | Some checkpoint =>
          let id := me_id (cc_metadata checkpoint) in
          (pm_set_active (<[id := checkpoint]> (pm_active_checkpoints m)) m, Ok id)
      | None => (m, Err CompileDeserializationError)
      end
  | Err e => (m, Err e)
  | Panic => (m, Panic)
  end.

Definition get_checkpoint (m : CompileManager) (checkpoint_id : string) : option CompilationCheckpoint :=
  pm_active_checkpoints m !! checkpoint_id.

Definition list_active_checkpoints `{MapOrder} (m : CompileManager) : list CompileMetadata :=
  (fun e => cc_metadata (snd e)) <$> iter_str (pm_active_checkpoints m).

(** ** Cleaning up *)

(** The stable [sort_by_key] on the timestamp *)
Fixpoint insert_by_timestamp (x : string * Z) (l : list (string * Z)) : list (string * Z) :=
  match l with
  | [] => [x]
  | y :: rest => if snd x <=? snd y then x :: l else y :: insert_by_timestamp x rest
  end.

Definition sort_by_timestamp (l : list (string * Z)) : list (string * Z) := foldr insert_by_timestamp [] l.

(** [exists] and [remove_file], whose error is dropped *)
Definition remove_if_exists (path : string) (w : world) : world :=
  if decide (path ∈ denied w) then w else mkWorld (delete path (files w)) (denied w) (write_faults w) (read_fault w).

Definition remove_compilation (s : CompileManager * world) (id : string) : CompileManager * world :=
  let '(m, w) := s in
  (pm_set_active (delete id (pm_active_checkpoints m)) m, remove_if_exists (compile_file m id) w).

Definition ids_with_timestamps `{MapOrder} (m : CompileManager) : list (string * Z) :=
  (fun e => (me_id (cc_metadata (snd e)), me_timestamp (cc_metadata (snd e)))) <$> iter_str (pm_active_checkpoints m).

Definition cleanup_old_checkpoints `{MapOrder} (s : CompileManager * world) : (CompileManager * world) * Z :=
  let sorted := sort_by_timestamp (ids_with_timestamps (fst s)) in
  let n := Z.of_nat (length sorted) in
  let max := pm_max_checkpoints (fst s) in
  if max <? n then
    let oldest := take (Z.to_nat (n - max)) sorted in
    (foldl remove_compilation s (fst <$> oldest), Z.of_nat (length oldest))
  else (s, 0).

(** ** Restoring *)
Record CompilationRestoreInfo : Type := mkCompilationRestore {
  ri_ptx_source : string;
  ri_llvm_ir : option string;
  ri_spirv_binary : option (list Z);
  ri_stage : CompilationStage;
  ri_debug_mappings : list DwarfMappingEntry;
  ri_compile_options : CompileOptions;
}.

Definition restore_compilation_state `{Base64} (m : CompileManager) (checkpoint_id : string)
    : outcome CompileCkptError CompilationRestoreInfo :=
  match pm_active_checkpoints m !! checkpoint_id with
  | Some checkpoint =>
      spirv_binary ← match cc_spirv_binary checkpoint with
                     | Some encoded => Some <$> ok_or CompileDeserializationError (base64_decode encoded)
                     | None => Ok None
                     end;
      Ok (mkCompilationRestore (cc_ptx_source checkpoint) (cc_llvm_ir checkpoint) spirv_binary
            (cc_compilation_stage checkpoint) (cc_debug_mappings checkpoint) (cc_compile_options checkpoint))
  | None => Err (CheckpointNotFound checkpoint_id)
  end.

(** ** The compiler *)

(** The parser and LLVM, with the texts of their errors *)
Class Toolchain : Type := {
  tc_ast : Type;
  tc_module : Type;
  tc_error : Type;
  parse_module_checked : string -> outcome string tc_ast;
  to_llvm_module : tc_ast -> outcome tc_error tc_module;
  print_to_string : tc_module -> outcome string string;
  unexpected_error : string -> tc_error;
  error_debug : tc_error -> string;
  error_display : tc_error -> string;
}.

(** Not implemented: every text is refused. *)
Definition llvm_to_spirv_robust (llvm_ir : string) : outcome string (list Z) := Err "llvm_to_spirv_robust not implemented"%string.

Record CheckpointedCompiler : Type := mkCheckpointedCompiler {
  cp_checkpoint_manager : CompileManager;
  cp_enable_auto_checkpoint : bool;
  cp_checkpoint_frequency : CompilationStage;
}.

Record CompilationResult : Type := mkCompilationResult {
  cres_checkpoint_id : string;
  cres_spirv_binary : option (list Z);
  cres_compilation_time_ms : Z;
  cres_errors : list string;
}.

Inductive CompilationError `{Toolchain} : Type :=
| CompileParseError (e : string)
| CompileLlvmError (e : tc_error)
| CompileSpirvError (e : string)
| CompileCheckpointError (e : CompileCkptError)
| PreviousFailure.

(** The clock: seconds at the creation and the three updates, and elapsed times *)
Record timings : Type := mkTimings {
  tm_create : Z;
  tm_random : Z;
  tm_parsed : Z;
  tm_generated : Z;
  tm_converted : Z;
  tm_parse_ms : Z;
  tm_llvm_ms : Z;
  tm_spirv_ms : Z;
  tm_total_ms : Z;
}.

Definition checkpointed_compiler_new (checkpoint_dir : string) (enable_auto_checkpoint : bool)
    : stm world io_error CheckpointedCompiler :=
  manager ← compile_manager_new checkpoint_dir;
  mret (mkCheckpointedCompiler manager enable_auto_checkpoint LlvmGeneration).

Definition cp_set_manager (m : CompileManager) (c : CheckpointedCompiler) : CheckpointedCompiler :=
  mkCheckpointedCompiler m (cp_enable_auto_checkpoint c) (cp_checkpoint_frequency c).

Section Compiler.
Context `{Toolchain} `{Base64} `{CompileJson} (zluda_version created_at : string).

(** A failed compilation: the error goes into the checkpoint. *)
Definition compile_fails (id : string) (error : tc_error) (llvm_context : option string) (e : CompilationError)
    (m : CompileManager) (w : world) : CompileManager * world * outcome CompilationError CompilationResult :=
  (fst (add_error id (error_debug error) (error_display error) llvm_context m), w, Err e).

(** The third stage, with the conversion as a parameter *)
Definition spirv_stage (to_spirv : string -> outcome string (list Z)) (id : string) (t : timings) (llvm_module : tc_module)
    (m : CompileManager) (w : world) : CompileManager * world * outcome CompilationError CompilationResult :=
  match print_to_string llvm_module with
  | Ok llvm_ir_string =>
      match to_spirv llvm_ir_string with
      | Ok spirv_binary =>
          let m := fst (add_spirv_binary id spirv_binary m) in
          let m := fst (update_checkpoint id StageCompleted (tm_converted t) m) in
          let stats := mkPerformanceStats (tm_parse_ms t) (tm_llvm_ms t) (tm_spirv_ms t) (tm_total_ms t) 0 0 0 in
          let m := fst (update_performance_stats id stats m) in
          let '(w, _) := save_compilation m id w in
          (m, w, Ok (mkCompilationResult id (Some spirv_binary) (tm_total_ms t) []))
      | Err e =>
          compile_fails id (unexpected_error (String.append "SPIR-V转换失败: " e)) (Some llvm_ir_string)
            (CompileSpirvError e) m w
      | Panic => (m, w, Panic)
      end
  | Err e =>
      let error := unexpected_error (String.append "无法转换LLVM模块为字符串: " e) in
      compile_fails id error None (CompileLlvmError error) m w
  | Panic => (m, w, Panic)
  end.

Definition compile_with (to_spirv : string -> outcome string (list Z)) (ptx_source : string) (description : option string)
    (t : timings) (auto_save : bool) (m : CompileManager) (w : world)
    : CompileManager * world * outcome CompilationError CompilationResult :=
  let '(m, id) := create_checkpoint zluda_version created_at ptx_source PtxParsing (default "PTX编译"%string description)
                    (tm_create t) (tm_random t) m in
  match parse_module_checked ptx_source with
  | Ok ast =>
      let m := fst (update_checkpoint id LlvmGeneration (tm_parsed t) m) in
      match to_llvm_module ast with
      | Ok llvm_module =>
          let continue_with m :=
            let w := if auto_save then fst (save_compilation m id w) else w in
            let m := fst (update_checkpoint id SpirvConversion (tm_generated t) m) in
            spirv_stage to_spirv id t llvm_module m w in
          match print_to_string llvm_module with
          | Ok llvm_ir => continue_with (fst (add_llvm_ir id llvm_ir m))
          | Err _ => continue_with m
          | Panic => (m, w, Panic)
          end
      | Err e => compile_fails id e None (CompileLlvmError e) m w
      | Panic => (m, w, Panic)
      end
  | Err e => compile_fails id (unexpected_error (String.append "PTX解析失败: " e)) None (CompileParseError e) m w
  | Panic => (m, w, Panic)
  end.

Definition compiler_state : Type := CheckpointedCompiler * world.

Definition run_compiler (g : CompileManager -> world -> CompileManager * world * outcome CompilationError CompilationResult)
    (s : compiler_state) : compiler_state * outcome CompilationError CompilationResult :=
  let '(m, w, r) := g (cp_checkpoint_manager (fst s)) (snd s) in ((cp_set_manager m (fst s), w), r).

Definition compile_ptx_with_checkpoints (ptx_source : string) (description : option string) (t : timings) (s : compiler_state)
    : compiler_state * outcome CompilationError CompilationResult :=
  run_compiler (compile_with llvm_to_spirv_robust ptx_source description t (cp_enable_auto_checkpoint (fst s))) s.

(** What a restored state leads to, with the compilation as a parameter *)
Definition resume_with (compile : string -> option string -> compiler_state -> compiler_state * outcome CompilationError CompilationResult)
    (checkpoint_id : string) (s : compiler_state) : compiler_state * outcome CompilationError CompilationResult :=
  match restore_compilation_state (cp_checkpoint_manager (fst s)) checkpoint_id with
  | Ok info =>
      match ri_stage info with
      | StageCompleted => (s, Ok (mkCompilationResult checkpoint_id (ri_spirv_binary info) 0 []))
      | StageFailed => (s, Err PreviousFailure)
      | _ => compile (ri_ptx_source info) (Some "恢复编译"%string) s
      end
  | Err e => (s, Err (CompileCheckpointError e))
  | Panic => (s, Panic)
  end.

Definition resume_compilation (t : timings) (checkpoint_id : string) (s : compiler_state)
    : compiler_state * outcome CompilationError CompilationResult :=
  resume_with (fun ptx description => compile_ptx_with_checkpoints ptx description t) checkpoint_id s.

Record CompileSummary : Type := mkCompileSummary {
  cs_id : string;
  cs_description : string;
  cs_timestamp : Z;
  cs_created_at : string;
}.

Definition list_checkpoints `{MapOrder} (c : CheckpointedCompiler) : list CompileSummary :=
  (fun x => mkCompileSummary (me_id x) (me_description x) (me_timestamp x) (me_created_at x))
  <$> list_active_checkpoints (cp_checkpoint_manager c).

Definition cleanup_checkpoints `{MapOrder} (s : compiler_state) : compiler_state * Z :=
  let '((m, w), n) := cleanup_old_checkpoints (cp_checkpoint_manager (fst s), snd s) in
  ((cp_set_manager m (fst s), w), n).

Definition compile_ptx_with_auto_checkpoint (ptx_source checkpoint_dir : string) (description : option string) (t : timings)
    (w : world) : world * outcome CompilationError CompilationResult :=
  let '(w, r) := checkpointed_compiler_new checkpoint_dir true w in
  match r with
  | Ok compiler => let '((_, w), r) := compile_ptx_with_checkpoints ptx_source description t (compiler, w) in (w, r)
  | Err _ => (w, Err (CompileCheckpointError CompileIoError))
  | Panic => (w, Panic)
  end.
End Compiler.
