(* ===== verification/CompileCheckpointSpec.v ===== *)
(** * What checkpoints of a compilation promise

    A compilation leaves its outcome in its checkpoint, from which resuming gives
    the same answer; cleaning up keeps the newest checkpoints. *)
From stdpp Require Import base numbers list strings gmap sorting.
From Stdlib Require Import ZArith Lia Ascii.
From S2P Require Import Prelude HostIO Delta Aof RustStr Sass Encoding Cubin Runtime Replay CubinParser Checkpoint CheckpointSpec CompileCheckpoint.

Open Scope Z_scope.

(** ** One checkpoint through the operations *)
Definition holds (m : CompileManager) (id : string) (c : CompilationCheckpoint) : Prop := pm_active_checkpoints m !! id = Some c.

Lemma modify_holds m id c g : holds m id c -> holds (fst (modify_checkpoint id g m)) id (g c).
Proof. intros Hc. unfold modify_checkpoint. rewrite Hc. apply lookup_insert_eq. Qed.

Lemma create_holds v a src stage d t r m :
  let '(m', id) := create_checkpoint v a src stage d t r m in
  id = compile_id t r /\ holds m' id (new_compilation v a id src stage d t).
Proof. split; [done|]. apply lookup_insert_eq. Qed.

#[local] Hint Resolve modify_holds : ckpt.

Section Compile.
Context `{Toolchain} `{Base64} `{CompileJson} (v a : string).

(** What resuming answers for a checkpoint *)
Definition resumed (to_spirv : string -> outcome string (list Z)) (id : string) (c : CompilationCheckpoint) (r : outcome CompilationError CompilationResult) : Prop :=
  match r with
  | Ok res =>
      exists ir bin, to_spirv ir = Ok bin /\ cc_compilation_stage c = StageCompleted /\ cc_spirv_binary c = Some (base64_encode bin) /\
        cres_spirv_binary res = Some bin /\ cres_checkpoint_id res = id
  | Err e => cc_compilation_stage c = StageFailed /\ cc_spirv_binary c = None /\ e <> PreviousFailure
  | Panic => True
  end.

Lemma fails_resumed to_spirv id error ctx e m w c : holds m id c -> cc_spirv_binary c = None -> e <> PreviousFailure ->
  let '(m', _, r) := compile_fails id error ctx e m w in exists c', holds m' id c' /\ resumed to_spirv id c' r.
Proof. intros Hc Hb He. unfold compile_fails, add_error. eexists. split; [by apply modify_holds|]. done. Qed.

Lemma spirv_resumed to_spirv id t lm m w c : holds m id c -> cc_spirv_binary c = None ->
  let '(m', _, r) := spirv_stage to_spirv id t lm m w in exists c', holds m' id c' /\ resumed to_spirv id c' r.
Proof.
  intros Hc Hb. unfold spirv_stage. destruct (print_to_string lm) as [ir|e|]; [|by eapply fails_resumed|by exists c].
  destruct (to_spirv ir) as [bin|e|] eqn:Hir; [|by eapply fails_resumed|by exists c].
  cbv zeta. unfold add_spirv_binary, update_checkpoint, update_performance_stats.
  destruct (save_compilation _ id w) as [w' r]. eexists. split; [by do 3 apply modify_holds|]. by exists ir, bin.
Qed.

Lemma compile_resumed to_spirv src d t auto m w :
  let id := compile_id (tm_create t) (tm_random t) in
  let '(m', _, r) := compile_with v a to_spirv src d t auto m w in exists c', holds m' id c' /\ resumed to_spirv id c' r.
Proof.
  intros id. unfold compile_with.
  pose proof (create_holds v a src PtxParsing (default "PTX编译"%string d) (tm_create t) (tm_random t) m) as Hcr.
  destruct (create_checkpoint _ _ _ _ _ _ _ m) as [m1 id1]. destruct Hcr as [-> Hc]. fold id in Hc |- *.
  destruct (parse_module_checked src) as [ast|e|]; [|by eapply fails_resumed|by eexists].
  unfold update_checkpoint. apply (modify_holds _ _ _ (fun c => cc_set_metadata (me_set_timestamp (tm_parsed t) (cc_metadata c)) (cc_set_stage LlvmGeneration c))) in Hc.
  set (m2 := fst (modify_checkpoint id _ m1)) in *. clearbody m2.
  destruct (to_llvm_module ast) as [lm|e|]; [|by eapply fails_resumed|by eexists].
  destruct (print_to_string lm) as [llvm_ir|e|]; [| |by eexists]; cbv zeta.
  - eapply spirv_resumed; [by apply modify_holds, modify_holds|done].
  - eapply spirv_resumed; [by apply modify_holds|done].
Qed.

(** [C40] The outcome of a compilation is what its checkpoint answers. For every parser,
    code generator and converter, every manager and whatever can be written to
    disk: when the compilation succeeds, resuming from its checkpoint returns the
    same binary under the same id without compiling again; when a stage fails,
    resuming is refused as a previous failure.  The base64 crate is assumed to
    decode the bytes that it encoded. *)
Theorem resume_repeats_outcome to_spirv src d t c w compile :
  (forall bin, Forall (fun b => 0 <= b < 256) bin -> base64_decode (base64_encode bin) = Some bin) ->
  (forall ir bin, to_spirv ir = Ok bin -> Forall (fun b => 0 <= b < 256) bin) ->
  let id := compile_id (tm_create t) (tm_random t) in
  let '(s', r) := run_compiler (compile_with v a to_spirv src d t (cp_enable_auto_checkpoint c)) (c, w) in
  match r with
  | Ok res => resume_with compile id s' = (s', Ok (mkCompilationResult id (cres_spirv_binary res) 0 [])) /\
      cres_checkpoint_id res = id /\ is_Some (cres_spirv_binary res)
  | Err e => resume_with compile id s' = (s', Err PreviousFailure) /\ e <> PreviousFailure
  | Panic => True
  end.
Proof.
  intros Hdec Hbytes id. unfold run_compiler. cbn [fst snd].
  pose proof (compile_resumed to_spirv src d t (cp_enable_auto_checkpoint c) (cp_checkpoint_manager c) w) as Hr. fold id in Hr.
  destruct (compile_with _ _ _ _ _ _ _ _ _) as [[m' w'] r]. destruct Hr as (c' & Hc & Hr).
  unfold resume_with, restore_compilation_state. cbn [fst snd cp_set_manager cp_checkpoint_manager]. unfold holds in Hc.
  destruct r as [res|e|]; [| |done]; rewrite Hc; cbn [resumed] in Hr.
  - destruct Hr as (ir & bin & Hbin & Hst & -> & -> & ->). rewrite Hdec by (by eapply Hbytes). cbn. rewrite Hst. by eauto.
  - destruct Hr as (Hst & -> & He). cbn. rewrite Hst. done.
Qed.

(** The converter of the repository refuses every text: nothing is ever compiled. *)
Lemma checkpointed_compile_never_succeeds src d t s : is_ok (snd (compile_ptx_with_checkpoints v a src d t s)) = false.
Proof.
  destruct s as [c w]. unfold compile_ptx_with_checkpoints, run_compiler, compile_with. cbn [fst snd].
  destruct (create_checkpoint _ _ _ _ _ _ _ _) as [m id]. destruct (parse_module_checked src); [|done..].
  destruct (to_llvm_module _); [|done..]. unfold spirv_stage. destruct (print_to_string _) eqn:Hp; by rewrite ?Hp.
Qed.

(** Final statistics replace those that hold the sizes. *)
Lemma final_stats_lose_sizes to_spirv id t lm m w c bin m' w' res : holds m id c ->
  spirv_stage to_spirv id t lm m w = (m', w', Ok res) -> cres_spirv_binary res = Some bin ->
  exists c', holds m' id c' /\ pf_spirv_binary_size_bytes (cc_performance_stats c') = 0 /\
    pf_llvm_ir_size_bytes (cc_performance_stats c') = 0.
Proof.
  intros Hc Hrun _. unfold spirv_stage in Hrun. destruct (print_to_string lm) as [ir| |]; [|done..].
  destruct (to_spirv ir) as [b| |]; [|done..]. cbv zeta in Hrun. unfold add_spirv_binary, update_checkpoint, update_performance_stats in Hrun.
  destruct (save_compilation _ id w) as [w1 r1]. injection Hrun as <- <- <-. eexists. split; [by do 3 apply modify_holds|]. done.
Qed.
End Compile.

(** ** Cleaning up *)

(** Checkpoints are kept under their own id. *)
Definition named (m : CompileManager) : Prop := map_Forall (fun id c => me_id (cc_metadata c) = id) (pm_active_checkpoints m).

Lemma named_create v a src stage d t r m : named m -> named (fst (create_checkpoint v a src stage d t r m)).
Proof. intros Hm. by apply map_Forall_insert_2. Qed.

Lemma named_modify id g m : (forall c, me_id (cc_metadata (g c)) = me_id (cc_metadata c)) -> named m -> named (fst (modify_checkpoint id g m)).
Proof.
  intros Hg Hm. unfold modify_checkpoint. destruct (pm_active_checkpoints m !! id) as [c|] eqn:Hc; [|done].
  apply map_Forall_insert_2; [|done]. rewrite Hg. by apply (map_Forall_lookup_1 _ _ _ _ Hm Hc).
Qed.

Lemma named_load `{CompileJson} path m w : named m -> named (fst (load_compilation path m w)).
Proof.
  intros Hm. unfold load_compilation. destruct (map_err _ _); [|done..]. destruct (parse_compilation _); [|done].
  by apply map_Forall_insert_2.
Qed.

Definition older (x y : string * Z) : Prop := snd x <= snd y.

Lemma insert_timestamp_perm x l : insert_by_timestamp x l ≡ₚ x :: l.
Proof. induction l as [|y l IH]; [done|]. cbn. destruct (_ <=? _); [done|]. rewrite IH. constructor. Qed.

Lemma sort_timestamp_perm l : sort_by_timestamp l ≡ₚ l.
Proof. induction l as [|x l IH]; [done|]. cbn. by rewrite insert_timestamp_perm, IH. Qed.

Lemma insert_timestamp_sorted x l : StronglySorted older l -> StronglySorted older (insert_by_timestamp x l).
Proof.
  induction 1 as [|y l Hs IH Hy]; [by repeat constructor|]. cbn. destruct (Z.leb_spec (snd x) (snd y)) as [Hle|Hgt].
  - constructor; [by constructor|]. constructor; [done|]. eapply Forall_impl; [exact Hy|]. unfold older. intros; lia.
  - constructor; [done|]. rewrite insert_timestamp_perm. constructor; [unfold older; lia|done].
Qed.

Lemma sort_timestamp_sorted l : StronglySorted older (sort_by_timestamp l).
Proof. induction l as [|x l IH]; [constructor|]. by apply insert_timestamp_sorted. Qed.

Lemma sorted_split (l1 l2 : list (string * Z)) x y : StronglySorted older (l1 ++ l2) -> x ∈ l1 -> y ∈ l2 -> older x y.
Proof. intros Hs Hx Hy. by apply (StronglySorted_app_1_elem_of older l1 l2). Qed.

(** Removing a list of ids *)
Lemma remove_all ids : forall m w, let '(m', w') := foldl remove_compilation (m, w) ids in
  m' = pm_set_active (foldl (fun a id => delete id a) (pm_active_checkpoints m) ids) m /\
  (forall p, (forall id, id ∈ ids -> p <> compile_file m id) -> files w' !! p = files w !! p).
Proof.
  induction ids as [|id ids IH]; intros m w; [by destruct m|]. cbn [foldl remove_compilation].
  specialize (IH (pm_set_active (delete id (pm_active_checkpoints m)) m) (remove_if_exists (compile_file m id) w)).
  destruct (foldl remove_compilation _ ids) as [m' w']. destruct IH as [-> Hf]. split; [done|].
  intros p Hp. rewrite Hf by (intros id' Hid'; apply Hp; by right). unfold remove_if_exists. case_decide; [done|].
  cbn. apply lookup_delete_ne. apply not_eq_sym, Hp. by left.
Qed.

Lemma delete_all {A} (ids : list string) : forall (m : gmap string A) id,
  foldl (fun a id => delete id a) m ids !! id = if bool_decide (id ∈ ids) then None else m !! id.
Proof.
  induction ids as [|i ids IH]; intros m id; [done|]. cbn [foldl]. rewrite IH.
  destruct (decide (id = i)) as [->|Hne].
  - rewrite lookup_delete_eq, (bool_decide_true (i ∈ i :: ids)) by (by left). by destruct (bool_decide _).
  - rewrite lookup_delete_ne by done. erewrite bool_decide_ext; [done|]. rewrite elem_of_cons. naive_solver.
Qed.

Lemma delete_all_size {A} (ids : list string) : forall (m : gmap string A), NoDup ids -> (forall id, id ∈ ids -> is_Some (m !! id)) ->
  Z.of_nat (size (foldl (fun a id => delete id a) m ids)) = Z.of_nat (size m) - Z.of_nat (length ids).
Proof.
  induction ids as [|i ids IH]; intros m Hnd Hin; [cbn; lia|]. apply NoDup_cons in Hnd as [Hni Hnd]. cbn [foldl length].
  destruct (Hin i ltac:(by left)) as [x Hx].
  assert (size m <> 0%nat) by (intros Hz; apply map_size_empty_inv in Hz; subst; done).
  rewrite IH; [|done|].
  - rewrite map_size_delete, Hx. lia.
  - intros id Hid. rewrite lookup_delete_ne by (intros ->; done). apply Hin. by right.
Qed.

Lemma ids_perm `{MapOrder} m : named m ->
  ids_with_timestamps m ≡ₚ (fun e => (fst e, me_timestamp (cc_metadata (snd e)))) <$> map_to_list (pm_active_checkpoints m).
Proof.
  intros Hm. unfold ids_with_timestamps. rewrite (iter_str_perm _ (pm_active_checkpoints m)).
  erewrite list_fmap_ext; [reflexivity|]. intros i [id c] Hi%list_elem_of_lookup_2%elem_of_map_to_list.
  cbn. by rewrite (map_Forall_lookup_1 _ _ _ _ Hm Hi).
Qed.

Definition timestamp_of (c : CompilationCheckpoint) : Z := me_timestamp (cc_metadata c).

(** [C39] Cleaning up keeps the newest checkpoints, whatever the order of the hash
    map: at most the limit of them remains, exactly the surplus is removed, no
    removed checkpoint is newer than a kept one, the kept ones are unchanged, and
    no file of another name is touched. *)
Theorem cleanup_keeps_newest `{MapOrder} (m : CompileManager) (w : world) : named m -> 0 <= pm_max_checkpoints m ->
  let '((m', w'), n) := cleanup_old_checkpoints (m, w) in
  let before := pm_active_checkpoints m in
  let after := pm_active_checkpoints m' in
  n = Z.max 0 (Z.of_nat (size before) - pm_max_checkpoints m) /\
  Z.of_nat (size after) = Z.of_nat (size before) - n /\
  after ⊆ before /\
  (forall id c id' c', before !! id = Some c -> after !! id = None -> after !! id' = Some c' -> timestamp_of c <= timestamp_of c') /\
  (forall p, (forall id, is_Some (before !! id) -> after !! id = None -> p <> compile_file m id) -> files w' !! p = files w !! p).
Proof.
  intros Hm Hmax. unfold cleanup_old_checkpoints. cbn [fst]. set (sorted := sort_by_timestamp _).
  assert (sorted ≡ₚ (fun e => (fst e, timestamp_of (snd e))) <$> map_to_list (pm_active_checkpoints m)) as Hperm
    by (unfold sorted; by rewrite sort_timestamp_perm, ids_perm).
  pose proof (sort_timestamp_sorted (ids_with_timestamps m)) as Hsorted. fold sorted in Hsorted.
  assert (length sorted = size (pm_active_checkpoints m)) as Hlen by (by rewrite Hperm, length_fmap, length_map_to_list).
  assert (forall id c, pm_active_checkpoints m !! id = Some c <-> (id, timestamp_of c) ∈ sorted /\ pm_active_checkpoints m !! id = Some c) as Hin.
  { intros id c. split; [|tauto]. intros Hc. split; [|done]. rewrite Hperm, list_elem_of_fmap. exists (id, c).
    split; [done|]. by apply elem_of_map_to_list. }
  assert (NoDup sorted.*1) as Hnd.
  { rewrite Hperm, <- list_fmap_compose. apply NoDup_fst_map_to_list. }
  assert (forall id t, (id, t) ∈ sorted -> is_Some (pm_active_checkpoints m !! id)) as Hback.
  { intros id t. rewrite Hperm, list_elem_of_fmap. intros ([id' c] & [= -> ->] & Hc). exists c. by apply elem_of_map_to_list. }
  destruct (Z.ltb_spec (pm_max_checkpoints m) (Z.of_nat (length sorted))) as [Hlt|Hge].
  2: { split_and!; try done; [lia|lia|]. intros id c id' c' Hc Hn. congruence. }
  set (k := Z.to_nat (Z.of_nat (length sorted) - pm_max_checkpoints m)). rewrite <- (take_drop k sorted) in Hsorted, Hnd.
  pose proof (remove_all (take k sorted).*1 m w) as Hrm. destruct (foldl remove_compilation (m, w) _) as [m' w'].
  destruct Hrm as [-> Hfiles]. cbn [pm_active_checkpoints pm_set_active].
  rewrite fmap_app in Hnd. apply NoDup_app in Hnd as (Hnd1 & Hdisj & _).
  assert (forall id, id ∈ (take k sorted).*1 -> is_Some (pm_active_checkpoints m !! id)) as Hsome.
  { intros id ((id' & t) & -> & Ht)%list_elem_of_fmap. apply (Hback id' t). rewrite <- (take_drop k sorted). by apply elem_of_app; left. }
  rewrite length_take_le by lia.
  split_and!.
  - lia.
  - rewrite delete_all_size by done. rewrite length_fmap, length_take_le by lia. lia.
  - apply map_subseteq_spec. intros id c. rewrite delete_all. by case_bool_decide.
  - intros id c id' c' Hc Hn Hc'. rewrite delete_all in Hn. case_bool_decide as Hid; [|congruence].
    rewrite delete_all in Hc'. case_bool_decide as Hid'; [done|]. apply Hin in Hc as [Hc _], Hc' as [Hc' _].
    rewrite <- (take_drop k sorted), elem_of_app in Hc, Hc'.
    apply (sorted_split _ _ (id, timestamp_of c) (id', timestamp_of c') Hsorted).
    + destruct Hc as [Hc|Hc]; [done|]. exfalso. apply (Hdisj id Hid). apply list_elem_of_fmap. by eexists (_, _).
    + destruct Hc' as [Hc'|Hc']; [|done]. exfalso. apply Hid'. apply list_elem_of_fmap. by eexists (_, _).
  - intros p Hp. apply Hfiles. intros id Hid. apply Hp; [by apply Hsome|]. rewrite delete_all. by rewrite bool_decide_true.
Qed.

(** ** Samples *)

(** An encoding that can be decoded *)
Definition bytes_base64 : Base64 := {| base64_encode := bytes_string; base64_decode s := Some (string_bytes s) |}.

Lemma bytes_base64_decodes bin : Forall (fun b => 0 <= b < 256) bin ->
  @base64_decode bytes_base64 (@base64_encode bytes_base64 bin) = Some bin.
Proof.
  intros Hb. cbn. f_equal. unfold string_bytes, bytes_string. rewrite String.list_ascii_of_string_of_list_ascii.
  rewrite <- list_fmap_compose. rewrite <- (list_fmap_id bin) at 2. apply list_fmap_ext. intros i b Hi. cbn.
  apply (Forall_lookup_1 _ _ _ _ Hb) in Hi. rewrite N_ascii_embedding by lia. lia.
Qed.

(** A parser that refuses the empty text *)
Definition sample_toolchain : Toolchain := {|
  tc_ast := string; tc_module := string; tc_error := string;
  parse_module_checked s := if String.eqb s "" then Err "empty"%string else Ok s;
  to_llvm_module s := Ok s; print_to_string s := Ok s;
  unexpected_error s := s; error_debug s := s; error_display s := s;
|}.

Definition sample_compile_json : CompileJson := {| compilation_text _ := None; parse_compilation _ := None |}.

Definition sample_timings : timings := mkTimings 100 7 101 102 103 1 2 3 6.

Definition sample_compiler : CheckpointedCompiler := mkCheckpointedCompiler (mkCompileManager "/c" ∅ 300 100) true LlvmGeneration.

Definition sample_spirv (ir : string) : outcome string (list Z) := Ok [3; 2; 35; 7].

Lemma resume_repeats_outcome_witness :
  let '(s', r) := @run_compiler sample_toolchain
    (@compile_with sample_toolchain bytes_base64 sample_compile_json "1" "f:1:1" sample_spirv "ret;" None sample_timings true)
    (sample_compiler, mkWorld ∅ ∅ [] None) in
  r = Ok (mkCompilationResult "checkpoint_100_7" (Some [3; 2; 35; 7]) 6 []) /\
  @resume_with sample_toolchain bytes_base64 (fun _ _ s => (s, Panic)) "checkpoint_100_7" s' =
    (s', Ok (mkCompilationResult "checkpoint_100_7" (Some [3; 2; 35; 7]) 0 [])).
Proof.
  pose proof (@resume_repeats_outcome sample_toolchain bytes_base64 sample_compile_json "1" "f:1:1" sample_spirv "ret;" None
    sample_timings sample_compiler (mkWorld ∅ ∅ [] None) (fun _ _ s => (s, Panic)) bytes_base64_decodes) as Hw.
  assert (forall ir bin, sample_spirv ir = Ok bin -> Forall (fun b => 0 <= b < 256) bin) as Hb
    by (intros ir bin [= <-]; repeat constructor; lia).
  specialize (Hw Hb). cbv zeta in Hw. revert Hw. vm_compute. intros [Hw _]. split; [reflexivity|exact Hw].
Defined.

Definition sample_compilation (id : string) (t : Z) : CompilationCheckpoint :=
  new_compilation "1" "f:1:1" id "ret;" PtxParsing "" t.

Definition sample_manager : CompileManager :=
  mkCompileManager "/c" (list_to_map ((fun '(id, t) => (id, sample_compilation id t)) <$> [("a", 5); ("b", 3); ("c", 9)]%string)) 300 2.

(** Of three checkpoints and a limit of two, the oldest goes, with its file. *)
Lemma cleanup_keeps_newest_witness :
  let '((m', w'), n) := @cleanup_old_checkpoints listed_order
    (sample_manager, mkWorld {[ "/c/b.json"%string := [1]; "/c/a.json"%string := [2] ]} ∅ [] None) in
  n = 1 /\ pm_active_checkpoints m' ⊆ pm_active_checkpoints sample_manager /\
  files w' = {[ "/c/a.json"%string := [2] ]} /\ pm_active_checkpoints m' !! "b"%string = None.
Proof.
  assert (named sample_manager) as Hm by (apply map_Forall_to_list; vm_compute; repeat constructor).
  pose proof (@cleanup_keeps_newest listed_order sample_manager
    (mkWorld {[ "/c/b.json"%string := [1]; "/c/a.json"%string := [2] ]} ∅ [] None) Hm ltac:(vm_compute; discriminate)) as Hw.
  destruct (cleanup_old_checkpoints _) as [[m' w'] n] eqn:Hrun.
  assert (cleanup_old_checkpoints (sample_manager, mkWorld {[ "/c/b.json"%string := [1]; "/c/a.json"%string := [2] ]} ∅ [] None) =
    ((pm_set_active (delete "b"%string (pm_active_checkpoints sample_manager)) sample_manager,
      mkWorld {[ "/c/a.json"%string := [2] ]} ∅ [] None), 1)) as Hval by (vm_compute; reflexivity).
  rewrite Hval in Hrun. injection Hrun as <- <- <-. destruct Hw as (_ & _ & Hsub & _).
  split; [reflexivity|]. split; [exact Hsub|]. split; vm_compute; reflexivity.
Defined.
