(* ===== verification/StateRecovery.v ===== *)
(** * Recovery of program state at a breakpoint ([ptx/src/state_recovery.rs])

    The manager of a debugging session: mappings from target code to PTX, the
    current execution state with variables and memory snapshots, breakpoints and
    the call stack.  JSON and the debug text of a value are parameters, the clock
    is an argument; conditions of breakpoints are never evaluated. *)
From stdpp Require Import base numbers list strings gmap.
From Stdlib Require Import ZArith Lia Ascii.
From S2P Require Import Prelude HostIO Delta Aof RustStr Runtime Replay ReplayEngine CubinParser Checkpoint CheckpointPtx CompileCheckpoint.

Open Scope Z_scope.

(** Floats by their bits *)
Inductive VariableValue : Type :=
| VInteger (n : Z)
| VFloat (bits : Z)
| VBoolean (b : bool)
| VPointer (p : Z)
| VVector (l : list VariableValue)
| VUnknown.

Record DebugThreadState : Type := mkDebugThread {
  dt_thread_id : dim;
  dt_block_id : dim;
  dt_warp_id : Z;
  dt_lane_id : Z;
  dt_active_mask : Z;
}.

Record StateSnapshot : Type := mkStateSnapshot {
  sn_address_space : string;
  sn_base_address : Z;
  sn_size : Z;
  sn_data : list Z;
  sn_timestamp : Z;
}.

Record ExecutionState : Type := mkExecutionState {
  es_current_location : PtxSourceLocation;
  es_variable_state : gmap string VariableValue;
  es_thread_state : DebugThreadState;
  es_memory_snapshots : gmap string StateSnapshot;
}.

Record PtxBreakpoint : Type := mkBreakpoint {
  bp_id : Z;
  bp_location : PtxSourceLocation;
  bp_condition : option string;
  bp_hit_count : Z;
  bp_enabled : bool;
}.

Record CallFrame : Type := mkCallFrame {
  cf_function_name : string;
  cf_location : PtxSourceLocation;
  cf_local_variables : gmap string VariableValue;
}.

Record PtxStateRecoveryManager : Type := mkRecoveryManager {
  sr_debug_mappings : list DwarfMappingEntry;
  sr_current_execution_state : option ExecutionState;
  sr_breakpoints : list PtxBreakpoint;
  sr_call_stack : list CallFrame;
}.

Definition sr_set_mappings (l : list DwarfMappingEntry) (m : PtxStateRecoveryManager) : PtxStateRecoveryManager :=
  mkRecoveryManager l (sr_current_execution_state m) (sr_breakpoints m) (sr_call_stack m).
Definition sr_set_state (s : option ExecutionState) (m : PtxStateRecoveryManager) : PtxStateRecoveryManager :=
  mkRecoveryManager (sr_debug_mappings m) s (sr_breakpoints m) (sr_call_stack m).
Definition sr_set_breakpoints (l : list PtxBreakpoint) (m : PtxStateRecoveryManager) : PtxStateRecoveryManager :=
  mkRecoveryManager (sr_debug_mappings m) (sr_current_execution_state m) l (sr_call_stack m).
Definition sr_set_stack (l : list CallFrame) (m : PtxStateRecoveryManager) : PtxStateRecoveryManager :=
  mkRecoveryManager (sr_debug_mappings m) (sr_current_execution_state m) (sr_breakpoints m) l.

Definition recovery_new : PtxStateRecoveryManager := mkRecoveryManager [] None [] [].

#[global] Instance location_eq_dec : EqDecision PtxSourceLocation.
Proof. solve_decision. Defined.

(** ** Parameters *)
Class RecoveryJson : Type := {
  mappings_text : list DwarfMappingEntry -> option (list Z);
  parse_mappings : string -> option (list DwarfMappingEntry);
  parse_execution_state : string -> option ExecutionState;
}.

(** ** Mappings *)
Definition load_debug_mappings `{RecoveryJson} (path : string) (w : world) (m : PtxStateRecoveryManager)
    : PtxStateRecoveryManager * outcome CkptError unit :=
  match read_text path w ≫= (fun content => ok_or CkptParseFailed (parse_mappings content)) with
  | Ok l => (sr_set_mappings l m, Ok tt)
  | Err e => (m, Err e)
  | Panic => (m, Panic)
  end.

Definition save_debug_mappings `{RecoveryJson} (path : string) (m : PtxStateRecoveryManager) : stm world CkptError unit :=
  content ← stm_lift (ok_or CkptSerialization (mappings_text (sr_debug_mappings m)));
  fs_write path content.

(** Whether a target instruction has an address; SPIR-V is matched by opcode. *)
Definition target_matches (target_arch : string) (address : Z) (i : TargetInstruction) : bool :=
  match i with
  | AmdGcn _ inst_addr _ => String.eqb target_arch "amd_gcn" && (inst_addr =? address)
  | SassInstruction _ inst_addr _ => String.eqb target_arch "sass" && (inst_addr =? address)
  | IntelSpirv _ opcode _ => String.eqb target_arch "spirv" && (opcode =? address)
  end.

Definition mapping_matches (target_arch : string) (address : Z) (mapping : DwarfMappingEntry) : bool :=
  existsb (target_matches target_arch address) (dm_target_instructions mapping).

Definition find_ptx_location_from_target (m : PtxStateRecoveryManager) (target_arch : string) (address : Z)
    : option PtxSourceLocation :=
  dm_ptx_location <$> List.find (mapping_matches target_arch address) (sr_debug_mappings m).

(** ** The execution state *)
Definition set_execution_state (state : ExecutionState) (m : PtxStateRecoveryManager) : PtxStateRecoveryManager :=
  sr_set_state (Some state) m.

Definition get_execution_state (m : PtxStateRecoveryManager) : option ExecutionState := sr_current_execution_state m.

Definition get_variable_value (m : PtxStateRecoveryManager) (var_name : string) : option VariableValue :=
  s ← sr_current_execution_state m; es_variable_state s !! var_name.

(** Without an execution state nothing is kept. *)
Definition set_variable_value (var_name : string) (value : VariableValue) (m : PtxStateRecoveryManager)
    : PtxStateRecoveryManager :=
  sr_set_state ((fun s => mkExecutionState (es_current_location s) (<[var_name := value]> (es_variable_state s))
                            (es_thread_state s) (es_memory_snapshots s)) <$> sr_current_execution_state m) m.

Definition get_memory_snapshot (m : PtxStateRecoveryManager) (address_space : string) : option StateSnapshot :=
  s ← sr_current_execution_state m; es_memory_snapshots s !! address_space.

Definition take_memory_snapshot (address_space : string) (base_address : Z) (data : list Z) (timestamp : Z)
    (m : PtxStateRecoveryManager) : PtxStateRecoveryManager :=
  let snapshot := mkStateSnapshot address_space base_address (Z.of_nat (length data)) data timestamp in
  sr_set_state ((fun s => mkExecutionState (es_current_location s) (es_variable_state s) (es_thread_state s)
                            (<[address_space := snapshot]> (es_memory_snapshots s))) <$> sr_current_execution_state m) m.

(** A text that does not parse is accepted and ignored. *)
Definition import_debugger_state `{RecoveryJson} (debugger_data : string) (m : PtxStateRecoveryManager)
    : PtxStateRecoveryManager * outcome CkptError unit :=
  (match parse_execution_state debugger_data with Some state => sr_set_state (Some state) m | None => m end, Ok tt).

(** ** Breakpoints *)
Definition add_ptx_breakpoint (location : PtxSourceLocation) (condition : option string) (m : PtxStateRecoveryManager)
    : PtxStateRecoveryManager * Z :=
  let id := wrap 32 (Z.of_nat (length (sr_breakpoints m))) in
  (sr_set_breakpoints (sr_breakpoints m ++ [mkBreakpoint id location condition 0 true]) m, id).

Definition remove_ptx_breakpoint (id : Z) (m : PtxStateRecoveryManager) : PtxStateRecoveryManager * bool :=
  match list_find (fun bp => bp_id bp = id) (sr_breakpoints m) with
  | Some (pos, _) => (sr_set_breakpoints (delete pos (sr_breakpoints m)) m, true)
  | None => (m, false)
  end.

Definition hit_breakpoint (bp : PtxBreakpoint) : PtxBreakpoint :=
  mkBreakpoint (bp_id bp) (bp_location bp) (bp_condition bp) (wrapping_add 32 (bp_hit_count bp) 1) (bp_enabled bp).

Definition should_break_at_location (location : PtxSourceLocation) (m : PtxStateRecoveryManager)
    : PtxStateRecoveryManager * option PtxBreakpoint :=
  match list_find (fun bp => bp_enabled bp = true /\ bp_location bp = location) (sr_breakpoints m) with
  | Some (pos, bp) => (sr_set_breakpoints (<[pos := hit_breakpoint bp]> (sr_breakpoints m)) m, Some (hit_breakpoint bp))
  | None => (m, None)
  end.

(** ** The call stack *)
Definition push_call_frame (function_name : string) (location : PtxSourceLocation) (m : PtxStateRecoveryManager)
    : PtxStateRecoveryManager :=
  sr_set_stack (sr_call_stack m ++ [mkCallFrame function_name location ∅]) m.

Definition pop_call_frame (m : PtxStateRecoveryManager) : PtxStateRecoveryManager * option CallFrame :=
  match last (sr_call_stack m) with
  | Some frame => (sr_set_stack (removelast (sr_call_stack m)) m, Some frame)
  | None => (m, None)
  end.

Definition get_call_stack (m : PtxStateRecoveryManager) : list CallFrame := sr_call_stack m.

(** ** Texts *)
Definition at_location (l : PtxSourceLocation) : string := text [psl_file l; ":"; dec (psl_line l); ":"; dec (psl_column l)].

Definition dim_text (d : dim) : string := text ["("; dec (dim_x d); ", "; dec (dim_y d); ", "; dec (dim_z d); ")"].

Section Dump.
Context `{MapOrder} (debug_value : VariableValue -> string).

Definition state_text (s : ExecutionState) : string :=
  let t := es_thread_state s in
  text (["Current Location: "; at_location (es_current_location s); nl;
         "Thread ID: "; dim_text (dt_thread_id t); nl; "Block ID: "; dim_text (dt_block_id t); nl;
         "Warp ID: "; dec (dt_warp_id t); ", Lane ID: "; dec (dt_lane_id t); nl;
         "Active Mask: 0x"; hex_padded 16 (dt_active_mask t); nl; nl; "Variables:"; nl]%string ++
        ((fun '(name, value) => text ["  "; name; " = "; debug_value value; nl]%string) <$> iter_str (es_variable_state s)) ++
        [nl; "Memory Snapshots:"; nl]%string ++
        ((fun '(space, sn) => text ["  "; space; ": "; dec (sn_size sn); " bytes at 0x"; hex_padded 16 (sn_base_address sn); nl]%string)
         <$> iter_str (es_memory_snapshots s))).

Definition frame_text (i : nat) (f : CallFrame) : string :=
  text ["  #"; dec (Z.of_nat i); ": "; cf_function_name f; " at "; at_location (cf_location f); nl]%string.

Definition breakpoint_text (bp : PtxBreakpoint) : string :=
  text ["  #"; dec (bp_id bp); ": "; at_location (bp_location bp); " (";
        (if bp_enabled bp then "enabled" else "disabled"); ", hit "; dec (bp_hit_count bp); " times)"; nl]%string.

Definition generate_state_dump (m : PtxStateRecoveryManager) : string :=
  text (["=== PTX State Recovery Dump ==="; nl; nl;
         match sr_current_execution_state m with
         | Some s => state_text s
         | None => text ["No current execution state"; nl]
         end; nl; "Call Stack:"; nl]%string ++
        imap frame_text (sr_call_stack m) ++
        [nl; "Breakpoints ("; dec (Z.of_nat (length (sr_breakpoints m))); "):"; nl]%string ++
        (breakpoint_text <$> sr_breakpoints m) ++
        [nl; "Debug Mappings: "; dec (Z.of_nat (length (sr_debug_mappings m))); " entries"; nl]%string).
End Dump.

(** ** Numbers of breakpoints *)
Definition numbered (m : PtxStateRecoveryManager) : Prop :=
  bp_id <$> sr_breakpoints m = seqZ 0 (Z.of_nat (length (sr_breakpoints m))).

Lemma numbered_add location condition m : Z.of_nat (length (sr_breakpoints m)) < 2 ^ 32 -> numbered m ->
  numbered (fst (add_ptx_breakpoint location condition m)).
Proof.
  unfold numbered. cbn. intros Hlen Hm. rewrite fmap_app, length_app, Hm. cbn [fmap list_fmap length bp_id].
  rewrite wrap_small by lia. rewrite Nat2Z.inj_add, (seqZ_app 0) by lia. done.
Qed.

Lemma numbered_hit location m : numbered m -> numbered (fst (should_break_at_location location m)).
Proof.
  unfold numbered, should_break_at_location. intros Hm.
  destruct (list_find _ _) as [[pos bp]|] eqn:Hf; [|done]. apply list_find_Some in Hf as (Hpos & _).
  cbn. rewrite length_insert, list_fmap_insert, <- Hm. apply list_insert_id. rewrite list_lookup_fmap, Hpos. done.
Qed.

(** As long as none is removed, breakpoints are numbered by their position. *)
Lemma breakpoints_numbered (calls : list (PtxSourceLocation + PtxSourceLocation)) :
  Z.of_nat (length calls) < 2 ^ 32 ->
  numbered (foldl (fun m c => match c with
                              | inl location => fst (add_ptx_breakpoint location None m)
                              | inr location => fst (should_break_at_location location m)
                              end) recovery_new calls).
Proof.
  intros Hlen. enough (forall m, numbered m -> Z.of_nat (length (sr_breakpoints m)) + Z.of_nat (length calls) < 2 ^ 32 ->
    numbered (foldl (fun m c => match c with
                                | inl location => fst (add_ptx_breakpoint location None m)
                                | inr location => fst (should_break_at_location location m)
                                end) m calls)) as Hall by (apply Hall; [done|cbn; lia]).
  clear Hlen. induction calls as [|[l|l] calls IH]; intros m Hm Hlen; cbn [foldl length] in *; [done| |].
  - apply IH; [apply numbered_add; [lia|done]|]. cbn. rewrite length_app. cbn. lia.
  - apply IH; [by apply numbered_hit|]. unfold should_break_at_location.
    destruct (list_find _ _) as [[pos bp]|]; cbn; rewrite ?length_insert; lia.
Qed.

(** The number is the count, so after a removal two breakpoints can share one, and
    the second of them can no longer be removed alone. *)
Lemma breakpoint_ids_collide :
  let at_line n := mkPtxSourceLocation "k.ptx" n 1 0 in
  let m := fst (add_ptx_breakpoint (at_line 2) None (fst (add_ptx_breakpoint (at_line 1) None recovery_new))) in
  let m := fst (add_ptx_breakpoint (at_line 3) None (fst (remove_ptx_breakpoint 0 m))) in
  (bp_id <$> sr_breakpoints m) = [1; 1] /\
  ((fun bp => psl_line (bp_location bp)) <$> sr_breakpoints (fst (remove_ptx_breakpoint 1 m))) = [3].
Proof. split; vm_compute; reflexivity. Qed.

(** ** Reading back *)
Lemma snapshot_reads_back space base data t m : is_Some (get_execution_state m) ->
  get_memory_snapshot (take_memory_snapshot space base data t m) space =
    Some (mkStateSnapshot space base (Z.of_nat (length data)) data t).
Proof.
  unfold get_execution_state, get_memory_snapshot, take_memory_snapshot. intros [s ->]. cbn. apply lookup_insert_eq.
Qed.

Lemma target_location_found m arch address l : find_ptx_location_from_target m arch address = Some l ->
  exists mapping i, mapping ∈ sr_debug_mappings m /\ dm_ptx_location mapping = l /\ i ∈ dm_target_instructions mapping /\
    target_matches arch address i = true.
Proof.
  unfold find_ptx_location_from_target. intros Hf. apply fmap_Some in Hf as (mapping & Hf & ->).
  apply find_some in Hf as [Hin Hmatch]. apply existsb_exists in Hmatch as (i & Hi & Ht).
  exists mapping, i. rewrite !list_elem_of_In. done.
Qed.
