(* ===== verification/ReplayFfi.v ===== *)
(** * The C interface of recording and replay ([zluda/src/impl/replay_ffi.rs])

    Functions over the process: its environment variables, the recording session,
    the counter of virtual addresses, files, and the replay engines by handle.  A
    handle is the address of an engine, zero for null; a handle that is not null
    and not that of an engine is undefined behaviour ([DanglingHandle]), and a
    panic aborts the process.  C strings and output pointers are as in
    [CheckpointRestore]; the clock and the address of a new engine are
    arguments. *)
From stdpp Require Import base numbers list strings gmap.
From Stdlib Require Import ZArith Lia.
From S2P Require Import Prelude HostIO Delta Aof RustStr Runtime Replay ReplayEngine CubinParser.

Open Scope Z_scope.

(** ** C structures *)
Record CRecordingConfig : Type := mkCRecordingConfig {
  crc_dirty_tracking : Z;
  crc_dirty_method : Z;
  crc_capture_inputs : Z;
  crc_capture_outputs : Z;
  crc_max_memory_per_kernel : Z;
  crc_compression : Z;
}.

Definition crecording_default : CRecordingConfig := mkCRecordingConfig 1 1 1 1 0 0.

Definition set_flag (n : Z) : bool := negb (n =? 0).

Definition dirty_method_of_c (n : Z) : DirtyTrackingMethod :=
  if n =? 0 then FullDump else if n =? 1 then SoftwareShadow else if n =? 2 then Checksum else SoftwareShadow.

Definition compression_of_c (n : Z) : CompressionType := if n =? 1 then Zstd else if n =? 2 then Lz4 else CompressionNone.

(** [From<CRecordingConfig> for RecordingConfig] *)
Definition recording_config_of_c (c : CRecordingConfig) : RecordingConfig :=
  mkRecordingConfig (set_flag (crc_dirty_tracking c)) (dirty_method_of_c (crc_dirty_method c)) (set_flag (crc_capture_inputs c))
    (set_flag (crc_capture_outputs c)) (crc_max_memory_per_kernel c) (compression_of_c (crc_compression c))
    (rc_output_path recording_config_default).

Record CRecordingStats : Type := mkCRecordingStats {
  crs_kernels_recorded : Z;
  crs_allocations_tracked : Z;
  crs_recording_duration_ns : Z;
  crs_is_active : Z;
}.

Record CReplayConfig : Type := mkCReplayConfig {
  crp_step_mode : Z;
  crp_validate_outputs : Z;
  crp_fp_tolerance_bits : Z;
  crp_max_kernels : Z;
}.

Definition creplay_default : CReplayConfig := mkCReplayConfig 0 1 (cf_fp_tolerance replay_config_default) 0.

Record CValidationResult : Type := mkCValidationResult {
  cvr_kernel_sequence : Z;
  cvr_passed : Z;
  cvr_num_mismatches : Z;
  cvr_execution_time_recorded_ns : Z;
  cvr_execution_time_replayed_ns : Z;
}.

Record CTraceInfo : Type := mkCTraceInfo {
  cti_version : Z;
  cti_timestamp : Z;
  cti_source_backend : Z;
  cti_total_kernels : Z;
  cti_total_memory_ops : Z;
}.

Definition backend_of_c (n : Z) : Backend :=
  if n =? 0 then Nvidia else if n =? 1 then Amd else if n =? 2 then Intel else if n =? 3 then Tenstorrent else Virtual.

Definition backend_to_c (b : Backend) : Z :=
  match b with Nvidia => 0 | Amd => 1 | Intel => 2 | Tenstorrent => 3 | Virtual => 4 end.

Definition flag_to_c (b : bool) : Z := if b then 1 else 0.

(** ** The process *)
Record ffi_state : Type := mkFfiState {
  ff_env : environment;
  ff_recording : recording_global;
  ff_virtual_addr : Z;
  ff_world : world;
  ff_engines : gmap Z ReplayEngine;
}.

Definition ff_set_env (e : environment) (s : ffi_state) : ffi_state :=
  mkFfiState e (ff_recording s) (ff_virtual_addr s) (ff_world s) (ff_engines s).
Definition ff_set_recording (g : recording_global) (w : world) (s : ffi_state) : ffi_state :=
  mkFfiState (ff_env s) g (ff_virtual_addr s) w (ff_engines s).
Definition ff_set_engine (h : Z) (e : ReplayEngine) (s : ffi_state) : ffi_state :=
  mkFfiState (ff_env s) (ff_recording s) (ff_virtual_addr s) (ff_world s) (<[h := e]> (ff_engines s)).
Definition ff_drop_engine (h : Z) (s : ffi_state) : ffi_state :=
  mkFfiState (ff_env s) (ff_recording s) (ff_virtual_addr s) (ff_world s) (delete h (ff_engines s)).
Definition ff_set_addr (va : Z) (s : ffi_state) : ffi_state :=
  mkFfiState (ff_env s) (ff_recording s) va (ff_world s) (ff_engines s).
Definition ff_set_world (w : world) (s : ffi_state) : ffi_state :=
  mkFfiState (ff_env s) (ff_recording s) (ff_virtual_addr s) w (ff_engines s).

(** [std::env::set_var] *)
Definition set_var (name value : string) (env : environment) : environment :=
  fun k => if String.eqb k name then Some value else env k.

Inductive ffi_undefined : Type := DanglingHandle.

Abbreviation ffi A := (outcome ffi_undefined (ffi_state * A)).

(** ** Recording *)
Definition one_or_zero (n : Z) : string := if set_flag n then "1" else "0".

Definition recording_env (path : string) (config : option CRecordingConfig) (env : environment) : environment :=
  let env := set_var "HETGPU_RECORD_OUTPUT" path (set_var "HETGPU_RECORD" "1" env) in
  match config with
  | Some c => set_var "HETGPU_RECORD_OUTPUTS" (one_or_zero (crc_capture_outputs c))
                (set_var "HETGPU_RECORD_INPUTS" (one_or_zero (crc_capture_inputs c)) env)
  | None => env
  end.

Definition hetgpu_recording_start (output_path : option (list Z)) (config : option CRecordingConfig) (now start_time : Z)
    (s : ffi_state) : ffi_state * Z :=
  match (match output_path with
         | None => Some "/tmp/hetgpu_traces/trace.hetr"%string
         | Some bytes => from_utf8 bytes
         end) with
  | None => (s, -1)
  | Some path =>
      let env := recording_env path config (ff_env s) in
      let s := ff_set_env env s in
      (ff_set_recording (start_recording env now start_time Nvidia "Unknown GPU" (ff_recording s)) (ff_world s) s, 0)
  end.

Definition hetgpu_recording_stop `{TraceJson} (s : ffi_state) : ffi Z :=
  let '((g, w), r) := stop_recording (ff_recording s, ff_world s) in
  let s := ff_set_recording g w s in
  match r with
  | Ok _ => Ok (s, 0)
  | Err _ => Ok (s, -1)
  | Panic => Panic
  end.

Definition hetgpu_recording_is_active (s : ffi_state) : Z := flag_to_c (is_recording_active (ff_recording s)).

Definition hetgpu_recording_get_stats (stats : option CRecordingStats) (now : Z) (s : ffi_state)
    : option CRecordingStats * Z :=
  match stats with
  | None => (None, -1)
  | Some _ =>
      match get_recording_stats now (ff_recording s) with
      | Some st => (Some (mkCRecordingStats (st_kernels_recorded st) (st_allocations_tracked st)
                            (st_recording_duration_ns st) (flag_to_c (st_is_active st))), 0)
      | None => (stats, -2)
      end
  end.

(** ** Replay *)

(** [box] is the address of the new engine; a failure gives the null handle. *)
Definition hetgpu_replay_load `{TraceJson} (trace_path : option (list Z)) (target_backend box : Z) (s : ffi_state) : ffi Z :=
  match trace_path ≫= from_utf8 with
  | None => Ok (s, 0)
  | Some path =>
      match engine_load path (backend_of_c target_backend) (ff_world s) with
      | Ok engine => Ok (ff_set_engine box engine s, box)
      | Err _ => Ok (s, 0)
      | Panic => Panic
      end
  end.

(** A call on a handle: the answer for null, or the call on the engine *)
Definition on_handle {A} (handle : Z) (null : A) (f : ReplayEngine -> outcome ffi_undefined (ffi_state * A)) (s : ffi_state)
    : ffi A :=
  if handle =? 0 then Ok (s, null)
  else match ff_engines s !! handle with
       | Some engine => f engine
       | None => Err DanglingHandle
       end.

(** Reading from the engine *)
Definition ask_engine {A} (handle : Z) (null : A) (f : ReplayEngine -> A) (s : ffi_state) : ffi A :=
  on_handle handle null (fun engine => Ok (s, f engine)) s.

(** The code of a call that changes the engine *)
Definition change_engine {A B} (handle : Z) (null : A) (run : stm ReplayEngine ReplayError B) (ok : B -> A) (err : A)
    (s : ffi_state) : ffi A :=
  on_handle handle null (fun engine =>
    let '(engine, r) := run engine in
    let s := ff_set_engine handle engine s in
    match r with
    | Ok b => Ok (s, ok b)
    | Err _ => Ok (s, err)
    | Panic => Panic
    end) s.

Definition hetgpu_replay_get_trace_info (handle : Z) (info : option CTraceInfo) (s : ffi_state) : ffi (option CTraceInfo * Z) :=
  match info with
  | None => Ok (s, (None, -1))
  | Some _ =>
      ask_engine handle (info, -1) (fun engine =>
        let header := tc_header (en_trace engine) in
        (Some (mkCTraceInfo (th_version header) (th_timestamp header) (backend_to_c (th_source_backend header))
                 (th_total_kernels header) (th_total_memory_ops header)), 0)) s
  end.

Definition hetgpu_replay_get_kernel_count (handle : Z) (s : ffi_state) : ffi Z :=
  ask_engine handle 0 (fun engine => Z.of_nat (total_kernels engine)) s.

Definition hetgpu_replay_get_position (handle : Z) (s : ffi_state) : ffi Z :=
  ask_engine handle 0 (fun engine => Z.of_nat (en_current_position engine)) s.

Definition hetgpu_replay_is_complete (handle : Z) (s : ffi_state) : ffi Z :=
  ask_engine handle 0 (fun engine => flag_to_c (is_complete engine)) s.

Definition hetgpu_replay_free (handle : Z) (s : ffi_state) : ffi unit :=
  on_handle handle tt (fun _ => Ok (ff_drop_engine handle s, tt)) s.

Definition hetgpu_replay_initialize (handle : Z) (s : ffi_state) : ffi Z :=
  on_handle handle (-1) (fun engine =>
    let '((engine, va), r) := initialize (engine, ff_virtual_addr s) in
    let s := ff_set_addr va (ff_set_engine handle engine s) in
    match r with
    | Ok _ => Ok (s, 0)
    | Err _ => Ok (s, -2)
    | Panic => Panic
    end) s.

Definition replay_config_of_c (c : CReplayConfig) : ReplayConfig :=
  mkReplayConfig (set_flag (crp_step_mode c)) (set_flag (crp_validate_outputs c)) (crp_fp_tolerance_bits c) None
    (if crp_max_kernels c =? 0 then None else Some (Z.to_nat (crp_max_kernels c))).

Definition hetgpu_replay_set_config (handle : Z) (config : option CReplayConfig) (s : ffi_state) : ffi Z :=
  match config with
  | None => Ok (s, -1)
  | Some c => change_engine handle (-1) (fun e => (set_config (replay_config_of_c c) e, Ok tt)) (fun _ => 0) (-2) s
  end.

Definition validation_to_c (v : ValidationResult) : CValidationResult :=
  mkCValidationResult (vr_kernel_sequence v) (flag_to_c (vr_passed v)) (wrap 32 (Z.of_nat (length (vr_mismatches v))))
    (vr_time_recorded v) (vr_time_replayed v).

(** A null result is not written. *)
Definition hetgpu_replay_next (handle : Z) (result : option CValidationResult) (execution_time : Z) (s : ffi_state)
    : ffi (option CValidationResult * Z) :=
  change_engine handle (result, -1) (replay_next execution_time)
    (fun r => match r with
              | Some validation => ((fun _ => validation_to_c validation) <$> result, 1)
              | None => (result, 0)
              end) (result, -2) s.

(** [None] when the loop over the kernels needs more than [fuel] rounds *)
Definition hetgpu_replay_all (clock : nat -> Z) (fuel : nat) (handle : Z) (results : option ReplayResults) (s : ffi_state)
    : option (ffi (option ReplayResults * Z)) :=
  if handle =? 0 then Some (Ok (s, (results, -1)))
  else match ff_engines s !! handle with
       | None => Some (Err DanglingHandle)
       | Some engine =>
           '(engine, va, r) ← replay_all_kernels clock fuel (engine, ff_virtual_addr s);
           let s := ff_set_addr va (ff_set_engine handle engine s) in
           Some (match r with
                 | Ok replay_results => Ok (s, ((fun _ => replay_results) <$> results, 0))
                 | Err _ => Ok (s, (results, -2))
                 | Panic => Panic
                 end)
       end.

Definition hetgpu_replay_reset (handle : Z) (s : ffi_state) : ffi Z :=
  change_engine handle (-1) (fun e => (reset e, Ok tt)) (fun _ => 0) (-2) s.

Definition hetgpu_replay_seek (handle position : Z) (s : ffi_state) : ffi Z :=
  change_engine handle (-1) (seek (Z.to_nat position)) (fun _ => 0) (-2) s.

(** The buffer holds [buffer_size] bytes. *)
Definition hetgpu_replay_read_memory (handle original_addr : Z) (buffer : option (list Z)) (buffer_size : Z) (s : ffi_state)
    : ffi (option (list Z) * Z) :=
  match buffer with
  | None => Ok (s, (None, -1))
  | Some b =>
      ask_engine handle (buffer, -1) (fun engine =>
        match read_replayed engine original_addr with
        | Some data =>
            let copy_len := Nat.min (length data) (Z.to_nat buffer_size) in
            (Some (take copy_len data ++ drop copy_len b), to_signed 64 (Z.of_nat copy_len))
        | None => (buffer, -2)
        end) s
  end.

(** The configuration is the default one but for the step mode. *)
Definition hetgpu_replay_set_step_mode (handle enabled : Z) (s : ffi_state) : ffi Z :=
  let d := replay_config_default in
  let config := mkReplayConfig (set_flag enabled) (cf_validate_outputs d) (cf_fp_tolerance d) (cf_kernel_filter d) (cf_max_kernels d) in
  change_engine handle (-1) (fun e => (set_config config e, Ok tt)) (fun _ => 0) (-2) s.

Definition hetgpu_replay_export_timeline_json (timeline_chunks : ExecutionTimeline -> list (list Z)) (handle : Z)
    (output_path : option (list Z)) (s : ffi_state) : ffi Z :=
  match output_path ≫= from_utf8 with
  | None => Ok (s, -1)
  | Some path =>
      on_handle handle (-1) (fun engine =>
        let '(w, r) := export_timeline_json timeline_chunks engine path (ff_world s) in
        let s := ff_set_world w s in
        match r with
        | Ok _ => Ok (s, 0)
        | Err _ => Ok (s, -2)
        | Panic => Panic
        end) s
  end.

(** The summary goes to the standard output. *)
Definition hetgpu_replay_print_summary (handle : Z) (s : ffi_state) : ffi Z := ask_engine handle (-1) (fun _ => 0) s.

Definition hetgpu_replay_get_validation_count (handle : Z) (s : ffi_state) : ffi Z :=
  ask_engine handle 0 (fun engine => Z.of_nat (length (en_validation_results engine))) s.

Definition hetgpu_replay_get_passed_count (handle : Z) (s : ffi_state) : ffi Z :=
  ask_engine handle 0 (fun engine => Z.of_nat (length (filter (fun r => vr_passed r = true) (en_validation_results engine)))) s.

Definition hetgpu_replay_get_failed_count (handle : Z) (s : ffi_state) : ffi Z :=
  ask_engine handle 0 (fun engine => Z.of_nat (length (filter (fun r => vr_passed r = false) (en_validation_results engine)))) s.

Definition hetgpu_replay_get_version : string := "hetGPU Replay v1.0.0".

Definition hetgpu_replay_is_available : Z := 1.

Definition hetgpu_replay_enable_recording_env (output_path : option (list Z)) (s : ffi_state) : ffi_state * Z :=
  let env := set_var "HETGPU_RECORD" "1" (ff_env s) in
  (ff_set_env (match output_path ≫= from_utf8 with
               | Some path => set_var "HETGPU_RECORD_OUTPUT" path env
               | None => env
               end) s, 0).

Definition hetgpu_replay_disable_recording_env (s : ffi_state) : ffi_state * Z :=
  (ff_set_env (set_var "HETGPU_RECORD" "0" (ff_env s)) s, 0).

(** ** Handles are independent *)
Inductive handle_call : Type :=
| HFree
| HInitialize
| HConfig (config : option CReplayConfig)
| HNext (result : option CValidationResult) (execution_time : Z)
| HReset
| HSeek (position : Z)
| HStepMode (enabled : Z)
| HCount
| HRead (original_addr : Z) (buffer : option (list Z)) (buffer_size : Z).

Definition forget {A} (r : ffi A) : outcome ffi_undefined ffi_state := fst <$> r.

Definition handle_do (handle : Z) (c : handle_call) (s : ffi_state) : outcome ffi_undefined ffi_state :=
  match c with
  | HFree => forget (hetgpu_replay_free handle s)
  | HInitialize => forget (hetgpu_replay_initialize handle s)
  | HConfig config => forget (hetgpu_replay_set_config handle config s)
  | HNext result t => forget (hetgpu_replay_next handle result t s)
  | HReset => forget (hetgpu_replay_reset handle s)
  | HSeek position => forget (hetgpu_replay_seek handle position s)
  | HStepMode enabled => forget (hetgpu_replay_set_step_mode handle enabled s)
  | HCount => forget (hetgpu_replay_get_kernel_count handle s)
  | HRead a b n => forget (hetgpu_replay_read_memory handle a b n s)
  end.

(** The engines of other handles, the recording and the files stay. *)
Definition untouched (handle : Z) (s s' : ffi_state) : Prop :=
  (forall h, h <> handle -> ff_engines s' !! h = ff_engines s !! h) /\ ff_recording s' = ff_recording s /\
  ff_world s' = ff_world s /\ ff_env s' = ff_env s.

Lemma untouched_set handle e s : untouched handle s (ff_set_engine handle e s).
Proof. split; [|done]. intros h Hh. by apply lookup_insert_ne. Qed.

Lemma on_handle_untouched {A} handle (null : A) f s s' :
  (forall e s1 a, f e = Ok (s1, a) -> untouched handle s s1) -> forget (on_handle handle null f s) = Ok s' -> untouched handle s s'.
Proof.
  intros Hf. unfold on_handle, forget. destruct (handle =? 0); [by intros [= <-]|].
  destruct (ff_engines s !! handle) as [e|]; [|done]. destruct (f e) as [[s1 a]| |] eqn:Hr; [|done..].
  intros [= <-]. by apply (Hf e s1 a).
Qed.

Lemma change_untouched {A B} handle (null : A) (run : stm ReplayEngine ReplayError B) ok err s s' :
  forget (change_engine handle null run ok err s) = Ok s' -> untouched handle s s'.
Proof.
  apply on_handle_untouched. intros e s1 a. destruct (run e) as [e' [b|x|]]; intros [= <- _] || done; apply untouched_set.
Qed.

Lemma ask_untouched {A} handle (null : A) f s s' : forget (ask_engine handle null f s) = Ok s' -> untouched handle s s'.
Proof. apply on_handle_untouched. by intros e s1 a [= <- _]. Qed.

(** A call on one handle does not touch the engines of the others, the recording
    session or the files. *)
Lemma handle_isolated handle c s s' : handle_do handle c s = Ok s' -> untouched handle s s'.
Proof.
  destruct c; cbn [handle_do]; try apply change_untouched; try apply ask_untouched.
  - apply on_handle_untouched. intros e s1 a [= <- _]. split; [|done]. intros h Hh. by apply lookup_delete_ne.
  - apply on_handle_untouched. intros e s1 a. destruct (initialize _) as [[e' va] [b|x|]]; intros [= <- _] || done; apply untouched_set.
  - unfold hetgpu_replay_set_config. destruct config; [apply change_untouched|]. by intros [= <-].
  - unfold hetgpu_replay_read_memory. destruct buffer; [apply ask_untouched|]. by intros [= <-].
Qed.

(** A freed handle is dangling. *)
Lemma freed_handle_dangles handle c s s' u : handle <> 0 -> hetgpu_replay_free handle s = Ok (s', u) ->
  c <> HConfig None -> (forall a n, c <> HRead a None n) -> handle_do handle c s' = Err DanglingHandle.
Proof.
  intros Hn. unfold hetgpu_replay_free, on_handle. rewrite (proj2 (Z.eqb_neq _ _) Hn).
  destruct (ff_engines s !! handle); [|done]. intros [= <- _] Hc Hr.
  assert (forall A (null : A) f, forget (on_handle handle null f (ff_drop_engine handle s)) = Err DanglingHandle) as Hd.
  { intros A null f. unfold on_handle. rewrite (proj2 (Z.eqb_neq _ _) Hn). cbn. by rewrite lookup_delete_eq. }
  destruct c as [| |[config|]| | | | | |a [b|] n]; cbn [handle_do]; try apply Hd; [done|]. by destruct (Hr a n).
Qed.

(** ** What configurations lose *)

(** Starting a recording uses only the two capture flags of its configuration:
    the conversion of the whole configuration is never called. *)
Lemma recording_start_ignores_method path c env : env "HETGPU_RECORD_DIRTY_METHOD"%string = None ->
  let rc := recording_config_from_env (recording_env path (Some c) env) in
  rc_dirty_method rc = SoftwareShadow /\ rc_max_memory_per_kernel rc = 0 /\ rc_compression rc = CompressionNone /\
  rc_capture_inputs rc = set_flag (crc_capture_inputs c) /\ rc_capture_outputs rc = set_flag (crc_capture_outputs c) /\
  rc_output_path rc = path.
Proof.
  intros Henv. unfold recording_config_from_env, recording_env, set_var, one_or_zero. cbn. rewrite Henv.
  by destruct (set_flag (crc_capture_inputs c)), (set_flag (crc_capture_outputs c)).
Qed.

(** Setting the step mode resets the rest of the configuration. *)
Lemma step_mode_resets_config handle enabled s e : handle <> 0 -> ff_engines s !! handle = Some e ->
  exists s' e', hetgpu_replay_set_step_mode handle enabled s = Ok (s', 0) /\ ff_engines s' !! handle = Some e' /\
    cf_max_kernels (en_config e') = None /\ cf_validate_outputs (en_config e') = true.
Proof.
  intros Hn He. unfold hetgpu_replay_set_step_mode, change_engine, on_handle. rewrite (proj2 (Z.eqb_neq _ _) Hn), He.
  eexists _, _. split; [done|]. split; [apply lookup_insert_eq|]. done.
Qed.
