(* ===== verification/Tmatmul.v ===== *)
(** * The TMatmul interpreter ([zluda/src/impl/tmatmul_interpreter.rs])

    Assembly text is parsed into instructions and run on host memory, one
    element at a time over the buffers the kernel's parameters point to.
    Single-precision values are bit patterns with the operations of
    [DeviceFloat]; the double-precision operations of the norm and the reading of
    decimal constants are [HostFloat].  Sizes and addresses are [Z], with the
    wrap-around of [u64] products written out. *)
From stdpp Require Import base numbers list strings gmap pretty.
From Stdlib Require Import ZArith Lia Ascii.
From S2P Require Import Prelude RustStr Delta Device.

Local Open Scope string_scope.
Local Open Scope list_scope.
Local Open Scope Z_scope.

(** Double precision on bit patterns, conversions, and [str::parse::<f32>]. *)
Class HostFloat := {
  d_of_f32 : Z -> Z;
  d_of_count : Z -> Z;
  d_zero : Z;
  d_epsilon : Z;
  d_add : Z -> Z -> Z;
  d_mul : Z -> Z -> Z;
  d_div : Z -> Z -> Z;
  d_sqrt : Z -> Z;
  f32_of_d : Z -> Z;
  parse_f32 : string -> option Z;
}.

(** [x != 0.0]: only the two zeros compare equal. *)
Definition f_nonzero (x : Z) : bool := negb ((x =? 0) || (x =? 0x80000000)).

(** ** Instructions *)
Inductive MemRef : Type :=
| Param (idx : Z)
| Spill (name : string)
| Const (val : Z).

Inductive TmInstruction : Type :=
| TmLoadVector (dst : nat) (mem : MemRef)
| TmStoreVector (src : nat) (mem : MemRef)
| TmAdd (dst src1 src2 : nat)
| TmSub (dst src1 src2 : nat)
| TmMul (dst src1 src2 : nat)
| TmDiv (dst src1 src2 : nat)
| TmSigmoid (dst src : nat)
| TmComplementSigmoid (dst src : nat)
| TmSiLU (dst src : nat)
| TmReLU (dst src : nat)
| TmNorm (dst src : nat)
| TmTMatmulImport (src : nat)
| TmTMatmulGo (weights : MemRef)
| TmTMatmulExport (dst : nat)
| TmNop.

(** ** Parsing *)
Definition parse_usize : string -> option Z := parse_int 10 0 (2 ^ 64 - 1).

(** [&s[n..]] after a prefix of length [n] *)
Definition suffix_from (n : nat) (s : string) : string := String.substring n (String.length s - n) s.

Definition parse_register (s : string) : option nat :=
  let s := trim s in
  if starts_with "v" s then Z.to_nat <$> parse_u8 (suffix_from 1 s) else None.

Section Parsing.
Context `{HostFloat}.

Definition parse_const (val_str : string) : MemRef :=
  if bool_decide (val_str ∈ ["0"; "0.0"; "0f00000000"]) then Const f_zero
  else if bool_decide (val_str ∈ ["1"; "1.0"; "0f3f800000"]) then Const f_one
  else
    match parse_f32 val_str with
    | Some v => Const v
    | None =>
        if starts_with "0f" val_str || starts_with "0F" val_str then
          match parse_int 16 0 (2 ^ 32 - 1) (suffix_from 2 val_str) with
          | Some bits => Const bits
          | None => Const f_zero
          end
        else Const f_zero
    end.

Definition memref_fallback (s : string) : MemRef :=
  if starts_with "SPILL_" s then Spill s
  else if starts_with "CONST_" s then parse_const (suffix_from 6 s)
  else match parse_usize s with Some idx => Param idx | None => Spill s end.

Definition parse_memref (s : string) : MemRef :=
  let s := trim s in
  match (if starts_with "PARAM_" s then parse_usize (suffix_from 6 s) else None) with
  | Some idx => Param idx
  | None => memref_fallback s
  end.

(** The operand patterns of the opcodes: registers in order, or a register and
    a memory reference; too few operands give no instruction. *)
Definition with_reg3 (mk : nat -> nat -> nat -> TmInstruction) (operands : list string) : option TmInstruction :=
  match operands with
  | a :: b :: c :: _ =>
      dst ← parse_register a; src1 ← parse_register b; src2 ← parse_register c; Some (mk dst src1 src2)
  | _ => None
  end.

Definition with_reg2 (mk : nat -> nat -> TmInstruction) (operands : list string) : option TmInstruction :=
  match operands with
  | a :: b :: _ => dst ← parse_register a; src ← parse_register b; Some (mk dst src)
  | _ => None
  end.

Definition with_reg1 (mk : nat -> TmInstruction) (operands : list string) : option TmInstruction :=
  match operands with
  | a :: _ => r ← parse_register a; Some (mk r)
  | _ => None
  end.

Definition with_reg_mem (mk : nat -> MemRef -> TmInstruction) (operands : list string) : option TmInstruction :=
  match operands with
  | a :: b :: _ => r ← parse_register a; Some (mk r (parse_memref b))
  | _ => None
  end.

Definition with_mem (mk : MemRef -> TmInstruction) (operands : list string) : option TmInstruction :=
  match operands with
  | a :: _ => Some (mk (parse_memref a))
  | _ => None
  end.

Definition parse_opcode (opcode : string) (operands : list string) : option TmInstruction :=
  if String.eqb opcode "ldv" then with_reg_mem TmLoadVector operands
  else if String.eqb opcode "sv" then with_reg_mem TmStoreVector operands
  else if String.eqb opcode "add" then with_reg3 TmAdd operands
  else if String.eqb opcode "sub" then with_reg3 TmSub operands
  else if String.eqb opcode "mul" then with_reg3 TmMul operands
  else if String.eqb opcode "div" then with_reg3 TmDiv operands
  else if String.eqb opcode "sig" then with_reg2 TmSigmoid operands
  else if String.eqb opcode "csig" then with_reg2 TmComplementSigmoid operands
  else if String.eqb opcode "silu" then with_reg2 TmSiLU operands
  else if String.eqb opcode "relu" then with_reg2 TmReLU operands
  else if String.eqb opcode "norm" then with_reg2 TmNorm operands
  else if String.eqb opcode "tmatmul_import" then with_reg1 TmTMatmulImport operands
  else if String.eqb opcode "tmatmul_go" then with_mem TmTMatmulGo operands
  else if String.eqb opcode "tmatmul_export" then with_reg1 TmTMatmulExport operands
  else None.

Definition tm_parse_line (line : string) : option TmInstruction :=
  let trimmed := trim line in
  if bool_decide (trimmed = "") || starts_with ";" trimmed then None
  else if ends_with_char ":" trimmed then None
  else
    let '(head, rest) := default (trimmed, "") (split_once_char is_whitespace trimmed) in
    let opcode := trim head in
    let operands_str := trim rest in
    let operands := if bool_decide (operands_str = "") then [] else trim <$> split_char "," operands_str in
    parse_opcode opcode operands.

Definition parse_assembly (asm : string) : list TmInstruction := omap tm_parse_line (lines asm).
End Parsing.

Definition bind_line (bindings : gmap Z string) (line : string) : gmap Z string :=
  let trimmed := trim line in
  match strip_prefix "; BIND PARAM_" trimmed with
  | Some rest =>
      match split_once " " rest with
      | Some (a, b) => match parse_usize a with Some idx => <[idx := b]> bindings | None => bindings end
      | None => bindings
      end
  | None => bindings
  end.

Definition extract_bindings (asm : string) : gmap Z string := foldl bind_line ∅ (lines asm).

(** ** Looking over a program *)
Definition is_norm (i : TmInstruction) : bool := match i with TmNorm _ _ => true | _ => false end.

Definition has_norm (instructions : list TmInstruction) : bool := existsb is_norm instructions.

Definition inst_memref (i : TmInstruction) : option MemRef :=
  match i with
  | TmLoadVector _ mem => Some mem
  | TmStoreVector _ mem => Some mem
  | TmTMatmulGo weights => Some weights
  | _ => None
  end.

Definition count_param_step (acc : Z * bool) (inst : TmInstruction) : Z * bool :=
  let '(max_param, found_any) := acc in
  match inst_memref inst with
  | Some (Param idx) => (if max_param <=? idx then wrapping_add 64 idx 1 else max_param, true)
  | _ => acc
  end.

Definition count_param_refs (instructions : list TmInstruction) : Z :=
  let '(max_param, found_any) := foldl count_param_step (0, false) instructions in
  if found_any then max_param else 0.

(** ** Execution *)

(** The eight registers, the spill slots, and host memory. *)
Record TmState : Type := mkTmState {
  tm_registers : list Z;
  tm_spill : gmap string Z;
  tm_mem : mem;
}.

(** A parameter: the address it points to (0 for none) and the bytes there. *)
Record TmParam : Type := mkTmParam { p_ptr : Z; p_size : Z }.

Definition param_null : TmParam := mkTmParam 0 0.

(** The address an element of a parameter has, when it is in bounds. *)
Definition param_addr (params : list TmParam) (idx byte_offset : Z) : option Z :=
  match params !! Z.to_nat idx with
  | Some p =>
      if (p_ptr p =? 0) || (p_size p <? byte_offset + 4) then None else Some (p_ptr p + byte_offset)
  | None => None
  end.

Definition read_memory (mref : MemRef) (params : list TmParam) (byte_offset : Z) (s : TmState) : Z :=
  match mref with
  | Param idx => match param_addr params idx byte_offset with Some a => load32 (tm_mem s) a | None => f_zero end
  | Spill name => default f_zero (tm_spill s !! name)
  | Const val => val
  end.

Definition write_memory (mref : MemRef) (params : list TmParam) (byte_offset value : Z) (s : TmState) : TmState :=
  match mref with
  | Param idx =>
      match param_addr params idx byte_offset with
      | Some a => mkTmState (tm_registers s) (tm_spill s) (store32 a value (tm_mem s))
      | None => s
      end
  | Spill name => mkTmState (tm_registers s) (<[name := value]> (tm_spill s)) (tm_mem s)
  | Const _ => s
  end.

(** Indexing the registers panics out of range. *)
Definition reg_get (r : nat) (s : TmState) : outcome string Z := unwrap (tm_registers s !! r).

Definition reg_set (r : nat) (v : Z) (s : TmState) : outcome string TmState :=
  if (r <? length (tm_registers s))%nat
  then Ok (mkTmState (<[r := v]> (tm_registers s)) (tm_spill s) (tm_mem s))
  else Panic.

Section Execution.
Context `{DeviceFloat}.

Definition tm_sigmoid (x : Z) : Z := f_div f_one (f_add f_one (f_exp (f_neg x))).

Definition binary (op : Z -> Z -> Z) (dst src1 src2 : nat) (s : TmState) : outcome string TmState :=
  a ← reg_get src1 s; b ← reg_get src2 s; reg_set dst (op a b) s.

Definition unary (op : Z -> Z) (dst src : nat) (s : TmState) : outcome string TmState :=
  x ← reg_get src s; reg_set dst (op x) s.

(** The dividend is only read when the divisor is not zero. *)
Definition divide (dst src1 src2 : nat) (s : TmState) : outcome string TmState :=
  divisor ← reg_get src2 s;
  v ← (if f_nonzero divisor then a ← reg_get src1 s; Ok (f_div a divisor) else Ok f_zero);
  reg_set dst v s.

Definition execute_instruction (params : list TmParam) (byte_offset rms_value : Z) (inst : TmInstruction)
    (s : TmState) : outcome string TmState :=
  match inst with
  | TmLoadVector dst mref => reg_set dst (read_memory mref params byte_offset s) s
  | TmStoreVector src mref => val ← reg_get src s; Ok (write_memory mref params byte_offset val s)
  | TmAdd dst src1 src2 => binary f_add dst src1 src2 s
  | TmSub dst src1 src2 => binary f_sub dst src1 src2 s
  | TmMul dst src1 src2 => binary f_mul dst src1 src2 s
  | TmDiv dst src1 src2 => divide dst src1 src2 s
  | TmSigmoid dst src => unary tm_sigmoid dst src s
  | TmComplementSigmoid dst src => unary (fun x => f_sub f_one (tm_sigmoid x)) dst src s
  | TmSiLU dst src => unary (fun x => f_mul x (tm_sigmoid x)) dst src s
  | TmReLU dst src => unary (fun x => if f_positive x then x else f_zero) dst src s
  | TmNorm dst src => unary (fun x => if f_nonzero rms_value then f_div x rms_value else x) dst src s
  | TmTMatmulImport _ | TmTMatmulGo _ | TmTMatmulExport _ | TmNop => Ok s
  end.

(** The instructions of one element. *)
Definition execute_element (instructions : list TmInstruction) (params : list TmParam) (rms_value : Z)
    (s : TmState) (elem : nat) : outcome string TmState :=
  foldM (fun s inst => execute_instruction params (Z.of_nat elem * 4) rms_value inst s) s instructions.

Definition initial_state (m : mem) : TmState := mkTmState (repeat f_zero 8) ∅ m.

Definition execute_elements (instructions : list TmInstruction) (params : list TmParam) (rms_value : Z)
    (num_elements : nat) (m : mem) : outcome string mem :=
  s ← foldM (execute_element instructions params rms_value) (initial_state m) (seq 0 num_elements);
  Ok (tm_mem s).

Definition execute_single_pass (instructions : list TmInstruction) (params : list TmParam)
    (num_elements : nat) (m : mem) : outcome string mem :=
  execute_elements instructions params f_zero num_elements m.

(** ** The norm *)

(** The parameter each register was last loaded from, and that of the last
    norm's source. *)
Definition trace_norm (acc : list (option Z) * option Z) (inst : TmInstruction)
    : outcome string (list (option Z) * option Z) :=
  let '(reg_source, norm_src_param) := acc in
  match inst with
  | TmLoadVector dst (Param idx) =>
      if (dst <? length reg_source)%nat then Ok (<[dst := Some idx]> reg_source, norm_src_param) else Panic
  | TmNorm _ src => src_param ← unwrap (reg_source !! src); Ok (reg_source, src_param)
  | _ => Ok acc
  end.

Context `{HostFloat}.

Definition sum_squares (m : mem) (ptr : Z) (count : nat) : Z :=
  foldl (fun sum_sq i => let val := d_of_f32 (load32 m (ptr + Z.of_nat i * 4)) in d_add sum_sq (d_mul val val))
    d_zero (seq 0 count).

Definition rms_of (m : mem) (p : TmParam) (num_elements : nat) : Z :=
  let count := Nat.min num_elements (Z.to_nat (p_size p / 4)) in
  let mean_sq := d_div (sum_squares m (p_ptr p) count) (d_of_count (Z.of_nat count)) in
  f32_of_d (d_sqrt (d_add mean_sq d_epsilon)).

Definition execute_two_pass (instructions : list TmInstruction) (params : list TmParam)
    (num_elements : nat) (m : mem) : outcome string mem :=
  '(_, norm_src_param) ← foldM trace_norm (repeat None 8, None) instructions;
  rms_value ←
    match norm_src_param with
    | Some param_idx =>
        p ← unwrap (params !! Z.to_nat param_idx);
        if p_ptr p =? 0 then Err (sapp (sapp "Norm source PARAM_" (pretty param_idx)) " is null") else Ok (rms_of m p num_elements)
    | None => Ok f_one
    end;
  execute_elements instructions params rms_value num_elements m.

(** ** The entry point *)

(** [memory::get_alloc_size]: the entries of [VIRTUAL_ALLOC_MAP] in the order
    the map is iterated. *)
Definition get_alloc_size (allocs : list (Z * Z)) (addr : Z) : option Z :=
  match list_find (fun '(base, _) => base = addr) allocs with
  | Some (_, (_, size)) => Some size
  | None =>
      '(_, (base, size)) ← list_find (fun '(base, size) => base <= addr < base + size) allocs;
      Some (size - (addr - base))
  end.

Definition valid_address (a : Z) : bool := (0x1000 <=? a) && (a <=? 0x7FFFFFFFFFFF).

(** One kernel parameter: a slot holding the address of a pointer to a tracked
    allocation; anything else is no buffer. *)
Definition resolve_param (m : mem) (allocs : list (Z * Z)) (kernel_params : Z) (i : nat) : TmParam :=
  let slot := kernel_params + 8 * Z.of_nat i in
  if negb (valid_address slot) then param_null
  else
    let param_addr := load64 m slot in
    if param_addr =? 0 then param_null
    else if negb (valid_address param_addr) then param_null
    else
      let ptr_value := load64 m param_addr in
      match get_alloc_size allocs ptr_value with
      | Some size => mkTmParam ptr_value size
      | None => param_null
      end.

(** The products wrap, as in a release build. *)
Definition total_elements (grid block : Z * Z * Z) : Z :=
  let '(gx, gy, gz) := grid in
  let '(bx, by_, bz) := block in
  foldl (wrapping_mul 64) gx [bx; Z.max gy 1; Z.max by_ 1; Z.max gz 1; Z.max bz 1].

Definition min_alloc_elements (params : list TmParam) (total : Z) : Z :=
  match (fun p => p_size p / 4) <$> filter (fun p => 0 < p_size p) params with
  | [] => total
  | n :: ns => foldr Z.min n ns
  end.

Definition max_elements : Z := 64 * 1024 * 1024.

Definition execute_assembly (asm : string) (allocs : list (Z * Z)) (kernel_params : Z)
    (grid block : Z * Z * Z) (m : mem) : outcome string mem :=
  let instructions := parse_assembly asm in
  match instructions with
  | [] => Err "No executable instructions found"
  | _ =>
      let total := total_elements grid block in
      if total =? 0 then Ok m
      else
        let num_params_needed := count_param_refs instructions in
        if num_params_needed =? 0 then Err "No PARAM references found in assembly"
        else if kernel_params =? 0 then Err "kernel_params is null"
        else
          let params := resolve_param m allocs kernel_params <$> seq 0 (Z.to_nat num_params_needed) in
          if forallb (fun p => p_ptr p =? 0) params then 
            Err (sapp (sapp "No valid pointer params found (needed " (pretty num_params_needed)) ", all null/scalar)")
          else
            let actual := Z.min total (min_alloc_elements params total) in
            if actual =? 0 then Err "Computed 0 elements to process"
            else
              let actual := Z.to_nat (Z.min actual max_elements) in
              if has_norm instructions then execute_two_pass instructions params actual m
              else execute_single_pass instructions params actual m
  end.
End Execution.
