(* ===== verification/TmatmulAsm.v ===== *)
(** * The TMatmul code generator ([ptx/src/pass/emit_tmatmul_asm.rs])

    Values of the dialect are given vector registers, spilling when all eight
    are in use; every operation becomes instructions of a program, which is
    printed as assembly text. *)
From stdpp Require Import base numbers list strings gmap pretty.
From Stdlib Require Import ZArith Lia Ascii.
From S2P Require Import Prelude RustStr.

Local Open Scope string_scope.
Local Open Scope list_scope.
Local Open Scope nat_scope.

Definition NUM_REGISTERS : nat := 8.

(** ** Register allocation *)
Record SpillSlot : Type := mkSpillSlot {
  memory_name : string;
  ssa_value : string;
}.

Record RegisterAllocator : Type := mkRegisterAllocator {
  value_to_reg : gmap string string;
  allocated_regs : list bool;
  next_reg : nat;
  spill_slots : gmap string SpillSlot;
  next_spill_slot : nat;
  pending_spills : list (string * string);
  pending_reloads : list (string * string);
}.

Definition allocator_new : RegisterAllocator :=
  mkRegisterAllocator ∅ (repeat false NUM_REGISTERS) 0 ∅ 0 [] [].

(** [format!("v{}", idx)] and [format!("SPILL_{}", n)] *)
Definition reg_name (idx : nat) : string := sapp "v" (pretty idx).
Definition spill_name (n : nat) : string := sapp "SPILL_" (pretty n).

(** The order in which the register map is iterated. *)
Class RegisterOrder : Type := {
  reg_iter : gmap string string -> list (string * string);
  reg_iter_perm : forall m, reg_iter m ≡ₚ map_to_list m;
}.

(** Giving register [idx] to a value. *)
Definition assign_register (value : string) (idx : nat) (a : RegisterAllocator) : RegisterAllocator :=
  mkRegisterAllocator (<[value := reg_name idx]> (value_to_reg a)) (<[idx := true]> (allocated_regs a))
    ((idx + 1) mod NUM_REGISTERS) (spill_slots a) (next_spill_slot a) (pending_spills a) (pending_reloads a).

(** Moving the value in a register to a new spill slot. *)
Definition spill_victim (victim_ssa victim_reg : string) (a : RegisterAllocator) : RegisterAllocator :=
  let name := spill_name (next_spill_slot a) in
  mkRegisterAllocator (delete victim_ssa (value_to_reg a)) (allocated_regs a) (next_reg a)
    (<[victim_ssa := mkSpillSlot name victim_ssa]> (spill_slots a)) (next_spill_slot a + 1)
    (pending_spills a ++ [(victim_reg, name)]) (pending_reloads a).

Definition queue_reload (value name reg : string) (a : RegisterAllocator) : RegisterAllocator :=
  mkRegisterAllocator (value_to_reg a) (allocated_regs a) (next_reg a) (delete value (spill_slots a))
    (next_spill_slot a) (pending_spills a) (pending_reloads a ++ [(name, reg)]).

Section Allocation.
Context `{RegisterOrder}.

Definition allocate_physical_register (value : string) : stm RegisterAllocator string string := fun a =>
  match list_find (fun used => used = false) (allocated_regs a) with
  | Some (reg_idx, _) => (assign_register value reg_idx a, Ok (reg_name reg_idx))
  | None =>
      let victim_idx := (next_reg a + NUM_REGISTERS - 1) mod NUM_REGISTERS in
      let victim_reg := reg_name victim_idx in
      let a :=
        match list_find (fun '(_, r) => r = victim_reg) (reg_iter (value_to_reg a)) with
        | Some (_, (victim_ssa, _)) => spill_victim victim_ssa victim_reg a
        | None => a
        end in
      (assign_register value victim_idx a, Ok victim_reg)
  end.

Definition tm_allocate (value : string) : stm RegisterAllocator string string := fun a =>
  match value_to_reg a !! value with
  | Some reg => (a, Ok reg)
  | None =>
      match spill_slots a !! value with
      | Some slot =>
          (reg ← allocate_physical_register value;
           a ← stm_get;
           stm_put (queue_reload value (memory_name slot) reg a);;
           mret reg) a
      | None => allocate_physical_register value a
      end
  end.
End Allocation.

(** [str::parse::<usize>] of a register's number *)
Definition reg_index (reg : string) : option Z :=
  s ← strip_prefix "v" reg; parse_int 10 0 (2 ^ 64 - 1)%Z s.

Definition tm_free (value : string) (a : RegisterAllocator) : RegisterAllocator :=
  let '(v2r, used) :=
    match value_to_reg a !! value with
    | Some reg =>
        (delete value (value_to_reg a),
         match reg_index reg with
         | Some idx => if (idx <? Z.of_nat NUM_REGISTERS)%Z then <[Z.to_nat idx := false]> (allocated_regs a)
                       else allocated_regs a
         | None => allocated_regs a
         end)
    | None => (value_to_reg a, allocated_regs a)
    end in
  mkRegisterAllocator v2r used (next_reg a) (delete value (spill_slots a)) (next_spill_slot a)
    (pending_spills a) (pending_reloads a).

Definition get_register (value : string) (a : RegisterAllocator) : option string := value_to_reg a !! value.
Definition is_spilled (value : string) (a : RegisterAllocator) : bool := bool_decide (is_Some (spill_slots a !! value)).
Definition spill_count (a : RegisterAllocator) : nat := next_spill_slot a.

Definition take_pending_spills (a : RegisterAllocator) : RegisterAllocator * list (string * string) :=
  (mkRegisterAllocator (value_to_reg a) (allocated_regs a) (next_reg a) (spill_slots a) (next_spill_slot a)
     [] (pending_reloads a), pending_spills a).

Definition take_pending_reloads (a : RegisterAllocator) : RegisterAllocator * list (string * string) :=
  (mkRegisterAllocator (value_to_reg a) (allocated_regs a) (next_reg a) (spill_slots a) (next_spill_slot a)
     (pending_spills a) [], pending_reloads a).

(** ** Instructions and their text *)
Inductive MemoryLocation : Type :=
| LocX | LocWG | LocWF | LocWC | LocWO | LocWU1 | LocWU2 | LocWN | LocOH | LocB | LocO | LocTempVec
| LocCustom (name : string).

Definition location_text (l : MemoryLocation) : string :=
  match l with
  | LocX => "X" | LocWG => "WG" | LocWF => "WF" | LocWC => "WC" | LocWO => "WO"
  | LocWU1 => "WU1" | LocWU2 => "WU2" | LocWN => "WN" | LocOH => "oH" | LocB => "B" | LocO => "O"
  | LocTempVec => "TEMP_VEC"
  | LocCustom name => name
  end.

Inductive TMatmulInstruction : Type :=
| LoadVector (dst : string) (src : MemoryLocation)
| StoreVector (src : string) (dst : MemoryLocation)
| IAdd (dst src1 src2 : string)
| ISub (dst src1 src2 : string)
| IMul (dst src1 src2 : string)
| IDiv (dst src1 src2 : string)
| ISigmoid (dst src : string)
| IComplementSigmoid (dst src : string)
| ISiLU (dst src : string)
| INorm (dst src : string)
| TMatmulImport (src : string)
| TMatmulGo (weights : MemoryLocation)
| TMatmulExport (dst : string)
| IComment (text : string)
| ILabel (name : string).

(** An opcode with its comma-separated operands. *)
Definition op_text (op : string) (operands : list string) : string :=
  sapp "    " (sapp op (sapp "    " (join "," operands))).

Definition instruction_text (i : TMatmulInstruction) : string :=
  match i with
  | LoadVector dst src => op_text "ldv" [dst; location_text src]
  | StoreVector src dst => op_text "sv" [src; location_text dst]
  | IAdd dst src1 src2 => op_text "add" [dst; src1; src2]
  | ISub dst src1 src2 => op_text "sub" [dst; src1; src2]
  | IMul dst src1 src2 => op_text "mul" [dst; src1; src2]
  | IDiv dst src1 src2 => op_text "div" [dst; src1; src2]
  | ISigmoid dst src => op_text "sig" [dst; src]
  | IComplementSigmoid dst src => op_text "csig" [dst; src]
  | ISiLU dst src => op_text "silu" [dst; src]
  | INorm dst src => op_text "norm" [dst; src]
  | TMatmulImport src => op_text "tmatmul_import" [src]
  | TMatmulGo weights => op_text "tmatmul_go" [location_text weights]
  | TMatmulExport dst => op_text "tmatmul_export" [dst]
  | IComment text => sapp "    ; " text
  | ILabel name => sapp name ":"
  end.

Definition TMatmulProgram : Type := list TMatmulInstruction.

Definition rule : string := "-------------------------------------------------------".

Definition separator (section_name : string) : TMatmulProgram :=
  [IComment ""; IComment rule; IComment (sapp " " section_name); IComment rule; IComment ""].

Definition header_lines : list string :=
  [sapp ";" rule; "; vector registers: v0..v7"; ";";
   "; DDR: X, WG, WF, WC, WO, WU1, WU2, WN, oH, B, O, TEMP_VEC"; ";"; "; instructions:"; "; memory: ldv sv";
   "; operations: add sub mul div sig csig silu"; "; misc: norm tmatmul_import tmatmul_go tmatmul_export";
   sapp ";" rule; ""].

(** [writeln!] of each line *)
Fixpoint unlines (ls : list string) : string :=
  match ls with
  | [] => ""
  | l :: ls => sapp l (String newline (unlines ls))
  end.

Definition to_assembly (p : TMatmulProgram) : string := unlines (header_lines ++ (instruction_text <$> p)).

(** ** Code generation *)
Record TMatmulCodegen : Type := mkTMatmulCodegen {
  g_program : TMatmulProgram;
  g_alloc : RegisterAllocator;
  g_mem_map : gmap string MemoryLocation;
}.

Definition codegen_new : TMatmulCodegen := mkTMatmulCodegen [] allocator_new ∅.

Definition map_memory (symbol : string) (location : MemoryLocation) (g : TMatmulCodegen) : TMatmulCodegen :=
  mkTMatmulCodegen (g_program g) (g_alloc g) (<[symbol := location]> (g_mem_map g)).

Definition push (code : list TMatmulInstruction) (g : TMatmulCodegen) : TMatmulCodegen :=
  mkTMatmulCodegen (g_program g ++ code) (g_alloc g) (g_mem_map g).

Definition set_alloc (a : RegisterAllocator) (g : TMatmulCodegen) : TMatmulCodegen :=
  mkTMatmulCodegen (g_program g) a (g_mem_map g).

Definition add_instruction (i : TMatmulInstruction) : stm TMatmulCodegen string unit := fun g => (push [i] g, Ok tt).
Definition add_comment (comment : string) (g : TMatmulCodegen) : TMatmulCodegen := push [IComment comment] g.
Definition add_section (section_name : string) (g : TMatmulCodegen) : TMatmulCodegen := push (separator section_name) g.

Definition spill_code (s : string * string) : list TMatmulInstruction :=
  let '(reg, mem_name) := s in
  [IComment (sapp "Spill " (sapp reg (sapp " to " mem_name))); StoreVector reg (LocCustom mem_name)].

Definition reload_code (s : string * string) : list TMatmulInstruction :=
  let '(mem_name, reg) := s in
  [IComment (sapp "Reload " (sapp reg (sapp " from " mem_name))); LoadVector reg (LocCustom mem_name)].

Definition emit_pending_spills : stm TMatmulCodegen string unit := fun g =>
  let '(a, spills) := take_pending_spills (g_alloc g) in
  (push (spills ≫= spill_code) (set_alloc a g), Ok tt).

Definition emit_pending_reloads : stm TMatmulCodegen string unit := fun g =>
  let '(a, reloads) := take_pending_reloads (g_alloc g) in
  (push (reloads ≫= reload_code) (set_alloc a g), Ok tt).

Section Codegen.
Context `{RegisterOrder}.

Definition allocate_reg (value : string) : stm TMatmulCodegen string string := fun g =>
  let '(a, r) := tm_allocate value (g_alloc g) in (set_alloc a g, r).

Definition ensure_in_register (value : string) : stm TMatmulCodegen string string :=
  reg ← allocate_reg value;
  emit_pending_reloads;;
  mret reg.

(** [operands[i]], which panics out of range *)
Definition operand_at (i : nat) (l : list string) : stm TMatmulCodegen string string := stm_lift (unwrap (l !! i)).

(** The location a symbol is mapped to, or the symbol itself. *)
Definition location_of (symbol : string) : stm TMatmulCodegen string MemoryLocation := fun g =>
  (g, Ok (default (LocCustom symbol) (g_mem_map g !! symbol))).

(** A register for the result, with the spills it needs. *)
Definition result_register (results : list string) : stm TMatmulCodegen string string :=
  r ← operand_at 0 results;
  dst ← allocate_reg r;
  emit_pending_spills;;
  mret dst.

Definition emit_binary (mk : string -> string -> string -> TMatmulInstruction) (operands results : list string)
    : stm TMatmulCodegen string unit :=
  a ← operand_at 0 operands;
  src1 ← ensure_in_register a;
  b ← operand_at 1 operands;
  src2 ← ensure_in_register b;
  emit_pending_spills;;
  dst ← result_register results;
  add_instruction (mk dst src1 src2).

Definition emit_unary (mk : string -> string -> TMatmulInstruction) (operands results : list string)
    : stm TMatmulCodegen string unit :=
  a ← operand_at 0 operands;
  src ← ensure_in_register a;
  emit_pending_spills;;
  dst ← result_register results;
  add_instruction (mk dst src).

Definition emit_ldv (operands results : list string) : stm TMatmulCodegen string unit :=
  emit_pending_spills;;
  dst ← result_register results;
  a ← operand_at 0 operands;
  src_mem ← location_of a;
  add_instruction (LoadVector dst src_mem).

Definition emit_sv (operands : list string) : stm TMatmulCodegen string unit :=
  a ← operand_at 0 operands;
  src ← ensure_in_register a;
  emit_pending_spills;;
  b ← operand_at 1 operands;
  dst_mem ← location_of b;
  add_instruction (StoreVector src dst_mem).

Definition emit_import (operands : list string) : stm TMatmulCodegen string unit :=
  a ← operand_at 0 operands;
  src ← ensure_in_register a;
  emit_pending_spills;;
  add_instruction (TMatmulImport src).

Definition emit_go (operands : list string) : stm TMatmulCodegen string unit :=
  a ← operand_at 0 operands;
  weights ← location_of a;
  add_instruction (TMatmulGo weights).

Definition emit_export (results : list string) : stm TMatmulCodegen string unit :=
  emit_pending_spills;;
  dst ← result_register results;
  add_instruction (TMatmulExport dst).

Definition emit_matmul (operands results : list string) : stm TMatmulCodegen string unit :=
  a ← operand_at 0 operands;
  input_reg ← ensure_in_register a;
  emit_pending_spills;;
  b ← operand_at 1 operands;
  weights ← location_of b;
  output_reg ← result_register results;
  add_instruction (TMatmulImport input_reg);;
  add_instruction (TMatmulGo weights);;
  add_instruction (TMatmulExport output_reg).

Definition emit_operation (op : string) (operands results : list string) : stm TMatmulCodegen string unit :=
  if String.eqb op "tmatmul.ldv" then emit_ldv operands results
  else if String.eqb op "tmatmul.sv" then emit_sv operands
  else if String.eqb op "tmatmul.add" then emit_binary IAdd operands results
  else if String.eqb op "tmatmul.mul" then emit_binary IMul operands results
  else if String.eqb op "tmatmul.sub" then emit_binary ISub operands results
  else if String.eqb op "tmatmul.div" then emit_binary IDiv operands results
  else if String.eqb op "tmatmul.sig" then emit_unary ISigmoid operands results
  else if String.eqb op "tmatmul.csig" then emit_unary IComplementSigmoid operands results
  else if String.eqb op "tmatmul.silu" then emit_unary ISiLU operands results
  else if String.eqb op "tmatmul.norm" then emit_unary INorm operands results
  else if String.eqb op "tmatmul.tmatmul_import" then emit_import operands
  else if String.eqb op "tmatmul.tmatmul_go" then emit_go operands
  else if String.eqb op "tmatmul.tmatmul_export" then emit_export results
  else if String.eqb op "tmatmul.matmul" then emit_matmul operands results
  else stm_lift (Err (sapp "Unknown operation: " op)).
End Codegen.

Definition get_assembly (g : TMatmulCodegen) : string := to_assembly (g_program g).
