(* ===== verification/TmatmulText.v ===== *)
(** * Printing and parsing TMatmul assembly

    The interpreter reads the text the code generator prints: every instruction
    comes back with its registers and memory references, comments and labels
    leave nothing. *)
From stdpp Require Import base numbers list strings gmap pretty.
From Stdlib Require Import ZArith Lia Ascii.
From S2P Require Import Prelude RustStr Delta Device Tmatmul TmatmulAsm.

Local Open Scope string_scope.
Local Open Scope list_scope.
Local Open Scope nat_scope.

(** ** Strings by their characters *)
Fixpoint all_chars (f : ascii -> bool) (s : string) : bool :=
  match s with
  | "" => true
  | String c s => f c && all_chars f s
  end.

Lemma sapp_cons c s t : sapp (String c s) t = String c (sapp s t).
Proof. reflexivity. Qed.

Lemma sapp_nil t : sapp "" t = t.
Proof. reflexivity. Qed.

Lemma sapp_assoc a b c : sapp (sapp a b) c = sapp a (sapp b c).
Proof. induction a as [|x a IH]; [done|]. by rewrite !sapp_cons, IH. Qed.

Lemma all_chars_app f s t : all_chars f (sapp s t) = all_chars f s && all_chars f t.
Proof. induction s as [|c s IH]; [done|]. rewrite sapp_cons. cbn. by rewrite IH, andb_assoc. Qed.

Lemma all_chars_impl f g s : (forall c, f c = true -> g c = true) -> all_chars f s = true -> all_chars g s = true.
Proof.
  intros H. induction s as [|c s IH]; [done|]. cbn. rewrite !andb_true_iff. intros [? ?]. auto.
Qed.

Definition solid_char (c : ascii) : bool := negb (is_whitespace c).

(** A word without blanks or commas. *)
Definition token_char (c : ascii) : bool := solid_char c && negb (Ascii.eqb c ",").
Definition token (s : string) : bool := negb (String.eqb s "") && all_chars token_char s.

(** A line of text. *)
Definition line_char (c : ascii) : bool := negb (Ascii.eqb c newline) && negb (Ascii.eqb c carriage_return).
Definition one_line (s : string) : bool := all_chars line_char s.

Lemma token_solid s : token s = true -> s <> "" /\ all_chars solid_char s = true.
Proof.
  unfold token. rewrite andb_true_iff, negb_true_iff, String.eqb_neq. intros [Hne H]. split; [done|].
  revert H. apply all_chars_impl. intros c [? _]%andb_true_iff. done.
Qed.

(** ** Trimming *)
Lemma trim_start_solid c s : solid_char c = true -> trim_start (String c s) = String c s.
Proof. intros H%negb_true_iff. cbn. by rewrite H. Qed.

Lemma trim_end_solid y : all_chars solid_char y = true -> trim_end y = y.
Proof.
  unfold trim_end. induction y as [|c y IH]; [done|]. cbn. intros [Hc%negb_true_iff Hy]%andb_true_iff.
  rewrite IH by done. destruct y; [by rewrite Hc|done].
Qed.

Lemma trim_end_app x y : y <> "" -> all_chars solid_char y = true -> trim_end (sapp x y) = sapp x y.
Proof.
  intros Hne Hy. induction x as [|c x IH]; [by apply trim_end_solid|].
  rewrite sapp_cons. unfold trim_end in *. cbn [trim_end_matches]. rewrite IH.
  destruct x as [|d x]; [rewrite sapp_nil; by destruct y|by rewrite sapp_cons].
Qed.

Lemma trim_solid y : all_chars solid_char y = true -> trim y = y.
Proof.
  intros Hy. unfold trim. destruct y as [|c y]; [done|]. cbn in Hy. apply andb_true_iff in Hy as [Hc Hy].
  rewrite trim_start_solid by done. apply trim_end_solid. cbn. by rewrite Hc.
Qed.

Lemma trim_start_spaces n s : trim_start (sapp (String.concat "" (repeat " " n)) s) = trim_start s.
Proof. induction n as [|[|n] IH]; [done|done|]. exact IH. Qed.

(** ** Splitting *)
Lemma break_word f op c rest :
  all_chars (fun x => negb (f x)) op = true -> f c = true ->
  break f (sapp op (String c rest)) = (op, String c rest).
Proof.
  intros Hop Hc. induction op as [|x op IH]; [rewrite sapp_nil; cbn; by rewrite Hc|].
  cbn in Hop. apply andb_true_iff in Hop as [Hx%negb_true_iff Hop]. rewrite sapp_cons. cbn.
  rewrite Hx. by rewrite IH.
Qed.

Lemma split_char_here c s t :
  all_chars (fun x => negb (Ascii.eqb x c)) s = true ->
  split_char c (sapp s (String c t)) = s :: split_char c t.
Proof.
  intros Hs. induction s as [|x s IH]; [rewrite sapp_nil; cbn [split_char]; by rewrite Ascii.eqb_refl|].
  cbn in Hs. apply andb_true_iff in Hs as [Hx%negb_true_iff Hs]. rewrite sapp_cons. cbn. by rewrite Hx, IH.
Qed.

Lemma split_char_none c s : all_chars (fun x => negb (Ascii.eqb x c)) s = true -> split_char c s = [s].
Proof.
  induction s as [|x s IH]; [done|]. cbn. intros [Hx%negb_true_iff Hs]%andb_true_iff. by rewrite Hx, IH.
Qed.

Lemma split_join operands :
  operands <> [] -> Forall (fun s => token s = true) operands -> split_char "," (join "," operands) = operands.
Proof.
  assert (forall s, token s = true -> all_chars (fun x => negb (Ascii.eqb x ",")) s = true) as Hc.
  { intros s Hs. unfold token in Hs. apply andb_true_iff in Hs as [_ Hs]. revert Hs. apply all_chars_impl.
    intros c [_ ?]%andb_true_iff. done. }
  intros Hne Hall. induction Hall as [|s l Hs Hl IH]; [done|]. destruct l as [|t l].
  - apply split_char_none. by apply Hc.
  - change (join "," (s :: t :: l)) with (sapp s (String "," (join "," (t :: l)))).
    rewrite split_char_here by (by apply Hc). by rewrite IH.
Qed.

Lemma join_solid operands :
  operands <> [] -> Forall (fun s => token s = true) operands ->
  join "," operands <> "" /\ all_chars solid_char (join "," operands) = true.
Proof.
  intros Hne Hall. induction Hall as [|s l Hs Hl IH]; [done|]. destruct (token_solid s Hs) as [Hn Hsol].
  destruct l as [|t l]; [done|]. change (join "," (s :: t :: l)) with (sapp s (String "," (join "," (t :: l)))).
  destruct IH as [_ IH]; [done|]. rewrite all_chars_app, Hsol. cbn [all_chars]. rewrite IH. split; [by destruct s|done].
Qed.

Lemma ends_with_app c x y : y <> "" -> ends_with_char c (sapp x y) = ends_with_char c y.
Proof.
  intros Hne. induction x as [|d x IH]; [done|]. rewrite sapp_cons, <- IH.
  unfold ends_with_char. cbn [strip_suffix_char].
  assert (sapp x y <> "") as Hn by (destruct x; [done|by rewrite sapp_cons]).
  destruct (sapp x y) as [|e t]; [done|]. by destruct (strip_suffix_char c (String e t)).
Qed.

Section Text.
Context `{HostFloat}.

(** ** One line *)

(** An opcode: a word that is not a comment. *)
Definition opcode_word (op : string) : bool :=
  match op with
  | "" => false
  | String c _ => all_chars solid_char op && negb (Ascii.eqb c ";")
  end.

Definition no_colon (operands : list string) : Prop := ends_with_char ":" (default "" (last operands)) = false.

Lemma join_last operands :
  operands <> [] -> Forall (fun s => token s = true) operands ->
  exists x, join "," operands = sapp x (default "" (last operands)) /\ default "" (last operands) <> "".
Proof.
  intros Hne Hall. induction Hall as [|s l Hs Hl IH]; [done|]. destruct l as [|t l].
  - exists "". split; [done|]. by apply token_solid in Hs as [? _].
  - destruct IH as (x & IH & Hn); [done|]. exists (sapp s (String "," x)). rewrite last_cons_cons. split; [|done].
    change (join "," (s :: t :: l)) with (sapp s (String "," (join "," (t :: l)))).
    by rewrite IH, sapp_assoc, sapp_cons.
Qed.

Lemma parse_op_text op operands :
  opcode_word op = true -> operands <> [] -> Forall (fun s => token s = true) operands -> no_colon operands ->
  tm_parse_line (op_text op operands) = parse_opcode op operands.
Proof.
  intros Hop Hne Hall Hcol. destruct (join_solid operands Hne Hall) as [Hjn Hjs].
  destruct op as [|c op]; [done|]. cbn [opcode_word] in Hop. apply andb_true_iff in Hop as [Hsol Hsemi].
  pose proof Hsol as Hsol'. cbn [all_chars] in Hsol'. apply andb_true_iff in Hsol' as [Hc _].
  set (body := sapp (String c op) (sapp "    " (join "," operands))).
  assert (trim (op_text (String c op) operands) = body) as Ht.
  { unfold trim, op_text. fold body. change (trim_start (sapp "    " body)) with (trim_start body).
    unfold body. rewrite sapp_cons, trim_start_solid by done. rewrite <- sapp_cons, <- sapp_assoc.
    by apply trim_end_app. }
  unfold tm_parse_line. rewrite Ht.
  assert (starts_with ";" body = false) as Hs.
  { unfold body. rewrite sapp_cons. unfold starts_with. cbn [String.prefix].
    destruct (ascii_dec ";" c) as [<-|]; [by rewrite Ascii.eqb_refl in Hsemi|done]. }
  assert (ends_with_char ":" body = false) as He.
  { destruct (join_last operands Hne Hall) as (x & Hx & Hn). unfold body. rewrite Hx, <- !sapp_assoc.
    by rewrite ends_with_app by done. }
  assert (split_once_char is_whitespace body = Some (String c op, sapp "   " (join "," operands))) as Hsp.
  { unfold split_once_char, body. change (sapp "    " (join "," operands)) with (String " " (sapp "   " (join "," operands))).
    by rewrite break_word by done. }
  rewrite bool_decide_false by (unfold body; by rewrite sapp_cons). rewrite Hs, He, Hsp. cbn [orb from_option id].
  rewrite trim_solid by done.
  change (trim (sapp "   " (join "," operands))) with (trim (join "," operands)). rewrite trim_solid by done.
  rewrite bool_decide_false by done. rewrite split_join by done. f_equal.
  rewrite <- (list_fmap_id operands) at 2. apply list_fmap_ext. intros i s Hi.
  rewrite Forall_lookup in Hall. apply trim_solid, (token_solid s), (Hall i s Hi).
Qed.

Lemma comment_parses_to_nothing text : tm_parse_line (sapp "    ; " text) = None.
Proof.
  unfold tm_parse_line, trim. change (trim_start (sapp "    ; " text)) with (String ";" (sapp " " text)).
  assert (exists t, trim_end (String ";" (sapp " " text)) = String ";" t) as [t ->].
  { unfold trim_end. cbn [trim_end_matches]. destruct (trim_end_matches is_whitespace (sapp " " text)); by eexists. }
  rewrite bool_decide_false by done. cbn [orb]. unfold starts_with. cbn [String.prefix].
  by destruct (ascii_dec ";" ";"), t.
Qed.

Lemma label_parses_to_nothing name : tm_parse_line (sapp name ":") = None.
Proof.
  assert (exists x, trim (sapp name ":") = sapp x ":") as [x Hx].
  { unfold trim. assert (exists x, trim_start (sapp name ":") = sapp x ":") as [x ->].
    { induction name as [|c name IH]; [by exists ""|]. rewrite sapp_cons. cbn [trim_start].
      destruct (is_whitespace c); [exact IH|]. by exists (String c name). }
    exists x. by apply trim_end_app. }
  unfold tm_parse_line. rewrite Hx. destruct (_ || _); [done|]. by rewrite ends_with_app.
Qed.

(** ** The text of a program *)

(** What an instruction means to the interpreter. *)
Definition lower (i : TMatmulInstruction) : option TmInstruction :=
  match i with
  | LoadVector dst src => r ← parse_register dst; Some (TmLoadVector r (parse_memref (location_text src)))
  | StoreVector src dst => r ← parse_register src; Some (TmStoreVector r (parse_memref (location_text dst)))
  | IAdd dst src1 src2 => d ← parse_register dst; a ← parse_register src1; b ← parse_register src2; Some (TmAdd d a b)
  | ISub dst src1 src2 => d ← parse_register dst; a ← parse_register src1; b ← parse_register src2; Some (TmSub d a b)
  | IMul dst src1 src2 => d ← parse_register dst; a ← parse_register src1; b ← parse_register src2; Some (TmMul d a b)
  | IDiv dst src1 src2 => d ← parse_register dst; a ← parse_register src1; b ← parse_register src2; Some (TmDiv d a b)
  | ISigmoid dst src => d ← parse_register dst; a ← parse_register src; Some (TmSigmoid d a)
  | IComplementSigmoid dst src => d ← parse_register dst; a ← parse_register src; Some (TmComplementSigmoid d a)
  | ISiLU dst src => d ← parse_register dst; a ← parse_register src; Some (TmSiLU d a)
  | INorm dst src => d ← parse_register dst; a ← parse_register src; Some (TmNorm d a)
  | TMatmulImport src => r ← parse_register src; Some (TmTMatmulImport r)
  | TMatmulGo weights => Some (TmTMatmulGo (parse_memref (location_text weights)))
  | TMatmulExport dst => r ← parse_register dst; Some (TmTMatmulExport r)
  | IComment _ | ILabel _ => None
  end.

(** The operands an instruction prints. *)
Definition printed_operands (i : TMatmulInstruction) : list string :=
  match i with
  | LoadVector r l | StoreVector r l => [r; location_text l]
  | IAdd d a b | ISub d a b | IMul d a b | IDiv d a b => [d; a; b]
  | ISigmoid d a | IComplementSigmoid d a | ISiLU d a | INorm d a => [d; a]
  | TMatmulImport r | TMatmulExport r => [r]
  | TMatmulGo l => [location_text l]
  | IComment _ | ILabel _ => []
  end.

(** Operands are words, the last of which does not look like a label; comments
    and labels are single lines. *)
Definition printable (i : TMatmulInstruction) : bool :=
  match i with
  | IComment text => one_line text
  | ILabel name => one_line name
  | _ => forallb token (printed_operands i) &&
         negb (ends_with_char ":" (default "" (last (printed_operands i))))
  end.

Lemma parse_instruction_text i : printable i = true -> tm_parse_line (instruction_text i) = lower i.
Proof.
  intros Hp.
  assert (forall op, printed_operands i <> [] -> opcode_word op = true ->
    tm_parse_line (op_text op (printed_operands i)) = parse_opcode op (printed_operands i)) as Hop.
  { intros op Hne Hop. assert (forallb token (printed_operands i) &&
      negb (ends_with_char ":" (default "" (last (printed_operands i)))) = true) as Hpr by (by destruct i).
    apply andb_true_iff in Hpr as [Ht Hc%negb_true_iff]. apply parse_op_text; try done.
    apply Forall_forall. intros s Hs. rewrite forallb_forall in Ht. apply Ht. by apply list_elem_of_In. }
  destruct i; cbn [instruction_text printed_operands] in *;
    try (rewrite Hop by done; reflexivity).
  - apply comment_parses_to_nothing.
  - apply label_parses_to_nothing.
Qed.

Lemma solid_line c : solid_char c = true -> line_char c = true.
Proof.
  unfold solid_char, line_char. rewrite negb_true_iff, andb_true_iff, !negb_true_iff, !Ascii.eqb_neq.
  intros Hw. split; intros ->; discriminate Hw.
Qed.

Lemma instruction_text_line i : printable i = true -> one_line (instruction_text i) = true.
Proof.
  intros Hp.
  assert (forall op, one_line op = true -> printed_operands i <> [] -> one_line (op_text op (printed_operands i)) = true) as Hop.
  { intros op Hop Hne. assert (forallb token (printed_operands i) = true) as Ht.
    { destruct i; try done; by apply andb_true_iff in Hp as [? _]. }
    destruct (join_solid (printed_operands i) Hne) as [_ Hj].
    { apply Forall_forall. intros s Hs. rewrite forallb_forall in Ht. apply Ht. by apply list_elem_of_In. }
    unfold one_line, op_text in *. rewrite !all_chars_app, Hop. cbn [andb].
    revert Hj. apply all_chars_impl, solid_line. }
  destruct i; cbn [instruction_text printed_operands printable] in *; try (apply Hop; done).
  - exact Hp.
  - unfold one_line in *. by rewrite all_chars_app, Hp.
Qed.

Lemma strip_cr_line s : one_line s = true -> strip_cr s = s.
Proof.
  unfold strip_cr. intros Hs. assert (strip_suffix_char carriage_return s = None) as ->; [|done].
  revert Hs. unfold one_line. induction s as [|c s IH]; [done|]. cbn [all_chars]. rewrite andb_true_iff. intros [Hc Hs].
  unfold line_char in Hc. apply andb_true_iff in Hc as [_ Hc%negb_true_iff]. cbn [strip_suffix_char].
  destruct s as [|d s]; [by rewrite Hc|]. by rewrite IH.
Qed.

Lemma split_char_nonempty c s : split_char c s <> [].
Proof.
  induction s as [|x s IH]; [done|]. cbn [split_char]. destruct (Ascii.eqb x c); [done|]. by destruct (split_char c s).
Qed.

Lemma lines_unlines ls : Forall (fun l => one_line l = true) ls -> lines (unlines ls) = ls.
Proof.
  unfold lines. induction 1 as [|l ls Hl _ IH]; [done|]. cbn [unlines].
  rewrite split_char_here by (revert Hl; apply all_chars_impl; intros c [? _]%andb_true_iff; done).
  pose proof (split_char_nonempty newline (unlines ls)) as Hne.
  destruct (split_char newline (unlines ls)) as [|x xs] eqn:E; [done|].
  change (lines_go (l :: x :: xs)) with (strip_cr l :: lines_go (x :: xs)). by rewrite strip_cr_line, IH.
Qed.

Lemma parse_to_assembly p :
  Forall (fun i => printable i = true) p -> parse_assembly (to_assembly p) = omap lower p.
Proof.
  intros Hp. unfold parse_assembly, to_assembly. rewrite lines_unlines.
  - rewrite omap_app. change (omap tm_parse_line header_lines) with (@nil TmInstruction). cbn [app].
    induction Hp as [|i p Hi Hp IH]; [done|]. cbn [fmap list_fmap omap list_omap].
    rewrite parse_instruction_text by exact Hi. destruct (lower i); by f_equal.
  - apply Forall_app. split; [repeat (constructor; [reflexivity|]); constructor|].
    apply Forall_fmap. eapply Forall_impl; [exact Hp|]. intros i Hi. by apply instruction_text_line.
Qed.

(** [C31] The interpreter parses the text of a program into the meaning of its
    instructions, in order: the header, the comments and the labels disappear,
    and every other instruction keeps its operation, registers and memory
    reference. *)
Theorem assembly_round_trip p :
  Forall (fun i => printable i = true) p -> parse_assembly (to_assembly p) = omap lower p.
Proof. apply parse_to_assembly. Qed.

(** The registers the generator names are read back. *)
Lemma parse_reg_name r : r < 256 -> parse_register (reg_name r) = Some r.
Proof.
  intros Hr. assert (forallb (fun r => bool_decide (parse_register (reg_name r) = Some r)) (seq 0 256) = true) as Hall
    by (vm_compute; reflexivity).
  rewrite forallb_forall in Hall. specialize (Hall r). rewrite bool_decide_eq_true in Hall.
  apply Hall, in_seq. lia.
Qed.
End Text.

(** Integer arithmetic in place of doubles. *)
#[export] Instance integer_host : HostFloat := {|
  d_of_f32 a := a; d_of_count a := a; d_zero := 0%Z; d_epsilon := 0%Z; d_add := Z.add; d_mul := Z.mul;
  d_div := Z.div; d_sqrt := Z.sqrt; f32_of_d a := a; parse_f32 _ := None;
|}.

Lemma assembly_round_trip_witness :
  parse_assembly (to_assembly [ILabel "kernel"; LoadVector "v0" (LocCustom "PARAM_0"); IComment "x"; IMul "v1" "v0" "v0";
                               StoreVector "v1" (LocCustom "PARAM_1")])
  = [TmLoadVector 0 (Param 0); TmMul 1 0 0; TmStoreVector 1 (Param 1)].
Proof.
  refine (eq_trans (assembly_round_trip _ _) _).
  - repeat (constructor; [reflexivity|]). constructor.
  - reflexivity.
Defined.
