(* ===== verification/TmatmulRun.v ===== *)
(** * What the TMatmul interpreter computes

    Every element works on its own four bytes of each buffer, so the loop over
    the elements is the data-parallel kernel; memory outside the buffers is not
    touched. *)
From stdpp Require Import base numbers list strings gmap pretty.
From Stdlib Require Import ZArith Lia Ascii.
From S2P Require Import Prelude RustStr Delta Device Tmatmul TmatmulAsm TmatmulText.

Local Open Scope string_scope.
Local Open Scope list_scope.
Local Open Scope Z_scope.

(** ** Registers and spill slots of an instruction *)
Definition inst_reads (i : TmInstruction) : list nat :=
  match i with
  | TmStoreVector src _ => [src]
  | TmAdd _ a b | TmSub _ a b | TmMul _ a b | TmDiv _ a b => [a; b]
  | TmSigmoid _ a | TmComplementSigmoid _ a | TmSiLU _ a | TmReLU _ a | TmNorm _ a => [a]
  | _ => []
  end.

Definition inst_defs (i : TmInstruction) : list nat :=
  match i with
  | TmLoadVector d _ | TmAdd d _ _ | TmSub d _ _ | TmMul d _ _ | TmDiv d _ _ | TmSigmoid d _
  | TmComplementSigmoid d _ | TmSiLU d _ | TmReLU d _ | TmNorm d _ => [d]
  | _ => []
  end.

Definition spill_reads (i : TmInstruction) : list string :=
  match i with TmLoadVector _ (Spill name) => [name] | _ => [] end.

Definition spill_defs (i : TmInstruction) : list string :=
  match i with TmStoreVector _ (Spill name) => [name] | _ => [] end.

(** All registers exist. *)
Definition registers_ok (i : TmInstruction) : bool :=
  forallb (fun r => (r <? 8)%nat) (inst_reads i ++ inst_defs i).

(** Nothing is read before it is written. *)
Fixpoint closed_from (regs : list nat) (slots : list string) (insts : list TmInstruction) : bool :=
  match insts with
  | [] => true
  | i :: insts =>
      bool_decide (inst_reads i ⊆ regs) && bool_decide (spill_reads i ⊆ slots) &&
      closed_from (inst_defs i ++ regs) (spill_defs i ++ slots) insts
  end.

Definition closed_program : list TmInstruction -> bool := closed_from [] [].

(** The bytes an element has in the buffers. *)
Definition elem_region (params : list TmParam) (off : Z) (x : Z) : Prop :=
  exists idx a, param_addr params idx off = Some a /\ a <= x < a + 4.

(** ** Memory *)
Lemma load32_ext m m' a : (forall x, a <= x < a + 4 -> load8 m x = load8 m' x) -> load32 m a = load32 m' a.
Proof. intros Hx. unfold load32. f_equal. apply load_bytes_ext. intros k Hk. apply Hx. lia. Qed.

Lemma load8_store32 m a v x :
  load8 (store32 a v m) x =
    if decide (a <= x < a + 4) then default 0 (le_bytes 4 v !! Z.to_nat (x - a)) else load8 m x.
Proof. unfold store32. rewrite load8_store_bytes by apply le_bytes_bytes. by rewrite length_le_bytes. Qed.

Section Run.
Context `{DeviceFloat}.

(** ** One instruction on two states *)

(** States that agree on some registers, some slots and some bytes. *)
Record similar (regs : list nat) (slots : list string) (R : Z -> Prop) (s s' : TmState) : Prop := {
  sim_len : length (tm_registers s) = 8%nat;
  sim_len' : length (tm_registers s') = 8%nat;
  sim_regs : forall r, r ∈ regs -> tm_registers s !! r = tm_registers s' !! r;
  sim_slots : forall n, n ∈ slots -> tm_spill s !! n = tm_spill s' !! n;
  sim_mem : forall x, R x -> load8 (tm_mem s) x = load8 (tm_mem s') x;
}.

Definition both_ok (P : TmState -> TmState -> Prop) (o o' : outcome string TmState) : Prop :=
  exists t t', o = Ok t /\ o' = Ok t' /\ P t t'.

Lemma reg_get_similar regs slots R s s' r :
  similar regs slots R s s' -> r ∈ regs -> (r < 8)%nat -> exists v, reg_get r s = Ok v /\ reg_get r s' = Ok v.
Proof.
  intros Hs Hr H8. destruct (lookup_lt_is_Some_2 (tm_registers s) r) as [v Hv]; [by rewrite (sim_len _ _ _ _ _ Hs)|].
  exists v. unfold reg_get. by rewrite <- (sim_regs _ _ _ _ _ Hs r Hr), Hv.
Qed.

Lemma reg_set_similar regs slots R s s' r v :
  similar regs slots R s s' -> (r < 8)%nat -> both_ok (similar (r :: regs) slots R) (reg_set r v s) (reg_set r v s').
Proof.
  intros [H1 H2 H3 H4 H5] H8. unfold reg_set. rewrite H1, H2.
  destruct (Nat.ltb_spec r 8); [|lia]. eexists _, _. split; [done|]. split; [done|].
  constructor; cbn [tm_registers tm_spill tm_mem]; rewrite ?length_insert; try done.
  intros q [->|Hq]%elem_of_cons; [by rewrite !list_lookup_insert_eq by lia|].
  destruct (decide (r = q)) as [->|]; [by rewrite !list_lookup_insert_eq by lia|].
  rewrite !list_lookup_insert_ne by done. by apply H3.
Qed.

Lemma binary_similar regs slots R s s' op d a b :
  similar regs slots R s s' -> [a; b] ⊆ regs -> (a < 8)%nat -> (b < 8)%nat -> (d < 8)%nat ->
  both_ok (similar (d :: regs) slots R) (binary op d a b s) (binary op d a b s').
Proof.
  intros Hs Hr Ha Hb Hd. unfold binary.
  destruct (reg_get_similar _ _ _ _ _ a Hs) as (x & -> & ->); [set_solver|done|].
  destruct (reg_get_similar _ _ _ _ _ b Hs) as (y & -> & ->); [set_solver|done|]. by apply reg_set_similar.
Qed.

Lemma divide_similar regs slots R s s' d a b :
  similar regs slots R s s' -> [a; b] ⊆ regs -> (a < 8)%nat -> (b < 8)%nat -> (d < 8)%nat ->
  both_ok (similar (d :: regs) slots R) (divide d a b s) (divide d a b s').
Proof.
  intros Hs Hr Ha Hb Hd. unfold divide.
  destruct (reg_get_similar _ _ _ _ _ b Hs) as (y & -> & ->); [set_solver|done|]. cbn [mbind outcome_bind].
  destruct (reg_get_similar _ _ _ _ _ a Hs) as (x & -> & ->); [set_solver|done|].
  destruct (f_nonzero y); by apply reg_set_similar.
Qed.

Lemma unary_similar regs slots R s s' op d a :
  similar regs slots R s s' -> [a] ⊆ regs -> (a < 8)%nat -> (d < 8)%nat ->
  both_ok (similar (d :: regs) slots R) (unary op d a s) (unary op d a s').
Proof.
  intros Hs Hr Ha Hd. unfold unary.
  destruct (reg_get_similar _ _ _ _ _ a Hs) as (x & -> & ->); [set_solver|done|]. by apply reg_set_similar.
Qed.

Lemma read_memory_similar params off regs slots R s s' d mref :
  similar regs slots R s s' -> (forall x, elem_region params off x -> R x) ->
  spill_reads (TmLoadVector d mref) ⊆ slots -> read_memory mref params off s = read_memory mref params off s'.
Proof.
  intros Hs HR Hsl. destruct mref as [idx|name|val]; cbn [read_memory spill_reads] in *; [| |done].
  - destruct (param_addr params idx off) as [a|] eqn:E; [|done]. apply load32_ext. intros x Hx.
    apply (sim_mem _ _ _ _ _ Hs), HR. by exists idx, a.
  - by rewrite (sim_slots _ _ _ _ _ Hs name) by set_solver.
Qed.

Lemma write_memory_similar params off regs slots R s s' d mref v :
  similar regs slots R s s' ->
  similar regs (spill_defs (TmStoreVector d mref) ++ slots) R
    (write_memory mref params off v s) (write_memory mref params off v s').
Proof.
  intros [H1 H2 H3 H4 H5]. destruct mref as [idx|name|val]; cbn [write_memory spill_defs app]; [| |done].
  - destruct (param_addr params idx off) as [a|]; [|done]. constructor; cbn [tm_registers tm_spill tm_mem]; try done.
    intros x Hx. rewrite !load8_store32. case_decide; [done|by apply H5].
  - constructor; cbn [tm_registers tm_spill tm_mem]; try done. intros n [->|Hn]%elem_of_cons; [by rewrite !lookup_insert_eq|].
    destruct (decide (name = n)) as [->|]; [by rewrite !lookup_insert_eq|].
    rewrite !lookup_insert_ne by done. by apply H4.
Qed.

Lemma execute_similar params off rms regs slots R s s' i :
  similar regs slots R s s' -> (forall x, elem_region params off x -> R x) ->
  registers_ok i = true -> inst_reads i ⊆ regs -> spill_reads i ⊆ slots ->
  both_ok (similar (inst_defs i ++ regs) (spill_defs i ++ slots) R)
    (execute_instruction params off rms i s) (execute_instruction params off rms i s').
Proof.
  intros Hs HR Hok Hr Hsl. unfold registers_ok in Hok. rewrite forallb_forall in Hok.
  assert (forall r, r ∈ inst_reads i ++ inst_defs i -> (r < 8)%nat) as H8.
  { intros r Hr'. apply Nat.ltb_lt, Hok. by apply list_elem_of_In. }
  clear Hok.
  destruct i; cbn [execute_instruction inst_reads inst_defs spill_defs app] in *;
    try (apply binary_similar; (done || apply H8; set_solver));
    try (apply unary_similar; (done || apply H8; set_solver));
    try (apply divide_similar; (done || apply H8; set_solver));
    try (by exists s, s').
  - rewrite (read_memory_similar params off regs slots R s s' dst mem) by done.
    apply reg_set_similar; [done|apply H8; set_solver].
  - destruct (reg_get_similar _ _ _ _ _ src Hs) as (v & -> & ->); [set_solver|apply H8; set_solver|].
    eexists _, _. split; [reflexivity|]. split; [reflexivity|]. by apply write_memory_similar with (d := src).
Qed.

(** ** What an element touches *)
Lemma reg_set_mem r v s s' : reg_set r v s = Ok s' -> tm_mem s' = tm_mem s.
Proof. unfold reg_set. destruct (r <? _)%nat; [|done]. by intros [= <-]. Qed.

Lemma execute_frame params off rms i s s' x :
  execute_instruction params off rms i s = Ok s' -> ~ elem_region params off x ->
  load8 (tm_mem s') x = load8 (tm_mem s) x.
Proof.
  intros He Hx. destruct i; cbn [execute_instruction] in He;
    try (injection He as <-; done);
    try (unfold binary, unary, divide in He;
         repeat (match type of He with (mbind _ ?m) = _ => destruct m eqn:?; [|discriminate He..] end;
                 cbn [mbind outcome_bind] in He);
         by rewrite (reg_set_mem _ _ _ _ He)).
  destruct (reg_get src s); [|discriminate He..]. injection He as <-.
  destruct mem as [idx|name|val]; cbn [write_memory]; try done.
  destruct (param_addr params idx off) as [a'|] eqn:E; [|done]. cbn [tm_mem].
  rewrite load8_store32. rewrite decide_False; [done|]. intros Ha. apply Hx. by exists idx, a'.
Qed.

Definition all_registers : list nat := seq 0 8.

(** The instructions of an element, from states that agree on what the program
    may read. *)
Lemma execute_element_similar insts params rms e regs slots R s s' :
  similar regs slots R s s' -> (forall x, elem_region params (Z.of_nat e * 4) x -> R x) ->
  Forall (fun i => registers_ok i = true) insts -> closed_from regs slots insts = true ->
  both_ok (fun t t' => length (tm_registers t) = 8%nat /\ length (tm_registers t') = 8%nat /\
                       forall x, R x -> load8 (tm_mem t) x = load8 (tm_mem t') x)
    (execute_element insts params rms s e) (execute_element insts params rms s' e).
Proof.
  intros Hs HR Hok. revert regs slots s s' Hs. unfold execute_element.
  induction Hok as [|i insts Hi _ IH]; intros regs slots s s' Hs Hc.
  - exists s, s'. split; [done|]. split; [done|]. destruct Hs. done.
  - cbn [closed_from] in Hc. rewrite !andb_true_iff, !bool_decide_eq_true in Hc. destruct Hc as ((Hr & Hsl) & Hc).
    destruct (execute_similar params (Z.of_nat e * 4) rms regs slots R s s' i Hs HR Hi Hr Hsl) as (t & t' & Ht & Ht' & Hst).
    cbn [foldM]. rewrite Ht, Ht'. cbn [mbind outcome_bind]. by eapply IH.
Qed.

Lemma execute_element_frame insts params rms e s s' x :
  execute_element insts params rms s e = Ok s' -> ~ elem_region params (Z.of_nat e * 4) x ->
  load8 (tm_mem s') x = load8 (tm_mem s) x.
Proof.
  unfold execute_element. intros He Hx. revert s He. induction insts as [|i insts IH]; intros s He.
  - by injection He as <-.
  - cbn [foldM] in He. destruct (execute_instruction params (Z.of_nat e * 4) rms i s) as [t| |] eqn:Ht; [|discriminate He..].
    cbn [mbind outcome_bind] in He. rewrite (IH t He). by eapply execute_frame.
Qed.

(** With all registers in range an element always completes. *)
Lemma execute_element_total insts params rms e s :
  Forall (fun i => registers_ok i = true) insts -> length (tm_registers s) = 8%nat ->
  exists s', execute_element insts params rms s e = Ok s' /\ length (tm_registers s') = 8%nat.
Proof.
  intros Hok Hl. unfold execute_element. apply foldM_total; [exact Hl|]. intros t i Hlt Hi.
  rewrite Forall_forall in Hok. specialize (Hok i Hi).
  destruct (execute_similar params (Z.of_nat e * 4) rms all_registers (spill_reads i) (fun _ => True) t t i)
    as (t1 & t2 & Ht & _ & Hs); [by constructor|done|done| |done|].
  - intros r Hr. apply elem_of_seq. unfold registers_ok in Hok. rewrite forallb_forall in Hok.
    assert ((r <? 8)%nat = true) as Hr8 by (apply Hok, list_elem_of_In, elem_of_app; by left).
    apply Nat.ltb_lt in Hr8. lia.
  - exists t1. split; [done|]. by apply Hs.
Qed.

(** ** The loop over the elements *)

(** The kernel on one element, as a thread of its own. *)
Definition thread (insts : list TmInstruction) (params : list TmParam) (rms : Z) (m : mem) (e : nat) : outcome string mem :=
  s ← execute_element insts params rms (initial_state m) e; Ok (tm_mem s).

(** Two buffers are the same or [n] elements apart. *)
Definition buffers_apart (params : list TmParam) (n : nat) : Prop :=
  forall p q, p ∈ params -> q ∈ params -> p_ptr p <> 0 -> p_ptr q <> 0 ->
    p_ptr p = p_ptr q \/ p_ptr p + 4 * Z.of_nat n <= p_ptr q \/ p_ptr q + 4 * Z.of_nat n <= p_ptr p.

Lemma regions_disjoint params n e1 e2 x :
  buffers_apart params n -> (e1 < n)%nat -> (e2 < n)%nat ->
  elem_region params (Z.of_nat e1 * 4) x -> elem_region params (Z.of_nat e2 * 4) x -> e1 = e2.
Proof.
  intros Hap H1 H2 (i1 & a1 & Ha1 & Hx1) (i2 & a2 & Ha2 & Hx2). unfold param_addr in *.
  destruct (params !! Z.to_nat i1) as [p|] eqn:Ep; [|done]. destruct (params !! Z.to_nat i2) as [q|] eqn:Eq; [|done].
  destruct ((p_ptr p =? 0) || _) eqn:E1 in Ha1; [done|]. destruct ((p_ptr q =? 0) || _) eqn:E2 in Ha2; [done|].
  apply orb_false_iff in E1 as [N1%Z.eqb_neq _], E2 as [N2%Z.eqb_neq _]. injection Ha1 as <-. injection Ha2 as <-.
  apply list_elem_of_lookup_2 in Ep, Eq. destruct (Hap p q Ep Eq N1 N2) as [?|[?|?]]; lia.
Qed.

Lemma initial_similar m m' R s :
  length (tm_registers s) = 8%nat -> tm_mem s = m' -> (forall x, R x -> load8 m' x = load8 m x) ->
  similar [] [] R s (initial_state m).
Proof. intros Hl <- HR. constructor; try done; intros ? Hin; by apply elem_of_nil in Hin. Qed.

(** [C17] The interpreter's loop computes the data-parallel kernel: for a program
    that reads nothing it has not written, over buffers that are equal or apart,
    it succeeds, each element's bytes are those its own run on the initial
    memory leaves there, and every other byte is unchanged. *)
Theorem elements_data_parallel insts params rms n m :
  Forall (fun i => registers_ok i = true) insts -> closed_program insts = true -> buffers_apart params n ->
  exists m', execute_elements insts params rms n m = Ok m' /\
    (forall e, (e < n)%nat -> exists me, thread insts params rms m e = Ok me /\
       forall x, elem_region params (Z.of_nat e * 4) x -> load8 m' x = load8 me x) /\
    forall x, (forall e, (e < n)%nat -> ~ elem_region params (Z.of_nat e * 4) x) -> load8 m' x = load8 m x.
Proof.
  intros Hok Hc Hap.
  set (P := fun (done : list nat) (s : TmState) => length (tm_registers s) = 8%nat /\
    (forall e, e ∈ done -> exists me, thread insts params rms m e = Ok me /\
       forall x, elem_region params (Z.of_nat e * 4) x -> load8 (tm_mem s) x = load8 me x) /\
    forall x, (forall e, e ∈ done -> ~ elem_region params (Z.of_nat e * 4) x) -> load8 (tm_mem s) x = load8 m x).
  destruct (foldM_inv (execute_element insts params rms) P (initial_state m) (seq 0 n)) as (s & Hs & _ & Hin & Hout).
  - split; [done|]. split; [intros e He; by apply elem_of_nil in He|done].
  - intros don e rest s Hseq (Hl & Hin & Hout).
    assert (forall e', e' ∈ don ++ e :: rest -> (e' < n)%nat) as Hlt.
    { intros e' He'. rewrite <- Hseq in He'. apply elem_of_seq in He'. lia. }
    assert (e ∉ don) as Hnd.
    { pose proof (NoDup_seq 0 n) as Hnd. rewrite Hseq in Hnd. apply NoDup_app in Hnd as (_ & Hd & _).
      intros He. apply (Hd e He). apply elem_of_cons. by left. }
    assert (forall e' x, e' ∈ don -> elem_region params (Z.of_nat e' * 4) x ->
              ~ elem_region params (Z.of_nat e * 4) x) as Hdis.
    { intros e' x He' Hx Hx'. apply Hnd. replace e with e'; [done|].
      eapply regions_disjoint; [exact Hap| | |exact Hx|exact Hx']; apply Hlt; set_solver. }
    destruct (execute_element_similar insts params rms e [] [] (elem_region params (Z.of_nat e * 4)) s (initial_state m))
      as (t & t' & Ht & Ht' & Hlt8 & _ & Hmem); [|done|done|done|].
    { apply (initial_similar m (tm_mem s)); [done|done|]. intros x Hx. apply Hout. intros e' He' Hx'. by eapply Hdis. }
    exists t. split; [done|]. split; [done|]. split.
    + intros e' [He'| ->%list_elem_of_singleton]%elem_of_app.
      * destruct (Hin e' He') as (me & Hme & Hx). exists me. split; [done|]. intros x Hr.
        rewrite (execute_element_frame _ _ _ _ _ _ x Ht); [by apply Hx|by eapply Hdis].
      * exists (tm_mem t'). unfold thread. rewrite Ht'. done.
    + intros x Hx. rewrite (execute_element_frame _ _ _ _ _ _ x Ht) by (apply Hx, elem_of_app; right; by apply list_elem_of_singleton).
      apply Hout. intros e' He'. apply Hx, elem_of_app. by left.
  - exists (tm_mem s). unfold execute_elements. rewrite Hs. split; [done|]. split.
    + intros e He. apply Hin, elem_of_seq. lia.
    + intros x Hx. apply Hout. intros e He%elem_of_seq. apply Hx. lia.
Qed.

(** ** Memory safety *)
Lemma elements_safe insts params rms n m :
  Forall (fun i => registers_ok i = true) insts ->
  exists m', execute_elements insts params rms n m = Ok m' /\
    forall x, (forall e, (e < n)%nat -> ~ elem_region params (Z.of_nat e * 4) x) -> load8 m' x = load8 m x.
Proof.
  intros Hok.
  set (P := fun (don : list nat) (s : TmState) => length (tm_registers s) = 8%nat /\
    forall x, (forall e, e ∈ don -> ~ elem_region params (Z.of_nat e * 4) x) -> load8 (tm_mem s) x = load8 m x).
  destruct (foldM_inv (execute_element insts params rms) P (initial_state m) (seq 0 n)) as (s & Hs & _ & Hout).
  - by split.
  - intros don e rest s _ [Hl Hout]. destruct (execute_element_total insts params rms e s Hok Hl) as (t & Ht & Hlt).
    exists t. split; [done|]. split; [done|]. intros x Hx.
    rewrite (execute_element_frame _ _ _ _ _ _ x Ht) by (apply Hx, elem_of_app; right; by apply list_elem_of_singleton).
    apply Hout. intros e' He'. apply Hx, elem_of_app. by left.
  - exists (tm_mem s). unfold execute_elements. rewrite Hs. split; [done|].
    intros x Hx. apply Hout. intros e He%elem_of_seq. apply Hx. lia.
Qed.

(** Membership in the regions is decidable, by searching the parameters. *)
Definition in_region (params : list TmParam) (off x : Z) : bool :=
  existsb (fun p => negb (p_ptr p =? 0) && negb (p_size p <? off + 4) && (p_ptr p + off <=? x) && (x <? p_ptr p + off + 4))
    params.

Lemma in_region_spec params off x : in_region params off x = true <-> elem_region params off x.
Proof.
  unfold in_region, elem_region, param_addr. rewrite existsb_exists. split.
  - intros (p & Hp & Hb). apply list_elem_of_In, list_elem_of_lookup in Hp as [k Hk].
    rewrite !andb_true_iff, !negb_true_iff, Z.leb_le, Z.ltb_lt in Hb. destruct Hb as (((E1 & E2) & ?) & ?).
    exists (Z.of_nat k), (p_ptr p + off). rewrite Nat2Z.id, Hk, E1, E2. split; [done|lia].
  - intros (idx & a & Ha & Hx). destruct (params !! Z.to_nat idx) as [p|] eqn:Ep; [|done]. exists p.
    split; [by eapply list_elem_of_In, list_elem_of_lookup_2|].
    destruct (p_ptr p =? 0); [done|]. destruct (p_size p <? off + 4); [done|]. injection Ha as <-.
    rewrite !andb_true_iff, Z.leb_le, Z.ltb_lt. split_and!; (done || lia).
Qed.

Lemma region_cases params n x :
  (exists e, (e < n)%nat /\ elem_region params (Z.of_nat e * 4) x) \/
  forall e, (e < n)%nat -> ~ elem_region params (Z.of_nat e * 4) x.
Proof.
  destruct (existsb (fun e => in_region params (Z.of_nat e * 4) x) (seq 0 n)) eqn:E.
  - left. apply existsb_exists in E as (e & He & Hr). exists e. apply in_seq in He. split; [lia|]. by apply in_region_spec.
  - right. intros e He Hr. assert (existsb (fun e => in_region params (Z.of_nat e * 4) x) (seq 0 n) = true); [|congruence].
    apply existsb_exists. exists e. split; [apply in_seq; lia|]. by apply in_region_spec.
Qed.

(** The region of an element lies in a buffer. *)
Lemma elem_region_buffer params e x :
  elem_region params (Z.of_nat e * 4) x ->
  exists p, p ∈ params /\ p_ptr p <> 0 /\ p_ptr p <= x < p_ptr p + p_size p.
Proof.
  intros (idx & a & Ha & Hx). unfold param_addr in Ha.
  destruct (params !! Z.to_nat idx) as [p|] eqn:Ep; [|done]. destruct ((p_ptr p =? 0) || _) eqn:E in Ha; [done|].
  apply orb_false_iff in E as [N%Z.eqb_neq B%Z.ltb_ge]. injection Ha as <-.
  exists p. split; [by apply list_elem_of_lookup_2 in Ep|]. lia.
Qed.

Lemma get_alloc_size_in allocs addr size :
  get_alloc_size allocs addr = Some size ->
  exists base sz, (base, sz) ∈ allocs /\ base <= addr /\ addr + size <= base + sz.
Proof.
  unfold get_alloc_size. destruct (list_find _ allocs) as [[i [b sz]]|] eqn:E1.
  - intros [= ->]. apply list_find_Some in E1 as (Hi & -> & _). exists addr, size.
    split; [by apply list_elem_of_lookup_2 in Hi|lia].
  - destruct (list_find _ allocs) as [[i [b sz]]|] eqn:E2 in |- *; [|done]. cbn. intros [= <-].
    apply list_find_Some in E2 as (Hi & Hb & _). exists b, sz. split; [by apply list_elem_of_lookup_2 in Hi|lia].
Qed.

Lemma resolve_param_tracked m allocs kernel_params i x :
  let p := resolve_param m allocs kernel_params i in
  p_ptr p <> 0 -> p_ptr p <= x < p_ptr p + p_size p ->
  exists base sz, (base, sz) ∈ allocs /\ base <= x < base + sz.
Proof.
  unfold resolve_param. cbv zeta. destruct (negb _); [done|]. destruct (_ =? 0); [done|]. destruct (negb _); [done|].
  destruct (get_alloc_size _ _) as [size|] eqn:E; [|done]. cbn [p_ptr p_size]. intros _ Hx.
  destruct (get_alloc_size_in _ _ _ E) as (b & sz & Hin & Hb). exists b, sz. split; [done|lia].
Qed.

(** ** Parameter indices *)
Definition param_in_range (i : TmInstruction) : bool :=
  match inst_memref i with Some (Param idx) => (0 <=? idx) && (idx <? 2 ^ 64 - 1) | _ => true end.

Lemma count_param_refs_bound insts i idx :
  Forall (fun i => param_in_range i = true) insts -> i ∈ insts -> inst_memref i = Some (Param idx) ->
  0 <= idx < count_param_refs insts.
Proof.
  intros Hr Hi Hm. rewrite Forall_forall in Hr. pose proof (Hr i Hi) as Hri. unfold param_in_range in Hri.
  rewrite Hm, andb_true_iff, Z.leb_le, Z.ltb_lt in Hri. split; [lia|].
  assert (forall l acc, (forall j, j ∈ l -> param_in_range j = true) ->
    acc.1 <= (foldl count_param_step acc l).1 /\ (acc.2 = true -> (foldl count_param_step acc l).2 = true) /\
    (i ∈ l -> idx < (foldl count_param_step acc l).1 /\ (foldl count_param_step acc l).2 = true)) as Hf.
  { induction l as [|j l IH]; intros [mx f] Hl; [split_and!; try (done || lia); by intros ?%elem_of_nil|].
    cbn [foldl]. destruct (IH (count_param_step (mx, f) j)) as (H1 & H2 & H3); [intros; apply Hl, elem_of_cons; by right|].
    assert (mx <= (count_param_step (mx, f) j).1 /\ (f = true -> (count_param_step (mx, f) j).2 = true) /\
            (j = i -> idx < (count_param_step (mx, f) j).1 /\ (count_param_step (mx, f) j).2 = true)) as (G1 & G2 & G3).
    { pose proof (Hl j ltac:(apply elem_of_cons; by left)) as Hj. unfold param_in_range in Hj. unfold count_param_step.
      destruct (inst_memref j) as [[k|?|?]|] eqn:Ej; cbn [fst snd];
        try (split_and!; [lia|done|intros ->; congruence]).
      rewrite andb_true_iff, Z.leb_le, Z.ltb_lt in Hj.
      unfold wrapping_add. rewrite wrap_small by lia. destruct (Z.leb_spec mx k); split_and!; try (done || lia).
      all: intros ->; rewrite Hm in Ej; injection Ej as <-; split; [lia|done]. }
    cbn [fst snd] in *. split_and!; [lia|auto|]. intros [<-|Hin]%elem_of_cons; [|by apply H3]. destruct (G3 eq_refl). split; [lia|auto]. }
  destruct (Hf insts (0, false) Hr) as (_ & _ & H3). destruct (H3 Hi) as [Hlt Hfound]. unfold count_param_refs.
  destruct (foldl count_param_step (0, false) insts) as [mx f]. cbn in *. by rewrite Hfound.
Qed.

(** The norm's source is a parameter the program names. *)
Lemma trace_norm_total insts :
  Forall (fun i => registers_ok i = true) insts ->
  exists sources src, foldM trace_norm (repeat None 8, None) insts = Ok (sources, src) /\
    forall idx, src = Some idx -> exists i, i ∈ insts /\ inst_memref i = Some (Param idx).
Proof.
  intros Hok. set (named := fun idx => exists i, i ∈ insts /\ inst_memref i = Some (Param idx)).
  destruct (foldM_total trace_norm (fun acc => length acc.1 = 8%nat /\ (forall r idx, acc.1 !! r = Some (Some idx) -> named idx) /\
    forall idx, acc.2 = Some idx -> named idx) (repeat None 8, None) insts) as ([sources src] & Hf & _ & _ & Hsrc).
  - split_and!; [done| |done]. intros r idx Hr. apply list_elem_of_lookup_2, list_elem_of_In, repeat_spec in Hr. done.
  - intros [sources src] i (Hl & Hn & Hsrc) Hi. cbn [fst snd] in *. rewrite Forall_forall in Hok. specialize (Hok i Hi).
    unfold registers_ok in Hok. rewrite forallb_forall in Hok.
    assert (forall r, r ∈ inst_reads i ++ inst_defs i -> (r < 8)%nat) as H8.
    { intros r Hr. apply Nat.ltb_lt, Hok. by apply list_elem_of_In. }
    destruct i; cbn [trace_norm]; try (by exists (sources, src)).
    + destruct mem as [idx|?|?]; try (by exists (sources, src)).
      rewrite Hl. destruct (Nat.ltb_spec dst 8); [|pose proof (H8 dst ltac:(cbn; set_solver)); lia].
      eexists. split; [reflexivity|]. cbn [fst snd]. rewrite length_insert. split_and!; try done.
      intros r k Hr. destruct (decide (dst = r)) as [->|].
      * rewrite list_lookup_insert_eq in Hr by lia. injection Hr as ->. by exists (TmLoadVector r (Param k)).
      * rewrite list_lookup_insert_ne in Hr by done. by eapply Hn.
    + destruct (lookup_lt_is_Some_2 sources src0) as [o Ho]; [rewrite Hl; apply H8; cbn; set_solver|].
      rewrite Ho. eexists. split; [reflexivity|]. cbn [fst snd]. split_and!; [done|done|].
      intros idx ->. by eapply Hn.
  - by exists sources, src.
Qed.

Context `{HostFloat}.

(** [C30] Running assembly is memory safe: if every register it names exists and
    its parameter indices are representable, the interpreter does not panic,
    and every byte it changes lies in a tracked allocation. *)
Theorem execute_assembly_safe asm allocs kernel_params grid block m :
  Forall (fun i => registers_ok i = true) (parse_assembly asm) ->
  Forall (fun i => param_in_range i = true) (parse_assembly asm) ->
  execute_assembly asm allocs kernel_params grid block m <> Panic /\
  forall m' x, execute_assembly asm allocs kernel_params grid block m = Ok m' -> load8 m' x <> load8 m x ->
    exists base sz, (base, sz) ∈ allocs /\ base <= x < base + sz.
Proof.
  intros Hok Hpr. unfold execute_assembly. cbv zeta.
  destruct (parse_assembly asm) as [|i0 insts0] eqn:Ei; [done|]. rewrite <- Ei in *. clear Ei.
  destruct (_ =? 0); [split; [done|]; intros m' x [= <-]; done|].
  destruct (_ =? 0); [done|]. destruct (_ =? 0); [done|].
  set (params := resolve_param m allocs kernel_params <$> _).
  destruct (forallb _ params); [done|]. destruct (_ =? 0); [done|].
  set (n := Z.to_nat _).
  assert (forall rms, exists m', execute_elements (parse_assembly asm) params rms n m = Ok m' /\
    forall x, load8 m' x <> load8 m x -> exists base sz, (base, sz) ∈ allocs /\ base <= x < base + sz) as Hrun.
  { intros rms. destruct (elements_safe (parse_assembly asm) params rms n m Hok) as (m' & Hm' & Hout).
    exists m'. split; [done|]. intros x Hx.
    destruct (region_cases params n x) as [(e & _ & He)|Hn]; [|by destruct Hx; apply Hout].
    destruct (elem_region_buffer _ _ _ He) as (p & Hp & Hnz & Hin). apply list_elem_of_fmap in Hp as (k & -> & _).
    by eapply resolve_param_tracked. }
  destruct (has_norm _); [unfold execute_two_pass|unfold execute_single_pass].
  - destruct (trace_norm_total (parse_assembly asm) Hok) as (sources & src & -> & Hsrc). cbn [mbind outcome_bind].
    destruct src as [idx|].
    + destruct (Hsrc idx eq_refl) as (i & Hi & Hm). pose proof (count_param_refs_bound _ _ _ Hpr Hi Hm) as Hb.
      destruct (lookup_lt_is_Some_2 params (Z.to_nat idx)) as [p ->].
      { unfold params. rewrite length_fmap, length_seq. lia. }
      cbn [unwrap mbind outcome_bind]. destruct (_ =? 0); [done|]. cbn [mbind outcome_bind].
      destruct (Hrun (rms_of m p n)) as (m' & -> & Hx). split; [done|]. intros m1 x [= <-]. apply Hx.
    + cbn [mbind outcome_bind]. destruct (Hrun f_one) as (m' & -> & Hx). split; [done|]. intros m1 x [= <-]. apply Hx.
  - destruct (Hrun f_zero) as (m' & -> & Hx). split; [done|]. intros m1 x [= <-]. apply Hx.
Qed.

(** ** Registers that do not exist *)

Ltac exec_cases H :=
  cbn [execute_instruction] in H; unfold binary, unary, divide, reg_get, reg_set in H;
  repeat (cbn [mbind outcome_bind unwrap] in H;
          match type of H with
          | context [tm_registers ?s !! ?r] => destruct (tm_registers s !! r) eqn:?
          | context [if ?b then _ else _] => destruct b eqn:?
          end); cbn [mbind outcome_bind unwrap] in H; simplify_eq/=.

Lemma execute_no_err params off rms i s e : execute_instruction params off rms i s <> Err e.
Proof. intros He. destruct i; exec_cases He. Qed.

Lemma execute_length params off rms i s s' :
  execute_instruction params off rms i s = Ok s' -> length (tm_registers s') = length (tm_registers s).
Proof.
  intros He. destruct i; exec_cases He; rewrite ?length_insert; try done.
  unfold write_memory. destruct mem as [idx| |]; try done. by destruct (param_addr params idx off).
Qed.

Lemma execute_defs_in_range params off rms i s s' d :
  length (tm_registers s) = 8%nat -> execute_instruction params off rms i s = Ok s' -> d ∈ inst_defs i -> (d < 8)%nat.
Proof.
  intros Hl He Hd. destruct i; cbn [inst_defs] in Hd; try (by apply elem_of_nil in Hd);
    apply list_elem_of_singleton in Hd as ->; exec_cases He; rewrite Hl in *;
    repeat match goal with E : (_ <? 8)%nat = true |- _ => apply Nat.ltb_lt in E end; done.
Qed.

(** A program that writes a register above [v7] panics on its first element. *)
Theorem missing_register_panics insts params rms n m i d :
  i ∈ insts -> d ∈ inst_defs i -> (8 <= d)%nat -> (0 < n)%nat -> execute_elements insts params rms n m = Panic.
Proof.
  intros Hi Hd H8 Hn.
  assert (forall s, length (tm_registers s) = 8%nat -> execute_element insts params rms s 0 = Panic) as Hp.
  { unfold execute_element. induction insts as [|j insts IH]; [by apply elem_of_nil in Hi|]. intros s Hl. cbn [foldM].
    destruct (execute_instruction params (Z.of_nat 0 * 4) rms j s) as [t| |] eqn:Ht; [|by apply execute_no_err in Ht|done].
    apply elem_of_cons in Hi as [->|Hi]; [pose proof (execute_defs_in_range _ _ _ _ _ _ d Hl Ht Hd); lia|].
    apply IH; [done|]. by rewrite (execute_length _ _ _ _ _ _ Ht). }
  unfold execute_elements. destruct n as [|n]; [lia|]. cbn [seq foldM].
  by rewrite Hp.
Qed.
End Run.

(** ** Witnesses *)

(** Doubling a buffer of two elements in place, on integers. *)
Definition sample_double : list TmInstruction := [TmLoadVector 0 (Param 0); TmAdd 1 0 0; TmStoreVector 1 (Param 0)].

Definition sample_buffer : list TmParam := [mkTmParam 0x2000 8].

Lemma elements_data_parallel_witness :
  exists m', execute_elements sample_double sample_buffer 0 2 (store32 0x2000 21 (store32 0x2004 4 ∅)) = Ok m' /\
    load32 m' 0x2000 = 42 /\ load8 m' 0x3000 = 0.
Proof.
  destruct (elements_data_parallel sample_double sample_buffer 0 2 (store32 0x2000 21 (store32 0x2004 4 ∅)))
    as (m' & Hm & Hin & Hout).
  - repeat (constructor; [reflexivity|]). constructor.
  - reflexivity.
  - intros p q Hp%list_elem_of_singleton Hq%list_elem_of_singleton _ _. left. by subst.
  - exists m'. split; [exact Hm|]. split.
    + destruct (Hin 0%nat ltac:(lia)) as (me & Hme & Hx). transitivity (load32 me 0x2000).
      * apply load32_ext. intros x Hr. apply Hx. exists 0, 0x2000. split; [reflexivity|exact Hr].
      * vm_compute in Hme. injection Hme as <-. vm_compute. reflexivity.
    + refine (eq_trans (Hout 0x3000 _) _); [|reflexivity]. intros e He (p & Hp & _ & Hr)%elem_region_buffer.
      apply list_elem_of_singleton in Hp as ->. cbn [p_ptr p_size] in Hr. lia.
Defined.

Definition sample_asm : string :=
  to_assembly [LoadVector "v0" (LocCustom "PARAM_0"); IAdd "v1" "v0" "v0"; StoreVector "v1" (LocCustom "PARAM_0")].

Lemma sample_asm_parses : parse_assembly sample_asm = sample_double.
Proof. vm_compute. reflexivity. Qed.

(** The slot at 0x1000 holds the address of a pointer to the buffer. *)
Definition sample_launch_mem : mem := store64 0x1000 0x1100 (store64 0x1100 0x2000 (store32 0x2000 21 ∅)).

Lemma execute_assembly_safe_witness :
  exists m', execute_assembly sample_asm [(0x2000, 8)] 0x1000 (1, 1, 1) (2, 1, 1) sample_launch_mem = Ok m' /\
    load32 m' 0x2000 = 42 /\
    forall x, load8 m' x <> load8 sample_launch_mem x -> 0x2000 <= x < 0x2008.
Proof.
  destruct (execute_assembly_safe sample_asm [(0x2000, 8)] 0x1000 (1, 1, 1) (2, 1, 1) sample_launch_mem) as [_ Hsafe].
  - rewrite sample_asm_parses. repeat (constructor; [reflexivity|]). constructor.
  - rewrite sample_asm_parses. repeat (constructor; [reflexivity|]). constructor.
  - eexists. split; [vm_compute; reflexivity|]. split; [vm_compute; reflexivity|]. intros x Hx.
    edestruct Hsafe as (base & sz & Hin & Hr); [vm_compute; reflexivity|exact Hx|].
    apply list_elem_of_singleton in Hin. injection Hin as -> ->. lia.
Defined.
