(* ===== verification/TmatmulGen.v ===== *)
(** * Correctness of the TMatmul code generator

    While the values of a kernel fit the eight registers, the generated text,
    parsed and run by the interpreter on an element, computes what the
    operations say.  With more values a reload overtakes the spill of the
    register it reuses, and the result is wrong. *)
From stdpp Require Import base numbers list strings gmap pretty.
From Stdlib Require Import ZArith Lia Ascii.
From S2P Require Import Prelude RustStr Delta Device Tmatmul TmatmulAsm TmatmulText.

Local Open Scope string_scope.
Local Open Scope list_scope.
Local Open Scope nat_scope.

(** ** The operations and their meaning *)
Inductive bin_kind : Type := BAdd | BSub | BMul | BDiv.
Inductive un_kind : Type := USig | UCsig | USilu | UNorm.

(** The element-wise operations of the dialect on named values. *)
Inductive scalar_op : Type :=
| OLdv (symbol result : string)
| OSv (value symbol : string)
| OBin (k : bin_kind) (a b result : string)
| OUn (k : un_kind) (a result : string).

Definition bin_name (k : bin_kind) : string :=
  match k with BAdd => "tmatmul.add" | BSub => "tmatmul.sub" | BMul => "tmatmul.mul" | BDiv => "tmatmul.div" end.

Definition un_name (k : un_kind) : string :=
  match k with USig => "tmatmul.sig" | UCsig => "tmatmul.csig" | USilu => "tmatmul.silu" | UNorm => "tmatmul.norm" end.

(** The call of the generator for an operation. *)
Definition emit_op `{RegisterOrder} (op : scalar_op) : stm TMatmulCodegen string unit :=
  match op with
  | OLdv symbol result => emit_operation "tmatmul.ldv" [symbol] [result]
  | OSv value symbol => emit_operation "tmatmul.sv" [value; symbol] []
  | OBin k a b result => emit_operation (bin_name k) [a; b] [result]
  | OUn k a result => emit_operation (un_name k) [a] [result]
  end.

Definition op_values (op : scalar_op) : list string :=
  match op with
  | OLdv _ result => [result]
  | OSv value _ => [value]
  | OBin _ a b result => [a; b; result]
  | OUn _ a result => [a; result]
  end.

Definition op_symbols (op : scalar_op) : list string :=
  match op with OLdv s _ | OSv _ s => [s] | _ => [] end.

Section Meaning.
Context `{DeviceFloat} `{HostFloat}.
Context (params : list TmParam) (off rms : Z) (mem_map : gmap string MemoryLocation).

Definition bin_fun (k : bin_kind) (a b : Z) : Z :=
  match k with
  | BAdd => f_add a b
  | BSub => f_sub a b
  | BMul => f_mul a b
  | BDiv => if f_nonzero b then f_div a b else f_zero
  end.

Definition un_fun (k : un_kind) (x : Z) : Z :=
  match k with
  | USig => tm_sigmoid x
  | UCsig => f_sub f_one (tm_sigmoid x)
  | USilu => f_mul x (tm_sigmoid x)
  | UNorm => if f_nonzero rms then f_div x rms else x
  end.

(** Values by name, and the memory the operations read and write. *)
Record ssa_state : Type := mkSsa {
  ssa_env : gmap string Z;
  ssa_slots : gmap string Z;
  ssa_mem : mem;
}.

Definition symbol_location (symbol : string) : MemoryLocation := default (LocCustom symbol) (mem_map !! symbol).
Definition symbol_ref (symbol : string) : MemRef := parse_memref (location_text (symbol_location symbol)).

Definition define (v : string) (x : Z) (s : ssa_state) : ssa_state :=
  mkSsa (<[v := x]> (ssa_env s)) (ssa_slots s) (ssa_mem s).

Definition eval_op (s : ssa_state) (op : scalar_op) : option ssa_state :=
  match op with
  | OLdv symbol result =>
      Some (define result (read_memory (symbol_ref symbol) params off (mkTmState [] (ssa_slots s) (ssa_mem s))) s)
  | OSv value symbol =>
      x ← ssa_env s !! value;
      let t := write_memory (symbol_ref symbol) params off x (mkTmState [] (ssa_slots s) (ssa_mem s)) in
      Some (mkSsa (ssa_env s) (tm_spill t) (tm_mem t))
  | OBin k a b result =>
      x ← ssa_env s !! a; y ← ssa_env s !! b; Some (define result (bin_fun k x y) s)
  | OUn k a result => x ← ssa_env s !! a; Some (define result (un_fun k x) s)
  end.

Fixpoint eval_ops (ops : list scalar_op) (s : ssa_state) : option ssa_state :=
  match ops with
  | [] => Some s
  | op :: ops => s ← eval_op s op; eval_ops ops s
  end.
End Meaning.

(** ** The allocator without spilling *)
Definition count_used (l : list bool) : nat := length (filter (fun b => b = true) l).

Lemma count_used_insert l i :
  l !! i = Some false -> count_used (<[i := true]> l) = S (count_used l).
Proof.
  unfold count_used. revert i. induction l as [|b l IH]; intros [|i] Hi; simpl in Hi; try done.
  - injection Hi as ->. done.
  - change (<[S i:=true]> (b :: l)) with (b :: <[i:=true]> l). rewrite !filter_cons. specialize (IH i Hi). case_decide; cbn [length]; lia.
Qed.

Lemma count_used_full l : (forall i, l !! i <> Some false) -> count_used l = length l.
Proof.
  unfold count_used. induction l as [|b l IH]; intros Hf; [done|]. rewrite filter_cons.
  destruct b; [|by destruct (Hf 0)]. rewrite decide_True by done. cbn. f_equal. apply IH. intros i. apply (Hf (S i)).
Qed.

Lemma reg_name_inj i j : i < 8 -> j < 8 -> reg_name i = reg_name j -> i = j.
Proof.
  intros Hi Hj He. pose proof (parse_reg_name i ltac:(lia)) as H1. pose proof (parse_reg_name j ltac:(lia)) as H2.
  rewrite He in H1. congruence.
Qed.

(** No value has been spilled, every value has its own register, and a register
    is marked in use for every value. *)
Record alloc_ok (N : gset string) (a : RegisterAllocator) : Prop := {
  ok_len : length (allocated_regs a) = NUM_REGISTERS;
  ok_slots : spill_slots a = ∅;
  ok_spills : pending_spills a = [];
  ok_reloads : pending_reloads a = [];
  ok_regs : forall v r, value_to_reg a !! v = Some r -> exists i, i < 8 /\ r = reg_name i /\ allocated_regs a !! i = Some true;
  ok_inj : forall v w r, value_to_reg a !! v = Some r -> value_to_reg a !! w = Some r -> v = w;
  ok_count : count_used (allocated_regs a) = size (value_to_reg a);
  ok_names : forall v r, value_to_reg a !! v = Some r -> v ∈ N;
}.

Lemma alloc_ok_new N : alloc_ok N allocator_new.
Proof. by constructor. Qed.

(** With at most eight names there is a free register for a new one. *)
Lemma free_register N a v :
  alloc_ok N a -> size N <= 8 -> v ∈ N -> value_to_reg a !! v = None ->
  exists i, list_find (fun used => used = false) (allocated_regs a) = Some (i, false) /\ i < 8 /\
    allocated_regs a !! i = Some false.
Proof.
  intros Ha HN Hv Hnone. destruct (list_find (fun used => used = false) (allocated_regs a)) as [[i b]|] eqn:E.
  - apply list_find_Some in E as (Hi & -> & _). exists i. split; [done|]. split; [|done].
    apply lookup_lt_Some in Hi. by rewrite (ok_len _ _ Ha) in Hi.
  - exfalso. apply list_find_None in E. rewrite Forall_lookup in E.
    assert (count_used (allocated_regs a) = length (allocated_regs a)) as Hc by (apply count_used_full; intros i Hi; by apply (E i false)).
    rewrite (ok_count _ _ Ha), (ok_len _ _ Ha) in Hc. unfold NUM_REGISTERS in Hc.
    assert (size (dom (value_to_reg a) ∪ {[v]}) <= size N) as Hle.
    { apply subseteq_size. intros w [Hw| ->%elem_of_singleton]%elem_of_union; [|done].
      apply elem_of_dom in Hw as [r Hr]. by eapply ok_names. }
    rewrite size_union, size_dom, size_singleton in Hle; [lia|]. apply not_elem_of_dom in Hnone. set_solver.
Qed.

Lemma assign_ok N a v i :
  alloc_ok N a -> v ∈ N -> value_to_reg a !! v = None -> i < 8 -> allocated_regs a !! i = Some false ->
  alloc_ok N (assign_register v i a).
Proof.
  intros Ha Hv Hn Hi Hf. constructor; cbn [assign_register value_to_reg allocated_regs spill_slots pending_spills pending_reloads];
    try apply Ha.
  - rewrite length_insert. apply Ha.
  - intros w r. rewrite lookup_insert_Some. intros [[-> <-]|[Hne Hr]].
    + exists i. split; [done|]. split; [done|]. apply list_lookup_insert_eq. by eapply lookup_lt_Some.
    + destruct (ok_regs _ _ Ha w r Hr) as (j & Hj & -> & Ht). exists j. split; [done|]. split; [done|].
      rewrite list_lookup_insert_ne; [done|]. intros ->. congruence.
  - intros w1 w2 r. rewrite !lookup_insert_Some.
    assert (forall w, value_to_reg a !! w = Some (reg_name i) -> False) as Hno.
    { intros w Hw. destruct (ok_regs _ _ Ha w _ Hw) as (j & Hj & He & Ht). apply reg_name_inj in He; [|done..]. congruence. }
    intros [[-> <-]|[_ H1]] [[-> H2]|[_ H2]]; try done; try (subst; by destruct (Hno _ H1)); try (by destruct (Hno _ H2)).
    by eapply (ok_inj _ _ Ha).
  - rewrite count_used_insert, map_size_insert_None by done. by rewrite (ok_count _ _ Ha).
  - intros w r. rewrite lookup_insert_Some. intros [[-> _]|[_ Hr]]; [done|by eapply ok_names].
Qed.

(** What an allocation does to the registers of the other values. *)
Definition regs_extend (a a' : RegisterAllocator) : Prop :=
  forall v r, value_to_reg a !! v = Some r -> value_to_reg a' !! v = Some r.

Lemma allocate_ok `{RegisterOrder} N a v :
  alloc_ok N a -> size N <= 8 -> v ∈ N ->
  exists a' i, tm_allocate v a = (a', Ok (reg_name i)) /\ i < 8 /\ alloc_ok N a' /\ regs_extend a a' /\
    value_to_reg a' !! v = Some (reg_name i).
Proof.
  intros Ha HN Hv. unfold tm_allocate. destruct (value_to_reg a !! v) as [r|] eqn:E.
  - destruct (ok_regs _ _ Ha v r E) as (i & Hi & -> & _). exists a, i. split; [done|]. split_and!; try done. by intros ?.
  - rewrite (ok_slots _ _ Ha), lookup_empty. unfold allocate_physical_register.
    destruct (free_register N a v Ha HN Hv E) as (i & -> & Hi & Hf). exists (assign_register v i a), i.
    split; [done|]. split; [done|]. split; [by apply assign_ok|]. split.
    + intros w r Hw. cbn. rewrite lookup_insert_ne by congruence. done.
    + cbn. apply lookup_insert_eq.
Qed.

(** ** Emission *)
Section Emission.
Context `{RegisterOrder} (N : gset string).
Hypothesis HN : size N <= 8.

Lemma no_pending_spills g : alloc_ok N (g_alloc g) -> emit_pending_spills g = (g, Ok tt).
Proof.
  intros Ha. destruct g as [p [v u n s ns ps pr] mm]. pose proof (ok_spills _ _ Ha) as Hs. cbn in Hs. subst.
  unfold emit_pending_spills, push, set_alloc. cbn. by rewrite app_nil_r.
Qed.

Lemma no_pending_reloads g : alloc_ok N (g_alloc g) -> emit_pending_reloads g = (g, Ok tt).
Proof.
  intros Ha. destruct g as [p [v u n s ns ps pr] mm]. pose proof (ok_reloads _ _ Ha) as Hs. cbn in Hs. subst.
  unfold emit_pending_reloads, push, set_alloc. cbn. by rewrite app_nil_r.
Qed.

(** The generator after getting registers: only the allocator has changed. *)
Record gen_step (g g' : TMatmulCodegen) : Prop := {
  gs_program : g_program g' = g_program g;
  gs_map : g_mem_map g' = g_mem_map g;
  gs_ok : alloc_ok N (g_alloc g');
  gs_extend : regs_extend (g_alloc g) (g_alloc g');
}.

Definition holds (g : TMatmulCodegen) (v : string) (i : nat) : Prop :=
  i < 8 /\ value_to_reg (g_alloc g) !! v = Some (reg_name i).

Lemma holds_step g g' v i : gen_step g g' -> holds g v i -> holds g' v i.
Proof. intros Hs [Hi Hv]. split; [done|]. by apply (gs_extend _ _ Hs). Qed.

Lemma gen_step_trans g1 g2 g3 : gen_step g1 g2 -> gen_step g2 g3 -> gen_step g1 g3.
Proof.
  intros [P1 M1 O1 E1] [P2 M2 O2 E2]. constructor; [congruence|congruence|done|]. intros v r Hv. by apply E2, E1.
Qed.

Lemma allocate_reg_ok g v :
  alloc_ok N (g_alloc g) -> v ∈ N -> exists g' i, allocate_reg v g = (g', Ok (reg_name i)) /\ gen_step g g' /\ holds g' v i.
Proof.
  intros Ha Hv. destruct (allocate_ok N (g_alloc g) v Ha HN Hv) as (a' & i & Hal & Hi & Hok & Hex & Hr).
  exists (set_alloc a' g), i. unfold allocate_reg. rewrite Hal. split; [done|]. split; [by constructor|by split].
Qed.

Lemma ensure_ok g v :
  alloc_ok N (g_alloc g) -> v ∈ N ->
  exists g' i, ensure_in_register v g = (g', Ok (reg_name i)) /\ gen_step g g' /\ holds g' v i.
Proof.
  intros Ha Hv. destruct (allocate_reg_ok g v Ha Hv) as (g' & i & Hal & Hs & Hh). exists g', i. split; [|done].
  unfold ensure_in_register. erewrite stm_bind_Ok by exact Hal.
  by erewrite stm_bind_Ok by (apply no_pending_reloads, Hs).
Qed.

Lemma result_ok g v :
  alloc_ok N (g_alloc g) -> v ∈ N ->
  exists g' i, result_register [v] g = (g', Ok (reg_name i)) /\ gen_step g g' /\ holds g' v i.
Proof.
  intros Ha Hv. destruct (allocate_reg_ok g v Ha Hv) as (g' & i & Hal & Hs & Hh). exists g', i. split; [|done].
  unfold result_register. erewrite stm_bind_Ok by reflexivity. erewrite stm_bind_Ok by exact Hal.
  by erewrite stm_bind_Ok by (apply no_pending_spills, Hs).
Qed.

(** The instruction an operation becomes, with the registers of its values. *)
Inductive op_instr (g : TMatmulCodegen) : scalar_op -> TMatmulInstruction -> Prop :=
| code_ldv symbol result d :
    holds g result d ->
    op_instr g (OLdv symbol result) (LoadVector (reg_name d) (symbol_location (g_mem_map g) symbol))
| code_sv value symbol i :
    holds g value i ->
    op_instr g (OSv value symbol) (StoreVector (reg_name i) (symbol_location (g_mem_map g) symbol))
| code_bin k a b result ia ib d :
    holds g a ia -> holds g b ib -> holds g result d ->
    op_instr g (OBin k a b result)
      (match k with BAdd => IAdd | BSub => ISub | BMul => IMul | BDiv => IDiv end (reg_name d) (reg_name ia) (reg_name ib))
| code_un k a result ia d :
    holds g a ia -> holds g result d ->
    op_instr g (OUn k a result)
      (match k with USig => ISigmoid | UCsig => IComplementSigmoid | USilu => ISiLU | UNorm => INorm end
         (reg_name d) (reg_name ia)).

(** The generator emitted one instruction. *)
Definition emitted (g g' : TMatmulCodegen) (op : scalar_op) : Prop :=
  exists g1 i, gen_step g g1 /\ op_instr g1 op i /\ g' = push [i] g1.

Lemma emit_binary_ok g k mk a b r :
  mk = (match k with BAdd => IAdd | BSub => ISub | BMul => IMul | BDiv => IDiv end) ->
  alloc_ok N (g_alloc g) -> [a; b; r] ⊆ elements N ->
  exists g', emit_binary mk [a; b] [r] g = (g', Ok tt) /\ emitted g g' (OBin k a b r).
Proof.
  intros -> Ha Hin.
  destruct (ensure_ok g a Ha) as (g1 & ia & E1 & S1 & H1); [apply elem_of_elements; set_solver|].
  destruct (ensure_ok g1 b (gs_ok _ _ S1)) as (g2 & ib & E2 & S2 & H2); [apply elem_of_elements; set_solver|].
  destruct (result_ok g2 r (gs_ok _ _ S2)) as (g3 & d & E3 & S3 & H3); [apply elem_of_elements; set_solver|].
  eexists. split.
  - unfold emit_binary. erewrite stm_bind_Ok by reflexivity. erewrite stm_bind_Ok by exact E1.
    erewrite stm_bind_Ok by reflexivity. erewrite stm_bind_Ok by exact E2.
    erewrite stm_bind_Ok by (apply no_pending_spills, S2). erewrite stm_bind_Ok by exact E3. reflexivity.
  - eexists g3, _. split; [by eapply gen_step_trans, S3; eapply gen_step_trans|]. split; [|reflexivity].
    constructor; [|by eapply holds_step|done]. eapply holds_step; [exact S3|]. by eapply holds_step.
Qed.

Lemma emit_unary_ok g k mk a r :
  mk = (match k with USig => ISigmoid | UCsig => IComplementSigmoid | USilu => ISiLU | UNorm => INorm end) ->
  alloc_ok N (g_alloc g) -> [a; r] ⊆ elements N ->
  exists g', emit_unary mk [a] [r] g = (g', Ok tt) /\ emitted g g' (OUn k a r).
Proof.
  intros -> Ha Hin.
  destruct (ensure_ok g a Ha) as (g1 & ia & E1 & S1 & H1); [apply elem_of_elements; set_solver|].
  destruct (result_ok g1 r (gs_ok _ _ S1)) as (g2 & d & E2 & S2 & H2); [apply elem_of_elements; set_solver|].
  eexists. split.
  - unfold emit_unary. erewrite stm_bind_Ok by reflexivity. erewrite stm_bind_Ok by exact E1.
    erewrite stm_bind_Ok by (apply no_pending_spills, S1). erewrite stm_bind_Ok by exact E2. reflexivity.
  - eexists g2, _. split; [by eapply gen_step_trans|]. split; [|reflexivity].
    constructor; [by eapply holds_step|done].
Qed.

Lemma emit_op_ok g op :
  alloc_ok N (g_alloc g) -> op_values op ⊆ elements N ->
  exists g', emit_op op g = (g', Ok tt) /\ emitted g g' op.
Proof.
  intros Ha Hin. destruct op as [symbol r|v symbol|k a b r|k a r]; cbn [op_values] in Hin.
  - destruct (result_ok g r Ha) as (g1 & d & E1 & S1 & H1); [apply elem_of_elements; set_solver|].
    eexists. split.
    + cbn [emit_op]. change (emit_operation "tmatmul.ldv" [symbol] [r]) with (emit_ldv [symbol] [r]). unfold emit_ldv.
      erewrite stm_bind_Ok by (by apply no_pending_spills). erewrite stm_bind_Ok by exact E1. reflexivity.
    + eexists g1, _. split; [done|]. split; [by constructor|reflexivity].
  - destruct (ensure_ok g v Ha) as (g1 & i & E1 & S1 & H1); [apply elem_of_elements; set_solver|].
    eexists. split.
    + cbn [emit_op]. change (emit_operation "tmatmul.sv" [v; symbol] []) with (emit_sv [v; symbol]). unfold emit_sv.
      erewrite stm_bind_Ok by reflexivity. erewrite stm_bind_Ok by exact E1.
      erewrite stm_bind_Ok by (apply no_pending_spills, S1). reflexivity.
    + eexists g1, _. split; [done|]. split; [by constructor|reflexivity].
  - destruct k; by eapply emit_binary_ok.
  - destruct k; by eapply emit_unary_ok.
Qed.
End Emission.

(** ** Running the code *)
Section Simulation.
Context `{DeviceFloat} `{HostFloat} `{RegisterOrder}.
Context (params : list TmParam) (off rms : Z) (N : gset string).
Hypothesis HN : size N <= 8.

(** Every defined value is in its register. *)
Record sim (g : TMatmulCodegen) (s : ssa_state) (t : TmState) : Prop := {
  sm_len : length (tm_registers t) = 8;
  sm_slots : tm_spill t = ssa_slots s;
  sm_mem : tm_mem t = ssa_mem s;
  sm_values : forall v x, ssa_env s !! v = Some x -> exists i, holds g v i /\ tm_registers t !! i = Some x;
}.

Lemma sim_step g g' s t : gen_step N g g' -> sim g s t -> sim g' s t.
Proof.
  intros Hs [L S M V]. constructor; try done. intros v x Hv. destruct (V v x Hv) as (i & Hh & Hx).
  exists i. split; [by eapply holds_step|done].
Qed.

Lemma sim_push g s t i : sim g s t -> sim (push [i] g) s t.
Proof. intros [L S M V]. by constructor. Qed.

Lemma sim_read g s t v x i : sim g s t -> alloc_ok N (g_alloc g) -> ssa_env s !! v = Some x -> holds g v i -> reg_get i t = Ok x.
Proof.
  intros Hs Ha Hv [Hi Hr]. destruct (sm_values _ _ _ Hs v x Hv) as (j & [Hj Hr'] & Hx).
  assert (i = j) as -> by (apply reg_name_inj; [done|done|congruence]). unfold reg_get. by rewrite Hx.
Qed.

(** Writing the register of a value defines the value. *)
Lemma sim_define g s t v i x :
  sim g s t -> alloc_ok N (g_alloc g) -> holds g v i ->
  exists t', reg_set i x t = Ok t' /\ sim g (define v x s) t'.
Proof.
  intros [L S M V] Ha Hh. unfold reg_set. rewrite L. destruct Hh as [Hi Hr]. destruct (Nat.ltb_spec i 8); [|lia].
  eexists. split; [reflexivity|]. constructor; cbn [tm_registers tm_spill tm_mem define ssa_env ssa_slots ssa_mem]; try done.
  - by rewrite length_insert.
  - intros w y. rewrite lookup_insert_Some. intros [[<- <-]|[Hne Hw]].
    + exists i. split; [by split|]. apply list_lookup_insert_eq. lia.
    + destruct (V w y Hw) as (j & [Hj Hrj] & Hy). exists j. split; [by split|].
      rewrite list_lookup_insert_ne; [done|]. intros ->. by destruct Hne; eapply (ok_inj _ _ Ha).
Qed.

Lemma read_memory_regs mref regs t :
  read_memory mref params off (mkTmState regs (tm_spill t) (tm_mem t)) = read_memory mref params off t.
Proof. by destruct mref. Qed.

Lemma lower_regs3 mk i j k :
  i < 8 -> j < 8 -> k < 8 ->
  (d ← parse_register (reg_name i); a ← parse_register (reg_name j); b ← parse_register (reg_name k); Some (mk d a b))
  = Some (mk i j k : TmInstruction).
Proof. intros. by rewrite !parse_reg_name by lia. Qed.

Lemma op_instr_runs g op i s s' t :
  op_instr g op i -> sim g s t -> alloc_ok N (g_alloc g) -> eval_op params off rms (g_mem_map g) s op = Some s' ->
  exists inst t', lower i = Some inst /\ execute_instruction params off rms inst t = Ok t' /\ sim g s' t'.
Proof.
  intros Hc Hs Ha He. destruct Hc as [symbol r d Hd|v symbol j Hj|k a b r ia ib d Hia Hib Hd|k a r ia d Hia Hd];
    cbn [eval_op] in He.
  - injection He as <-. cbn [lower]. rewrite parse_reg_name by (destruct Hd; lia). eexists. cbn [mbind option_bind].
    rewrite <- (sm_slots _ _ _ Hs), <- (sm_mem _ _ _ Hs), read_memory_regs.
    destruct (sim_define g s t r d (read_memory (symbol_ref (g_mem_map g) symbol) params off t) Hs Ha Hd) as (t' & Ht & Hs').
    exists t'. split; [reflexivity|]. split; [exact Ht|exact Hs'].
  - destruct (ssa_env s !! v) as [x|] eqn:Hv; [|done]. cbn [mbind option_bind] in He. injection He as <-.
    cbn [lower]. rewrite parse_reg_name by (destruct Hj; lia). cbn [mbind option_bind].
    eexists _, (write_memory (symbol_ref (g_mem_map g) symbol) params off x t). split; [reflexivity|].
    split; [cbn [execute_instruction]; by rewrite (sim_read g s t v x j Hs Ha Hv Hj)|].
    rewrite <- (sm_slots _ _ _ Hs), <- (sm_mem _ _ _ Hs). destruct Hs as [L S M V].
    unfold write_memory. destruct (symbol_ref (g_mem_map g) symbol) as [idx|name|val]; [|by constructor..].
    destruct (param_addr params idx off); by constructor.
  - destruct (ssa_env s !! a) as [x|] eqn:Hx; [|done]. destruct (ssa_env s !! b) as [y|] eqn:Hy; [|done].
    cbn [mbind option_bind] in He. injection He as <-.
    destruct (sim_define g s t r d (bin_fun k x y) Hs Ha Hd) as (t' & Ht & Hs'). destruct Hia as [Lia Ria], Hib as [Lib Rib], Hd as [Ld Rd].
    exists (match k with BAdd => TmAdd | BSub => TmSub | BMul => TmMul | BDiv => TmDiv end d ia ib), t'.
    split; [destruct k; by apply lower_regs3|]. split; [|exact Hs'].
    pose proof (sim_read g s t a x ia Hs Ha Hx (conj Lia Ria)) as Ga.
    pose proof (sim_read g s t b y ib Hs Ha Hy (conj Lib Rib)) as Gb.
    destruct k; cbn [execute_instruction bin_fun] in *; unfold binary, divide; rewrite Ga, Gb; cbn [mbind outcome_bind]; try exact Ht.
    by destruct (f_nonzero y).
  - destruct (ssa_env s !! a) as [x|] eqn:Hx; [|done]. cbn [mbind option_bind] in He. injection He as <-.
    destruct (sim_define g s t r d (un_fun rms k x) Hs Ha Hd) as (t' & Ht & Hs').
    pose proof (sim_read g s t a x ia Hs Ha Hx Hia) as Ga. destruct Hia as [Lia Ria], Hd as [Ld Rd].
    exists (match k with USig => TmSigmoid | UCsig => TmComplementSigmoid | USilu => TmSiLU | UNorm => TmNorm end d ia), t'.
    split; [destruct k; cbn [lower]; by rewrite !parse_reg_name by lia|]. split; [|exact Hs'].
    destruct k; cbn [execute_instruction un_fun] in *; unfold unary; rewrite Ga; exact Ht.
Qed.

(** Memory names that print as one operand. *)
Definition symbol_ok (mem_map : gmap string MemoryLocation) (symbol : string) : Prop :=
  let text := location_text (symbol_location mem_map symbol) in
  token text = true /\ ends_with_char ":" text = false.

Lemma reg_name_token i : i < 8 -> token (reg_name i) = true /\ ends_with_char ":" (reg_name i) = false.
Proof.
  intros Hi. assert (forallb (fun i => token (reg_name i) && negb (ends_with_char ":" (reg_name i))) (seq 0 8) = true) as Hall
    by reflexivity.
  rewrite forallb_forall in Hall. specialize (Hall i ltac:(apply in_seq; lia)).
  by apply andb_true_iff in Hall as [? ?%negb_true_iff].
Qed.

Lemma op_instr_printable g op i :
  op_instr g op i -> Forall (symbol_ok (g_mem_map g)) (op_symbols op) -> printable i = true.
Proof.
  intros Hc Hsy. destruct Hc as [symbol r d [Hd _]|v symbol j [Hj _]|k a b r ia ib d [Hia _] [Hib _] [Hd _]|k a r ia d [Hia _] [Hd _]];
    cbn [op_symbols] in Hsy.
  - apply Forall_singleton in Hsy as [Ht He]. cbn. by rewrite (proj1 (reg_name_token d Hd)), Ht, He.
  - apply Forall_singleton in Hsy as [Ht He]. cbn. by rewrite (proj1 (reg_name_token j Hj)), Ht, He.
  - destruct (reg_name_token ib Hib) as [Ht He]. destruct (reg_name_token ia Hia) as [Ha _]. destruct (reg_name_token d Hd) as [Hdt _].
    destruct k; cbn; by rewrite Hdt, Ha, Ht, He.
  - destruct (reg_name_token ia Hia) as [Ht He]. destruct (reg_name_token d Hd) as [Hdt _].
    destruct k; cbn; by rewrite Hdt, Ht, He.
Qed.

(** The code of a list of operations runs as the operations. *)
Lemma emit_ops_run ops g s s' t :
  alloc_ok N (g_alloc g) -> Forall (fun op => op_values op ⊆ elements N) ops ->
  Forall (fun op => Forall (symbol_ok (g_mem_map g)) (op_symbols op)) ops ->
  sim g s t -> eval_ops params off rms (g_mem_map g) ops s = Some s' ->
  exists g' code t', stm_iter emit_op ops g = (g', Ok tt) /\ g_program g' = g_program g ++ code /\
    Forall (fun i => printable i = true) code /\
    foldM (fun t inst => execute_instruction params off rms inst t) t (omap lower code) = Ok t' /\ sim g' s' t'.
Proof.
  intros Ha Hv. revert g s t Ha. induction Hv as [|op ops Hop _ IH]; intros g s t Ha Hsy Hs He.
  - injection He as <-. exists g, [], t. rewrite app_nil_r. split_and!; try done.
  - apply Forall_cons in Hsy as [Hsy1 Hsy]. cbn [eval_ops] in He.
    destruct (eval_op params off rms (g_mem_map g) s op) as [s1|] eqn:He1; [|done]. cbn [mbind option_bind] in He.
    destruct (emit_op_ok N HN g op Ha Hop) as (g' & Hem & g1 & i & Hst & Hc & ->).
    pose proof (gs_map _ _ _ Hst) as Hmap. rewrite <- Hmap in He1, He, Hsy, Hsy1.
    destruct (op_instr_runs g1 op i s s1 t Hc (sim_step _ _ _ _ Hst Hs) (gs_ok _ _ _ Hst) He1) as (inst & t1 & Hl & Hx & Hs1).
    destruct (IH (push [i] g1) s1 t1 (gs_ok _ _ _ Hst) Hsy (sim_push _ _ _ i Hs1) He) as (g2 & code & t2 & Hit & Hp & Hpr & Hf & Hs2).
    exists g2, (i :: code), t2. split; [cbn [stm_iter]; by erewrite stm_bind_Ok by exact Hem|].
    split; [rewrite Hp; cbn; by rewrite (gs_program _ _ _ Hst), <- app_assoc|].
    split; [constructor; [by eapply op_instr_printable|done]|]. split; [|done].
    cbn [omap list_omap]. rewrite Hl. cbn [foldM]. by rewrite Hx.
Qed.
End Simulation.

(** [C13] Generated code is correct while the values fit the registers: for
    element-wise operations on at most eight named values, the generator
    succeeds, and its assembly text, parsed and executed by the interpreter on
    an element, leaves memory and named slots as the operations define them. *)
Theorem codegen_correct `{DeviceFloat} `{HostFloat} `{RegisterOrder} params rms e mem_map ops m s' :
  size (list_to_set (ops ≫= op_values) : gset string) <= 8 -> Forall (symbol_ok mem_map) (ops ≫= op_symbols) ->
  eval_ops params (Z.of_nat e * 4) rms mem_map ops (mkSsa ∅ ∅ m) = Some s' ->
  exists g t, stm_iter emit_op ops (mkTMatmulCodegen [] allocator_new mem_map) = (g, Ok tt) /\
    execute_element (parse_assembly (get_assembly g)) params rms (initial_state m) e = Ok t /\
    tm_mem t = ssa_mem s' /\ tm_spill t = ssa_slots s'.
Proof.
  intros HN Hsy He. set (N := list_to_set (ops ≫= op_values) : gset string) in *.
  destruct (emit_ops_run params (Z.of_nat e * 4) rms N HN ops (mkTMatmulCodegen [] allocator_new mem_map)
    (mkSsa ∅ ∅ m) s' (initial_state m)) as (g & code & t & Hit & Hp & Hpr & Hf & Hs); [apply alloc_ok_new| | |by constructor|done|].
  - apply Forall_forall. intros op Hop v Hv. apply elem_of_elements, elem_of_list_to_set, list_elem_of_bind. by exists op.
  - apply Forall_forall. intros op Hop. apply Forall_forall. intros sy Hin. rewrite Forall_forall in Hsy.
    apply Hsy, list_elem_of_bind. by exists op.
  - exists g, t. split; [done|]. cbn [g_program app] in Hp. subst code.
    split; [|by destruct Hs]. unfold get_assembly. by rewrite parse_to_assembly by done.
Qed.

(** ** Witness and counterexample *)
#[local] Instance register_order_lists : RegisterOrder := {
  reg_iter := map_to_list;
  reg_iter_perm := fun m => reflexivity (map_to_list m);
}.

(** [z := (x + y) * x] of two buffers into a third. *)
Definition sample_scalar_ops : list scalar_op :=
  [OLdv "PARAM_0" "%0"; OLdv "PARAM_1" "%1"; OBin BAdd "%0" "%1" "%2"; OBin BMul "%2" "%0" "%3"; OSv "%3" "PARAM_2"].

Definition sample_params : list TmParam := (fun i => mkTmParam (0x2000 + 16 * Z.of_nat i)%Z 4) <$> seq 0 9.

Lemma codegen_correct_witness :
  exists g t, stm_iter emit_op sample_scalar_ops codegen_new = (g, Ok tt) /\
    execute_element (parse_assembly (get_assembly g)) sample_params 0 (initial_state (store32 0x2000 3 (store32 0x2010 4 ∅))) 0 = Ok t /\
    load32 (tm_mem t) 0x2020 = 21%Z.
Proof.
  destruct (codegen_correct sample_params 0 0 ∅ sample_scalar_ops (store32 0x2000 3 (store32 0x2010 4 ∅))
    (mkSsa (<["%3" := 21%Z]> (<["%2" := 7%Z]> (<["%1" := 4%Z]> (<["%0" := 3%Z]> ∅)))) ∅
       (store32 0x2020 21 (store32 0x2000 3 (store32 0x2010 4 ∅))))) as (g & t & Hg & Ht & Hm & _).
  - apply Nat.leb_le. vm_compute. reflexivity.
  - repeat (constructor; [by split|]). constructor.
  - vm_compute. reflexivity.
  - exists g, t. split; [exact Hg|]. split; [exact Ht|]. rewrite Hm. vm_compute. reflexivity.
Defined.

(** Nine live values: eight loads fill the registers, and [%7] is used again
    after it was spilled. *)
Definition pressure_ops : list scalar_op :=
  ((fun i => OLdv (sapp "PARAM_" (pretty i)) (sapp "%" (pretty i))) <$> seq 0 8) ++
  [OBin BAdd "%7" "%0" "%8"; OBin BAdd "%7" "%8" "%9"; OSv "%9" "PARAM_8"].

Definition pressure_mem : mem := store32 0x2000 1 (store32 0x2070 10 ∅).

(** With more values than registers the generated code is wrong: the reload
    of a spilled operand is emitted before the spill that frees its register,
    so for these operations the ninth buffer gets 0 where they define 21. *)
Theorem reload_overtakes_spill :
  (exists s', eval_ops sample_params 0 0 ∅ pressure_ops (mkSsa ∅ ∅ pressure_mem) = Some s' /\
     load32 (ssa_mem s') 0x2080 = 21%Z) /\
  exists g t, stm_iter emit_op pressure_ops codegen_new = (g, Ok tt) /\
    execute_element (parse_assembly (get_assembly g)) sample_params 0 (initial_state pressure_mem) 0 = Ok t /\
    load32 (tm_mem t) 0x2080 = 0%Z.
Proof.
  split; [eexists; split; vm_compute; reflexivity|].
  eexists _, _. split; [vm_compute; reflexivity|]. split; vm_compute; reflexivity.
Qed.
