(* ===== verification/Pipeline.v ===== *)
(** * From PTX text to a CUBIN ([nvidia_sass/src/pipeline.rs], [ptxas/src/main.rs])

    A line-based parser of a subset of PTX, and the passes that allocate,
    schedule, validate and write a kernel, run over a shared context. *)
From stdpp Require Import base numbers list strings gmap.
From Stdlib Require Import ZArith Lia Ascii.
From S2P Require Import Prelude RustStr Sass Encoding Regalloc Scheduler Cubin.

Local Open Scope string_scope.
Local Open Scope Z_scope.

(** One constructor per message the code formats. *)
Inductive PtxError : Type :=
| UnsupportedInstruction (mnemonic line : string)
| MissingOperand (index : nat) (line : string)
| ExpectedRegister (operand : string)
| InvalidRegister (operand : string)
| ExpectedMemory (operand : string)
| InvalidInteger (value : string)
| NoEntry
| NoEntryNamed (name : string)
| NoInstructions (kernel_name : string)
| Sass (e : NvSassError)
| InPass (name : string) (e : PtxError)
| NoModule
| NoCubin.

(** ** Parsing *)
Definition strip_comment (line : string) : string :=
  match split_once "//" line with Some (line, _) => line | None => line end.

Definition is_paren_or_space (c : ascii) : bool := Ascii.eqb c "("%char || is_whitespace c.

Definition parse_entry_name (line : string) : option string :=
  '(_, rest) ← split_once ".entry " line;
  Some (fst (break is_paren_or_space (trim_start rest))).

(** The operand splitter: commas outside brackets separate. *)
Fixpoint split_go (s current : string) (depth : nat) (result : list string) : list string :=
  match s with
  | EmptyString =>
      if String.eqb (trim current) "" then result else (result ++ [trim current])%list
  | String ch s =>
      if Ascii.eqb ch "["%char then split_go s (sapp current (String ch "")) (S depth) result
      else if Ascii.eqb ch "]"%char then split_go s (sapp current (String ch "")) (depth - 1) result
      else if Ascii.eqb ch ","%char && (depth =? 0)%nat
      then split_go s "" depth (result ++ [trim current])%list
      else split_go s (sapp current (String ch "")) depth result
  end.

Definition split_operands (operands : string) : list string := split_go operands "" 0 [].

Definition operand (operands : list string) (index : nat) (line : string) : outcome PtxError string :=
  ok_or (MissingOperand index line) (operands !! index).

Definition parse_reg (op : string) : outcome PtxError Z :=
  digits ← ok_or (ExpectedRegister op) (strip_prefix "%r" (trim op));
  ok_or (InvalidRegister op) (parse_u8 digits).

Definition parse_special_reg (op : string) : option SpecialReg :=
  let t := trim op in
  if String.eqb t "%tid.x" then Some TidX
  else if String.eqb t "%tid.y" then Some TidY
  else if String.eqb t "%tid.z" then Some TidZ
  else if String.eqb t "%ctaid.x" then Some CtaidX
  else if String.eqb t "%ctaid.y" then Some CtaidY
  else if String.eqb t "%ctaid.z" then Some CtaidZ
  else if String.eqb t "%ntid.x" then Some NtidX
  else if String.eqb t "%ntid.y" then Some NtidY
  else if String.eqb t "%ntid.z" then Some NtidZ
  else if String.eqb t "%laneid" then Some LaneId
  else if String.eqb t "%warpid" then Some WarpId
  else None.

Definition ptx_parse_i32 (value : string) : outcome PtxError Z :=
  ok_or (InvalidInteger value)
    match strip_prefix "0x" value with
    | Some hex => parse_int 16 (- 2 ^ 31) (2 ^ 31 - 1) hex
    | None => parse_i32 value
    end.

(** [-x] on an [i32] without overflow checks *)
Definition neg_i32 (x : Z) : Z := if x =? - 2 ^ 31 then x else - x.

Definition parse_memory (op : string) : outcome PtxError (Z * Z) :=
  inner ← ok_or (ExpectedMemory op) (strip_prefix "[" (trim op) ≫= strip_suffix_char "]"%char);
  match split_once_char (fun c => Ascii.eqb c "+"%char) inner with
  | Some (base, offset) =>
      b ← parse_reg (trim base); o ← ptx_parse_i32 (trim offset); Ok (b, o)
  | None =>
      match split_once_char (fun c => Ascii.eqb c "-"%char) inner with
      | Some (base, offset) =>
          b ← parse_reg (trim base); o ← ptx_parse_i32 (trim offset); Ok (b, neg_i32 o)
      | None => b ← parse_reg (trim inner); Ok (b, 0)
      end
  end.

(** A register operand of the line. *)
Definition reg_operand (operands : list string) (index : nat) (line : string) : outcome PtxError Z :=
  op ← operand operands index line; parse_reg op.

Definition three_regs (operands : list string) (line : string) : outcome PtxError (Z * Z * Z) :=
  d ← reg_operand operands 0 line; a ← reg_operand operands 1 line; b ← reg_operand operands 2 line;
  Ok (d, a, b).

(** The line without its semicolon, cut into mnemonic and operands. *)
Definition split_line (line : string) : string * (string * list string) :=
  let line := trim (trim_end_matches (fun c => Ascii.eqb c ";"%char) line) in
  (line, match split_once_char is_whitespace line with
         | Some (name, operands) => (trim name, split_operands operands)
         | None => (line, [])
         end).

Definition parse_ptx_instruction (raw : string) : outcome PtxError SassInst :=
  let '(line, (name, operands)) := split_line raw in
  if String.eqb name "ret" || String.eqb name "exit" then Ok select_exit
  else if String.eqb name "mov.u32" then
    d ← reg_operand operands 0 line;
    src ← operand operands 1 line;
    match parse_special_reg src with
    | Some sreg => Ok (select_special_reg d sreg)
    | None => s ← parse_reg src; Ok (select_mov d s)
    end
  else if String.eqb name "add.s32" || String.eqb name "add.u32" then
    '(d, a, b) ← three_regs operands line; Ok (select_add_i32 d a b)
  else if String.eqb name "add.f32" then
    '(d, a, b) ← three_regs operands line; Ok (select_add_f32 d a b)
  else if String.eqb name "mul.f32" then
    '(d, a, b) ← three_regs operands line; Ok (select_mul_f32 d a b)
  else if String.eqb name "fma.rn.f32" || String.eqb name "fma.f32" then
    '(d, a, b) ← three_regs operands line;
    c ← reg_operand operands 3 line; Ok (select_fma_f32 d a b c)
  else if String.eqb name "ld.global.u32" then
    mem ← operand operands 1 line;
    '(base, offset) ← parse_memory mem;
    d ← reg_operand operands 0 line; Ok (select_load_global d base offset)
  else if String.eqb name "st.global.u32" then
    mem ← operand operands 0 line;
    '(base, offset) ← parse_memory mem;
    d ← reg_operand operands 1 line; Ok (select_store_global base offset d)
  else if String.eqb name "bar.sync" then
    op ← operand operands 0 line; Ok (select_bar_sync (default 0 (parse_u32 op)))
  else Err (UnsupportedInstruction name line).

(** What the line loop carries. *)
Record parse_state : Type := mkParseState {
  ps_sm_version : Z;
  ps_current_kernel : option string;
  ps_selected_kernel : option string;
  ps_in_selected_body : bool;
  ps_instructions : list SassInst;
}.

Definition wanted (requested name : string) : bool := String.eqb requested "" || String.eqb requested name.

(** One iteration of the line loop of [parse_ptx_subset]. *)
Definition parse_line (requested : string) (st : parse_state) (raw_line : string) : outcome PtxError parse_state :=
  let line := trim (strip_comment raw_line) in
  if String.eqb line "" then Ok st
  else match strip_prefix ".target " line with
  | Some target =>
      let v := if ps_sm_version st =? 0
               then default 120 (strip_prefix "sm_" (trim target) ≫= parse_u32) else ps_sm_version st in
      Ok (mkParseState v (ps_current_kernel st) (ps_selected_kernel st) (ps_in_selected_body st) (ps_instructions st))
  | None =>
  match parse_entry_name line with
  | Some kernel_name =>
      let selected := wanted requested kernel_name in
      Ok (mkParseState (ps_sm_version st) (Some kernel_name)
            (if selected then Some kernel_name else ps_selected_kernel st)
            (selected && contains "{" line) (ps_instructions st))
  | None =>
  if String.eqb line "{" then
    match ps_current_kernel st with
    | Some name =>
        let in_body := wanted requested name in
        Ok (mkParseState (ps_sm_version st) (ps_current_kernel st)
              (if in_body then Some name else ps_selected_kernel st) in_body (ps_instructions st))
    | None => Ok st
    end
  else if String.eqb line "}" then
    Ok (mkParseState (ps_sm_version st) None (ps_selected_kernel st) false (ps_instructions st))
  else if negb (ps_in_selected_body st) || starts_with "." line || ends_with_char ":"%char line then Ok st
  else
    inst ← parse_ptx_instruction line;
    Ok (mkParseState (ps_sm_version st) (ps_current_kernel st) (ps_selected_kernel st)
          (ps_in_selected_body st) (ps_instructions st ++ [inst])%list)
  end
  end.

Record ParsedPtxSubset : Type := mkParsedPtxSubset {
  parsed_kernel_name : string;
  parsed_sm_version : Z;
  parsed_instructions : list SassInst;
}.

Definition parse_ptx_subset (ptx requested : string) (requested_sm_version : Z)
    : outcome PtxError ParsedPtxSubset :=
  st ← foldM (parse_line requested) (mkParseState requested_sm_version None None false []) (lines ptx);
  kernel_name ← ok_or (if String.eqb requested "" then NoEntry else NoEntryNamed requested)
                  (ps_selected_kernel st);
  if decide (ps_instructions st = []) then Err (NoInstructions kernel_name)
  else Ok (mkParsedPtxSubset kernel_name
             (if ps_sm_version st =? 0 then 120 else ps_sm_version st) (ps_instructions st)).

(** ** The pass pipeline *)
Record PtxToSassContext : Type := mkPtxToSassContext {
  ptx : string;
  requested_kernel_name : string;
  kernel_name : string;
  c_sm_version : Z;
  virtual_instructions : list SassInst;
  physical_instructions : list SassInst;
  scheduled_instructions : list SassInst;
  c_num_registers : Z;
  c_module : option SassModule;
  cubin : option (list Z);
  pass_names : list string;
  notes : list string;
}.

Definition context_new (ptx_text kernel : string) (sm : Z) : PtxToSassContext :=
  mkPtxToSassContext ptx_text kernel kernel sm [] [] [] 0 None None [] [].

Definition set_kernel_name (name : string) (ctx : PtxToSassContext) : PtxToSassContext :=
  mkPtxToSassContext (ptx ctx) (requested_kernel_name ctx) name (c_sm_version ctx)
    (virtual_instructions ctx) (physical_instructions ctx) (scheduled_instructions ctx)
    (c_num_registers ctx) (c_module ctx) (cubin ctx) (pass_names ctx) (notes ctx).

Definition set_sm_version (sm : Z) (ctx : PtxToSassContext) : PtxToSassContext :=
  mkPtxToSassContext (ptx ctx) (requested_kernel_name ctx) (kernel_name ctx) sm
    (virtual_instructions ctx) (physical_instructions ctx) (scheduled_instructions ctx)
    (c_num_registers ctx) (c_module ctx) (cubin ctx) (pass_names ctx) (notes ctx).

Definition set_virtual_instructions (insts : list SassInst) (ctx : PtxToSassContext) : PtxToSassContext :=
  mkPtxToSassContext (ptx ctx) (requested_kernel_name ctx) (kernel_name ctx) (c_sm_version ctx)
    insts (physical_instructions ctx) (scheduled_instructions ctx)
    (c_num_registers ctx) (c_module ctx) (cubin ctx) (pass_names ctx) (notes ctx).

Definition set_physical_instructions (insts : list SassInst) (ctx : PtxToSassContext) : PtxToSassContext :=
  mkPtxToSassContext (ptx ctx) (requested_kernel_name ctx) (kernel_name ctx) (c_sm_version ctx)
    (virtual_instructions ctx) insts (scheduled_instructions ctx)
    (c_num_registers ctx) (c_module ctx) (cubin ctx) (pass_names ctx) (notes ctx).

Definition set_scheduled_instructions (insts : list SassInst) (ctx : PtxToSassContext) : PtxToSassContext :=
  mkPtxToSassContext (ptx ctx) (requested_kernel_name ctx) (kernel_name ctx) (c_sm_version ctx)
    (virtual_instructions ctx) (physical_instructions ctx) insts
    (c_num_registers ctx) (c_module ctx) (cubin ctx) (pass_names ctx) (notes ctx).

Definition set_num_registers (n : Z) (ctx : PtxToSassContext) : PtxToSassContext :=
  mkPtxToSassContext (ptx ctx) (requested_kernel_name ctx) (kernel_name ctx) (c_sm_version ctx)
    (virtual_instructions ctx) (physical_instructions ctx) (scheduled_instructions ctx)
    n (c_module ctx) (cubin ctx) (pass_names ctx) (notes ctx).

Definition set_module (m : SassModule) (ctx : PtxToSassContext) : PtxToSassContext :=
  mkPtxToSassContext (ptx ctx) (requested_kernel_name ctx) (kernel_name ctx) (c_sm_version ctx)
    (virtual_instructions ctx) (physical_instructions ctx) (scheduled_instructions ctx)
    (c_num_registers ctx) (Some m) (cubin ctx) (pass_names ctx) (notes ctx).

Definition set_cubin (bytes : list Z) (ctx : PtxToSassContext) : PtxToSassContext :=
  mkPtxToSassContext (ptx ctx) (requested_kernel_name ctx) (kernel_name ctx) (c_sm_version ctx)
    (virtual_instructions ctx) (physical_instructions ctx) (scheduled_instructions ctx)
    (c_num_registers ctx) (c_module ctx) (Some bytes) (pass_names ctx) (notes ctx).

(** [ctx.pass_names.push] of [PtxToSassPipeline::run] *)
Definition push_pass_name (name : string) (ctx : PtxToSassContext) : PtxToSassContext :=
  mkPtxToSassContext (ptx ctx) (requested_kernel_name ctx) (kernel_name ctx) (c_sm_version ctx)
    (virtual_instructions ctx) (physical_instructions ctx) (scheduled_instructions ctx)
    (c_num_registers ctx) (c_module ctx) (cubin ctx) (pass_names ctx ++ [name]) (notes ctx).

(** The accessors [*_mut] hand out the field for an update by a pass. *)
Definition virtual_instructions_mut (f : list SassInst -> list SassInst) (ctx : PtxToSassContext) :=
  set_virtual_instructions (f (virtual_instructions ctx)) ctx.

Definition physical_instructions_mut (f : list SassInst -> list SassInst) (ctx : PtxToSassContext) :=
  set_physical_instructions (f (physical_instructions ctx)) ctx.

Definition scheduled_instructions_mut (f : list SassInst -> list SassInst) (ctx : PtxToSassContext) :=
  set_scheduled_instructions (f (scheduled_instructions ctx)) ctx.

Definition notes_mut (f : list string -> list string) (ctx : PtxToSassContext) : PtxToSassContext :=
  mkPtxToSassContext (ptx ctx) (requested_kernel_name ctx) (kernel_name ctx) (c_sm_version ctx)
    (virtual_instructions ctx) (physical_instructions ctx) (scheduled_instructions ctx)
    (c_num_registers ctx) (c_module ctx) (cubin ctx) (pass_names ctx) (f (notes ctx)).

Abbreviation passm := (stm PtxToSassContext PtxError unit).

(** The trait [PtxToSassPass]. *)
Record PtxToSassPass : Type := mkPtxToSassPass {
  pass_name : string;
  pass_run : passm;
}.

(** [PtxToSassPipeline] and its builder. *)
Record PtxToSassPipeline : Type := mkPtxToSassPipeline { passes : list PtxToSassPass }.

Definition pipeline_new : PtxToSassPipeline := mkPtxToSassPipeline [].

Definition add_pass (pass : PtxToSassPass) (p : PtxToSassPipeline) : PtxToSassPipeline :=
  mkPtxToSassPipeline (passes p ++ [pass]).

(** The loop of [PtxToSassPipeline::run]. *)
Definition run_passes (ps : list PtxToSassPass) : passm :=
  stm_iter (fun p ctx => stm_map_err (InPass (pass_name p)) (pass_run p) (push_pass_name (pass_name p) ctx)) ps.

Definition pipeline_run (p : PtxToSassPipeline) : passm := run_passes (passes p).

Definition parse_pass_run : passm := fun ctx =>
  match parse_ptx_subset (ptx ctx) (requested_kernel_name ctx) (c_sm_version ctx) with
  | Ok parsed =>
      (set_virtual_instructions (parsed_instructions parsed)
         (set_sm_version (parsed_sm_version parsed) (set_kernel_name (parsed_kernel_name parsed) ctx)), Ok tt)
  | Err e => (ctx, Err e)
  | Panic => (ctx, Panic)
  end.

Definition allocate_pass_run `{HashOrder} : passm := fun ctx =>
  match allocate (virtual_instructions ctx) with
  | Ok (physical, nregs) => (set_num_registers nregs (set_physical_instructions physical ctx), Ok tt)
  | Err e => (ctx, Err (Sass e))
  | Panic => (ctx, Panic)
  end.

Definition schedule_pass_run : passm := fun ctx =>
  (set_scheduled_instructions (schedule (physical_instructions ctx)) ctx, Ok tt).

Definition validate_pass_run : passm := fun ctx =>
  (ctx, map_err Sass (foldM (fun _ inst => validate_roundtrip inst (c_sm_version ctx)) tt
                        (scheduled_instructions ctx))).

Definition context_module (ctx : PtxToSassContext) : SassModule :=
  mkSassModule
    [mkSassKernel (kernel_name ctx) (scheduled_instructions ctx) (c_num_registers ctx) 0 0 0 1024 []]
    (c_sm_version ctx) [].

Definition build_pass_run : passm := fun ctx =>
  let m := context_module ctx in
  match build_cubin_from_module m with
  | Ok bytes => (set_cubin bytes (set_module m ctx), Ok tt)
  | Err e => (ctx, Err (Sass e))
  | Panic => (ctx, Panic)
  end.

Definition default_ptx_to_sass_pipeline `{HashOrder} : PtxToSassPipeline :=
  add_pass (mkPtxToSassPass "build-cubin" build_pass_run)
  (add_pass (mkPtxToSassPass "validate-encoding" validate_pass_run)
  (add_pass (mkPtxToSassPass "schedule-control-codes" schedule_pass_run)
  (add_pass (mkPtxToSassPass "allocate-registers" allocate_pass_run)
  (add_pass (mkPtxToSassPass "parse-ptx-subset" parse_pass_run) pipeline_new)))).

Record PtxToSassPipelineResult : Type := mkPtxToSassPipelineResult {
  r_module : SassModule;
  r_cubin : list Z;
  r_pass_names : list string;
  r_notes : list string;
}.

Definition compile_ptx_to_cubin `{HashOrder} (ptx_text kernel : string) (sm : Z)
    : outcome PtxError PtxToSassPipelineResult :=
  let '(ctx, r) := pipeline_run default_ptx_to_sass_pipeline (context_new ptx_text kernel sm) in
  _ ← r;
  m ← ok_or NoModule (c_module ctx);
  bytes ← ok_or NoCubin (cubin ctx);
  Ok (mkPtxToSassPipelineResult m bytes (pass_names ctx) (notes ctx)).

(** ** [ptxas] *)
Definition parse_sm_version (gpu_name : string) : Z :=
  default 120 (strip_prefix "sm_" gpu_name ≫= parse_u32).

(** The first line with an entry whose name is not empty. *)
Fixpoint infer_from_lines (ls : list string) : option string :=
  match ls with
  | [] => None
  | line :: ls =>
      match parse_entry_name (strip_comment line) with
      | Some name => if String.eqb name "" then infer_from_lines ls else Some name
      | None => infer_from_lines ls
      end
  end.

Definition infer_entry_name (ptx_source : string) : option string := infer_from_lines (lines ptx_source).

(** [ptxas] after its options are read: compile the first entry. *)
Definition ptxas_compile `{HashOrder} (gpu_name ptx_source : string) : outcome PtxError PtxToSassPipelineResult :=
  compile_ptx_to_cubin ptx_source (default "kernel" (infer_entry_name ptx_source)) (parse_sm_version gpu_name).

(** ** A small kernel *)
Definition nl : string := String newline "".

Definition sample_ptx : string :=
  join nl [".version 8.0"; ".target sm_120"; ".visible .entry add_one("; ".param .u64 p"; ")"; "{";
           "mov.u32 %r128, %tid.x; // thread"; "add.u32 %r129, %r128, %r128;"; "L0:";
           "st.global.u32 [%r128+0x10], %r129;"; "ret;"; "}"].

Example sample_parsed :
  parse_ptx_subset sample_ptx "add_one" 0 =
  Ok (mkParsedPtxSubset "add_one" 120
        [select_special_reg 128 TidX; select_add_i32 129 128 128; select_store_global 128 16 129; select_exit]).
Proof. vm_compute. reflexivity. Qed.

Example sample_operands : split_operands "%r1, [%r2+4],%r3 " = ["%r1"; "[%r2+4]"; "%r3"].
Proof. vm_compute. reflexivity. Qed.
