(* ===== verification/PipelineSpec.v ===== *)
(** * The compiler as a whole

    The passes compose: whatever the parser accepts for a supported target is
    compiled, nothing panics, and the executable disassembles to the source
    program up to the operands the encoder does not write. *)
From stdpp Require Import base numbers list strings gmap.
From Stdlib Require Import ZArith Lia Ascii.
From S2P Require Import Prelude RustStr Sass Encoding EncodingSpec Disassembly Regalloc Scheduler Cubin CubinSpec Pipeline.

Local Open Scope Z_scope.

(** ** What the parser produces *)

(** Instructions that encode and validate. *)
Definition encodable (inst : SassInst) : Prop :=
  wf_inst inst = true /\
  match op_class (opcode inst) with Branch | ClassNop => dst inst = None | _ => True end.

Lemma parse_int_range radix lo hi s z : parse_int radix lo hi s = Some z -> lo <= z <= hi.
Proof.
  unfold parse_int. intros H. repeat case_match; try discriminate;
    repeat match goal with
    | H : (_ ≫= _) = Some _ |- _ => apply bind_Some in H as (? & ? & ?)
    | H : (if _ then _ else _) = Some _ |- _ => case_match; simplify_eq
    | H : _ && _ = true |- _ => apply andb_true_iff in H as [?%Z.leb_le ?%Z.leb_le]
    end; lia.
Qed.

Lemma parse_reg_u8 op n : parse_reg op = Ok n -> is_u 8 n = true.
Proof.
  unfold parse_reg. destruct (strip_prefix _ _) as [digits|]; simpl; [|done].
  destruct (parse_u8 digits) as [z|] eqn:Hz; simpl; [|done]. intros [= ->].
  apply parse_int_range in Hz. apply is_u_spec. lia.
Qed.

Lemma reg_operand_u8 operands i line n : reg_operand operands i line = Ok n -> is_u 8 n = true.
Proof.
  unfold reg_operand. destruct (operand _ _ _); simpl; try done. apply parse_reg_u8.
Qed.

Lemma three_regs_u8 operands line d a b :
  three_regs operands line = Ok (d, a, b) -> is_u 8 d = true /\ is_u 8 a = true /\ is_u 8 b = true.
Proof.
  unfold three_regs. destruct (reg_operand _ 0 _) as [x| |] eqn:H0; simpl; try done.
  destruct (reg_operand _ 1 _) as [y| |] eqn:H1; simpl; try done.
  destruct (reg_operand _ 2 _) as [z| |] eqn:H2; simpl; try done. intros [= -> -> ->].
  split_and!; by eapply reg_operand_u8.
Qed.

Lemma parse_memory_u8 op b o : parse_memory op = Ok (b, o) -> is_u 8 b = true.
Proof.
  unfold parse_memory.
  destruct (strip_prefix "["%string (trim op) ≫= strip_suffix_char "]"%char) as [inner|]; simpl; [|done].
  destruct (split_once_char _ inner) as [[base off]|].
  - destruct (parse_reg (trim base)) eqn:Hr; simpl; try done.
    destruct (ptx_parse_i32 _); simpl; try done. intros [= -> _]. by eapply parse_reg_u8.
  - destruct (split_once_char _ inner) as [[base off]|].
    + destruct (parse_reg (trim base)) eqn:Hr; simpl; try done.
      destruct (ptx_parse_i32 _); simpl; try done. intros [= -> _]. by eapply parse_reg_u8.
    + destruct (parse_reg (trim inner)) eqn:Hr; simpl; try done. intros [= -> _]. by eapply parse_reg_u8.
Qed.

(** The selectors on [u8] registers. *)
Ltac wf_selected := unfold encodable, wf_inst; simpl; split; [|done];
  repeat match goal with H : is_u 8 _ = true |- _ => rewrite H; clear H end; reflexivity.

Lemma select_exit_ok : encodable select_exit.
Proof. done. Qed.

Lemma select_bar_ok n : encodable (select_bar_sync n).
Proof. wf_selected. Qed.

Lemma select_special_ok d sr : is_u 8 d = true -> encodable (select_special_reg d sr).
Proof. intros. wf_selected. Qed.

Lemma select_mov_ok d a : is_u 8 d = true -> is_u 8 a = true -> encodable (select_mov d a).
Proof. intros. wf_selected. Qed.

Lemma select_alu_ok d a b :
  is_u 8 d = true /\ is_u 8 a = true /\ is_u 8 b = true ->
  encodable (select_add_i32 d a b) /\ encodable (select_add_f32 d a b) /\ encodable (select_mul_f32 d a b).
Proof. intros (? & ? & ?). split_and!; try done; wf_selected. Qed.

Lemma select_fma_ok d a b c :
  is_u 8 d = true /\ is_u 8 a = true /\ is_u 8 b = true -> is_u 8 c = true -> encodable (select_fma_f32 d a b c).
Proof. intros (? & ? & ?) ?. wf_selected. Qed.

Lemma select_load_ok d a o : is_u 8 d = true -> is_u 8 a = true -> encodable (select_load_global d a o).
Proof. intros. wf_selected. Qed.

Lemma select_store_ok a o d : is_u 8 a = true -> is_u 8 d = true -> encodable (select_store_global a o d).
Proof. intros. wf_selected. Qed.

Create HintDb selected.
#[export] Hint Resolve select_exit_ok select_bar_ok select_special_ok select_mov_ok select_fma_ok
  select_load_ok select_store_ok reg_operand_u8 parse_reg_u8 three_regs_u8 parse_memory_u8 : selected.

(** Peel the binds of a successful parse. *)
Ltac peel := repeat match goal with
  | H : (match ?m with Ok _ => _ | Err _ => _ | Panic => _ end) = Ok _ |- _ =>
      destruct m as [?| |] eqn:?; simpl in H; try discriminate H
  | H : (let '(_, _) := ?p in _) = Ok _ |- _ => destruct p; simpl in H
  end.

Lemma parse_ptx_instruction_ok raw inst : parse_ptx_instruction raw = Ok inst -> encodable inst.
Proof.
  unfold parse_ptx_instruction. destruct (split_line raw) as [line [name operands]].
  repeat match goal with |- (if ?c then _ else _) = _ -> _ => destruct c end; try done;
    unfold mbind, outcome_bind; intros H; peel; simplify_eq; eauto with selected.
  1: destruct (parse_special_reg _); peel; simplify_eq; eauto with selected.
  all: match goal with H : three_regs _ _ = Ok _ |- _ =>
         apply three_regs_u8, select_alu_ok in H; apply H end.
Qed.

(** A property of every parsed line is one of every parsed instruction. *)
Section Parsed.
Context (Q : SassInst -> Prop) (parsed_Q : forall raw inst, parse_ptx_instruction raw = Ok inst -> Q inst).

Lemma parse_line_all requested st raw st' :
  Forall Q (ps_instructions st) -> parse_line requested st raw = Ok st' -> Forall Q (ps_instructions st').
Proof.
  intros Hst. unfold parse_line. repeat case_match; intros H'; simplify_eq/=; try done.
  destruct (parse_ptx_instruction _) as [inst| |] eqn:Hi; simplify_eq/=.
  apply Forall_app. split; [done|]. constructor; [|constructor]. by eapply parsed_Q.
Qed.

Lemma parse_ptx_subset_all text name sm parsed :
  parse_ptx_subset text name sm = Ok parsed ->
  Forall Q (parsed_instructions parsed) /\ parsed_instructions parsed <> [].
Proof.
  unfold parse_ptx_subset. destruct (foldM _ _ _) as [st| |] eqn:Hf; simpl; try done.
  assert (Forall Q (ps_instructions st)) as Hok.
  { eapply (foldM_Ok_ind _ (fun _ st => Forall Q (ps_instructions st))); [|intros|exact Hf]; simpl.
    - constructor.
    - by eapply parse_line_all. }
  destruct (ps_selected_kernel st); simpl; [|done]. case_decide; [done|]. by intros [= <-].
Qed.
End Parsed.

Lemma parse_ptx_subset_ok text name sm parsed :
  parse_ptx_subset text name sm = Ok parsed ->
  Forall encodable (parsed_instructions parsed) /\ parsed_instructions parsed <> [].
Proof. apply parse_ptx_subset_all, parse_ptx_instruction_ok. Qed.

(** The forms the parser selects. *)
Inductive selected : SassInst -> Prop :=
| sel_exit : selected select_exit
| sel_special d sr : selected (select_special_reg d sr)
| sel_mov d a : selected (select_mov d a)
| sel_add_i32 d a b : selected (select_add_i32 d a b)
| sel_add_f32 d a b : selected (select_add_f32 d a b)
| sel_mul_f32 d a b : selected (select_mul_f32 d a b)
| sel_fma d a b c : selected (select_fma_f32 d a b c)
| sel_load d a offset : is_s 32 offset = true -> selected (select_load_global d a offset)
| sel_store a offset d : is_s 32 offset = true -> selected (select_store_global a offset d)
| sel_bar id : selected (select_bar_sync id).
#[export] Hint Constructors selected : selected.

Lemma ptx_parse_i32_range v z : ptx_parse_i32 v = Ok z -> is_s 32 z = true.
Proof.
  unfold ptx_parse_i32, parse_i32. intros H. assert (- 2 ^ 31 <= z <= 2 ^ 31 - 1) as Hz.
  { destruct (strip_prefix _ _); [destruct (parse_int _ _ _ _) eqn:Hp|destruct (parse_int _ _ _ _) eqn:Hp];
      simplify_eq/=; by eapply parse_int_range. }
  unfold is_s. rewrite andb_true_iff, Z.leb_le, Z.ltb_lt. lia.
Qed.

Lemma neg_i32_range z : is_s 32 z = true -> is_s 32 (neg_i32 z) = true.
Proof.
  unfold is_s, neg_i32. rewrite !andb_true_iff, !Z.leb_le, !Z.ltb_lt.
  destruct (Z.eqb_spec z (- 2 ^ 31)); lia.
Qed.

Lemma parse_memory_offset op b o : parse_memory op = Ok (b, o) -> is_s 32 o = true.
Proof.
  unfold parse_memory.
  destruct (strip_prefix "["%string (trim op) ≫= strip_suffix_char "]"%char) as [inner|]; simpl; [|done].
  repeat destruct (split_once_char _ inner) as [[? ?]|]; destruct (parse_reg _); simpl; try done;
    try (destruct (ptx_parse_i32 _) eqn:Hi; simpl; try done; apply ptx_parse_i32_range in Hi);
    intros [= _ <-]; try apply neg_i32_range; done.
Qed.
#[export] Hint Resolve parse_memory_offset : selected.

Lemma parse_ptx_instruction_selected raw inst : parse_ptx_instruction raw = Ok inst -> selected inst.
Proof.
  unfold parse_ptx_instruction. destruct (split_line raw) as [line [name operands]].
  repeat match goal with |- (if ?c then _ else _) = _ -> _ => destruct c end; try done;
    unfold mbind, outcome_bind; intros H; peel; simplify_eq; eauto with selected.
  destruct (parse_special_reg _); peel; simplify_eq; eauto with selected.
Qed.

Lemma parse_ptx_subset_selected text name sm parsed :
  parse_ptx_subset text name sm = Ok parsed -> Forall selected (parsed_instructions parsed).
Proof. intros Hp. by eapply parse_ptx_subset_all; [apply parse_ptx_instruction_selected|]. Qed.

(** Allocation renames registers only, so it keeps the form. *)
Lemma remap_selected mapping inst : selected inst -> selected (remap_inst mapping inst).
Proof.
  assert (forall n, exists p, remap_reg mapping (R n) = R p) as Hreg
    by (intros n; simpl; destruct (mapping !! n); eauto).
  destruct 1; cbv [remap_inst select_exit select_special_reg select_mov select_add_i32 select_add_f32 select_mul_f32
    select_fma_f32 select_load_global select_store_global select_bar_sync plain]; 
    cbn [opcode dst srcs pred modifiers control fmap option_fmap option_map list_fmap remap_operand];
    repeat match goal with |- context [remap_reg mapping (R ?n)] => destruct (Hreg n) as [? ->] end;
    by constructor.
Qed.

(** ** Allocation keeps instructions encodable *)
Definition mapping_u8 (mapping : gmap Z Z) : Prop :=
  forall n p, mapping !! n = Some p -> is_u 8 p = true.

Lemma remap_gpr mapping r : mapping_u8 mapping -> wf_gpr r = true -> wf_gpr (remap_reg mapping r) = true.
Proof.
  intros Hm. destruct r; simpl; try done. destruct (mapping !! n) eqn:Hn; [|done]. intros _. by eapply Hm.
Qed.

Lemma remap_operands_wf mapping ops :
  mapping_u8 mapping -> forallb wf_operand ops = true -> forallb wf_operand (remap_operand mapping <$> ops) = true.
Proof.
  intros Hm. induction ops as [|o ops IH]; simpl; [done|]. rewrite !andb_true_iff. intros [Ho Hops].
  split; [|by apply IH]. destruct o; simpl in *; try done; by apply remap_gpr.
Qed.

Lemma remap_no_overlap mapping inst : no_overlap (remap_inst mapping inst) = no_overlap inst.
Proof.
  unfold no_overlap, remap_inst; simpl. rewrite !list_lookup_fmap, length_fmap.
  destruct (op_class (opcode inst)); try done.
  - f_equal. f_equal. destruct (srcs inst !! 1%nat) as [[]|]; done.
  - f_equal. f_equal. destruct (srcs inst !! 1%nat) as [[]|]; done.
  - destruct (srcs inst !! 0%nat) as [[]|]; done.
Qed.

Lemma remap_encodable mapping inst : mapping_u8 mapping -> encodable inst -> encodable (remap_inst mapping inst).
Proof.
  intros Hm [Hwf Hc]. destruct (wf_inst_parts inst Hwf) as (Hk & Hd & Hs & Hp & Hcc & Hov). split.
  - unfold wf_inst. rewrite remap_no_overlap, Hov. simpl. rewrite Hk, Hp, Hcc.
    rewrite remap_operands_wf by done. destruct (dst inst) as [r|]; simpl; [|done].
    by rewrite remap_gpr.
  - simpl. destruct (op_class (opcode inst)); try done; by rewrite Hc.
Qed.

Lemma encodable_u8 inst n : encodable inst -> occurs n inst -> 0 <= n < 256.
Proof.
  intros [Hwf _]. destruct (wf_inst_parts inst Hwf) as (_ & Hd & Hs & _). intros [Ho|Ho].
  - rewrite Ho in Hd. by apply (is_u_spec 8).
  - apply list_elem_of_bind in Ho as (o & Hr & Ho). rewrite forallb_forall in Hs.
    apply list_elem_of_In, Hs in Ho. destruct o; simpl in *; try (by apply elem_of_nil in Hr);
      apply list_elem_of_singleton in Hr; subst; by apply (is_u_spec 8).
Qed.

Lemma max_value_ge mapping n p : mapping !! n = Some p -> p <= max_value mapping.
Proof.
  intros Hn. unfold max_value. assert (p ∈ (snd <$> map_to_list mapping)) as Hin.
  { apply list_elem_of_fmap. exists (n, p). split; [done|]. by apply elem_of_map_to_list. }
  induction (snd <$> map_to_list mapping) as [|q l IH]; simpl; [by apply elem_of_nil in Hin|].
  apply elem_of_cons in Hin as [->|Hin]; [lia|]. specialize (IH Hin). lia.
Qed.

(** Every register an instruction names is below [n]. *)
Definition regs_below (n : Z) (inst : SassInst) : Prop := forall r, occurs r inst -> 0 <= r < n.

Lemma remap_occurs mapping inst r :
  occurs r (remap_inst mapping inst) ->
  exists n, occurs n inst /\ (mapping !! n = Some r \/ (mapping !! n = None /\ r = n)).
Proof.
  assert (forall reg, remap_reg mapping reg = R r -> exists n, reg = R n /\
    (mapping !! n = Some r \/ (mapping !! n = None /\ r = n))) as Hreg.
  { intros reg. destruct reg as [n| | | | |]; simpl; try done. exists n. split; [done|].
    destruct (mapping !! n); simplify_eq; auto. }
  intros [Hd|Hs]; simpl in *.
  - destruct (dst inst) as [reg|] eqn:Hdst; [|done]. injection Hd as Hd.
    destruct (Hreg _ Hd) as (n & -> & H). exists n. split; [by left|done].
  - apply list_elem_of_bind in Hs as (o' & Hr & Ho'). apply list_elem_of_fmap in Ho' as (o & -> & Ho).
    assert (exists reg, reg ∈ extract_regs o /\ remap_reg mapping reg = R r) as (reg & Hin & Heq).
    { destruct o; simpl in *; try (by apply elem_of_nil in Hr);
        apply list_elem_of_singleton in Hr; eexists; (split; [by left|done]). }
    destruct (Hreg _ Heq) as (n & -> & H). exists n. split; [|done]. right.
    apply list_elem_of_bind. by exists o.
Qed.

Section Compile.
Context `{HashOrder}.

Lemma allocate_encodable insts :
  Forall encodable insts -> exists phys nregs, allocate insts = Ok (phys, nregs) /\
    Forall encodable phys /\ length phys = length insts /\ Forall (regs_below (Z.min nregs 255)) phys.
Proof.
  intros Hok. assert (regs_u8 insts) as Hu8.
  { intros inst n Hin Hocc. rewrite Forall_forall in Hok. by eapply encodable_u8; [apply Hok|]. }
  destruct (program_mapping insts Hu8) as (mapping & Hscan & Hgood).
  assert (forall n p, mapping !! n = Some p -> 0 <= p < 255) as Hmap.
  { intros n p Hn. destruct (gm_keys _ _ Hgood n p Hn) as [[s e] Hr].
    destruct (decide (n < 128)) as [Hlow|Hhigh].
    - rewrite (gm_low _ _ Hgood n s e Hr Hlow) in Hn. injection Hn as <-.
      destruct (live_from_key insts 0 ∅ n _ Hr) as [[? H0]|(inst & Hin & Hocc)];
        [by rewrite lookup_empty in H0|]. specialize (Hu8 inst n Hin Hocc). lia.
    - destruct (gm_virtual _ _ Hgood n s e Hr ltac:(lia)) as (q & Hq & ?). rewrite Hq in Hn.
      injection Hn as <-. lia. }
  unfold allocate. rewrite Hscan. simpl. do 2 eexists. split; [done|]. split_and!.
  - apply Forall_fmap. eapply Forall_impl; [exact Hok|]. intros inst Hi. apply remap_encodable; [|done].
    intros n p Hn. apply is_u_spec. pose proof (Hmap n p Hn). lia.
  - by rewrite length_fmap.
  - apply Forall_lookup. intros k inst Hk r Hocc. rewrite list_lookup_fmap in Hk.
    destruct (insts !! k) as [inst0|] eqn:Hk0; [|done]. injection Hk as <-.
    destruct (remap_occurs mapping inst0 r Hocc) as (n & Hn & [Hm|[Hm _]]).
    + pose proof (Hmap n r Hm). pose proof (max_value_ge mapping n r Hm). lia.
    + destruct (live_range_covers insts n k inst0 Hk0 Hn) as (s & e & Hr & _).
      destruct (decide (n < 128)) as [Hlow|Hhigh].
      * by rewrite (gm_low _ _ Hgood n s e Hr Hlow) in Hm.
      * destruct (gm_virtual _ _ Hgood n s e Hr ltac:(lia)) as (q & Hq & _). by rewrite Hq in Hm.
Qed.

Lemma schedule_encodable insts : Forall encodable insts -> Forall encodable (schedule insts).
Proof.
  intros Hok. apply Forall_lookup. intros k inst' Hk.
  destruct (lookup_lt_is_Some_2 insts k) as [inst Hi].
  { apply lookup_lt_Some in Hk. unfold schedule in Hk. by rewrite length_schedule_from in Hk. }
  destruct (schedule_inst insts k inst Hi) as (cc & Hs & _ & Hcc). rewrite Hk in Hs. injection Hs as ->.
  rewrite Forall_lookup in Hok. destruct (Hok _ _ Hi) as [Hwf Hc].
  destruct (wf_inst_parts inst Hwf) as (Hkm & Hd & Hs & Hp & _ & Hov). split; [|done].
  unfold wf_inst, set_control; simpl. rewrite Hkm, Hd, Hs, Hp, Hcc. simpl. exact Hov.
Qed.

Lemma schedule_regs_below n insts : Forall (regs_below n) insts -> Forall (regs_below n) (schedule insts).
Proof.
  intros Hok. apply Forall_lookup. intros k inst' Hk.
  destruct (lookup_lt_is_Some_2 insts k) as [inst Hi].
  { apply lookup_lt_Some in Hk. unfold schedule in Hk. by rewrite length_schedule_from in Hk. }
  destruct (schedule_inst insts k inst Hi) as (cc & Hs & _). rewrite Hk in Hs. injection Hs as ->.
  rewrite Forall_lookup in Hok. exact (Hok _ _ Hi).
Qed.

Lemma validate_all insts sm :
  Forall encodable insts -> sm = 120 \/ sm = 121 ->
  foldM (fun _ inst => validate_roundtrip inst sm) tt insts = Ok tt.
Proof.
  intros Hok Hsm. induction Hok as [|inst insts [Hwf Hc] Hok IH]; [done|]. cbn [foldM].
  rewrite validate_wf by done. exact IH.
Qed.

Lemma validate_unsupported insts sm :
  insts <> [] -> sm <> 120 -> sm <> 121 ->
  foldM (fun _ inst => validate_roundtrip inst sm) tt insts = Err (UnsupportedSmVersion sm).
Proof.
  intros Hne H0 H1. destruct insts as [|inst insts]; [done|]. cbn [foldM].
  unfold validate_roundtrip, encode. by rewrite (proj2 (Z.eqb_neq sm 120)), (proj2 (Z.eqb_neq sm 121)).
Qed.

Lemma build_encodable m :
  Forall (fun k => Forall encodable (instructions k)) (kernels m) -> sm_version m = 120 \/ sm_version m = 121 ->
  exists bytes, build_cubin_from_module m = Ok bytes.
Proof.
  intros Hok Hsm. assert (exists texts, encode_kernels m = Ok texts) as [texts Ht].
  { unfold encode_kernels. induction Hok as [|k ks Hk Hok IH]; [by exists []|]. cbn [collectM].
    assert (exists encoded, encode_kernel k (sm_version m) = Ok encoded) as [encoded ->].
    { unfold encode_kernel. induction Hk as [|i is' [Hwf _] Hk IHk]; [by exists []|]. cbn [collectM].
      rewrite encode_wf by done. destruct IHk as [rest ->]. simpl. eauto. }
    destruct IH as [texts ->]. simpl. eauto. }
  unfold build_cubin_from_module. rewrite Ht. cbn [mbind outcome_bind].
  destruct (foldl emit _ _) as [output headers]. eauto.
Qed.

(** One step of the pipeline. *)
Lemma run_passes_Ok p ps ctx ctx' :
  pass_run p (push_pass_name (pass_name p) ctx) = (ctx', Ok tt) -> run_passes (p :: ps) ctx = run_passes ps ctx'.
Proof.
  intros Hp. unfold run_passes. cbn [stm_iter]. unfold mbind, stm_bind, stm_map_err.
  by rewrite Hp.
Qed.

Lemma run_passes_Err p ps ctx ctx' e :
  pass_run p (push_pass_name (pass_name p) ctx) = (ctx', Err e) ->
  run_passes (p :: ps) ctx = (ctx', Err (InPass (pass_name p) e)).
Proof.
  intros Hp. unfold run_passes. cbn [stm_iter]. unfold mbind, stm_bind, stm_map_err.
  by rewrite Hp.
Qed.

(** The passes before validation, on a parsed text. *)
Lemma front_passes text name sm parsed phys nregs ps p1 p2 p3 :
  parse_ptx_subset text name sm = Ok parsed -> allocate (parsed_instructions parsed) = Ok (phys, nregs) ->
  run_passes (mkPtxToSassPass p1 parse_pass_run :: mkPtxToSassPass p2 allocate_pass_run ::
              mkPtxToSassPass p3 schedule_pass_run :: ps) (context_new text name sm) =
  run_passes ps (mkPtxToSassContext text name (parsed_kernel_name parsed) (parsed_sm_version parsed)
    (parsed_instructions parsed) phys (schedule phys) nregs None None [p1; p2; p3] []).
Proof.
  intros Hparse Ha.
  erewrite run_passes_Ok; [|unfold pass_run, parse_pass_run; cbn -[parse_ptx_subset]; rewrite Hparse; reflexivity].
  erewrite run_passes_Ok; [|unfold pass_run, allocate_pass_run; cbn -[allocate]; rewrite Ha; reflexivity].
  erewrite run_passes_Ok; [reflexivity|reflexivity].
Qed.

Lemma back_passes ctx bytes p4 p5 :
  foldM (fun _ inst => validate_roundtrip inst (c_sm_version ctx)) tt (scheduled_instructions ctx) = Ok tt ->
  build_cubin_from_module (context_module ctx) = Ok bytes ->
  run_passes [mkPtxToSassPass p4 validate_pass_run; mkPtxToSassPass p5 build_pass_run] ctx =
  (mkPtxToSassContext (ptx ctx) (requested_kernel_name ctx) (kernel_name ctx) (c_sm_version ctx)
     (virtual_instructions ctx) (physical_instructions ctx) (scheduled_instructions ctx) (c_num_registers ctx)
     (Some (context_module ctx)) (Some bytes) ((pass_names ctx ++ [p4]) ++ [p5]) (notes ctx), Ok tt).
Proof.
  intros Hv Hb. rewrite (run_passes_Ok _ _ ctx (push_pass_name p4 ctx)).
  2: { unfold pass_run, validate_pass_run, push_pass_name. cbn [c_sm_version scheduled_instructions pass_name].
       by rewrite Hv. }
  erewrite run_passes_Ok; [reflexivity|]. unfold pass_run, build_pass_run.
  change (context_module (push_pass_name _ _)) with (context_module ctx). by rewrite Hb.
Qed.

Lemma compile_supported text name sm parsed :
  parse_ptx_subset text name sm = Ok parsed -> parsed_sm_version parsed = 120 \/ parsed_sm_version parsed = 121 ->
  exists phys nregs bytes,
    let m := mkSassModule [mkSassKernel (parsed_kernel_name parsed) (schedule phys) nregs 0 0 0 1024 []]
               (parsed_sm_version parsed) [] in
    allocate (parsed_instructions parsed) = Ok (phys, nregs) /\
    length phys = length (parsed_instructions parsed) /\ Forall (regs_below (Z.min nregs 255)) phys /\
    build_cubin_from_module m = Ok bytes /\
    compile_ptx_to_cubin text name sm =
      Ok (mkPtxToSassPipelineResult m bytes (pass_name <$> passes default_ptx_to_sass_pipeline) []).
Proof.
  intros Hparse Hsm. destruct (parse_ptx_subset_ok _ _ _ _ Hparse) as [Hok _].
  destruct (allocate_encodable _ Hok) as (phys & nregs & Ha & Hphys & Hlen & Hregs).
  pose proof (schedule_encodable _ Hphys) as Hsched.
  destruct (build_encodable (mkSassModule [mkSassKernel (parsed_kernel_name parsed) (schedule phys) nregs 0 0 0 1024 []]
    (parsed_sm_version parsed) [])) as [bytes Hb]; [by repeat constructor|done|].
  exists phys, nregs, bytes. split_and!; try done.
  unfold compile_ptx_to_cubin, pipeline_run. cbn [default_ptx_to_sass_pipeline add_pass pipeline_new passes app].
  rewrite (front_passes _ _ _ _ _ _ _ _ _ _ Hparse Ha).
  rewrite (back_passes _ bytes); [reflexivity| |exact Hb].
  by apply validate_all.
Qed.

(** ** The parser never panics *)
Ltac no_panic := repeat match goal with
  | |- (if ?c then _ else _) <> Panic => destruct c
  | |- (match ?o with Some _ => _ | None => _ end) <> Panic => destruct o
  | |- (let '(_, _) := ?p in _) <> Panic => destruct p
  | |- (_ ≫= _) <> Panic => apply bind_no_panic; [|intros ?]
  | |- _ => solve [auto with no_panic]
  end.

Lemma parse_reg_no_panic op : parse_reg op <> Panic.
Proof. unfold parse_reg. no_panic. Qed.

Lemma operand_no_panic operands i line : operand operands i line <> Panic.
Proof. unfold operand. no_panic. Qed.

Lemma ptx_parse_i32_no_panic v : ptx_parse_i32 v <> Panic.
Proof. unfold ptx_parse_i32. no_panic. Qed.

#[local] Hint Resolve parse_reg_no_panic operand_no_panic ptx_parse_i32_no_panic : no_panic.

Lemma parse_memory_no_panic op : parse_memory op <> Panic.
Proof. unfold parse_memory. no_panic. Qed.

Lemma reg_operand_no_panic operands i line : reg_operand operands i line <> Panic.
Proof. unfold reg_operand. no_panic. Qed.

#[local] Hint Resolve parse_memory_no_panic reg_operand_no_panic : no_panic.

Lemma three_regs_no_panic operands line : three_regs operands line <> Panic.
Proof. unfold three_regs. no_panic. Qed.

#[local] Hint Resolve three_regs_no_panic : no_panic.

Lemma parse_ptx_instruction_no_panic raw : parse_ptx_instruction raw <> Panic.
Proof. unfold parse_ptx_instruction. destruct (split_line raw) as [line [name operands]]. no_panic. Qed.

#[local] Hint Resolve parse_ptx_instruction_no_panic : no_panic.

Lemma parse_line_no_panic requested st raw : parse_line requested st raw <> Panic.
Proof. unfold parse_line. cbv zeta. no_panic. Qed.

#[local] Hint Resolve parse_line_no_panic : no_panic.

Lemma parse_ptx_subset_no_panic text name sm : parse_ptx_subset text name sm <> Panic.
Proof. unfold parse_ptx_subset. no_panic. Qed.

Lemma compile_parse_error text name sm e :
  parse_ptx_subset text name sm = Err e ->
  compile_ptx_to_cubin text name sm = Err (InPass "parse-ptx-subset" e).
Proof.
  intros Hp. unfold compile_ptx_to_cubin, pipeline_run. cbn [default_ptx_to_sass_pipeline add_pass pipeline_new passes app].
  erewrite run_passes_Err; [reflexivity|]. unfold pass_run, parse_pass_run. cbn -[parse_ptx_subset].
  rewrite Hp. reflexivity.
Qed.

Lemma compile_unsupported text name sm parsed :
  parse_ptx_subset text name sm = Ok parsed ->
  parsed_sm_version parsed <> 120 -> parsed_sm_version parsed <> 121 ->
  compile_ptx_to_cubin text name sm =
    Err (InPass "validate-encoding" (Sass (UnsupportedSmVersion (parsed_sm_version parsed)))).
Proof.
  intros Hparse H0 H1. destruct (parse_ptx_subset_ok _ _ _ _ Hparse) as [Hok Hne].
  destruct (allocate_encodable _ Hok) as (phys & nregs & Ha & _ & Hlen & _).
  unfold compile_ptx_to_cubin, pipeline_run. cbn [default_ptx_to_sass_pipeline add_pass pipeline_new passes app].
  rewrite (front_passes _ _ _ _ _ _ _ _ _ _ Hparse Ha).
  erewrite run_passes_Err; [reflexivity|]. unfold pass_run, validate_pass_run, push_pass_name.
  cbn [c_sm_version scheduled_instructions pass_name]. rewrite validate_unsupported; [reflexivity| |done|done].
  intros Hs. apply Hne, length_zero_iff_nil. rewrite <- Hlen. apply (f_equal length) in Hs.
  unfold schedule in Hs. by rewrite length_schedule_from in Hs.
Qed.

(** ** Theorems *)

(** [C5] The compiler decides every input: a text the parser refuses gives the
    parser's error under the name of the first pass; a parsed kernel for
    architecture 120 or 121 is compiled by the five passes in order, to one
    kernel of the same length whose registers are all below its register count;
    a parsed kernel for any other architecture is refused by the validation
    pass; nothing panics. *)
Theorem compile_total text name sm :
  (exists e, parse_ptx_subset text name sm = Err e /\
     compile_ptx_to_cubin text name sm = Err (InPass "parse-ptx-subset" e)) \/
  (exists parsed kernel bytes,
     parse_ptx_subset text name sm = Ok parsed /\
     (parsed_sm_version parsed = 120 \/ parsed_sm_version parsed = 121) /\
     k_name kernel = parsed_kernel_name parsed /\
     length (instructions kernel) = length (parsed_instructions parsed) /\
     Forall (regs_below (num_registers kernel)) (instructions kernel) /\
     compile_ptx_to_cubin text name sm =
       Ok (mkPtxToSassPipelineResult (mkSassModule [kernel] (parsed_sm_version parsed) []) bytes
             ["parse-ptx-subset"; "allocate-registers"; "schedule-control-codes"; "validate-encoding";
              "build-cubin"]%string [])) \/
  (exists parsed, parse_ptx_subset text name sm = Ok parsed /\
     parsed_sm_version parsed <> 120 /\ parsed_sm_version parsed <> 121 /\
     compile_ptx_to_cubin text name sm =
       Err (InPass "validate-encoding" (Sass (UnsupportedSmVersion (parsed_sm_version parsed))))).
Proof.
  destruct (parse_ptx_subset text name sm) as [parsed|e|] eqn:Hparse.
  - right. destruct (decide (parsed_sm_version parsed = 120 \/ parsed_sm_version parsed = 121)) as [Hsm|Hsm].
    + left. destruct (compile_supported _ _ _ _ Hparse Hsm) as (phys & nregs & bytes & _ & Hlen & Hregs & _ & Hc).
      exists parsed. do 2 eexists. split; [done|]. split; [done|]. split; [|split; [|split; [|exact Hc]]]; cbn.
      * done.
      * unfold schedule. by rewrite length_schedule_from.
      * apply schedule_regs_below. eapply Forall_impl; [exact Hregs|]. intros inst Hi r Hr. specialize (Hi r Hr). lia.
    + right. exists parsed. split_and!; [done|tauto|tauto|]. apply compile_unsupported; tauto.
  - left. exists e. split; [done|]. by apply compile_parse_error.
  - by apply parse_ptx_subset_no_panic in Hparse.
Qed.

Lemma allocate_remaps insts phys nregs :
  allocate insts = Ok (phys, nregs) -> exists mapping, phys = remap_inst mapping <$> insts.
Proof.
  unfold allocate. destruct (linear_scan _) as [mapping| |]; simpl; try done. intros [= <- _]. by exists mapping.
Qed.

(** ** What the bytes of an instruction say

    [inst'] is [inst], up to its control codes, in everything the encoder writes:
    a store is at the same address and a barrier is a barrier, but the data
    register of the one and the id of the other may differ. *)
Definition carried (inst inst' : SassInst) : Prop :=
  opcode inst' = opcode inst /\ pred inst' = pred inst /\ modifiers inst' = modifiers inst /\
  match op_class (opcode inst) with
  | ClassStore => srcs inst' !! 0%nat = srcs inst !! 0%nat
  | Sync => True
  | _ => dst inst' = dst inst /\ srcs inst' = srcs inst
  end.

Lemma below_gpr_ok n inst r : regs_below 255 inst -> occurs n inst -> r = R n -> gpr_ok r = true.
Proof. intros Hb Ho ->. specialize (Hb n Ho). simpl. rewrite andb_true_iff, Z.leb_le, Z.ltb_lt. done. Qed.

(** The instruction a disassembler finds for a selected one: [RZ] stands for
    the operands that are not written. *)
Definition on_disk (inst : SassInst) : SassInst :=
  match op_class (opcode inst) with
  | ClassStore =>
      mkSassInst (opcode inst) (Some RZ) (take 1 (srcs inst)) (pred inst) (modifiers inst) (control inst)
  | Sync => mkSassInst (opcode inst) None [OReg RZ] (pred inst) (modifiers inst) (control inst)
  | _ => inst
  end.

Lemma on_disk_carried inst cc : carried inst (set_control (on_disk inst) cc).
Proof.
  unfold carried, on_disk. destruct (op_class (opcode inst)); try done. cbn [set_control opcode pred modifiers srcs].
  split_and!; try done. by destruct (srcs inst).
Qed.

Lemma on_disk_encode inst cc sm :
  selected inst -> encode (set_control inst cc) sm = encode (set_control (on_disk inst) cc) sm.
Proof. by destruct 1. Qed.

Lemma on_disk_readable inst cc :
  selected inst -> regs_below 255 inst -> wf_control cc = true -> readable (set_control (on_disk inst) cc).
Proof.
  intros Hs Hb Hcc. split; [|by destruct Hs|done].
  assert (forall n, occurs n inst -> gpr_ok (R n) = true) as Hok by (intros n Hn; by eapply below_gpr_ok).
  destruct Hs; cbn; constructor; try done; try set_solver; apply Hok; unfold occurs; cbn; auto; right; set_solver.
Qed.

Lemma selected_disassembles inst cc sm :
  selected inst -> regs_below 255 inst -> wf_control cc = true -> sm = 120 \/ sm = 121 ->
  exists bytes inst', encode (set_control inst cc) sm = Ok bytes /\ disassemble bytes = Some inst' /\
    control inst' = cc /\ carried inst inst'.
Proof.
  intros Hs Hb Hcc Hsm.
  destruct (encoded_disassembles (set_control (on_disk inst) cc) sm) as (bytes & He & _ & _ & Hd);
    [by apply on_disk_readable|done|].
  exists bytes, (set_control (on_disk inst) cc). rewrite on_disk_encode by done.
  split_and!; try done. apply on_disk_carried.
Qed.

(** [C2] The executable a successful compilation returns can be disassembled
    into the source program, up to what the encoder does not write: the text
    section of the kernel has 16 bytes for each instruction of the PTX body, and
    the k-th 16 disassemble to the k-th instruction, with the registers renamed
    by the allocator's one mapping and the control codes the scheduler chose (a
    stall of 1 to 15 cycles): the same operation with the same operands, except
    that of a store only the address is claimed and of a barrier only that it is
    one, since the data register of a selected store and the id of a selected
    barrier have no place in the bytes. *)
Theorem compiled_cubin_disassembles text name sm parsed result :
  parse_ptx_subset text name sm = Ok parsed -> compile_ptx_to_cubin text name sm = Ok result ->
  Z.of_nat (length (r_cubin result)) < 2 ^ 63 ->
  length (section_at 5 (r_cubin result)) = (16 * length (parsed_instructions parsed))%nat /\
  exists mapping phys nregs,
    allocate (parsed_instructions parsed) = Ok (phys, nregs) /\
    phys = remap_inst mapping <$> parsed_instructions parsed /\
    forall k inst, parsed_instructions parsed !! k = Some inst ->
      exists inst', disassemble (take 16 (drop (16 * k) (section_at 5 (r_cubin result)))) = Some inst' /\
        carried (remap_inst mapping inst) inst' /\
        control <$> schedule phys !! k = Some (control inst') /\ 1 <= stall (control inst') <= 15.
Proof.
  intros Hparse Hc Hlen. pose proof (parse_ptx_subset_selected _ _ _ _ Hparse) as Hsel.
  destruct (decide (parsed_sm_version parsed = 120 \/ parsed_sm_version parsed = 121)) as [Hsm|Hsm].
  2: { rewrite (compile_unsupported _ _ _ _ Hparse) in Hc by tauto. discriminate Hc. }
  destruct (compile_supported _ _ _ _ Hparse Hsm) as (phys & nregs & bytes & Ha & Hl & Hregs & Hb & Hc').
  rewrite Hc' in Hc. injection Hc as <-. cbn [r_cubin] in *.
  destruct (text_section_encodes _ _ 0 _ Hb Hlen eq_refl) as [Ht Henc].
  change (5 + 3 * 0)%nat with 5%nat in *. split.
  { rewrite Ht. cbn [instructions]. unfold schedule. by rewrite length_schedule_from, Hl. }
  destruct (allocate_remaps _ _ _ Ha) as [mapping Hphys]. exists mapping, phys, nregs. split_and!; try done.
  intros k inst Hk. assert (phys !! k = Some (remap_inst mapping inst)) as Hk' by (by rewrite Hphys, list_lookup_fmap, Hk).
  destruct (schedule_inst _ _ _ Hk') as (cc & Hs & Hst & Hcc). specialize (Henc k _ Hs).
  destruct (selected_disassembles (remap_inst mapping inst) cc (parsed_sm_version parsed))
    as (bs & inst' & He & Hd & Hctl & Hcar); [| |exact Hcc|exact Hsm|].
  { apply remap_selected. rewrite Forall_lookup in Hsel. by eapply Hsel. }
  { rewrite Forall_lookup in Hregs. intros r Hr. specialize (Hregs _ _ Hk' r Hr). lia. }
  cbn [sm_version] in Henc. rewrite He in Henc. apply (inj Ok) in Henc. rewrite <- Henc.
  exists inst'. rewrite Hs. simpl. rewrite Hctl. split_and!; (done || lia).
Qed.

End Compile.

(** The compiler on a small kernel. *)
Lemma sample_compiles : exists result,
  compile_ptx_to_cubin sample_ptx "add_one" 0 = Ok result /\ length (r_cubin result) = 1016%nat.
Proof. eexists. split; [vm_compute; reflexivity|]. vm_compute. reflexivity. Qed.

Lemma compiled_cubin_disassembles_witness : exists result inst',
  compile_ptx_to_cubin sample_ptx "add_one" 0 = Ok result /\
  length (section_at 5 (r_cubin result)) = 64%nat /\
  disassemble (take 16 (drop 48 (section_at 5 (r_cubin result)))) = Some inst' /\
  mnemonic (opcode inst') = "EXIT"%string.
Proof.
  destruct sample_compiles as (result & Hc & Hl).
  destruct (compiled_cubin_disassembles sample_ptx "add_one" 0 _ result sample_parsed Hc)
    as (H & mapping & phys & nregs & _ & _ & Hinst).
  - rewrite Hl. reflexivity.
  - destruct (Hinst 3%nat select_exit eq_refl) as (inst' & Hd & (Hop & _) & _).
    exists result, inst'. split; [exact Hc|]. split; [exact H|]. split; [exact Hd|]. by rewrite Hop.
Defined.

Definition two_entries : string :=
  join nl [".visible .entry first()"; "{"; "add.u32 %r1, %r2, %r3;"; "ret;"; "}";
           ".visible .entry second()"; "{"; "mul.f32 %r4, %r5, %r6;"; "ret;"; "}"].

(** Without a requested name the bodies of all entries are joined: the
    parser keeps selecting, so a file with two kernels becomes one kernel, named
    after the last, that runs the instructions of both. *)
Theorem unnamed_request_joins_entries :
  parse_ptx_subset two_entries "" 120 =
    Ok (mkParsedPtxSubset "second" 120
          [select_add_i32 1 2 3; select_exit; select_mul_f32 4 5 6; select_exit]) /\
  parse_ptx_subset two_entries "first" 120 =
    Ok (mkParsedPtxSubset "first" 120 [select_add_i32 1 2 3; select_exit]).
Proof. split; vm_compute; reflexivity. Qed.
